(** * Surveillance panel: analytics worker, alert export and configuration

    A shallow embedding of the parts of the surveillance panel that decide
    its analytics behaviour:

    - [CaptureWorker] (CameraStream.h / CameraStream.cpp): motion
      detection, ROI motion, the mask-centroid tripwire, the centroid
      tracker, ROI occupancy / loitering and the per-track line crossing;
    - [AlertLogModel::exportAlertsToCsv] (AlertLogModel.cpp);
    - [CameraManager::CameraManager] and [CameraManager::loadConfiguration]
      (CameraManager.cpp);

    and, after the scenarios, of the parts around them:

    - what [ObjectDetector::infer] does with the rows of the network
      output (ObjectDetector.cpp);
    - the alert list of [AlertLogModel]: adding, removing, saving a
      snapshot, exporting a selection, exporting as JSON;
    - the queries and edits of [CameraManager] and
      [CameraManager::saveConfiguration];
    - the routes and handlers of [HttpServer] (httpServer.cpp).

    Modelling conventions.

    - [double] is modelled by the exact rationals [Q]; rounding, infinities
      and NaN are outside the model.  [std::sqrt] only ever feeds a
      comparison of non-negative quantities, which the model decides on the
      squares.
    - [qint64] and [int] are modelled by [Z]; no counter of the program
      comes near its range in any realistic run.
    - What OpenCV and the object detector compute from the pixels of one
      frame (pixel counts, moments, detections) and what the system clock
      returns are inputs of the model, carried by the [Frame] record.
    - Qt signals are modelled as an event list returned next to the new
      state.  An event that the code emits behind a clock guard carries the
      clock value of that guard in its [stamp] argument. *)

From Stdlib Require Import Reals Qreals Lra.
From Stdlib Require Import ZArith QArith Qabs Qminmax Lqa Lia List String Ascii Bool.
From Stdlib Require Import Floats.SpecFloat.
Import ListNotations.

Local Open Scope Z_scope.

(** ** Rational helpers *)

Definition Qltb (a b : Q) : bool := negb (Qle_bool b a).

(** ** Points

    [QPointF] with Qt's comparison.  [operator==] on [QPointF] is Qt's and
    is a fuzzy comparison per coordinate: [qFuzzyIsNull] of the difference
    when one side is zero, [qFuzzyCompare] otherwise. *)

Record QPointF := mkPoint { px : Q; py : Q }.

Definition qFuzzyIsNull (d : Q) : bool :=
  Qle_bool (Qabs d) (1 # 1000000000000).

Definition qFuzzyCompare (p1 p2 : Q) : bool :=
  Qle_bool (Qabs (p1 - p2) * 1000000000000) (Qmin (Qabs p1) (Qabs p2)).

Definition qIsZero (d : Q) : bool := Qeq_bool d 0.

Definition fuzzyCoordEq (a b : Q) : bool :=
  if qIsZero a || qIsZero b then qFuzzyIsNull (a - b) else qFuzzyCompare a b.

Definition QPointF_eq (p1 p2 : QPointF) : bool :=
  fuzzyCoordEq (px p1) (px p2) && fuzzyCoordEq (py p1) (py p2).

(** [QPointF::isNull]: both coordinates are exactly zero. *)
Definition QPointF_isNull (p : QPointF) : bool := qIsZero (px p) && qIsZero (py p).

Definition origin : QPointF := mkPoint 0 0.

(** ** Tracks (CameraStream.h, [struct TrackState]) *)

Record TrackState := mkTrack {
  track_id : Z;               (* [id]; renamed, [id] is the identity function *)
  label : string;
  centroid : QPointF;
  prevCentroid : QPointF;
  firstSeenMs : Z;
  lastSeenMs : Z;
  insideRoi : bool;
  loiterAlertSent : bool;
  lastTripwireAlertMs : Z;
  enteredRoiMs : Z
}.

(** [TrackState::TrackState()]. *)
Definition TrackState_default : TrackState :=
  mkTrack 0 EmptyString origin origin 0 0 false false 0 0.

(** [QMap<int, TrackState>]: an association list kept in ascending key
    order, the order in which [QMap] iterates. *)
Definition Tracks := list (Z * TrackState).

Fixpoint tracks_find (k : Z) (m : Tracks) : option TrackState :=
  match m with
  | [] => None
  | (k', v) :: r => if k' =? k then Some v else tracks_find k r
  end.

Definition tracks_contains (k : Z) (m : Tracks) : bool :=
  match tracks_find k m with Some _ => true | None => false end.

(** [m[k] = v]. *)
Fixpoint tracks_insert (k : Z) (v : TrackState) (m : Tracks) : Tracks :=
  match m with
  | [] => [(k, v)]
  | (k', v') :: r =>
      if k <? k' then (k, v) :: m
      else if k =? k' then (k, v) :: r
      else (k', v') :: tracks_insert k v r
  end.

(** [m[k]] read through a reference: a missing key is default-constructed. *)
Definition tracks_at (k : Z) (m : Tracks) : TrackState :=
  match tracks_find k m with Some v => v | None => TrackState_default end.

Definition tracks_remove (k : Z) (m : Tracks) : Tracks :=
  filter (fun e => negb (fst e =? k)) m.

(** ** Detections (ObjectDetector.h) *)

Record Rect := mkRect { rx : Z; ry : Z; rwidth : Z; rheight : Z }.

Record Detection := mkDetection { classId : Z; score : Q; box : Rect }.

(** The part of [ObjectDetector] the worker reads. *)
Record ObjectDetector := mkDetector {
  isLoaded : bool;
  classNames : list string
}.

(** ** Signals of [CaptureWorker] *)

Inductive Event :=
| frameCaptured
| fpsUpdated (fps : Q)
| errorOccurred (error : string)
| motionDetected (mscore : Q) (stamp : Z)
| roiMotionDetected (rscore : Q) (stamp : Z)
| tripwireCrossed (direction : Z) (stamp : Z)
| aiDetectionsReady (detections : list Detection)
| trackCrossedTripwire (trackId : Z) (tlabel : string) (tdirection : string) (stamp : Z)
| loiteringDetected (trackId : Z) (tlabel : string) (durationMs : Z) (stamp : Z).

(** ** Constants (CameraStream.h) *)

Definition AI_PROCESS_INTERVAL : Z := 5.
Definition MAX_TRACK_DISTANCE : Q := 0.1.
Definition TRACK_TIMEOUT_MS : Z := 2000.
Definition LINE_EPSILON : Q := 1 # 10000.
Definition TRIPWIRE_ALERT_DEBOUNCE_MS : Z := 2000.
Definition LOITERING_THRESHOLD_MS : Z := 8000.

(** ** Worker state (CameraStream.h, [class CaptureWorker])

    The members are grouped as the header groups them. *)

Record CaptureState := mkCapture {
  m_sourceText : string;     (* the source as [start] prints it *)
  m_running : bool;
  m_captureOpened : bool     (* [m_capture.isOpened()] *)
}.

Record FpsState := mkFps {
  m_lastFrameTime : Z;
  m_frameCount : Z;
  m_currentFps : Q
}.

Record MotionState := mkMotion {
  m_motionEnabled : bool;
  m_motionSensitivity : Q;
  m_lastMotionTime : Z
}.

Record RoiState := mkRoi {
  m_roiNorm : list QPointF;
  m_hasRoi : bool;
  m_lastRoiAlertTime : Z
}.

Record TripwireState := mkTripwire {
  m_tripwireStartNorm : QPointF;
  m_tripwireEndNorm : QPointF;
  m_hasTripwire : bool;
  m_lastTripwireAlertTime : Z;
  m_prevSide : Q;
  m_hasPrevSide : bool
}.

Record AiState := mkAi {
  m_detector : option ObjectDetector;
  m_aiEnabled : bool;
  m_aiFrameCounter : Z
}.

Record TrackerState := mkTracker {
  m_tracks : Tracks;
  m_nextTrackId : Z
}.

Record CaptureWorker := mkWorker {
  w_capture : CaptureState;
  w_fps : FpsState;
  w_motion : MotionState;
  w_roi : RoiState;
  w_tripwire : TripwireState;
  w_ai : AiState;
  w_tracker : TrackerState
}.

(** [CaptureWorker::CaptureWorker]. *)
Definition CaptureWorker_new (source : string) : CaptureWorker :=
  mkWorker (mkCapture source false false)
           (mkFps 0 0 0)
           (mkMotion false 50 0)
           (mkRoi [] false 0)
           (mkTripwire origin origin false 0 0 false)
           (mkAi None false 0)
           (mkTracker [] 1).

(** What one timer tick observes: the captured frame as OpenCV and the
    detector measure it, and the clock at each place the code reads it.  A
    frame that is not empty has positive dimensions. *)
Record Frame := mkFrame {
  frame_empty : bool;              (* [frame.empty()] *)
  frame_cols : Z;
  frame_rows : Z;
  fg_nonZero : Z;                  (* [countNonZero(fgMask)] after open and close *)
  roi_area : Z;                    (* [countNonZero(roiMask)] *)
  roi_nonZero : Z;                 (* [countNonZero(roiMotion)] *)
  mom_m00 : Q;                     (* [cv::moments(motionMask, true)] *)
  mom_m10 : Q;
  mom_m01 : Q;
  infer_result : option (list Detection);   (* [infer(frame)]; [None]: it throws *)
  clock_motion : Z;                (* [currentMSecsSinceEpoch()] in processMotionDetection *)
  clock_roi : Z;                   (* ... in processRoiMotion *)
  clock_tripwire : Z;              (* ... in processTripwire *)
  clock_tracks : Z;                (* ... in updateTracks *)
  clock_fps : Z                    (* ... in captureFrame *)
}.

(** ** Motion detector *)

(** [10.0 - (m_motionSensitivity / 100.0) * 9.5]. *)
Definition motionThreshold (sensitivity : Q) : Q :=
  (10 - (sensitivity / 100) * 9.5)%Q.

(** [(pixels * 100.0) / total]. *)
Definition percentage (pixels total : Z) : Q :=
  ((inject_Z pixels * 100) / inject_Z total)%Q.

(** [CaptureWorker::processRoiMotion]. *)
Definition processRoiMotion (sensitivity : Q) (f : Frame) (r : RoiState)
  : RoiState * list Event :=
  if Z.of_nat (List.length (m_roiNorm r)) <? 3 then (r, [])
  else if roi_area f =? 0 then (r, [])
  else
    let roiScore := percentage (roi_nonZero f) (roi_area f) in
    let threshold := motionThreshold sensitivity in
    if Qltb threshold roiScore then
      let currentTime := clock_roi f in
      if 3000 <? currentTime - m_lastRoiAlertTime r then
        (mkRoi (m_roiNorm r) (m_hasRoi r) currentTime,
         [roiMotionDetected roiScore currentTime])
      else (r, [])
    else (r, []).

(** [CaptureWorker::processTripwire].  [distance < 50] with
    [distance = |curSide| / lineLength] is decided as
    [curSide^2 < 50^2 * lineLength^2]. *)
Definition processTripwire (f : Frame) (t : TripwireState)
  : TripwireState * list Event :=
  if Qltb (mom_m00 f) 100 then
    (mkTripwire (m_tripwireStartNorm t) (m_tripwireEndNorm t) (m_hasTripwire t)
                (m_lastTripwireAlertTime t) (m_prevSide t) false, [])
  else
    let cx := (mom_m10 f / mom_m00 f)%Q in
    let cy := (mom_m01 f / mom_m00 f)%Q in
    let x1 := (px (m_tripwireStartNorm t) * inject_Z (frame_cols f))%Q in
    let y1 := (py (m_tripwireStartNorm t) * inject_Z (frame_rows f))%Q in
    let x2 := (px (m_tripwireEndNorm t) * inject_Z (frame_cols f))%Q in
    let y2 := (py (m_tripwireEndNorm t) * inject_Z (frame_rows f))%Q in
    let curSide := ((cx - x1) * (y2 - y1) - (cy - y1) * (x2 - x1))%Q in
    let lineLength2 := ((x2 - x1) * (x2 - x1) + (y2 - y1) * (y2 - y1))%Q in
    let fired :=
      m_hasPrevSide t && Qltb (curSide * m_prevSide t) 0
      && Qltb (curSide * curSide) (2500 * lineLength2)
      && (2000 <? clock_tripwire f - m_lastTripwireAlertTime t) in
    let direction :=
      if Qltb 0 curSide && Qltb (m_prevSide t) 0 then 1 else -1 in
    (mkTripwire (m_tripwireStartNorm t) (m_tripwireEndNorm t) (m_hasTripwire t)
                (if fired then clock_tripwire f else m_lastTripwireAlertTime t)
                curSide true,
     if fired then [tripwireCrossed direction (clock_tripwire f)] else []).

(** [CaptureWorker::processMotionDetection]. *)
Definition processMotionDetection (f : Frame) (w : CaptureWorker)
  : CaptureWorker * list Event :=
  let mo := w_motion w in
  let motionScore := percentage (fg_nonZero f) (frame_rows f * frame_cols f) in
  let threshold := motionThreshold (m_motionSensitivity mo) in
  let fired :=
    Qltb threshold motionScore && (2000 <? clock_motion f - m_lastMotionTime mo) in
  let mo' :=
    mkMotion (m_motionEnabled mo) (m_motionSensitivity mo)
             (if fired then clock_motion f else m_lastMotionTime mo) in
  let ev1 := if fired then [motionDetected motionScore (clock_motion f)] else [] in
  let '(r', ev2) :=
    if m_hasRoi (w_roi w)
    then processRoiMotion (m_motionSensitivity mo) f (w_roi w)
    else (w_roi w, []) in
  let '(t', ev3) :=
    if m_hasTripwire (w_tripwire w)
    then processTripwire f (w_tripwire w)
    else (w_tripwire w, []) in
  (mkWorker (w_capture w) (w_fps w) mo' r' t' (w_ai w) (w_tracker w),
   ev1 ++ ev2 ++ ev3).

(** [setRoiPolygon], [clearRoi], [setTripwire], [clearTripwire]. *)
Definition setRoiPolygon (normalizedPoints : list QPointF) (w : CaptureWorker)
  : CaptureWorker :=
  mkWorker (w_capture w) (w_fps w) (w_motion w)
           (mkRoi normalizedPoints
                  (negb (Nat.eqb (List.length normalizedPoints) 0)) 0)
           (w_tripwire w) (w_ai w) (w_tracker w).

Definition clearRoi (w : CaptureWorker) : CaptureWorker :=
  mkWorker (w_capture w) (w_fps w) (w_motion w) (mkRoi [] false 0)
           (w_tripwire w) (w_ai w) (w_tracker w).

Definition setTripwire (startNorm endNorm : QPointF) (w : CaptureWorker)
  : CaptureWorker :=
  mkWorker (w_capture w) (w_fps w) (w_motion w) (w_roi w)
           (mkTripwire startNorm endNorm true 0 (m_prevSide (w_tripwire w)) false)
           (w_ai w) (w_tracker w).

Definition clearTripwire (w : CaptureWorker) : CaptureWorker :=
  mkWorker (w_capture w) (w_fps w) (w_motion w) (w_roi w)
           (mkTripwire origin origin false 0 (m_prevSide (w_tripwire w)) false)
           (w_ai w) (w_tracker w).

(** ** Line crossing *)

(** [CaptureWorker::computeSideOfLine]. *)
Definition computeSideOfLine (t : TripwireState) (point : QPointF) : Q :=
  let x1 := px (m_tripwireStartNorm t) in
  let y1 := py (m_tripwireStartNorm t) in
  let x2 := px (m_tripwireEndNorm t) in
  let y2 := py (m_tripwireEndNorm t) in
  ((px point - x1) * (y2 - y1) - (py point - y1) * (x2 - x1))%Q.

(** [CaptureWorker::getCrossingDirection]. *)
Definition getCrossingDirection (prevSide currSide : Q) : string :=
  if Qltb prevSide 0 && Qltb 0 currSide then "left to right"%string
  else if Qltb 0 prevSide && Qltb currSide 0 then "right to left"%string
  else "unknown"%string.

Definition setLastTripwireAlertMs (v : Z) (tr : TrackState) : TrackState :=
  mkTrack (track_id tr) (label tr) (centroid tr) (prevCentroid tr)
          (firstSeenMs tr) (lastSeenMs tr) (insideRoi tr) (loiterAlertSent tr)
          v (enteredRoiMs tr).

(** [CaptureWorker::checkLineCrossing]. *)
Definition checkLineCrossing (t : TripwireState) (currentTime : Z) (track : TrackState)
  : TrackState * list Event :=
  if QPointF_eq (centroid track) (prevCentroid track) then (track, [])
  else if currentTime - lastTripwireAlertMs track <? TRIPWIRE_ALERT_DEBOUNCE_MS
  then (track, [])
  else
    let prevSide := computeSideOfLine t (prevCentroid track) in
    let currSide := computeSideOfLine t (centroid track) in
    if Qltb LINE_EPSILON (Qabs prevSide) && Qltb LINE_EPSILON (Qabs currSide)
       && Qltb (prevSide * currSide) 0
    then
      let direction := getCrossingDirection prevSide currSide in
      (setLastTripwireAlertMs currentTime track,
       [trackCrossedTripwire (track_id track) (label track) direction currentTime])
    else (track, []).

(** ** ROI occupancy and loitering *)

(** One edge of the ray-casting loop of [pointInRoi]: vertex [pi] against
    the previous vertex [pj]. *)
Definition edgeCrossed (point pi pj : QPointF) : bool :=
  negb (Bool.eqb (Qltb (py point) (py pi)) (Qltb (py point) (py pj)))
  && Qltb (px point)
          ((px pj - px pi) * (py point - py pi) / (py pj - py pi) + px pi)%Q.

(** The loop [for (i = 0, j = n - 1; i < n; j = i++)]. *)
Fixpoint rayCast (point pj : QPointF) (pts : list QPointF) (inside : bool) : bool :=
  match pts with
  | [] => inside
  | pi :: rest =>
      rayCast point pi rest
              (if edgeCrossed point pi pj then negb inside else inside)
  end.

(** [CaptureWorker::pointInRoi]. *)
Definition pointInRoi (r : RoiState) (point : QPointF) : bool :=
  if negb (m_hasRoi r) || (Z.of_nat (List.length (m_roiNorm r)) <? 3) then false
  else rayCast point (last (m_roiNorm r) origin) (m_roiNorm r) false.

(** [CaptureWorker::updateRoiStatus]. *)
Definition updateRoiStatus (r : RoiState) (currentTime : Z) (track : TrackState)
  : TrackState :=
  let nowInside := pointInRoi r (centroid track) in
  let entered :=
    if nowInside then
      if negb (insideRoi track) then currentTime else enteredRoiMs track
    else
      if insideRoi track then 0 else enteredRoiMs track in
  let sent :=
    if nowInside then loiterAlertSent track
    else if insideRoi track then false else loiterAlertSent track in
  mkTrack (track_id track) (label track) (centroid track) (prevCentroid track)
          (firstSeenMs track) (lastSeenMs track) nowInside sent
          (lastTripwireAlertMs track) entered.

(** [CaptureWorker::checkLoitering]. *)
Definition checkLoitering (currentTime : Z) (track : TrackState)
  : TrackState * list Event :=
  if negb (insideRoi track) then (track, [])
  else if loiterAlertSent track then (track, [])
  else
    let durationMs := currentTime - enteredRoiMs track in
    if LOITERING_THRESHOLD_MS <=? durationMs then
      (mkTrack (track_id track) (label track) (centroid track) (prevCentroid track)
               (firstSeenMs track) (lastSeenMs track) (insideRoi track) true
               (lastTripwireAlertMs track) (enteredRoiMs track),
       [loiteringDetected (track_id track) (label track) durationMs currentTime])
    else (track, []).

(** [updateRoiStatus] followed by [checkLoitering], as [updateTracks] calls
    them on one track. *)
Definition roiAndLoitering (r : RoiState) (currentTime : Z) (track : TrackState)
  : TrackState * list Event :=
  checkLoitering currentTime (updateRoiStatus r currentTime track).

(** ** Tracker *)

Record DetectionWithCentroid := mkDwc {
  dwc_centroid : QPointF;
  detectionIndex : Z;
  dwc_label : string
}.

Definition trackedClasses : list string :=
  ["person"; "car"; "bicycle"; "dog"; "cat"]%string.

Definition labelOf (names : list string) (det : Detection) : string :=
  if (0 <=? classId det) && (classId det <? Z.of_nat (List.length names))
  then nth (Z.to_nat (classId det)) names "unknown"%string
  else "unknown"%string.

Definition detectionCentroid (det : Detection) (frameWidth frameHeight : Z) : QPointF :=
  mkPoint ((inject_Z (rx (box det)) + inject_Z (rwidth (box det)) / 2)
             / inject_Z frameWidth)%Q
          ((inject_Z (ry (box det)) + inject_Z (rheight (box det)) / 2)
             / inject_Z frameHeight)%Q.

(** The first loop of [updateTracks]: keep the detections of the tracked
    classes, with their normalized centroid and their index. *)
Fixpoint collectTracked (names : list string) (i : Z) (dets : list Detection)
  (frameWidth frameHeight : Z) : list DetectionWithCentroid :=
  match dets with
  | [] => []
  | det :: rest =>
      let lbl := labelOf names det in
      let tl := collectTracked names (i + 1) rest frameWidth frameHeight in
      if existsb (String.eqb lbl) trackedClasses
      then mkDwc (detectionCentroid det frameWidth frameHeight) i lbl :: tl
      else tl
  end.

(** Squared Euclidean distance; [dist < bestDistance] on the square roots
    is decided on the squares. *)
Definition dist2 (a b : QPointF) : Q :=
  ((px a - px b) * (px a - px b) + (py a - py b) * (py a - py b))%Q.

(** The inner loop of the assignment: [best] is [(bestTrackId,
    bestDistance^2)]. *)
Definition closestStep (c : QPointF) (best : Z * Q) (e : Z * TrackState) : Z * Q :=
  let d2 := dist2 (centroid (snd e)) c in
  if Qltb d2 (snd best) then (fst e, d2) else best.

Definition findClosestTrack (m : Tracks) (c : QPointF) : Z * Q :=
  fold_left (closestStep c) m (-1, (MAX_TRACK_DISTANCE * MAX_TRACK_DISTANCE)%Q).

Definition matchTrack (dwc : DetectionWithCentroid) (currentTime : Z) (track : TrackState)
  : TrackState :=
  mkTrack (track_id track) (label track) (dwc_centroid dwc) (centroid track)
          (firstSeenMs track) currentTime (insideRoi track) (loiterAlertSent track)
          (lastTripwireAlertMs track) (enteredRoiMs track).

Definition newTrack (newId : Z) (dwc : DetectionWithCentroid) (currentTime : Z)
  : TrackState :=
  mkTrack newId (dwc_label dwc) (dwc_centroid dwc) (dwc_centroid dwc)
          currentTime currentTime false false 0 0.

(** The body of the assignment loop for one detection.  The second
    component is the id handed to [updatedTrackIds.insert]. *)
Definition assignDetection (currentTime : Z) (t : TrackerState)
  (dwc : DetectionWithCentroid) : TrackerState * Z :=
  let bestTrackId := fst (findClosestTrack (m_tracks t) (dwc_centroid dwc)) in
  if 0 <=? bestTrackId then
    (mkTracker
       (tracks_insert bestTrackId
          (matchTrack dwc currentTime (tracks_at bestTrackId (m_tracks t)))
          (m_tracks t))
       (m_nextTrackId t),
     bestTrackId)
  else
    (mkTracker
       (tracks_insert (m_nextTrackId t)
          (newTrack (m_nextTrackId t) dwc currentTime) (m_tracks t))
       (m_nextTrackId t + 1),
     m_nextTrackId t).

(** The assignment loop; the list holds, detection by detection, the ids
    handed to [updatedTrackIds.insert]. *)
Fixpoint assignTracks (currentTime : Z) (dwcs : list DetectionWithCentroid)
  (t : TrackerState) : TrackerState * list Z :=
  match dwcs with
  | [] => (t, [])
  | dwc :: rest =>
      let '(t1, k) := assignDetection currentTime t dwc in
      let '(t2, ks) := assignTracks currentTime rest t1 in
      (t2, k :: ks)
  end.

(** [QSet<int>]: a list without repetition.  [QSet] iterates in an
    unspecified order; the model iterates in insertion order. *)
Definition qset_insert (k : Z) (s : list Z) : list Z :=
  if existsb (Z.eqb k) s then s else s ++ [k].

Definition qset_of (ks : list Z) : list Z :=
  fold_left (fun s k => qset_insert k s) ks [].

(** [for (int trackId : updatedTrackIds) if (m_tracks.contains(trackId)) f(m_tracks[trackId])]. *)
Fixpoint forEachTrack (f : TrackState -> TrackState * list Event)
  (ids : list Z) (m : Tracks) : Tracks * list Event :=
  match ids with
  | [] => (m, [])
  | k :: rest =>
      match tracks_find k m with
      | Some track =>
          let '(track', ev) := f track in
          let '(m', evs) := forEachTrack f rest (tracks_insert k track' m) in
          (m', ev ++ evs)
      | None => forEachTrack f rest m
      end
  end.

(** [CaptureWorker::cleanupStaleTracks]. *)
Definition staleKeys (currentTime : Z) (m : Tracks) : list Z :=
  map fst (filter (fun e => TRACK_TIMEOUT_MS <? currentTime - lastSeenMs (snd e)) m).

Definition cleanupStaleTracks (currentTime : Z) (m : Tracks) : Tracks :=
  fold_left (fun acc k => tracks_remove k acc) (staleKeys currentTime m) m.

(** The tracker part of [updateTracks], after the detections were
    filtered. *)
Definition updateTracker (r : RoiState) (tw : TripwireState) (currentTime : Z)
  (dwcs : list DetectionWithCentroid) (t : TrackerState)
  : TrackerState * list Event :=
  let '(t1, assigned) := assignTracks currentTime dwcs t in
  let updatedTrackIds := qset_of assigned in
  let '(m2, ev_loiter) :=
    forEachTrack (roiAndLoitering r currentTime) updatedTrackIds (m_tracks t1) in
  let '(m3, ev_cross) :=
    if m_hasTripwire tw
    then forEachTrack (checkLineCrossing tw currentTime) updatedTrackIds m2
    else (m2, []) in
  (mkTracker (cleanupStaleTracks currentTime m3) (m_nextTrackId t1),
   ev_loiter ++ ev_cross).

Definition detectorClassNames (d : option ObjectDetector) : list string :=
  match d with Some det => classNames det | None => [] end.

(** [CaptureWorker::updateTracks]. *)
Definition updateTracks (detections : list Detection) (frameWidth frameHeight : Z)
  (currentTime : Z) (w : CaptureWorker) : CaptureWorker * list Event :=
  let names := detectorClassNames (m_detector (w_ai w)) in
  let trackedDetections := collectTracked names 0 detections frameWidth frameHeight in
  let '(t', evs) :=
    updateTracker (w_roi w) (w_tripwire w) currentTime trackedDetections (w_tracker w) in
  (mkWorker (w_capture w) (w_fps w) (w_motion w) (w_roi w) (w_tripwire w) (w_ai w) t',
   evs).

(** ** Capture loop *)

Definition detectorReady (a : AiState) : bool :=
  match m_detector a with Some d => isLoaded d | None => false end.

(** [CaptureWorker::processAIDetection]; an exception of [infer] is caught
    and the frame is dropped from the AI path. *)
Definition processAIDetection (f : Frame) (w : CaptureWorker)
  : CaptureWorker * list Event :=
  if negb (detectorReady (w_ai w)) then (w, [])
  else
    match infer_result f with
    | None => (w, [])
    | Some detections =>
        let '(w', evs) :=
          updateTracks detections (frame_cols f) (frame_rows f) (clock_tracks f) w in
        (w', evs ++ [aiDetectionsReady detections])
    end.

Definition setAiFrameCounter (c : Z) (w : CaptureWorker) : CaptureWorker :=
  mkWorker (w_capture w) (w_fps w) (w_motion w) (w_roi w) (w_tripwire w)
           (mkAi (m_detector (w_ai w)) (m_aiEnabled (w_ai w)) c) (w_tracker w).

(** The FPS accounting at the end of [captureFrame]. *)
Definition accountFps (f : Frame) (s : FpsState) : FpsState * list Event :=
  let count := m_frameCount s + 1 in
  if 10 <=? count then
    let currentTime := clock_fps f in
    let elapsed := currentTime - m_lastFrameTime s in
    if 0 <? elapsed then
      let fps := ((inject_Z count * 1000) / inject_Z elapsed)%Q in
      (mkFps currentTime 0 fps, [fpsUpdated fps])
    else (mkFps currentTime 0 (m_currentFps s), [])
  else (mkFps (m_lastFrameTime s) count (m_currentFps s), []).

(** [CaptureWorker::captureFrame]. *)
Definition captureFrame (f : Frame) (w : CaptureWorker) : CaptureWorker * list Event :=
  if negb (m_running (w_capture w)) || negb (m_captureOpened (w_capture w))
  then (w, [])
  else if frame_empty f then (w, [errorOccurred "Failed to capture frame"])
  else
    let '(w1, ev_motion) :=
      if m_motionEnabled (w_motion w) then processMotionDetection f w else (w, []) in
    let '(w2, ev_ai) :=
      if m_aiEnabled (w_ai w1) && detectorReady (w_ai w1) then
        let counter := m_aiFrameCounter (w_ai w1) + 1 in
        if AI_PROCESS_INTERVAL <=? counter
        then processAIDetection f (setAiFrameCounter 0 w1)
        else (setAiFrameCounter counter w1, [])
      else (w1, []) in
    let '(fps', ev_fps) := accountFps f (w_fps w2) in
    (mkWorker (w_capture w2) fps' (w_motion w2) (w_roi w2) (w_tripwire w2)
              (w_ai w2) (w_tracker w2),
     ev_motion ++ ev_ai ++ [frameCaptured] ++ ev_fps).

(** [CaptureWorker::start]; [openOk] is whether [m_capture.open] succeeds,
    [now] the clock. *)
Definition start (openOk : bool) (now : Z) (w : CaptureWorker)
  : CaptureWorker * list Event :=
  if m_running (w_capture w) then (w, [])
  else if negb openOk then
    (mkWorker (mkCapture (m_sourceText (w_capture w)) false false)
              (w_fps w) (w_motion w) (w_roi w) (w_tripwire w) (w_ai w) (w_tracker w),
     [errorOccurred ("Failed to open camera: " ++ m_sourceText (w_capture w))])
  else
    (mkWorker (mkCapture (m_sourceText (w_capture w)) true true)
              (mkFps now 0 (m_currentFps (w_fps w)))
              (w_motion w) (w_roi w) (w_tripwire w) (w_ai w) (w_tracker w),
     []).

(** [CaptureWorker::stop]. *)
Definition stop (w : CaptureWorker) : CaptureWorker :=
  if negb (m_running (w_capture w)) then w
  else
    mkWorker (mkCapture (m_sourceText (w_capture w)) false false)
             (w_fps w) (w_motion w) (w_roi w) (w_tripwire w) (w_ai w) (w_tracker w).

Definition setMotionEnabled (enabled : bool) (w : CaptureWorker) : CaptureWorker :=
  mkWorker (w_capture w) (w_fps w)
           (mkMotion enabled (m_motionSensitivity (w_motion w))
                     (m_lastMotionTime (w_motion w)))
           (w_roi w) (w_tripwire w) (w_ai w) (w_tracker w).

Definition setMotionSensitivity (sensitivity : Q) (w : CaptureWorker) : CaptureWorker :=
  mkWorker (w_capture w) (w_fps w)
           (mkMotion (m_motionEnabled (w_motion w)) sensitivity
                     (m_lastMotionTime (w_motion w)))
           (w_roi w) (w_tripwire w) (w_ai w) (w_tracker w).

Definition setAiEnabled (enabled : bool) (w : CaptureWorker) : CaptureWorker :=
  mkWorker (w_capture w) (w_fps w) (w_motion w) (w_roi w) (w_tripwire w)
           (mkAi (m_detector (w_ai w)) enabled 0) (w_tracker w).

Definition setObjectDetector (detector : option ObjectDetector) (w : CaptureWorker)
  : CaptureWorker :=
  mkWorker (w_capture w) (w_fps w) (w_motion w) (w_roi w) (w_tripwire w)
           (mkAi detector (m_aiEnabled (w_ai w)) (m_aiFrameCounter (w_ai w)))
           (w_tracker w).

(** [CameraStream::setMotionSensitivity] clamps before it forwards the
    value to the worker: [qBound(0.0, sensitivity, 100.0)]. *)
Definition qBound (lo v hi : Q) : Q := Qmax lo (Qmin hi v).

(** What reaches the worker on its thread: the timer tick and the queued
    slot invocations. *)
Inductive Msg :=
| Start (openOk : bool) (now : Z)
| Stop
| TimerTick (f : Frame)
| SetMotionEnabled (enabled : bool)
| SetMotionSensitivity (sensitivity : Q)
| SetRoiPolygon (normalizedPoints : list QPointF)
| ClearRoi
| SetTripwire (startNorm endNorm : QPointF)
| ClearTripwire
| SetAiEnabled (enabled : bool)
| SetObjectDetector (detector : option ObjectDetector).

Definition handle (m : Msg) (w : CaptureWorker) : CaptureWorker * list Event :=
  match m with
  | Start openOk now => start openOk now w
  | Stop => (stop w, [])
  | TimerTick f => captureFrame f w
  | SetMotionEnabled b => (setMotionEnabled b w, [])
  | SetMotionSensitivity s => (setMotionSensitivity (qBound 0 s 100) w, [])
  | SetRoiPolygon pts => (setRoiPolygon pts w, [])
  | ClearRoi => (clearRoi w, [])
  | SetTripwire a b => (setTripwire a b w, [])
  | ClearTripwire => (clearTripwire w, [])
  | SetAiEnabled b => (setAiEnabled b w, [])
  | SetObjectDetector d => (setObjectDetector d w, [])
  end.

(** The worker's event loop over a sequence of messages. *)
Fixpoint run (msgs : list Msg) (w : CaptureWorker) : CaptureWorker * list Event :=
  match msgs with
  | [] => (w, [])
  | m :: rest =>
      let '(w1, ev) := handle m w in
      let '(w2, evs) := run rest w1 in
      (w2, ev ++ evs)
  end.

(** ** Event streams *)

Definition motionStamp (e : Event) : option Z :=
  match e with motionDetected _ t => Some t | _ => None end.

Definition roiStamp (e : Event) : option Z :=
  match e with roiMotionDetected _ t => Some t | _ => None end.

Definition tripwireStamp (e : Event) : option Z :=
  match e with tripwireCrossed _ t => Some t | _ => None end.

Definition trackCrossingStamp (k : Z) (e : Event) : option Z :=
  match e with
  | trackCrossedTripwire i _ _ t => if i =? k then Some t else None
  | _ => None
  end.

Fixpoint stamps (sel : Event -> option Z) (evs : list Event) : list Z :=
  match evs with
  | [] => []
  | e :: rest =>
      match sel e with
      | Some t => t :: stamps sel rest
      | None => stamps sel rest
      end
  end.

(** Every stamp is at least [gap] after the one before it; [prev] is the
    stamp before the first one. *)
Fixpoint spacedFrom (gap prev : Z) (ts : list Z) : Prop :=
  match ts with
  | [] => True
  | t :: rest => gap <= t - prev /\ spacedFrom gap t rest
  end.

Definition spaced (gap : Z) (ts : list Z) : Prop :=
  match ts with
  | [] => True
  | t :: rest => spacedFrom gap t rest
  end.

(** The events the motion path alone produces. *)
Definition isMaskEvent (e : Event) : bool :=
  match e with
  | motionDetected _ _ | roiMotionDetected _ _ | tripwireCrossed _ _ => true
  | _ => false
  end.

(** The events the alert log files under "motion", "motion_roi" and
    "tripwire" (main.cpp routes both tripwire signals to [addTripwireAlert]). *)
Definition isMotionRoiOrTripwire (e : Event) : bool :=
  match e with
  | motionDetected _ _ | roiMotionDetected _ _ | tripwireCrossed _ _
  | trackCrossedTripwire _ _ _ _ => true
  | _ => false
  end.

(** The events of the tracker, and of the whole AI path. *)
Definition isTrackEvent (e : Event) : Prop :=
  match e with
  | loiteringDetected _ _ _ _ | trackCrossedTripwire _ _ _ _ => True
  | _ => False
  end.

Definition isAiEvent (e : Event) : Prop :=
  match e with
  | loiteringDetected _ _ _ _ | trackCrossedTripwire _ _ _ _
  | aiDetectionsReady _ => True
  | _ => False
  end.

(** The two directions a per-track crossing can report. *)
Definition directionKnown (e : Event) : Prop :=
  match e with
  | trackCrossedTripwire _ _ d _ =>
      d = "left to right"%string \/ d = "right to left"%string
  | _ => True
  end.

(** ** One track seen across invocations

    What [updateTracks] does to one track in an invocation that matches it
    with the detection [dwc]: the assignment, then the ROI status and the
    loitering check.  ([checkLineCrossing], which follows, leaves the ROI
    fields alone.) *)
Definition trackUpdate (r : RoiState) (dwc : DetectionWithCentroid) (currentTime : Z)
  (track : TrackState) : TrackState * list Event :=
  roiAndLoitering r currentTime (matchTrack dwc currentTime track).

Fixpoint trackUpdates (r : RoiState) (obs : list (DetectionWithCentroid * Z))
  (track : TrackState) : TrackState * list Event :=
  match obs with
  | [] => (track, [])
  | (dwc, currentTime) :: rest =>
      let '(track1, ev) := trackUpdate r dwc currentTime track in
      let '(track2, evs) := trackUpdates r rest track1 in
      (track2, ev ++ evs)
  end.

(** ** Well-formed tracker states

    What [QMap] and the id counter guarantee in every state the worker can
    reach: keys in strictly ascending order, positive, each entry filed under
    its own id, and every id below [m_nextTrackId]. *)
Fixpoint keysAscending (lo : Z) (m : Tracks) : bool :=
  match m with
  | [] => true
  | (k, tr) :: r => (lo <? k) && (track_id tr =? k) && keysAscending k r
  end.

Definition tracker_wf (t : TrackerState) : bool :=
  (0 <? m_nextTrackId t)
  && keysAscending 0 (m_tracks t)
  && forallb (fun e => fst e <? m_nextTrackId t) (m_tracks t).

(** "The Euclidean distance between [a] and [b] is below [d]", for
    [d >= 0], on the squares. *)
Definition closerThan (d : Q) (a b : QPointF) : Prop :=
  (dist2 a b < d * d)%Q.

(** The Euclidean distance itself, as a real number: what
    [std::sqrt(dx*dx + dy*dy)] stands for. *)
Definition euclideanDistance (a b : QPointF) : R := sqrt (Q2R (dist2 a b)).

Definition loiteringStamp (k : Z) (e : Event) : option Z :=
  match e with
  | loiteringDetected i _ _ t => if i =? k then Some t else None
  | _ => None
  end.

(** Every entry of the map is filed under its own id. *)
Definition filedUnderId (m : Tracks) : Prop :=
  forall j tr, tracks_find j m = Some tr -> track_id tr = j.

(** What the debounce of the next crossing of track [k] is measured
    against: the track's last alert time while it is in the map, 0 for an
    id that was not handed out yet, nothing for an id that was handed out
    and is gone (it never comes back). *)
Definition lastCrossing (t : TrackerState) (k : Z) : option Z :=
  match tracks_find k (m_tracks t) with
  | Some tr => Some (lastTripwireAlertMs tr)
  | None => if k <? m_nextTrackId t then None else Some 0
  end.

Definition spacedAfter (gap : Z) (last : option Z) (ts : list Z) : Prop :=
  match last with
  | Some p => spacedFrom gap p ts
  | None => ts = []
  end.

(** A stretch of the run that takes the debounce reference of a track from
    [p] to [q] and emits the crossings [ts] keeps the spacing: whatever
    spaced sequence follows from [q], the whole is spaced from [p]. *)
Definition debounceStep (gap : Z) (p : option Z) (ts : list Z) (q : option Z) : Prop :=
  forall rest, spacedAfter gap q rest -> spacedAfter gap p (ts ++ rest).

(** The events that carry no alert. *)
Definition isPlainEvent (e : Event) : Prop :=
  match e with
  | frameCaptured | fpsUpdated _ | errorOccurred _ | aiDetectionsReady _ => True
  | _ => False
  end.

(** The slots that reset a debounce clock: [setRoiPolygon] and [clearRoi]
    write [m_lastRoiAlertTime = 0], [setTripwire] and [clearTripwire] write
    [m_lastTripwireAlertTime = 0]. *)
Definition resetsRoiClock (m : Msg) : bool :=
  match m with SetRoiPolygon _ | ClearRoi => true | _ => false end.

Definition resetsTripwireClock (m : Msg) : bool :=
  match m with SetTripwire _ _ | ClearTripwire => true | _ => false end.

Definition keepsRoiClock (msgs : list Msg) : bool :=
  forallb (fun m => negb (resetsRoiClock m)) msgs.

Definition keepsTripwireClock (msgs : list Msg) : bool :=
  forallb (fun m => negb (resetsTripwireClock m)) msgs.

(** ** Alert export (AlertLogModel.h, AlertLogModel.cpp) *)

Local Open Scope string_scope.

(** [struct Alert].  [QDateTime] is kept abstract as milliseconds; how
    [toString(Qt::ISODate)] prints it is a parameter of the export. *)
Definition QDateTime := Z.

Record Alert := mkAlert {
  alert_id : string;             (* [id] *)
  timestamp : QDateTime;
  cameraName : string;
  alert_type : string;           (* [type] *)
  message : string;
  snapshotPath : string;
  hasImage : bool                (* [!snapshotImage.isNull()] *)
}.

Definition dquote : ascii := ascii_of_nat 34.
Definition comma : ascii := ascii_of_nat 44.
Definition newline : ascii := ascii_of_nat 10.

Definition csvHeader : string := "ID,Timestamp,Camera Name,Type,Message,Snapshot Path".

(** [escaped.replace] of every double quote by two double quotes. *)
Fixpoint replaceQuotes (s : string) : string :=
  match s with
  | EmptyString => EmptyString
  | String c r =>
      if Ascii.eqb c dquote
      then String dquote (String dquote (replaceQuotes r))
      else String c (replaceQuotes r)
  end.

(** [s.contains(c)] for a one-character pattern. *)
Fixpoint containsChar (c : ascii) (s : string) : bool :=
  match s with
  | EmptyString => false
  | String d r => Ascii.eqb d c || containsChar c r
  end.

(** The lambda [escape] of [exportAlertsToCsv]. *)
Definition escape (field : string) : string :=
  let escaped := replaceQuotes field in
  if containsChar comma escaped || containsChar dquote escaped
     || containsChar newline escaped
  then String dquote (escaped ++ String dquote EmptyString)
  else escaped.

Definition alertFields (isoDate : QDateTime -> string) (a : Alert) : list string :=
  [alert_id a; isoDate (timestamp a); cameraName a; alert_type a; message a;
   snapshotPath a].

(** One data row as the loop of [exportAlertsToCsv] writes it. *)
Definition csvRow (isoDate : QDateTime -> string) (a : Alert) : string :=
  escape (alert_id a) ++ String comma
    (escape (isoDate (timestamp a)) ++ String comma
       (escape (cameraName a) ++ String comma
          (escape (alert_type a) ++ String comma
             (escape (message a) ++ String comma
                (escape (snapshotPath a) ++ String newline EmptyString))))).

Fixpoint csvRows (isoDate : QDateTime -> string) (alerts : list Alert) : string :=
  match alerts with
  | [] => EmptyString
  | a :: rest => csvRow isoDate a ++ csvRows isoDate rest
  end.

(** What [exportAlertsToCsv] sends to the text stream. *)
Definition csvText (isoDate : QDateTime -> string) (alerts : list Alert) : string :=
  csvHeader ++ String newline (csvRows isoDate alerts).

(** [AlertLogModel::exportAlertsToCsv]: the return value and, when the file
    was opened, its content.  [dirExists], [mkpathOk] and [openOk] are the
    answers of the file system. *)
Definition exportAlertsToCsv (isoDate : QDateTime -> string)
  (dirExists mkpathOk openOk : bool) (alerts : list Alert) : bool * option string :=
  if negb dirExists && negb mkpathOk then (false, None)
  else if negb openOk then (false, None)
  else (true, Some (csvText isoDate alerts)).

(** ** Reading CSV back

    The repository only writes CSV.  The round trip is stated against this
    reader of the RFC 4180 dialect: records end with a line feed, fields
    are separated by commas, a field that starts with a double quote runs
    to the next double quote that is not doubled, and a doubled double
    quote inside it stands for one. *)
Inductive CsvMode := RowStart | FieldStart | Unquoted | Quoted | QuoteSeen.

Definition snoc (s : string) (c : ascii) : string := s ++ String c EmptyString.

Fixpoint csvParseFrom (mode : CsvMode) (field : string) (row : list string)
  (rows : list (list string)) (input : string) : list (list string) :=
  match input with
  | EmptyString =>
      match mode with
      | RowStart => rows
      | _ => (rows ++ [(row ++ [field])%list])%list
      end
  | String c rest =>
      match mode with
      | Quoted =>
          if Ascii.eqb c dquote
          then csvParseFrom QuoteSeen field row rows rest
          else csvParseFrom Quoted (snoc field c) row rows rest
      | QuoteSeen =>
          if Ascii.eqb c dquote
          then csvParseFrom Quoted (snoc field c) row rows rest
          else if Ascii.eqb c comma
          then csvParseFrom FieldStart EmptyString (row ++ [field])%list rows rest
          else if Ascii.eqb c newline
          then csvParseFrom RowStart EmptyString [] (rows ++ [(row ++ [field])%list])%list rest
          else csvParseFrom Unquoted (snoc field c) row rows rest
      | RowStart | FieldStart =>
          if Ascii.eqb c dquote
          then csvParseFrom Quoted EmptyString row rows rest
          else if Ascii.eqb c comma
          then csvParseFrom FieldStart EmptyString (row ++ [EmptyString])%list rows rest
          else if Ascii.eqb c newline
          then csvParseFrom RowStart EmptyString [] (rows ++ [(row ++ [EmptyString])%list])%list rest
          else csvParseFrom Unquoted (String c EmptyString) row rows rest
      | Unquoted =>
          if Ascii.eqb c comma
          then csvParseFrom FieldStart EmptyString (row ++ [field])%list rows rest
          else if Ascii.eqb c newline
          then csvParseFrom RowStart EmptyString [] (rows ++ [(row ++ [field])%list])%list rest
          else csvParseFrom Unquoted (snoc field c) row rows rest
      end
  end.

Definition csvParse (input : string) : list (list string) :=
  csvParseFrom RowStart EmptyString [] [] input.

Definition csvHeaderFields : list string :=
  ["ID"; "Timestamp"; "Camera Name"; "Type"; "Message"; "Snapshot Path"].

(** "The field contains a comma, a double quote or a newline." *)
Definition needsQuoting (field : string) : bool :=
  containsChar comma field || containsChar dquote field || containsChar newline field.

(** What the reader does with a field once its separator arrives. *)
Definition closeField (sep : ascii) (field : string) (row : list string)
  (rows : list (list string)) (rest : string) : list (list string) :=
  if Ascii.eqb sep comma
  then csvParseFrom FieldStart "" (row ++ [field])%list rows rest
  else csvParseFrom RowStart "" [] (rows ++ [(row ++ [field])%list])%list rest.

Local Close Scope string_scope.

(** ** Configuration (CameraManager.h, CameraManager.cpp) *)

Local Open Scope string_scope.

(** [struct CameraConfig]; the members carry a [cfg_] prefix. *)
Record CameraConfig := mkConfig {
  cfg_id : string;
  cfg_name : string;
  cfg_type : string;
  cfg_source : string;
  cfg_enabled : bool;
  cfg_roiPoints : list QPointF;
  cfg_tripwireStart : QPointF;
  cfg_tripwireEnd : QPointF;
  cfg_hasRoi : bool;
  cfg_hasTripwire : bool
}.

(** JSON as Qt hands it to the loader. *)
Unset Elimination Schemes.
Inductive QJsonValue :=
| JUndefined
| JNull
| JBool (b : bool)
| JDouble (d : Q)
| JString (s : string)
| JArray (items : list QJsonValue)
| JObject (members : list (string * QJsonValue)).
Set Elimination Schemes.

Definition QJsonObject := list (string * QJsonValue).

(** [obj[key]]: the member, or an undefined value. *)
Fixpoint member (key : string) (obj : QJsonObject) : QJsonValue :=
  match obj with
  | [] => JUndefined
  | (k, v) :: rest => if String.eqb k key then v else member key rest
  end.

Fixpoint contains (key : string) (obj : QJsonObject) : bool :=
  match obj with
  | [] => false
  | (k, _) :: rest => String.eqb k key || contains key rest
  end.

Definition toString (v : QJsonValue) : string :=
  match v with JString s => s | _ => "" end.

Definition toBool (v : QJsonValue) : bool :=
  match v with JBool b => b | _ => false end.

Definition toDouble (v : QJsonValue) : Q :=
  match v with JDouble d => d | _ => 0%Q end.

Definition toArray (v : QJsonValue) : list QJsonValue :=
  match v with JArray items => items | _ => [] end.

Definition toObject (v : QJsonValue) : QJsonObject :=
  match v with JObject members => members | _ => [] end.

(** [v.toVariant().toString()]; [numberText] is how Qt prints a number. *)
Definition variantToString (numberText : Q -> string) (v : QJsonValue) : string :=
  match v with
  | JString s => s
  | JDouble d => numberText d
  | JBool true => "true"
  | JBool false => "false"
  | _ => ""
  end.

(** What [QJsonDocument::fromJson] can answer. *)
Inductive QJsonDocument :=
| DocNull                                   (* the text is not valid JSON *)
| DocArray (items : list QJsonValue)
| DocObject (root : QJsonObject).

(** The configuration file as the loader finds it. *)
Inductive ConfigFile :=
| CannotOpen
| FileContent (doc : QJsonDocument).

Definition jsonPoint (v : QJsonValue) : QPointF :=
  mkPoint (toDouble (member "x" (toObject v))) (toDouble (member "y" (toObject v))).

(** The body of the loop of [loadConfiguration] for one array element. *)
Definition parseCamera (numberText : Q -> string) (value : QJsonValue) : CameraConfig :=
  let camObj := toObject value in
  let roiPoints :=
    if contains "roi" camObj then
      let roiObj := toObject (member "roi" camObj) in
      if contains "points" roiObj
      then map jsonPoint (toArray (member "points" roiObj))
      else []
    else [] in
  let tripObj := toObject (member "tripwire" camObj) in
  let hasEnds :=
    contains "tripwire" camObj && contains "start" tripObj && contains "end" tripObj in
  let tripwireStart := if hasEnds then jsonPoint (member "start" tripObj) else origin in
  let tripwireEnd := if hasEnds then jsonPoint (member "end" tripObj) else origin in
  mkConfig (toString (member "id" camObj))
           (toString (member "name" camObj))
           (toString (member "type" camObj))
           (variantToString numberText (member "source" camObj))
           (toBool (member "enabled" camObj))
           roiPoints tripwireStart tripwireEnd
           (negb (Nat.eqb (List.length roiPoints) 0))
           (hasEnds
            && negb (QPointF_isNull tripwireStart && QPointF_isNull tripwireEnd)
            && negb (qFuzzyIsNull (px tripwireStart) && qFuzzyIsNull (py tripwireStart)
                     && qFuzzyIsNull (px tripwireEnd) && qFuzzyIsNull (py tripwireEnd))).

(** The loop over the array: every element is appended, and the loop stops
    once four configurations are held. *)
Fixpoint loadCameras (numberText : Q -> string) (values : list QJsonValue)
  (configs : list CameraConfig) : list CameraConfig :=
  match values with
  | [] => configs
  | value :: rest =>
      let configs' := (configs ++ [parseCamera numberText value])%list in
      if (4 <=? List.length configs')%nat then configs'
      else loadCameras numberText rest configs'
  end.

(** [CameraManager::loadConfiguration]: the return value and [m_configs]
    afterwards. *)
Definition loadConfiguration (numberText : Q -> string) (file : ConfigFile)
  (m_configs : list CameraConfig) : bool * list CameraConfig :=
  match file with
  | CannotOpen => (false, m_configs)
  | FileContent (DocObject root) =>
      let configs := loadCameras numberText (toArray (member "cameras" root)) [] in
      (negb (Nat.eqb (List.length configs) 0), configs)
  | FileContent _ => (false, m_configs)
  end.

(** The default camera of the constructor. *)
Definition defaultConfig : CameraConfig :=
  mkConfig "cam1" "Default Camera" "usb" "0" true [] origin origin false false.

(** What [createCameraStreams] sets up for a slot that gets a stream: the
    constructor arguments, and which of [setRoiPolygon], [setTripwire] and
    [setObjectDetector] it calls. *)
Record StreamSetup := mkSetup {
  setup_id : string;
  setup_source : string;
  setup_sourceType : string;
  setup_name : string;
  setup_roi : option (list QPointF);
  setup_tripwire : option (QPointF * QPointF);
  setup_detector : option ObjectDetector
}.

Definition setupOf (detector : option ObjectDetector) (config : CameraConfig)
  : StreamSetup :=
  mkSetup (cfg_id config) (cfg_source config) (cfg_type config) (cfg_name config)
          (if cfg_hasRoi config && negb (Nat.eqb (List.length (cfg_roiPoints config)) 0)
           then Some (cfg_roiPoints config) else None)
          (if cfg_hasTripwire config
           then Some (cfg_tripwireStart config, cfg_tripwireEnd config) else None)
          detector.

(** [CameraManager::createCameraStreams]: always four slots; a slot holds a
    stream when a configuration exists for it and is enabled. *)
Definition createCameraStreams (detector : option ObjectDetector)
  (configs : list CameraConfig) : list (option StreamSetup) :=
  map (fun i =>
         match nth_error configs i with
         | Some config =>
             if cfg_enabled config then Some (setupOf detector config) else None
         | None => None
         end)
      [0; 1; 2; 3]%nat.

Record CameraManager := mkManager {
  m_configs : list CameraConfig;
  m_cameras : list (option StreamSetup)
}.

(** [CameraManager::CameraManager]. *)
Definition CameraManager_new (numberText : Q -> string)
  (detector : option ObjectDetector) (file : ConfigFile) : CameraManager :=
  let '(loaded, configs) := loadConfiguration numberText file [] in
  let configs' := if loaded then configs else (configs ++ [defaultConfig])%list in
  mkManager configs' (createCameraStreams detector configs').

(** "The configuration file is missing or malformed": it cannot be opened,
    or its text is not a JSON object. *)
Definition missingOrMalformed (file : ConfigFile) : bool :=
  match file with
  | CannotOpen => true
  | FileContent (DocObject _) => false
  | FileContent _ => true
  end.

Local Close Scope string_scope.

(** ** Scenarios used to exercise the model *)

Definition quietFrame (t : Z) : Frame :=
  mkFrame false 640 480 0 0 0 0 0 0 (Some []) t t t t t.

Definition runningWorker : CaptureWorker :=
  fst (run [SetMotionEnabled true; Start true 1000] (CaptureWorker_new "0")).


Definition cocoNames : list string := ["person"; "bicycle"; "car"]%string.

Definition loadedDetector : ObjectDetector := mkDetector true cocoNames.

(** A person whose 40x40 box is centred on pixel [(x, y)]. *)
Definition personAt (x y : Z) : Detection :=
  mkDetection 0 0.9 (mkRect (x - 20) (y - 20) 40 40).

(** A 640x480 frame with a still foreground mask on which the detector
    reports [dets]. *)
Definition aiFrame (t : Z) (dets : list Detection) : Frame :=
  mkFrame false 640 480 0 0 0 0 0 0 (Some dets) t t t t t.

(** A horizontal tripwire across the middle of the image. *)
Definition wireStart : QPointF := mkPoint 0 0.5.
Definition wireEnd : QPointF := mkPoint 1 0.5.

(** Motion detection is left disabled; AI detection runs on every fifth
    frame and sees a person just above the wire. *)
Definition aiOnlySetup : list Msg :=
  [SetObjectDetector (Some loadedDetector); SetAiEnabled true;
   SetTripwire wireStart wireEnd; Start true 100000]
  ++ repeat (TimerTick (quietFrame 100100)) 4
  ++ [TimerTick (aiFrame 100200 [personAt 320 220])]
  ++ repeat (TimerTick (quietFrame 100300)) 4.

Definition aiOnlyWorker : CaptureWorker :=
  fst (run aiOnlySetup (CaptureWorker_new "0")).

(** The next analysed frame sees the person just below the wire. *)
Definition crossingFrame : Frame := aiFrame 100400 [personAt 320 260].

(** The whole AI-only run, crossing included. *)
Definition aiOnlyRun : list Msg := aiOnlySetup ++ [TimerTick crossingFrame].

(** The square ROI of the loitering scenario, a point inside it and a point
    outside it. *)
Definition squareRoi : RoiState :=
  mkRoi [mkPoint 0.3 0.3; mkPoint 0.7 0.3; mkPoint 0.7 0.7; mkPoint 0.3 0.7] true 0.

Definition seenInside : DetectionWithCentroid := mkDwc (mkPoint 0.5 0.5) 0 "person".
Definition seenOutside : DetectionWithCentroid := mkDwc (mkPoint 0.9 0.9) 0 "person".

(** Track 1 entered the ROI at t = 1000 and was last seen there at 8000. *)
Definition lingeringTrack : TrackState :=
  mkTrack 1 "person" (mkPoint 0.5 0.5) (mkPoint 0.5 0.5) 500 8000 true false 0 1000.

Definition stayingOn : list (DetectionWithCentroid * Z) :=
  [(seenInside, 9000); (seenInside, 9200); (seenInside, 20000)].

Definition leavingAndReturning : list (DetectionWithCentroid * Z) :=
  [(seenOutside, 11000); (seenInside, 12000); (seenInside, 20000)].

(** The tracker after it has seen one person just above the wire, and three
    detections for the next invocation: one just below the wire (0.083
    away from the track), one in the far corner, one next to the track. *)
Definition seenAbove : DetectionWithCentroid :=
  mkDwc (detectionCentroid (personAt 320 220) 640 480) 0 "person".

Definition seenBelow : DetectionWithCentroid :=
  mkDwc (detectionCentroid (personAt 320 260) 640 480) 0 "person".

Definition seenFarAway : DetectionWithCentroid :=
  mkDwc (detectionCentroid (personAt 600 440) 640 480) 1 "person".

Definition oneTrack : TrackerState :=
  fst (assignDetection 100200 (mkTracker [] 1) seenAbove).

Definition theTrack : TrackState := tracks_at 1 (m_tracks oneTrack).

(** A worker with the detector, AI detection and the wire set, and the
    frame on which the detector reports the person below the wire and
    another one far away. *)
Definition trackingWorker : CaptureWorker :=
  mkWorker (mkCapture "0" true true) (mkFps 100000 0 0) (mkMotion false 50 0)
           (mkRoi [] false 0) (mkTripwire wireStart wireEnd true 0 0 false)
           (mkAi (Some loadedDetector) true 0) oneTrack.

(** A fully configured worker: motion detection, the square ROI, the wire
    and AI detection are on, the camera runs, and track 1 was created by a
    person seen just above the wire. *)
Definition busySetup : list Msg :=
  [SetObjectDetector (Some loadedDetector); SetAiEnabled true;
   SetTripwire wireStart wireEnd; SetRoiPolygon (m_roiNorm squareRoi);
   SetMotionEnabled true; Start true 190000]
  ++ repeat (TimerTick (quietFrame 199000)) 4
  ++ [TimerTick (aiFrame 199100 [personAt 320 220])]
  ++ repeat (TimerTick (quietFrame 199200)) 4.

Definition busyWorker : CaptureWorker :=
  fst (run busySetup (CaptureWorker_new "0")).

(** A 640x480 frame with 10% of the mask set, a fifth of the ROI in motion
    and the motion centroid at pixel [(320, cy)]. *)
Definition busyFrame (t cy : Z) (dets : list Detection) : Frame :=
  mkFrame false 640 480 30720 49152 10000
          30720 (inject_Z (320 * 30720)) (inject_Z (cy * 30720))
          (Some dets) t t t t t.

Definition busyRun : list Msg :=
  [TimerTick (busyFrame 200000 260 [personAt 320 260]);
   TimerTick (busyFrame 200500 220 []);
   TimerTick (busyFrame 202500 260 []);
   TimerTick (busyFrame 203100 260 []);
   TimerTick (busyFrame 203150 220 []);
   TimerTick (busyFrame 203200 220 [personAt 320 220])].

(** The ROI is drawn again between two frames that both show motion in
    it. *)
Definition roiRedrawn : list Msg :=
  [TimerTick (busyFrame 200000 260 []);
   SetRoiPolygon (m_roiNorm squareRoi);
   TimerTick (busyFrame 200033 260 [])].

(** The same for the wire, around two frames whose motion centroid is on
    opposite sides of it. *)
Definition wireRedrawn : list Msg :=
  [TimerTick (busyFrame 200000 260 []);
   TimerTick (busyFrame 200033 220 []);
   SetTripwire wireStart wireEnd;
   TimerTick (busyFrame 200066 220 []);
   TimerTick (busyFrame 200100 260 [])].

(** A second person right next to track 1. *)
Definition seenBeside : DetectionWithCentroid :=
  mkDwc (detectionCentroid (personAt 330 220) 640 480) 1 "person".

(** A worker with detector, AI detection and wire set that has not tracked
    anything yet, and one frame on which the detector reports two people,
    one on each side of the wire, 0.083 apart. *)
Definition freshWorker : CaptureWorker :=
  fst (run [SetObjectDetector (Some loadedDetector); SetAiEnabled true;
            SetTripwire wireStart wireEnd; Start true 100000]
           (CaptureWorker_new "0")).

Definition twoPeople : list Detection := [personAt 320 220; personAt 320 260].

(** The alert of the escaping scenario: its message holds a comma, two
    double quotes and a line feed. *)
Definition quotedMessage : string :=
  ("He said, " ++ String dquote ("hi" ++ String dquote (String newline "OK")))%string.

Definition sampleAlert : Alert :=
  mkAlert "20250101120000000" 0 "Front Door" "motion" quotedMessage "" false.

Definition sampleIsoDate (t : QDateTime) : string := "2025-01-01T12:00:00"%string.

(** Three unusable configuration files: none at all, text that is not
    JSON, and a JSON array where an object is expected. *)
Definition unusableFiles : list ConfigFile :=
  [CannotOpen; FileContent DocNull; FileContent (DocArray [JString "cam1"])].

Definition plainNumber (d : Q) : string := "0"%string.

(** * The worker over whole runs *)

(** A message that cannot open the capture: anything but a [start] whose
    [m_capture.open] succeeds. *)
Definition neverOpens (m : Msg) : bool :=
  match m with Start openOk _ => negb openOk | _ => true end.

Definition isStart (m : Msg) : bool :=
  match m with Start _ _ => true | _ => false end.

Definition isTick (m : Msg) : bool :=
  match m with TimerTick _ => true | _ => false end.

Definition isAiReady (e : Event) : bool :=
  match e with aiDetectionsReady _ => true | _ => false end.

Definition isFpsUpdate (e : Event) : bool :=
  match e with fpsUpdated _ => true | _ => false end.

(** How many elements of a list pass a test. *)
Definition count {A : Type} (p : A -> bool) (l : list A) : Z :=
  Z.of_nat (List.length (filter p l)).

(** What is left of a counter that is compared against [bound] after each
    increment: the part of it that brings the next reset closer. *)
Definition headStart (bound c : Z) : Z := Z.max 0 (Z.min c (bound - 1)).

(** An axis-parallel rectangle as a ROI polygon, drawn from its corner
    [(x0, y0)] along the x axis first. *)
Definition rectangleRoi (x0 y0 x1 y1 : Q) (lastAlert : Z) : RoiState :=
  mkRoi [mkPoint x0 y0; mkPoint x1 y0; mkPoint x1 y1; mkPoint x0 y1] true lastAlert.

(** The events that need a ROI, and the one message that can give the
    worker a ROI of at least three points. *)
Definition isRoiEvent (e : Event) : bool :=
  match e with
  | roiMotionDetected _ _ | loiteringDetected _ _ _ _ => true
  | _ => false
  end.

Definition drawsRoi (m : Msg) : bool :=
  match m with
  | SetRoiPolygon normalizedPoints => 3 <=? Z.of_nat (List.length normalizedPoints)
  | _ => false
  end.

(** A ROI that cannot hold anything: fewer than three points. *)
Definition inertRoi (r : RoiState) : Prop := Z.of_nat (List.length (m_roiNorm r)) < 3.

(** The side of the tripwire on which [processTripwire] finds the centroid
    of the mask, in pixels, and the squared length of the tripwire in
    pixels. *)
Definition maskSide (f : Frame) (t : TripwireState) : Q :=
  let cx := (mom_m10 f / mom_m00 f)%Q in
  let cy := (mom_m01 f / mom_m00 f)%Q in
  let x1 := (px (m_tripwireStartNorm t) * inject_Z (frame_cols f))%Q in
  let y1 := (py (m_tripwireStartNorm t) * inject_Z (frame_rows f))%Q in
  let x2 := (px (m_tripwireEndNorm t) * inject_Z (frame_cols f))%Q in
  let y2 := (py (m_tripwireEndNorm t) * inject_Z (frame_rows f))%Q in
  ((cx - x1) * (y2 - y1) - (cy - y1) * (x2 - x1))%Q.

Definition wireLength2 (f : Frame) (t : TripwireState) : Q :=
  let x1 := (px (m_tripwireStartNorm t) * inject_Z (frame_cols f))%Q in
  let y1 := (py (m_tripwireStartNorm t) * inject_Z (frame_rows f))%Q in
  let x2 := (px (m_tripwireEndNorm t) * inject_Z (frame_cols f))%Q in
  let y2 := (py (m_tripwireEndNorm t) * inject_Z (frame_rows f))%Q in
  ((x2 - x1) * (x2 - x1) + (y2 - y1) * (y2 - y1))%Q.

(** The tripwire drawn the other way round. *)
Definition reversedWire (t : TripwireState) : TripwireState :=
  mkTripwire (m_tripwireEndNorm t) (m_tripwireStartNorm t) (m_hasTripwire t)
             (m_lastTripwireAlertTime t) (m_prevSide t) (m_hasPrevSide t).

(** The other name of a direction. *)
Definition oppositeDirection (d : string) : string :=
  if String.eqb d "left to right" then "right to left"%string
  else if String.eqb d "right to left" then "left to right"%string
  else d.

Definition reverseCrossing (e : Event) : Event :=
  match e with
  | trackCrossedTripwire k lbl d t => trackCrossedTripwire k lbl (oppositeDirection d) t
  | _ => e
  end.

(** A detection whose class id is outside the list of class names. *)
Definition unknownObject : Detection :=
  mkDetection 7 0.8 (mkRect 100 100 60 60).

(** The error [start] reports when the capture cannot be opened. *)
Definition openFailure (w : CaptureWorker) : Event :=
  errorOccurred ("Failed to open camera: " ++ m_sourceText (w_capture w)).

(** A running worker with motion detection and a horizontal tripwire
    across the middle of the image, and a 640x480 frame whose foreground
    mask is one blob of 1000 pixels centred on pixel [(x, y)]. *)
Definition tripwireWorker : CaptureWorker :=
  fst (run [SetMotionEnabled true; SetTripwire wireStart wireEnd; Start true 1000]
           (CaptureWorker_new "0")).

Definition blobFrame (t x y : Z) : Frame :=
  mkFrame false 640 480 1000 0 0 1000 (inject_Z (1000 * x)) (inject_Z (1000 * y))
          (Some []) t t t t t.

(** The AI-only worker after its one track went stale and was evicted,
    and a later stretch of the run in which a person shows up again. *)
Definition evictedWorker : CaptureWorker :=
  fst (run [TimerTick (aiFrame 110000 [])] aiOnlyWorker).

Definition personReturns : list Msg :=
  repeat (TimerTick (quietFrame 110500)) 4
  ++ [TimerTick (aiFrame 111000 [personAt 320 220])].

(** Two tracks, one above and one below a detection, at the same distance
    from it. *)
Definition trackAbove : TrackState :=
  newTrack 1 (mkDwc (mkPoint 0.5 0.45) 0 "person") 100000.

Definition trackBelow : TrackState :=
  newTrack 2 (mkDwc (mkPoint 0.5 0.55) 1 "person") 100000.

Definition twoTracks : TrackerState := mkTracker [(1, trackAbove); (2, trackBelow)] 3.

Definition seenBetween : DetectionWithCentroid := mkDwc (mkPoint 0.5 0.5) 0 "person".

(** * Object detector (ObjectDetector.h, ObjectDetector.cpp)

    The network, the letterboxing and the non-maximum suppression are
    OpenCV's; what [infer] itself does with their results is modelled: the
    filter on the rows of the network output, and the boxes it builds from
    the rows the suppression keeps. *)

(** One row of the network output as the loop of [infer] reads it: the best
    class score and its class ([cv::minMaxLoc]), the width and height the
    network reports, and the four integers of the box after its conversion
    to original image coordinates ([x], [y], [width], [height] before the
    clamping). *)
Record OutputRow := mkRow {
  maxScore : Q;
  row_class : Z;
  row_w : Q;
  row_h : Q;
  row_x : Z;
  row_y : Z;
  row_width : Z;
  row_height : Z
}.

(** A kept row: [boxes], [classIds] and [confidences] at one index. *)
Record Candidate := mkCandidate {
  cand_box : Rect;
  cand_class : Z;
  cand_confidence : Q
}.

(** [std::max(0.4f, m_confThreshold)]. *)
Definition inferThreshold (m_confThreshold : Q) : Q := Qmax 0.4 m_confThreshold.

(** The body of the loop over the rows. *)
Definition candidateOf (origW origH : Z) (threshold : Q) (r : OutputRow)
  : option Candidate :=
  if Qltb (maxScore r) threshold then None
  else if Qle_bool (row_w r) 0 || Qle_bool (row_h r) 0 then None
  else
    let x := Z.max 0 (Z.min (row_x r) (origW - 1)) in
    let y := Z.max 0 (Z.min (row_y r) (origH - 1)) in
    let width := Z.min (row_width r) (origW - x) in
    let height := Z.min (row_height r) (origH - y) in
    if (20 <? width) && (20 <? height) && (width <? origW) && (height <? origH)
    then Some (mkCandidate (mkRect x y width height) (row_class r) (maxScore r))
    else None.

Fixpoint candidates (origW origH : Z) (threshold : Q) (rows : list OutputRow)
  : list Candidate :=
  match rows with
  | [] => []
  | r :: rest =>
      match candidateOf origW origH threshold r with
      | Some c => c :: candidates origW origH threshold rest
      | None => candidates origW origH threshold rest
      end
  end.

(** [static_cast<int>(n * 0.22)]: the product, truncated toward zero. *)
Definition shrinkOf (n : Z) : Z := Z.quot (n * 22) 100.

(** The box of a final detection: shrunk by 22% on each side, then clamped. *)
Definition tightenBox (origW origH : Z) (b : Rect) : Rect :=
  let shrinkX := shrinkOf (rwidth b) in
  let shrinkY := shrinkOf (rheight b) in
  let x1 := rx b + shrinkX in
  let y1 := ry b + shrinkY in
  let width1 := rwidth b - shrinkX * 2 in
  let height1 := rheight b - shrinkY * 2 in
  let x2 := Z.max 0 (Z.min x1 (origW - 1)) in
  let y2 := Z.max 0 (Z.min y1 (origH - 1)) in
  mkRect x2 y2
         (Z.max 10 (Z.min width1 (origW - x2)))
         (Z.max 10 (Z.min height1 (origH - y2))).

Definition detectionOf (origW origH : Z) (c : Candidate) : Detection :=
  mkDetection (cand_class c) (cand_confidence c) (tightenBox origW origH (cand_box c)).

(** The loop over the indices the suppression keeps; [NMSBoxes] answers
    indices into its input. *)
Fixpoint finalDetections (origW origH : Z) (cands : list Candidate) (indices : list nat)
  : list Detection :=
  match indices with
  | [] => []
  | idx :: rest =>
      match nth_error cands idx with
      | Some c => detectionOf origW origH c :: finalDetections origW origH cands rest
      | None => finalDetections origW origH cands rest
      end
  end.

(** [ObjectDetector::infer].  [output] is the network output on the frame
    ([None]: OpenCV throws, which [infer] catches), [nms] stands for
    [cv::dnn::NMSBoxes] with the thresholds of the detector. *)
Definition infer (d : ObjectDetector) (m_confThreshold : Q)
  (nms : list Candidate -> list nat)
  (frameEmpty : bool) (origW origH : Z) (output : option (list OutputRow))
  : list Detection :=
  if negb (isLoaded d) || frameEmpty then []
  else
    match output with
    | None => []
    | Some rows =>
        let threshold := inferThreshold m_confThreshold in
        let cands := candidates origW origH threshold rows in
        match cands with
        | [] => []
        | _ => finalDetections origW origH cands (nms cands)
        end
    end.

(** A detection box that lies inside a frame of the given size. *)
Definition insideFrame (origW origH : Z) (b : Rect) : Prop :=
  0 <= rx b /\ 0 <= ry b /\ rx b + rwidth b <= origW /\ ry b + rheight b <= origH.

(** Scenario: a suppression that keeps every candidate, and three rows of
    network output on a 640x480 frame, one of them below the threshold. *)
Definition keepAll (cands : list Candidate) : list nat := seq 0 (List.length cands).

Definition sampleRows : list OutputRow :=
  [mkRow 0.9 0 100 200 270 120 100 200;
   mkRow 0.3 2 50 50 10 10 50 50;
   mkRow 0.7 16 80 60 600 440 80 60].

(** * The alert list (AlertLogModel.cpp)

    [m_alerts] is a list; the model functions take it and answer the new
    list.  The id of a new alert ([generateId()]) and its timestamp
    ([QDateTime::currentDateTime()]) are read from the clock by the caller
    and passed in. *)

Local Open Scope string_scope.

(** [AlertLogModel::addAlert]. *)
Definition addAlert (alert : Alert) (m_alerts : list Alert) : list Alert :=
  (m_alerts ++ [alert])%list.

(** [message.isEmpty() ? fallback : message]. *)
Definition messageOr (message fallback : string) : string :=
  if String.eqb message "" then fallback else message.

Definition addSnapshotAlert (id : string) (now : QDateTime) (camera : string)
  (imageIsNull : bool) (m_alerts : list Alert) : list Alert :=
  addAlert (mkAlert id now camera "snapshot" "Snapshot captured (unsaved)" ""
                    (negb imageIsNull)) m_alerts.

Definition addMotionAlert (id : string) (now : QDateTime) (camera msg path : string)
  (m_alerts : list Alert) : list Alert :=
  addAlert (mkAlert id now camera "motion" (messageOr msg "Motion detected") path false)
           m_alerts.

Definition addRoiMotionAlert (id : string) (now : QDateTime) (camera msg path : string)
  (m_alerts : list Alert) : list Alert :=
  addAlert (mkAlert id now camera "motion_roi" (messageOr msg "Motion in ROI") path false)
           m_alerts.

(** The direction is not used ([Q_UNUSED(direction)]). *)
Definition addTripwireAlert (id : string) (now : QDateTime) (camera msg path : string)
  (direction : Z) (m_alerts : list Alert) : list Alert :=
  addAlert (mkAlert id now camera "tripwire" (messageOr msg "Tripwire crossed") path false)
           m_alerts.

Definition addLoiteringAlert (id : string) (now : QDateTime) (camera msg path : string)
  (m_alerts : list Alert) : list Alert :=
  addAlert (mkAlert id now camera "loitering" (messageOr msg "Loitering detected") path
                    false) m_alerts.

(** [AlertLogModel::clear]. *)
Definition clear (m_alerts : list Alert) : list Alert :=
  match m_alerts with [] => m_alerts | _ => [] end.

(** [QList::removeAt] at a position inside the list. *)
Definition removeAt {A : Type} (i : nat) (l : list A) : list A :=
  (firstn i l ++ skipn (S i) l)%list.

(** [idx >= 0 && idx < m_alerts.count()]. *)
Definition validIndex {A : Type} (idx : Z) (l : list A) : bool :=
  ((0 <=? idx) && (idx <? Z.of_nat (List.length l)))%Z.

(** [AlertLogModel::removeAlert]. *)
Definition removeAlert (index : Z) (m_alerts : list Alert) : list Alert :=
  if ((index <? 0) || (Z.of_nat (List.length m_alerts) <=? index))%Z then m_alerts
  else removeAt (Z.to_nat index) m_alerts.

(** A [QVariantList] of row indices is modelled by what [toInt(&ok)] makes
    of each entry: [Some idx] when [ok], [None] otherwise.  The first loop
    of [removeAlerts] keeps the valid ones. *)
Fixpoint collectIndices (indices : list (option Z)) (m_alerts : list Alert) : list Z :=
  match indices with
  | [] => []
  | Some idx :: rest =>
      if validIndex idx m_alerts
      then idx :: collectIndices rest m_alerts
      else collectIndices rest m_alerts
  | None :: rest => collectIndices rest m_alerts
  end.

(** [std::sort(..., std::greater<int>())]: the list in descending order. *)
Fixpoint insertDescending (i : Z) (l : list Z) : list Z :=
  match l with
  | [] => [i]
  | j :: r => if (j <=? i)%Z then i :: l else j :: insertDescending i r
  end.

Definition sortDescending (l : list Z) : list Z := fold_right insertDescending [] l.

(** "Strictly descending": every entry is above all the entries after it. *)
Fixpoint descending (l : list Z) : Prop :=
  match l with
  | [] => True
  | i :: r => (forall j, In j r -> (j < i)%Z) /\ descending r
  end.

(** The removal loop of [removeAlerts]; every index is checked against the
    list as it is by then. *)
Definition removeEach (sortedIndices : list Z) (m_alerts : list Alert) : list Alert :=
  fold_left (fun acc idx => if validIndex idx acc then removeAt (Z.to_nat idx) acc else acc)
            sortedIndices m_alerts.

(** [AlertLogModel::removeAlerts]. *)
Definition removeAlerts (indices : list (option Z)) (m_alerts : list Alert) : list Alert :=
  match indices with
  | [] => m_alerts
  | _ => removeEach (sortDescending (collectIndices indices m_alerts)) m_alerts
  end.

(** "The list without the rows at the listed positions", counting the
    positions from [from]. *)
Fixpoint withoutRows {A : Type} (from : Z) (rows : list Z) (l : list A) : list A :=
  match l with
  | [] => []
  | x :: r =>
      if existsb (Z.eqb from) rows
      then withoutRows (from + 1)%Z rows r
      else x :: withoutRows (from + 1)%Z rows r
  end.

(** [AlertLogModel::exportSnapshotAsPng]: the return value and the list
    afterwards.  [dirExists], [mkpathOk] and [saveOk] are the answers of
    the file system and of [QImage::save]. *)
Definition markSaved (filePath : string) (a : Alert) : Alert :=
  mkAlert (alert_id a) (timestamp a) (cameraName a) (alert_type a) "Snapshot saved"
          filePath (hasImage a).

Definition exportSnapshotAsPng (index : Z) (filePath : string)
  (dirExists mkpathOk saveOk : bool) (m_alerts : list Alert) : bool * list Alert :=
  if ((index <? 0) || (Z.of_nat (List.length m_alerts) <=? index))%Z
  then (false, m_alerts)
  else
    match nth_error m_alerts (Z.to_nat index) with
    | None => (false, m_alerts)
    | Some alert =>
        if negb (hasImage alert) then (false, m_alerts)
        else if negb dirExists && negb mkpathOk then (false, m_alerts)
        else if negb saveOk then (false, m_alerts)
        else (true,
              (firstn (Z.to_nat index) m_alerts
               ++ markSaved filePath alert :: skipn (S (Z.to_nat index)) m_alerts)%list)
    end.

(** The selection loop of [exportSelectedToCsv]. *)
Fixpoint selectAlerts (indices : list (option Z)) (m_alerts : list Alert) : list Alert :=
  match indices with
  | [] => []
  | Some idx :: rest =>
      if validIndex idx m_alerts
      then match nth_error m_alerts (Z.to_nat idx) with
           | Some a => a :: selectAlerts rest m_alerts
           | None => selectAlerts rest m_alerts
           end
      else selectAlerts rest m_alerts
  | None :: rest => selectAlerts rest m_alerts
  end.

(** [AlertLogModel::exportSelectedToCsv]. *)
Definition exportSelectedToCsv (isoDate : QDateTime -> string)
  (dirExists mkpathOk openOk : bool) (indices : list (option Z))
  (m_alerts : list Alert) : bool * option string :=
  match selectAlerts indices m_alerts with
  | [] => (false, None)
  | selectedAlerts => exportAlertsToCsv isoDate dirExists mkpathOk openOk selectedAlerts
  end.

(** [AlertLogModel::exportToCsv]. *)
Definition exportToCsv (isoDate : QDateTime -> string)
  (dirExists mkpathOk openOk : bool) (m_alerts : list Alert) : bool * option string :=
  exportAlertsToCsv isoDate dirExists mkpathOk openOk m_alerts.

(** The calls that change the list, and a sequence of them. *)
Inductive LogCall :=
| AddSnapshotAlert (id : string) (now : QDateTime) (camera : string) (imageIsNull : bool)
| AddMotionAlert (id : string) (now : QDateTime) (camera msg path : string)
| AddRoiMotionAlert (id : string) (now : QDateTime) (camera msg path : string)
| AddTripwireAlert (id : string) (now : QDateTime) (camera msg path : string)
                   (direction : Z)
| AddLoiteringAlert (id : string) (now : QDateTime) (camera msg path : string)
| Clear
| RemoveAlert (index : Z)
| RemoveAlerts (indices : list (option Z))
| ExportSnapshotAsPng (index : Z) (filePath : string) (dirExists mkpathOk saveOk : bool).

Definition logCall (c : LogCall) (m_alerts : list Alert) : list Alert :=
  match c with
  | AddSnapshotAlert id now camera imageIsNull =>
      addSnapshotAlert id now camera imageIsNull m_alerts
  | AddMotionAlert id now camera msg path => addMotionAlert id now camera msg path m_alerts
  | AddRoiMotionAlert id now camera msg path =>
      addRoiMotionAlert id now camera msg path m_alerts
  | AddTripwireAlert id now camera msg path direction =>
      addTripwireAlert id now camera msg path direction m_alerts
  | AddLoiteringAlert id now camera msg path =>
      addLoiteringAlert id now camera msg path m_alerts
  | Clear => clear m_alerts
  | RemoveAlert index => removeAlert index m_alerts
  | RemoveAlerts indices => removeAlerts indices m_alerts
  | ExportSnapshotAsPng index filePath dirExists mkpathOk saveOk =>
      snd (exportSnapshotAsPng index filePath dirExists mkpathOk saveOk m_alerts)
  end.

Definition logCalls (cs : list LogCall) (m_alerts : list Alert) : list Alert :=
  fold_left (fun acc c => logCall c acc) cs m_alerts.

Definition alertTypes : list string :=
  ["snapshot"; "motion"; "motion_roi"; "tripwire"; "loitering"].

(** What holds of every alert of the list. *)
Definition alertOk (a : Alert) : Prop :=
  In (alert_type a) alertTypes
  /\ message a <> ""
  /\ (hasImage a = true -> alert_type a = "snapshot")
  /\ (alert_type a = "snapshot" ->
      (message a = "Snapshot captured (unsaved)" /\ snapshotPath a = "")
      \/ message a = "Snapshot saved").

Local Close Scope string_scope.

(** Scenario: a list of three alerts built by the model's own calls. *)
Definition threeAlerts : list Alert :=
  logCalls [AddMotionAlert "20250101120000000" 1000 "Front Door" "" "";
            AddSnapshotAlert "20250101120001000" 2000 "Front Door" false;
            AddTripwireAlert "20250101120002000" 3000 "Back Yard"
                             "Tripwire crossed (forward)" "" 1]
           [].

(** * Camera manager: queries, edits and saving (CameraManager.cpp) *)

Local Open Scope string_scope.

(** [obj[key] = v]. *)
Fixpoint setMember (key : string) (v : QJsonValue) (obj : QJsonObject) : QJsonObject :=
  match obj with
  | [] => [(key, v)]
  | (k, w) :: rest =>
      if String.eqb k key then (k, v) :: rest else (k, w) :: setMember key v rest
  end.

(** The object [exportAlertsToJson] builds for one alert. *)
Definition alertJson (isoDate : QDateTime -> string) (a : Alert) : QJsonValue :=
  JObject
    (setMember "hasImage" (JBool (hasImage a))
       (setMember "snapshotPath" (JString (snapshotPath a))
          (setMember "message" (JString (message a))
             (setMember "type" (JString (alert_type a))
                (setMember "cameraName" (JString (cameraName a))
                   (setMember "timestamp" (JString (isoDate (timestamp a)))
                      (setMember "id" (JString (alert_id a)) []))))))).

(** [AlertLogModel::exportAlertsToJson]: the return value and the document
    written; [now] is the clock at the export. *)
Definition exportAlertsToJson (isoDate : QDateTime -> string) (now : QDateTime)
  (dirExists mkpathOk openOk : bool) (alerts : list Alert)
  : bool * option QJsonDocument :=
  if negb dirExists && negb mkpathOk then (false, None)
  else
    let root :=
      setMember "totalCount" (JDouble (inject_Z (Z.of_nat (List.length alerts))))
        (setMember "exportTime" (JString (isoDate now))
           (setMember "alerts" (JArray (map (alertJson isoDate) alerts)) [])) in
    if negb openOk then (false, None) else (true, Some (DocObject root)).

(** [AlertLogModel::exportSelectedToJson]. *)
Definition exportSelectedToJson (isoDate : QDateTime -> string) (now : QDateTime)
  (dirExists mkpathOk openOk : bool) (indices : list (option Z))
  (m_alerts : list Alert) : bool * option QJsonDocument :=
  match selectAlerts indices m_alerts with
  | [] => (false, None)
  | selectedAlerts =>
      exportAlertsToJson isoDate now dirExists mkpathOk openOk selectedAlerts
  end.

(** Reading an alert object back with Qt's accessors: the six text
    fields in the order of the CSV columns, and the image flag. *)
Definition alertOfJson (v : QJsonValue) : list string * bool :=
  let obj := toObject v in
  ([toString (member "id" obj); toString (member "timestamp" obj);
    toString (member "cameraName" obj); toString (member "type" obj);
    toString (member "message" obj); toString (member "snapshotPath" obj)],
   toBool (member "hasImage" obj)).

(** The object [saveConfiguration] writes for a point. *)
Definition pointObject (p : QPointF) : QJsonValue :=
  JObject (setMember "y" (JDouble (py p)) (setMember "x" (JDouble (px p)) [])).

(** The body of the loop of [saveConfiguration].  [toInt] is
    [QString::toInt(&ok)] ([None]: not ok), [intText] is
    [QString::number(int)]. *)
Definition cameraObject (toInt : string -> option Z) (intText : Z -> string)
  (config : CameraConfig) : QJsonValue :=
  let camObj0 :=
    setMember "type" (JString (cfg_type config))
      (setMember "name" (JString (cfg_name config))
         (setMember "id" (JString (cfg_id config)) [])) in
  let camObj1 :=
    match toInt (cfg_source config) with
    | Some sourceInt => setMember "source" (JString (intText sourceInt)) camObj0
    | None => setMember "source" (JString (cfg_source config)) camObj0
    end in
  let camObj2 := setMember "enabled" (JBool (cfg_enabled config)) camObj1 in
  let roiObj := setMember "points" (JArray (map pointObject (cfg_roiPoints config))) [] in
  let camObj3 := setMember "roi" (JObject roiObj) camObj2 in
  let tripObj :=
    setMember "end" (pointObject (cfg_tripwireEnd config))
      (setMember "start" (pointObject (cfg_tripwireStart config)) []) in
  JObject (setMember "tripwire" (JObject tripObj) camObj3).

(** [CameraManager::saveConfiguration]: the return value and the document
    written; [openOk] is whether the file can be opened for writing. *)
Definition saveConfiguration (toInt : string -> option Z) (intText : Z -> string)
  (openOk : bool) (configs : list CameraConfig) : bool * option QJsonDocument :=
  if negb openOk then (false, None)
  else
    (true,
     Some (DocObject
             (setMember "cameras" (JArray (map (cameraObject toInt intText) configs)) []))).

(** The queries and edits of the manager, under its name. *)
Module Manager.

(** The configuration at the 1-based [index], when [idx >= 0 && idx <
    m_configs.size()]. *)
Definition configAt (index : Z) (configs : list CameraConfig) : option CameraConfig :=
  let idx := (index - 1)%Z in
  if ((0 <=? idx) && (idx <? Z.of_nat (List.length configs)))%Z
  then nth_error configs (Z.to_nat idx)
  else None.

(** [cameraName], [cameraType], [cameraSource]; [intText] prints the index
    in the name of a camera that is not configured. *)
Definition cameraName (intText : Z -> string) (index : Z) (mgr : CameraManager)
  : string :=
  match configAt index (m_configs mgr) with
  | Some config => cfg_name config
  | None => "Camera " ++ intText index
  end.

Definition cameraType (index : Z) (mgr : CameraManager) : string :=
  match configAt index (m_configs mgr) with
  | Some config => cfg_type config
  | None => "unknown"
  end.

Definition cameraSource (index : Z) (mgr : CameraManager) : string :=
  match configAt index (m_configs mgr) with
  | Some config => cfg_source config
  | None => ""
  end.

(** [cameraAvailable]. *)
Definition cameraAvailable (index : Z) (mgr : CameraManager) : bool :=
  let idx := (index - 1)%Z in
  ((0 <=? idx) && (idx <? Z.of_nat (List.length (m_cameras mgr))))%Z
  && match nth_error (m_cameras mgr) (Z.to_nat idx) with
     | Some (Some _) => true
     | _ => false
     end.

(** [roiPoints], [hasRoi], [hasTripwire]; the points are answered as a
    list of maps with the keys x and y, modelled by the points. *)
Definition roiPoints (index : Z) (mgr : CameraManager) : list QPointF :=
  match configAt index (m_configs mgr) with
  | Some config => cfg_roiPoints config
  | None => []
  end.

Definition hasRoi (index : Z) (mgr : CameraManager) : bool :=
  match configAt index (m_configs mgr) with
  | Some config => cfg_hasRoi config
  | None => false
  end.

Definition hasTripwire (index : Z) (mgr : CameraManager) : bool :=
  match configAt index (m_configs mgr) with
  | Some config => cfg_hasTripwire config
  | None => false
  end.

(** [tripwire]: the map with the key has, and the four coordinates when a
    tripwire is held. *)
Definition tripwire (index : Z) (mgr : CameraManager) : option (QPointF * QPointF) :=
  match configAt index (m_configs mgr) with
  | Some config =>
      if cfg_hasTripwire config
      then Some (cfg_tripwireStart config, cfg_tripwireEnd config)
      else None
  | None => None
  end.

(** [m_configs[idx] = config]. *)
Definition setConfigAt (index : Z) (config : CameraConfig) (configs : list CameraConfig)
  : list CameraConfig :=
  (firstn (Z.to_nat (index - 1)) configs
   ++ config :: skipn (S (Z.to_nat (index - 1))) configs)%list.

(** What an edit does besides changing [m_configs]: the call it makes on
    the stream of the slot, when the slot holds one, and the document
    [saveConfiguration] writes. *)
Record EditOutcome := mkOutcome {
  out_manager : CameraManager;
  out_streamCall : option Msg;
  out_saved : option QJsonDocument
}.

Definition editConfig (toInt : string -> option Z) (intText : Z -> string)
  (openOk : bool) (index : Z) (change : CameraConfig -> CameraConfig)
  (call : CameraConfig -> Msg) (mgr : CameraManager) : EditOutcome :=
  match configAt index (m_configs mgr) with
  | None => mkOutcome mgr None None
  | Some config =>
      let configs' := setConfigAt index (change config) (m_configs mgr) in
      mkOutcome (mkManager configs' (m_cameras mgr))
                (if cameraAvailable index mgr then Some (call (change config)) else None)
                (snd (saveConfiguration toInt intText openOk configs'))
  end.

(** [CameraManager::setRoi]; [points] are the points the entries of the
    list convert to. *)
Definition setRoi (toInt : string -> option Z) (intText : Z -> string) (openOk : bool)
  (index : Z) (points : list QPointF) (mgr : CameraManager) : EditOutcome :=
  editConfig toInt intText openOk index
    (fun c => mkConfig (cfg_id c) (cfg_name c) (cfg_type c) (cfg_source c) (cfg_enabled c)
                       points (cfg_tripwireStart c) (cfg_tripwireEnd c)
                       (negb (Nat.eqb (List.length points) 0)) (cfg_hasTripwire c))
    (fun c => SetRoiPolygon (cfg_roiPoints c)) mgr.

(** [CameraManager::clearRoi]. *)
Definition clearRoi (toInt : string -> option Z) (intText : Z -> string)
  (openOk : bool) (index : Z) (mgr : CameraManager) : EditOutcome :=
  editConfig toInt intText openOk index
    (fun c => mkConfig (cfg_id c) (cfg_name c) (cfg_type c) (cfg_source c) (cfg_enabled c)
                       [] (cfg_tripwireStart c) (cfg_tripwireEnd c)
                       false (cfg_hasTripwire c))
    (fun _ => ClearRoi) mgr.

(** [CameraManager::setTripwire]. *)
Definition setTripwire (toInt : string -> option Z) (intText : Z -> string)
  (openOk : bool) (index : Z) (startX startY endX endY : Q) (mgr : CameraManager)
  : EditOutcome :=
  editConfig toInt intText openOk index
    (fun c => mkConfig (cfg_id c) (cfg_name c) (cfg_type c) (cfg_source c) (cfg_enabled c)
                       (cfg_roiPoints c) (mkPoint startX startY) (mkPoint endX endY)
                       (cfg_hasRoi c) true)
    (fun c => SetTripwire (cfg_tripwireStart c) (cfg_tripwireEnd c)) mgr.

(** [CameraManager::clearTripwire]. *)
Definition clearTripwire (toInt : string -> option Z) (intText : Z -> string)
  (openOk : bool) (index : Z) (mgr : CameraManager) : EditOutcome :=
  editConfig toInt intText openOk index
    (fun c => mkConfig (cfg_id c) (cfg_name c) (cfg_type c) (cfg_source c) (cfg_enabled c)
                       (cfg_roiPoints c) origin origin (cfg_hasRoi c) false)
    (fun _ => ClearTripwire) mgr.

End Manager.

(** The test the loader applies to the end points of a tripwire. *)
Definition tripwireCounts (a b : QPointF) : bool :=
  negb (QPointF_isNull a && QPointF_isNull b)
  && negb (qFuzzyIsNull (px a) && qFuzzyIsNull (py a)
           && qFuzzyIsNull (px b) && qFuzzyIsNull (py b)).

(** A configuration that survives being saved and loaded: its flags agree
    with its points the way the loader computes them, and its source is
    either no integer or the way [QString::number] prints that integer. *)
Definition storable (toInt : string -> option Z) (intText : Z -> string)
  (c : CameraConfig) : Prop :=
  cfg_hasRoi c = negb (Nat.eqb (List.length (cfg_roiPoints c)) 0)
  /\ cfg_hasTripwire c = tripwireCounts (cfg_tripwireStart c) (cfg_tripwireEnd c)
  /\ match toInt (cfg_source c) with
     | Some n => intText n = cfg_source c
     | None => True
     end.

Local Close Scope string_scope.

(** Scenario: enough of [QString::toInt] and [QString::number] for the
    device indices 0 to 3, two configurations, and the manager that holds
    them. *)
Definition deviceToInt (s : string) : option Z :=
  if String.eqb s "0" then Some 0
  else if String.eqb s "1" then Some 1
  else if String.eqb s "2" then Some 2
  else if String.eqb s "3" then Some 3
  else None.

Definition deviceText (n : Z) : string :=
  if n =? 0 then "0"%string
  else if n =? 1 then "1"%string
  else if n =? 2 then "2"%string
  else if n =? 3 then "3"%string
  else "?"%string.

Definition frontDoor : CameraConfig :=
  mkConfig "cam1" "Front Door" "usb" "0" true (m_roiNorm squareRoi) wireStart wireEnd
           true true.

Definition garage : CameraConfig :=
  mkConfig "cam2" "Garage" "rtsp" "rtsp://10.0.0.7/stream" false [] origin origin
           false false.

Definition twoCameras : CameraManager :=
  mkManager [frontDoor; garage] (createCameraStreams (Some loadedDetector)
                                                    [frontDoor; garage]).

(** Scenario: a configuration file that lists five cameras. *)
Definition fiveCameras : QJsonObject :=
  [("cameras"%string,
    JArray (map (cameraObject deviceToInt deviceText)
                [frontDoor; garage; frontDoor; garage; frontDoor]))].

(** * HTTP server (HttpServer.h, httpServer.cpp)

    A request is answered by one response; the socket, the status line and
    the fixed headers of [sendResponse] are left out, the body is kept as
    the JSON value, the text or the image bytes it is made from. *)

Local Open Scope string_scope.

Module Http.

Inductive Body :=
| TextBody (text : string)
| JsonBody (doc : QJsonValue)
| ImageBody (data : string).

Record Response := mkResponse {
  statusCode : Z;
  statusText : string;
  contentType : string;
  body : Body
}.

(** What the file system answers for a path, and what a stream answers
    for its current frame. *)
Inductive FileState := Missing | Unreadable | Readable (data : string).

Inductive FrameState := NoFrame | EncodeFails | Jpeg (data : string).

(** What the handlers take from outside: Qt's conversions between
    integers and text, the format of a timestamp, the file system, and the
    current frame of the stream in each slot (by 1-based index). *)
Record World := mkWorld {
  toInt : string -> option Z;          (* [QString::toInt(&ok)] *)
  intText : Z -> string;               (* [QString("...%1").arg(int)] *)
  stampText : QDateTime -> string;     (* [toString("yyyy-MM-dd HH:mm:ss")] *)
  fileAt : string -> FileState;
  frameAt : Z -> FrameState
}.

(** The two services of the server; [None]: the pointer is null. *)
Record Services := mkServices {
  m_alertLogModel : option (list Alert);
  m_cameraManager : option CameraManager
}.

(** [s.endsWith(suffix)]: some tail of [s] is [suffix]. *)
Fixpoint endsWith (suffix s : string) : bool :=
  String.eqb s suffix
  || match s with
     | EmptyString => false
     | String _ rest => endsWith suffix rest
     end.

(** [s.mid(position, n)] for a position that is not negative: nothing
    when the position is beyond the end, the rest of the string when [n]
    is negative or reaches beyond the end. *)
Definition mid (position n : Z) (s : string) : string :=
  let size := Z.of_nat (String.length s) in
  if (size <? position)%Z then ""
  else if ((n <? 0) || (size - position <? n))%Z
  then String.substring (Z.to_nat position) (Z.to_nat (size - position)) s
  else String.substring (Z.to_nat position) (Z.to_nat n) s.

(** [sendResponse] through [sendJsonResponse], [sendImageResponse],
    [sendNotFound] and [sendError]. *)
Definition sendJsonResponse (code : Z) (json : QJsonValue) : Response :=
  mkResponse code (if (code =? 200)%Z then "OK" else "Error") "application/json"
             (JsonBody json).

Definition sendImageResponse (imageData mimeType : string) : Response :=
  mkResponse 200 "OK" mimeType (ImageBody imageData).

Definition sendNotFound (msg : string) : Response :=
  sendJsonResponse 404 (JObject (setMember "error" (JString msg) [])).

Definition sendError (code : Z) (msg : string) : Response :=
  mkResponse code msg "application/json"
             (JsonBody
                (JObject (setMember "statusCode" (JDouble (inject_Z code))
                            (setMember "error" (JString msg) [])))).

(** [HttpServer::handlePing]. *)
Definition handlePing : Response := mkResponse 200 "OK" "text/plain" (TextBody "ok").

(** The object [handleGetAlerts] builds for one row. *)
Definition alertObject (w : World) (a : Alert) : QJsonValue :=
  let alertObj :=
    setMember "hasSnapshot" (JBool (hasImage a))
      (setMember "message" (JString (message a))
         (setMember "type" (JString (alert_type a))
            (setMember "cameraName" (JString (cameraName a))
               (setMember "timestamp" (JString (stampText w (timestamp a)))
                  (setMember "id" (JString (alert_id a)) []))))) in
  JObject (if String.eqb (snapshotPath a) "" then alertObj
           else setMember "snapshotPath" (JString (snapshotPath a)) alertObj).

(** The loop [for (int i = count - 1; i >= 0; --i)]: [i] rows are left. *)
Fixpoint alertsBelow (w : World) (i : nat) (alerts : list Alert) : list QJsonValue :=
  match i with
  | O => []
  | S k =>
      match nth_error alerts k with
      | Some a => alertObject w a :: alertsBelow w k alerts
      | None => alertsBelow w k alerts
      end
  end.

(** [HttpServer::handleGetAlerts]. *)
Definition handleGetAlerts (w : World) (sv : Services) : Response :=
  match m_alertLogModel sv with
  | None => sendError 503 "Alert service not available"
  | Some alerts =>
      sendJsonResponse 200 (JArray (alertsBelow w (List.length alerts) alerts))
  end.

(** The search loop of [handleGetAlertSnapshot]: the path of the first row
    with the id. *)
Fixpoint findSnapshotPath (alertId : string) (alerts : list Alert) : option string :=
  match alerts with
  | [] => None
  | a :: rest =>
      if String.eqb (alert_id a) alertId then Some (snapshotPath a)
      else findSnapshotPath alertId rest
  end.

(** [HttpServer::handleGetAlertSnapshot]. *)
Definition handleGetAlertSnapshot (w : World) (sv : Services) (alertId : string)
  : Response :=
  match m_alertLogModel sv with
  | None => sendError 503 "Alert service not available"
  | Some alerts =>
      match findSnapshotPath alertId alerts with
      | None => sendNotFound "Alert not found"
      | Some path =>
          if String.eqb path "" then sendNotFound "Snapshot not available"
          else
            match fileAt w path with
            | Readable imageData =>
                sendImageResponse imageData
                  (if endsWith ".jpg" path || endsWith ".jpeg" path
                   then "image/jpeg" else "image/png")
            | _ => sendNotFound "Snapshot not available"
            end
      end
  end.

(** The object [handleGetCameras] builds for the available camera [i]. *)
Definition cameraEntry (w : World) (mgr : CameraManager) (i : Z) : QJsonValue :=
  JObject
    (setMember "source" (JString (Manager.cameraSource i mgr))
       (setMember "type" (JString (Manager.cameraType i mgr))
          (setMember "name" (JString (Manager.cameraName (intText w) i mgr))
             (setMember "id" (JString ("cam" ++ intText w (i - 1))) [])))).

Definition cameraEntries (w : World) (mgr : CameraManager) : list QJsonValue :=
  flat_map (fun i => if Manager.cameraAvailable i mgr then [cameraEntry w mgr i] else [])
           [1; 2; 3; 4]%Z.

(** [HttpServer::handleGetCameras]. *)
Definition handleGetCameras (w : World) (sv : Services) : Response :=
  match m_cameraManager sv with
  | None => sendError 503 "Camera service not available"
  | Some mgr => sendJsonResponse 200 (JArray (cameraEntries w mgr))
  end.

(** [camera1()] to [camera4()]: [m_cameras.value(i, nullptr)] is not null. *)
Definition streamExists (managerIndex : Z) (mgr : CameraManager) : bool :=
  match nth_error (m_cameras mgr) (Z.to_nat (managerIndex - 1)) with
  | Some (Some _) => true
  | _ => false
  end.

(** [HttpServer::handleGetCameraSnapshot]. *)
Definition handleGetCameraSnapshot (w : World) (sv : Services) (cameraId : string)
  : Response :=
  match m_cameraManager sv with
  | None => sendError 503 "Camera service not available"
  | Some mgr =>
      if negb (String.prefix "cam" cameraId) then sendNotFound "Invalid camera ID"
      else
        match toInt w (mid 3 (-1) cameraId) with
        | None => sendNotFound "Invalid camera ID"
        | Some cameraIndex =>
            if ((cameraIndex <? 0) || (3 <? cameraIndex))%Z
            then sendNotFound "Invalid camera ID"
            else
              let managerIndex := (cameraIndex + 1)%Z in
              if negb (Manager.cameraAvailable managerIndex mgr)
              then sendNotFound "Camera not available"
              else if negb (streamExists managerIndex mgr)
              then sendNotFound "Camera stream not available"
              else
                match frameAt w managerIndex with
                | NoFrame => sendError 503 "No frame available"
                | EncodeFails => sendError 500 "Failed to encode image"
                | Jpeg imageData => sendImageResponse imageData "image/jpeg"
                end
        end
  end.

(** [HttpServer::handleRequest]. *)
Definition handleRequest (w : World) (sv : Services) (method path : string) : Response :=
  if negb (String.eqb method "GET") then sendError 405 "Method Not Allowed"
  else if String.eqb path "/ping" then handlePing
  else if String.eqb path "/alerts" then handleGetAlerts w sv
  else if String.prefix "/alerts/" path && endsWith "/snapshot" path then
    handleGetAlertSnapshot w sv
      (mid 8 (Z.of_nat (String.length path) - 8 - 9) path)
  else if String.eqb path "/cameras" then handleGetCameras w sv
  else if String.prefix "/cameras/" path && endsWith "/snapshot" path then
    handleGetCameraSnapshot w sv
      (mid 9 (Z.of_nat (String.length path) - 9 - 9) path)
  else sendNotFound "Not Found".

(** The id of an entry of the array [handleGetCameras] answers. *)
Definition entryId (entry : QJsonValue) : string :=
  toString (member "id" (toObject entry)).

End Http.

(** Scenario: a world in which device indices are printed and read the
    usual way, no file exists and no stream has a frame yet. *)
Definition quietWorld : Http.World :=
  Http.mkWorld deviceToInt deviceText sampleIsoDate
               (fun _ => Http.Missing) (fun _ => Http.NoFrame).

Local Close Scope string_scope.

(** Scenario: the server with the three alerts and the two cameras. *)
Definition liveServices : Http.Services :=
  Http.mkServices (Some threeAlerts) (Some twoCameras).

(** Scenario: a worker is started at t = 1000 and captures ten frames, the
    tenth at t = 1330. *)
Definition tenFrames : list Msg :=
  Start true 1000 :: repeat (TimerTick (quietFrame 1330)) 10.

(** Scenario: the world after the snapshot of the front door was saved. *)
Definition savedWorld : Http.World :=
  Http.mkWorld deviceToInt deviceText sampleIsoDate
               (fun path => if String.eqb path "out/door.png"
                            then Http.Readable "PNG" else Http.Missing)
               (fun _ => Http.NoFrame).

(** * The analytics in binary64

    The comparisons of the worker against a threshold are decided by the
    last bit of a [double]: the model above, over the exact rationals,
    answers them differently on a boundary.  This part embeds the same
    functions of CameraStream.cpp with the arithmetic the program has:
    IEEE-754 binary64 ([prec = 53], [emax = 1024]), every operation of the
    source rounded to nearest, ties to even, in the order in which the
    source writes it (no fused multiply-add), with signed zeros, infinities
    and NaN.  The properties that hang on such a comparison are stated on
    this part. *)

Module B64.

(** ** The type [double] *)

Definition double : Type := spec_float.

Definition prec : Z := 53.
Definition emax : Z := 1024.

(** The values of the type: a finite [double] has a canonical mantissa and
    exponent. *)
Definition valid (x : double) : bool := valid_binary prec emax x.

Definition zero : double := S754_zero false.

(** Conversion of an [int] or [qint64]; exact below [2^53]. *)
Definition of_int (n : Z) : double := binary_normalize prec emax n 0 false.

Definition add : double -> double -> double := SFadd prec emax.
Definition sub : double -> double -> double := SFsub prec emax.
Definition mul : double -> double -> double := SFmul prec emax.
Definition div : double -> double -> double := SFdiv prec emax.
Definition sqrt : double -> double := SFsqrt prec emax.
Definition opp : double -> double := SFopp.

(** [std::abs]. *)
Definition abs : double -> double := SFabs.

(** [a < b], [a <= b], [a == b]; [a > b] is [ltb b a].  Every comparison
    with a NaN is false. *)
Definition ltb : double -> double -> bool := SFltb.
Definition leb : double -> double -> bool := SFleb.
Definition eqb : double -> double -> bool := SFeqb.

Declare Scope double_scope.
Delimit Scope double_scope with D.
Bind Scope double_scope with double.

Infix "+" := add : double_scope.
Infix "-" := sub : double_scope.
Infix "*" := mul : double_scope.
Infix "/" := div : double_scope.
Infix "<?" := ltb : double_scope.
Infix "<=?" := leb : double_scope.

Local Open Scope double_scope.

(** The decimal literal [n/d] of the source, for [n] and [d] below [2^53]:
    both conversions are exact and the division rounds once, to the
    [double] nearest to the decimal. *)
Definition lit (n d : Z) : double := of_int n / of_int d.

(** The exact value of a finite [double], zero for the others. *)
Definition B2R (x : double) : R :=
  match x with
  | S754_finite s m e =>
      ((if s then - IZR (Zpos m) else IZR (Zpos m)) * powerRZ 2 e)%R
  | _ => 0%R
  end.

Definition toQ (x : double) : Q :=
  match x with
  | S754_finite s m e =>
      ((if s then - inject_Z (Zpos m) else inject_Z (Zpos m)) * Qpower 2 e)%Q
  | _ => 0%Q
  end.

(** ** Points: [QPointF] and Qt's comparison on [double] *)

Record QPointF := mkPoint { px : double; py : double }.

(** [qAbs(t)] is [t >= 0 ? t : -t]; [qMin(a, b)] is [(a < b) ? a : b]. *)
Definition qAbs (t : double) : double := if zero <=? t then t else opp t.
Definition qMin (a b : double) : double := if a <? b then a else b.

Definition qFuzzyIsNull (d : double) : bool :=
  qAbs d <=? lit 1 1000000000000.

Definition qFuzzyCompare (p1 p2 : double) : bool :=
  qAbs (p1 - p2) * of_int 1000000000000 <=? qMin (qAbs p1) (qAbs p2).

(** [!d]: the value is a zero. *)
Definition qIsZero (d : double) : bool := eqb d zero.

Definition fuzzyCoordEq (a b : double) : bool :=
  if qIsZero a || qIsZero b then qFuzzyIsNull (a - b) else qFuzzyCompare a b.

Definition QPointF_eq (p1 p2 : QPointF) : bool :=
  fuzzyCoordEq (px p1) (px p2) && fuzzyCoordEq (py p1) (py p2).

Definition origin : QPointF := mkPoint zero zero.

(** ** Tracks (CameraStream.h, [struct TrackState]) *)

Record TrackState := mkTrack {
  track_id : Z;
  label : string;
  centroid : QPointF;
  prevCentroid : QPointF;
  firstSeenMs : Z;
  lastSeenMs : Z;
  insideRoi : bool;
  loiterAlertSent : bool;
  lastTripwireAlertMs : Z;
  enteredRoiMs : Z
}.

Definition TrackState_default : TrackState :=
  mkTrack 0 EmptyString origin origin 0 0 false false 0 0.

(** [QMap<int, TrackState>], in ascending key order. *)
Definition Tracks := list (Z * TrackState).

Fixpoint tracks_find (k : Z) (m : Tracks) : option TrackState :=
  match m with
  | [] => None
  | (k', v) :: r => if (k' =? k)%Z then Some v else tracks_find k r
  end.

Fixpoint tracks_insert (k : Z) (v : TrackState) (m : Tracks) : Tracks :=
  match m with
  | [] => [(k, v)]
  | (k', v') :: r =>
      if (k <? k')%Z then (k, v) :: m
      else if (k =? k')%Z then (k, v) :: r
      else (k', v') :: tracks_insert k v r
  end.

Definition tracks_at (k : Z) (m : Tracks) : TrackState :=
  match tracks_find k m with Some v => v | None => TrackState_default end.

Definition tracks_remove (k : Z) (m : Tracks) : Tracks :=
  filter (fun e => negb (fst e =? k)%Z) m.

(** ** Signals *)

Inductive Event :=
| motionDetected (mscore : double) (stamp : Z)
| roiMotionDetected (rscore : double) (stamp : Z)
| tripwireCrossed (direction : Z) (stamp : Z)
| trackCrossedTripwire (trackId : Z) (tlabel : string) (tdirection : string) (stamp : Z)
| loiteringDetected (trackId : Z) (tlabel : string) (durationMs : Z) (stamp : Z).

(** ** Constants (CameraStream.h) *)

Definition MAX_TRACK_DISTANCE : double := lit 1 10.
Definition LINE_EPSILON : double := lit 1 10000.

(** ** Worker state: the members the analytics read and write *)

Record MotionState := mkMotion {
  m_motionEnabled : bool;
  m_motionSensitivity : double;
  m_lastMotionTime : Z
}.

Record RoiState := mkRoi {
  m_roiNorm : list QPointF;
  m_hasRoi : bool;
  m_lastRoiAlertTime : Z
}.

Record TripwireState := mkTripwire {
  m_tripwireStartNorm : QPointF;
  m_tripwireEndNorm : QPointF;
  m_hasTripwire : bool;
  m_lastTripwireAlertTime : Z;
  m_prevSide : double;
  m_hasPrevSide : bool
}.

Record TrackerState := mkTracker {
  m_tracks : Tracks;
  m_nextTrackId : Z
}.

Record CaptureWorker := mkWorker {
  w_motion : MotionState;
  w_roi : RoiState;
  w_tripwire : TripwireState;
  w_detector : option ObjectDetector;      (* [m_detector] *)
  w_tracker : TrackerState
}.

(** The members as [CaptureWorker::CaptureWorker] initialises them. *)
Definition CaptureWorker_new : CaptureWorker :=
  mkWorker (mkMotion false (of_int 50) 0)
           (mkRoi [] false 0)
           (mkTripwire origin origin false 0 zero false)
           None
           (mkTracker [] 1).

(** What the motion path observes of one frame: the pixel counts and the
    moments of the foreground mask as OpenCV returns them, and the clock
    at each place the code reads it. *)
Record Frame := mkFrame {
  frame_cols : Z;
  frame_rows : Z;
  fg_nonZero : Z;                  (* [countNonZero(fgMask)] after open and close *)
  roi_area : Z;                    (* [countNonZero(roiMask)] *)
  roi_nonZero : Z;                 (* [countNonZero(roiMotion)] *)
  mom_m00 : double;                (* [cv::moments(motionMask, true)] *)
  mom_m10 : double;
  mom_m01 : double;
  clock_motion : Z;
  clock_roi : Z;
  clock_tripwire : Z
}.

(** ** Motion detector *)

(** [10.0 - (m_motionSensitivity / 100.0) * 9.5]. *)
Definition motionThreshold (sensitivity : double) : double :=
  of_int 10 - (sensitivity / of_int 100) * lit 95 10.

(** [(pixels * 100.0) / total]. *)
Definition percentage (pixels total : Z) : double :=
  (of_int pixels * of_int 100) / of_int total.

(** [CaptureWorker::processRoiMotion]. *)
Definition processRoiMotion (sensitivity : double) (f : Frame) (r : RoiState)
  : RoiState * list Event :=
  if (Z.of_nat (List.length (m_roiNorm r)) <? 3)%Z then (r, [])
  else if (roi_area f =? 0)%Z then (r, [])
  else
    let roiScore := percentage (roi_nonZero f) (roi_area f) in
    let threshold := motionThreshold sensitivity in
    if threshold <? roiScore then
      let currentTime := clock_roi f in
      if (3000 <? currentTime - m_lastRoiAlertTime r)%Z then
        (mkRoi (m_roiNorm r) (m_hasRoi r) currentTime,
         [roiMotionDetected roiScore currentTime])
      else (r, [])
    else (r, []).

(** The side value, the length of the line and the distance of the mask
    centroid from it, as [processTripwire] computes them in pixels. *)
Definition maskSideValue (f : Frame) (t : TripwireState) : double :=
  let cx := mom_m10 f / mom_m00 f in
  let cy := mom_m01 f / mom_m00 f in
  let x1 := px (m_tripwireStartNorm t) * of_int (frame_cols f) in
  let y1 := py (m_tripwireStartNorm t) * of_int (frame_rows f) in
  let x2 := px (m_tripwireEndNorm t) * of_int (frame_cols f) in
  let y2 := py (m_tripwireEndNorm t) * of_int (frame_rows f) in
  (cx - x1) * (y2 - y1) - (cy - y1) * (x2 - x1).

Definition lineLength (f : Frame) (t : TripwireState) : double :=
  let x1 := px (m_tripwireStartNorm t) * of_int (frame_cols f) in
  let y1 := py (m_tripwireStartNorm t) * of_int (frame_rows f) in
  let x2 := px (m_tripwireEndNorm t) * of_int (frame_cols f) in
  let y2 := py (m_tripwireEndNorm t) * of_int (frame_rows f) in
  sqrt ((x2 - x1) * (x2 - x1) + (y2 - y1) * (y2 - y1)).

Definition maskDistance (f : Frame) (t : TripwireState) : double :=
  abs (maskSideValue f t) / lineLength f t.

(** [CaptureWorker::processTripwire]. *)
Definition processTripwire (f : Frame) (t : TripwireState)
  : TripwireState * list Event :=
  if mom_m00 f <? of_int 100 then
    (mkTripwire (m_tripwireStartNorm t) (m_tripwireEndNorm t) (m_hasTripwire t)
                (m_lastTripwireAlertTime t) (m_prevSide t) false, [])
  else
    let curSide := maskSideValue f t in
    let fired :=
      m_hasPrevSide t && (curSide * m_prevSide t <? of_int 0)
      && (maskDistance f t <? of_int 50)
      && (2000 <? clock_tripwire f - m_lastTripwireAlertTime t)%Z in
    let direction :=
      if (of_int 0 <? curSide) && (m_prevSide t <? of_int 0) then 1%Z else (-1)%Z in
    (mkTripwire (m_tripwireStartNorm t) (m_tripwireEndNorm t) (m_hasTripwire t)
                (if fired then clock_tripwire f else m_lastTripwireAlertTime t)
                curSide true,
     if fired then [tripwireCrossed direction (clock_tripwire f)] else []).

(** [CaptureWorker::processMotionDetection]. *)
Definition processMotionDetection (f : Frame) (w : CaptureWorker)
  : CaptureWorker * list Event :=
  let mo := w_motion w in
  let motionScore := percentage (fg_nonZero f) (frame_rows f * frame_cols f)%Z in
  let threshold := motionThreshold (m_motionSensitivity mo) in
  let fired :=
    (threshold <? motionScore) && (2000 <? clock_motion f - m_lastMotionTime mo)%Z in
  let mo' :=
    mkMotion (m_motionEnabled mo) (m_motionSensitivity mo)
             (if fired then clock_motion f else m_lastMotionTime mo) in
  let ev1 := if fired then [motionDetected motionScore (clock_motion f)] else [] in
  let '(r', ev2) :=
    if m_hasRoi (w_roi w)
    then processRoiMotion (m_motionSensitivity mo) f (w_roi w)
    else (w_roi w, []) in
  let '(t', ev3) :=
    if m_hasTripwire (w_tripwire w)
    then processTripwire f (w_tripwire w)
    else (w_tripwire w, []) in
  (mkWorker mo' r' t' (w_detector w) (w_tracker w), ev1 ++ ev2 ++ ev3).

(** ** Line crossing of a track *)

(** [CaptureWorker::computeSideOfLine]. *)
Definition computeSideOfLine (t : TripwireState) (point : QPointF) : double :=
  let x1 := px (m_tripwireStartNorm t) in
  let y1 := py (m_tripwireStartNorm t) in
  let x2 := px (m_tripwireEndNorm t) in
  let y2 := py (m_tripwireEndNorm t) in
  (px point - x1) * (y2 - y1) - (py point - y1) * (x2 - x1).

(** [CaptureWorker::getCrossingDirection]. *)
Definition getCrossingDirection (prevSide currSide : double) : string :=
  if (prevSide <? of_int 0) && (of_int 0 <? currSide) then "left to right"%string
  else if (of_int 0 <? prevSide) && (currSide <? of_int 0) then "right to left"%string
  else "unknown"%string.

Definition setLastTripwireAlertMs (v : Z) (tr : TrackState) : TrackState :=
  mkTrack (track_id tr) (label tr) (centroid tr) (prevCentroid tr)
          (firstSeenMs tr) (lastSeenMs tr) (insideRoi tr) (loiterAlertSent tr)
          v (enteredRoiMs tr).

(** [CaptureWorker::checkLineCrossing]. *)
Definition checkLineCrossing (t : TripwireState) (currentTime : Z) (track : TrackState)
  : TrackState * list Event :=
  if QPointF_eq (centroid track) (prevCentroid track) then (track, [])
  else if (currentTime - lastTripwireAlertMs track <? TRIPWIRE_ALERT_DEBOUNCE_MS)%Z
  then (track, [])
  else
    let prevSide := computeSideOfLine t (prevCentroid track) in
    let currSide := computeSideOfLine t (centroid track) in
    if (LINE_EPSILON <? abs prevSide) && (LINE_EPSILON <? abs currSide)
       && (prevSide * currSide <? of_int 0)
    then
      let direction := getCrossingDirection prevSide currSide in
      (setLastTripwireAlertMs currentTime track,
       [trackCrossedTripwire (track_id track) (label track) direction currentTime])
    else (track, []).

(** ** ROI occupancy and loitering *)

(** One edge of the ray-casting loop of [pointInRoi]: vertex [pi] against
    the previous vertex [pj]. *)
Definition edgeCrossed (point pi pj : QPointF) : bool :=
  negb (Bool.eqb (py point <? py pi) (py point <? py pj))
  && (px point <? (px pj - px pi) * (py point - py pi) / (py pj - py pi) + px pi).

Fixpoint rayCast (point pj : QPointF) (pts : list QPointF) (inside : bool) : bool :=
  match pts with
  | [] => inside
  | pi :: rest =>
      rayCast point pi rest
              (if edgeCrossed point pi pj then negb inside else inside)
  end.

(** [CaptureWorker::pointInRoi]. *)
Definition pointInRoi (r : RoiState) (point : QPointF) : bool :=
  if negb (m_hasRoi r) || (Z.of_nat (List.length (m_roiNorm r)) <? 3)%Z then false
  else rayCast point (last (m_roiNorm r) origin) (m_roiNorm r) false.

(** [CaptureWorker::updateRoiStatus]. *)
Definition updateRoiStatus (r : RoiState) (currentTime : Z) (track : TrackState)
  : TrackState :=
  let nowInside := pointInRoi r (centroid track) in
  let entered :=
    if nowInside then
      if negb (insideRoi track) then currentTime else enteredRoiMs track
    else
      if insideRoi track then 0%Z else enteredRoiMs track in
  let sent :=
    if nowInside then loiterAlertSent track
    else if insideRoi track then false else loiterAlertSent track in
  mkTrack (track_id track) (label track) (centroid track) (prevCentroid track)
          (firstSeenMs track) (lastSeenMs track) nowInside sent
          (lastTripwireAlertMs track) entered.

(** [CaptureWorker::checkLoitering]. *)
Definition checkLoitering (currentTime : Z) (track : TrackState)
  : TrackState * list Event :=
  if negb (insideRoi track) then (track, [])
  else if loiterAlertSent track then (track, [])
  else
    let durationMs := (currentTime - enteredRoiMs track)%Z in
    if (LOITERING_THRESHOLD_MS <=? durationMs)%Z then
      (mkTrack (track_id track) (label track) (centroid track) (prevCentroid track)
               (firstSeenMs track) (lastSeenMs track) (insideRoi track) true
               (lastTripwireAlertMs track) (enteredRoiMs track),
       [loiteringDetected (track_id track) (label track) durationMs currentTime])
    else (track, []).

Definition roiAndLoitering (r : RoiState) (currentTime : Z) (track : TrackState)
  : TrackState * list Event :=
  checkLoitering currentTime (updateRoiStatus r currentTime track).

(** ** Tracker *)

Record DetectionWithCentroid := mkDwc {
  dwc_centroid : QPointF;
  detectionIndex : Z;
  dwc_label : string
}.

(** [(det.box.x + det.box.width / 2.0) / frameWidth] and the same for y. *)
Definition detectionCentroid (det : Detection) (frameWidth frameHeight : Z) : QPointF :=
  mkPoint ((of_int (rx (box det)) + of_int (rwidth (box det)) / of_int 2)
             / of_int frameWidth)
          ((of_int (ry (box det)) + of_int (rheight (box det)) / of_int 2)
             / of_int frameHeight).

(** The first loop of [updateTracks]. *)
Fixpoint collectTracked (names : list string) (i : Z) (dets : list Detection)
  (frameWidth frameHeight : Z) : list DetectionWithCentroid :=
  match dets with
  | [] => []
  | det :: rest =>
      let lbl := labelOf names det in
      let tl := collectTracked names (i + 1)%Z rest frameWidth frameHeight in
      if existsb (String.eqb lbl) trackedClasses
      then mkDwc (detectionCentroid det frameWidth frameHeight) i lbl :: tl
      else tl
  end.

(** [std::sqrt(dx*dx + dy*dy)] with [dx = track.centroid.x() - dwc.centroid.x()]. *)
Definition trackDistance (track : TrackState) (c : QPointF) : double :=
  let dx := px (centroid track) - px c in
  let dy := py (centroid track) - py c in
  sqrt (dx * dx + dy * dy).

(** The inner loop of the assignment: [best] is [(bestTrackId, bestDistance)]. *)
Definition closestStep (c : QPointF) (best : Z * double) (e : Z * TrackState)
  : Z * double :=
  let dist := trackDistance (snd e) c in
  if dist <? snd best then (fst e, dist) else best.

Definition findClosestTrack (m : Tracks) (c : QPointF) : Z * double :=
  fold_left (closestStep c) m ((-1)%Z, MAX_TRACK_DISTANCE).

Definition matchTrack (dwc : DetectionWithCentroid) (currentTime : Z) (track : TrackState)
  : TrackState :=
  mkTrack (track_id track) (label track) (dwc_centroid dwc) (centroid track)
          (firstSeenMs track) currentTime (insideRoi track) (loiterAlertSent track)
          (lastTripwireAlertMs track) (enteredRoiMs track).

Definition newTrack (newId : Z) (dwc : DetectionWithCentroid) (currentTime : Z)
  : TrackState :=
  mkTrack newId (dwc_label dwc) (dwc_centroid dwc) (dwc_centroid dwc)
          currentTime currentTime false false 0 0.

(** The body of the assignment loop for one detection; the second
    component is the id handed to [updatedTrackIds.insert]. *)
Definition assignDetection (currentTime : Z) (t : TrackerState)
  (dwc : DetectionWithCentroid) : TrackerState * Z :=
  let bestTrackId := fst (findClosestTrack (m_tracks t) (dwc_centroid dwc)) in
  if (0 <=? bestTrackId)%Z then
    (mkTracker
       (tracks_insert bestTrackId
          (matchTrack dwc currentTime (tracks_at bestTrackId (m_tracks t)))
          (m_tracks t))
       (m_nextTrackId t),
     bestTrackId)
  else
    (mkTracker
       (tracks_insert (m_nextTrackId t)
          (newTrack (m_nextTrackId t) dwc currentTime) (m_tracks t))
       (m_nextTrackId t + 1)%Z,
     m_nextTrackId t).

(** The assignment loop. *)
Fixpoint assignTracks (currentTime : Z) (dwcs : list DetectionWithCentroid)
  (t : TrackerState) : TrackerState * list Z :=
  match dwcs with
  | [] => (t, [])
  | dwc :: rest =>
      let '(t1, k) := assignDetection currentTime t dwc in
      let '(t2, ks) := assignTracks currentTime rest t1 in
      (t2, k :: ks)
  end.

(** [for (int trackId : updatedTrackIds) if (m_tracks.contains(trackId)) f(m_tracks[trackId])]. *)
Fixpoint forEachTrack (f : TrackState -> TrackState * list Event)
  (ids : list Z) (m : Tracks) : Tracks * list Event :=
  match ids with
  | [] => (m, [])
  | k :: rest =>
      match tracks_find k m with
      | Some track =>
          let '(track', ev) := f track in
          let '(m', evs) := forEachTrack f rest (tracks_insert k track' m) in
          (m', ev ++ evs)
      | None => forEachTrack f rest m
      end
  end.

(** [CaptureWorker::cleanupStaleTracks]. *)
Definition staleKeys (currentTime : Z) (m : Tracks) : list Z :=
  map fst (filter (fun e => (TRACK_TIMEOUT_MS <? currentTime - lastSeenMs (snd e))%Z) m).

Definition cleanupStaleTracks (currentTime : Z) (m : Tracks) : Tracks :=
  fold_left (fun acc k => tracks_remove k acc) (staleKeys currentTime m) m.

(** The tracker part of [updateTracks], after the detections were filtered. *)
Definition updateTracker (r : RoiState) (tw : TripwireState) (currentTime : Z)
  (dwcs : list DetectionWithCentroid) (t : TrackerState)
  : TrackerState * list Event :=
  let '(t1, assigned) := assignTracks currentTime dwcs t in
  let updatedTrackIds := qset_of assigned in
  let '(m2, ev_loiter) :=
    forEachTrack (roiAndLoitering r currentTime) updatedTrackIds (m_tracks t1) in
  let '(m3, ev_cross) :=
    if m_hasTripwire tw
    then forEachTrack (checkLineCrossing tw currentTime) updatedTrackIds m2
    else (m2, []) in
  (mkTracker (cleanupStaleTracks currentTime m3) (m_nextTrackId t1),
   ev_loiter ++ ev_cross).

(** The detections [updateTracks] keeps, with their centroids. *)
Definition trackedDetections (detections : list Detection) (frameWidth frameHeight : Z)
  (w : CaptureWorker) : list DetectionWithCentroid :=
  collectTracked (detectorClassNames (w_detector w)) 0 detections frameWidth frameHeight.

(** [CaptureWorker::updateTracks]. *)
Definition updateTracks (detections : list Detection) (frameWidth frameHeight : Z)
  (currentTime : Z) (w : CaptureWorker) : CaptureWorker * list Event :=
  let '(t', evs) :=
    updateTracker (w_roi w) (w_tripwire w) currentTime
                  (trackedDetections detections frameWidth frameHeight w)
                  (w_tracker w) in
  (mkWorker (w_motion w) (w_roi w) (w_tripwire w) (w_detector w) t', evs).

(** ** Well-formed tracker states *)

Fixpoint keysAscending (lo : Z) (m : Tracks) : bool :=
  match m with
  | [] => true
  | (k, tr) :: r => (lo <? k)%Z && (track_id tr =? k)%Z && keysAscending k r
  end.

Definition tracker_wf (t : TrackerState) : bool :=
  (0 <? m_nextTrackId t)%Z
  && keysAscending 0 (m_tracks t)
  && forallb (fun e => (fst e <? m_nextTrackId t)%Z) (m_tracks t).

(** The tracker before the [i]-th kept detection of an invocation is
    assigned. *)
Definition trackerBefore (currentTime : Z) (dwcs : list DetectionWithCentroid)
  (i : nat) (t : TrackerState) : TrackerState :=
  fst (assignTracks currentTime (firstn i dwcs) t).

(** The ids the assignment loop hands out, detection by detection. *)
Definition assignedIds (currentTime : Z) (dwcs : list DetectionWithCentroid)
  (t : TrackerState) : list Z :=
  snd (assignTracks currentTime dwcs t).

End B64.
(** * Properties *)

(** ** Rational comparisons *)

Lemma Qltb_lt (a b : Q) : Qltb a b = true <-> (a < b)%Q.
Proof.
  unfold Qltb. rewrite negb_true_iff. split; intro H.
  - apply Qnot_le_lt. intro Hle. apply Qle_bool_iff in Hle. congruence.
  - destruct (Qle_bool b a) eqn:E; [|reflexivity].
    apply Qle_bool_iff in E. exfalso. revert H. apply Qle_not_lt, E.
Qed.

Lemma Qltb_ge (a b : Q) : Qltb a b = false <-> (b <= a)%Q.
Proof.
  unfold Qltb. rewrite negb_false_iff. apply Qle_bool_iff.
Qed.


(** ** Which events each path can emit *)

Lemma forEachTrack_events (P : Event -> Prop) f ids :
  (forall tr e, In e (snd (f tr)) -> P e) ->
  forall m e, In e (snd (forEachTrack f ids m)) -> P e.
Proof.
  intros Hf. induction ids as [|k rest IH]; intros m e; simpl.
  - intros [].
  - destruct (tracks_find k m) as [tr|]; [|apply IH].
    specialize (Hf tr). destruct (f tr) as [tr' ev].
    specialize (IH (tracks_insert k tr' m)).
    destruct (forEachTrack f rest (tracks_insert k tr' m)) as [m' evs].
    simpl in *. intros Hin. apply in_app_or in Hin as [Hin|Hin]; auto.
Qed.

Lemma checkLoitering_events t tr e :
  In e (snd (checkLoitering t tr)) ->
  exists d, e = loiteringDetected (track_id tr) (label tr) d t.
Proof.
  unfold checkLoitering.
  destruct (negb (insideRoi tr)); [intros []|].
  destruct (loiterAlertSent tr); [intros []|].
  destruct (LOITERING_THRESHOLD_MS <=? t - enteredRoiMs tr); [|intros []].
  simpl. intros [<-|[]]. eauto.
Qed.

Lemma checkLineCrossing_events tw t tr e :
  In e (snd (checkLineCrossing tw t tr)) ->
  exists d, e = trackCrossedTripwire (track_id tr) (label tr) d t.
Proof.
  unfold checkLineCrossing.
  destruct (QPointF_eq _ _); [intros []|].
  destruct (_ <? _); [intros []|].
  destruct (_ && _); [|intros []].
  simpl. intros [<-|[]]. eauto.
Qed.

Lemma updateTracker_events r tw t dwcs tk e :
  In e (snd (updateTracker r tw t dwcs tk)) -> isTrackEvent e.
Proof.
  unfold updateTracker.
  destruct (assignTracks t dwcs tk) as [t1 assigned].
  destruct (forEachTrack (roiAndLoitering r t) _ _) as [m2 ev1] eqn:E1.
  assert (H1 : forall e, In e ev1 -> isTrackEvent e).
  { intros e0 H0. change ev1 with (snd (m2, ev1)) in H0. rewrite <- E1 in H0.
    revert H0. apply forEachTrack_events. intros tr e1 He1.
    apply checkLoitering_events in He1 as [d ->]. exact I. }
  destruct (m_hasTripwire tw).
  - destruct (forEachTrack (checkLineCrossing tw t) _ m2) as [m3 ev2] eqn:E2.
    simpl. intros Hin. apply in_app_or in Hin as [Hin|Hin]; [auto|].
    change ev2 with (snd (m3, ev2)) in Hin. rewrite <- E2 in Hin.
    revert Hin. apply forEachTrack_events. intros tr e1 He1.
    apply checkLineCrossing_events in He1 as [d ->]. exact I.
  - simpl. rewrite app_nil_r. auto.
Qed.

Lemma updateTracks_events dets fw fh t w e :
  In e (snd (updateTracks dets fw fh t w)) -> isTrackEvent e.
Proof.
  unfold updateTracks.
  destruct (updateTracker _ _ _ _ _) as [t' evs] eqn:E. simpl.
  intros Hin. change evs with (snd (t', evs)) in Hin. rewrite <- E in Hin.
  eapply updateTracker_events, Hin.
Qed.

Lemma processAIDetection_events f w e :
  In e (snd (processAIDetection f w)) -> isAiEvent e.
Proof.
  unfold processAIDetection.
  destruct (negb _); [intros []|].
  destruct (infer_result f) as [dets|]; [|intros []].
  destruct (updateTracks _ _ _ _ _) as [w' evs] eqn:E. simpl.
  intros Hin. apply in_app_or in Hin as [Hin|[<-|[]]]; [|exact I].
  change evs with (snd (w', evs)) in Hin. rewrite <- E in Hin.
  apply updateTracks_events in Hin. destruct e; simpl in *; auto.
Qed.

Lemma accountFps_events f s e :
  In e (snd (accountFps f s)) -> exists q, e = fpsUpdated q.
Proof.
  unfold accountFps.
  destruct (10 <=? _); [|intros []].
  destruct (0 <? _); [|intros []].
  simpl. intros [<-|[]]. eauto.
Qed.

(** The events of one captured frame, path by path. *)
Lemma captureFrame_events f w e :
  In e (snd (captureFrame f w)) ->
  (m_motionEnabled (w_motion w) = true /\ In e (snd (processMotionDetection f w)))
  \/ (exists w1, In e (snd (processAIDetection f w1)))
  \/ e = frameCaptured
  \/ (exists q, e = fpsUpdated q)
  \/ (exists s, e = errorOccurred s).
Proof.
  unfold captureFrame.
  destruct (_ || _); [intros []|].
  destruct (frame_empty f).
  { simpl. intros [<-|[]]. do 4 right. eauto. }
  destruct (m_motionEnabled (w_motion w)) eqn:Em.
  - destruct (processMotionDetection f w) as [w1 ev1].
    destruct (if m_aiEnabled (w_ai w1) && detectorReady (w_ai w1) then _ else _)
      as [w2 ev2] eqn:E2.
    destruct (accountFps f (w_fps w2)) as [fps' ev3] eqn:E3.
    simpl. intros Hin.
    apply in_app_or in Hin as [Hin|Hin]; [left; auto|].
    apply in_app_or in Hin as [Hin|Hin].
    + right; left.
      destruct (_ && _) in E2.
      * destruct (_ <=? _) in E2.
        -- change ev2 with (snd (w2, ev2)) in Hin. rewrite <- E2 in Hin.
           eexists; exact Hin.
        -- inversion E2; subst. destruct Hin.
      * inversion E2; subst. destruct Hin.
    + destruct Hin as [<-|Hin]; [auto|].
      change ev3 with (snd (fps', ev3)) in Hin. rewrite <- E3 in Hin.
      apply accountFps_events in Hin. auto.
  - destruct (if m_aiEnabled (w_ai w) && detectorReady (w_ai w) then _ else _)
      as [w2 ev2] eqn:E2.
    destruct (accountFps f (w_fps w2)) as [fps' ev3] eqn:E3.
    simpl. intros Hin.
    apply in_app_or in Hin as [Hin|Hin].
    + right; left.
      destruct (_ && _) in E2.
      * destruct (_ <=? _) in E2.
        -- change ev2 with (snd (w2, ev2)) in Hin. rewrite <- E2 in Hin.
           eexists; exact Hin.
        -- inversion E2; subst. destruct Hin.
      * inversion E2; subst. destruct Hin.
    + destruct Hin as [<-|Hin]; [auto|].
      change ev3 with (snd (fps', ev3)) in Hin. rewrite <- E3 in Hin.
      apply accountFps_events in Hin. auto.
Qed.

Lemma processRoiMotion_events s f r e :
  In e (snd (processRoiMotion s f r)) ->
  exists q, e = roiMotionDetected q (clock_roi f)
            /\ 3000 < clock_roi f - m_lastRoiAlertTime r.
Proof.
  unfold processRoiMotion.
  destruct (_ <? 3); [intros []|].
  destruct (_ =? 0); [intros []|].
  destruct (Qltb _ _); [|intros []].
  destruct (3000 <? _) eqn:E; [|intros []].
  simpl. intros [<-|[]]. apply Z.ltb_lt in E. eauto.
Qed.

Lemma processTripwire_events f t e :
  In e (snd (processTripwire f t)) ->
  exists d, e = tripwireCrossed d (clock_tripwire f)
            /\ 2000 < clock_tripwire f - m_lastTripwireAlertTime t.
Proof.
  unfold processTripwire.
  destruct (Qltb (mom_m00 f) 100); [intros []|].
  simpl.
  match goal with |- In e (if ?b then _ else _) -> _ => destruct b eqn:E end;
    [|intros []].
  intros [<-|[]].
  apply andb_true_iff in E as [_ E]. apply Z.ltb_lt in E. eauto.
Qed.

(** The events of the motion path, with the guard each one passed. *)
Lemma processMotionDetection_events f w e :
  In e (snd (processMotionDetection f w)) ->
  (exists q, e = motionDetected q (clock_motion f)
     /\ (motionThreshold (m_motionSensitivity (w_motion w))
           < percentage (fg_nonZero f) (frame_rows f * frame_cols f))%Q
     /\ 2000 < clock_motion f - m_lastMotionTime (w_motion w))
  \/ (exists q, e = roiMotionDetected q (clock_roi f)
     /\ 3000 < clock_roi f - m_lastRoiAlertTime (w_roi w))
  \/ (exists d, e = tripwireCrossed d (clock_tripwire f)
     /\ 2000 < clock_tripwire f - m_lastTripwireAlertTime (w_tripwire w)).
Proof.
  unfold processMotionDetection.
  destruct (if m_hasRoi (w_roi w) then _ else _) as [r' ev2] eqn:E2.
  destruct (if m_hasTripwire (w_tripwire w) then _ else _) as [t' ev3] eqn:E3.
  simpl. intros Hin.
  apply in_app_or in Hin as [Hin|Hin]; [|apply in_app_or in Hin as [Hin|Hin]].
  - left.
    destruct (Qltb _ _ && _) eqn:E; [|destruct Hin].
    destruct Hin as [<-|[]].
    apply andb_true_iff in E as [Ea Eb].
    apply Qltb_lt in Ea. apply Z.ltb_lt in Eb. eauto.
  - right; left.
    destruct (m_hasRoi (w_roi w)); [|inversion E2; subst; destruct Hin].
    change ev2 with (snd (r', ev2)) in Hin. rewrite <- E2 in Hin.
    eapply processRoiMotion_events, Hin.
  - right; right.
    destruct (m_hasTripwire (w_tripwire w)); [|inversion E3; subst; destruct Hin].
    change ev3 with (snd (t', ev3)) in Hin. rewrite <- E3 in Hin.
    eapply processTripwire_events, Hin.
Qed.

(** ** Motion threshold *)

Lemma motionThreshold_formula (s : Q) :
  (motionThreshold s == 10 - 9.5 * s / 100)%Q.
Proof. unfold motionThreshold. field. Qed.

Lemma motionThreshold_positive (s : Q) :
  (0 <= s <= 100)%Q -> (0 < motionThreshold s)%Q.
Proof.
  intros [H0 H1]. rewrite motionThreshold_formula.
  setoid_replace (10 - 9.5 * s / 100)%Q with (10 - (19 # 200) * s)%Q by field.
  lra.
Qed.

Lemma percentage_zero (total : Z) : (percentage 0 total == 0)%Q.
Proof.
  unfold percentage, Qdiv. setoid_replace (inject_Z 0 * 100)%Q with 0%Q by reflexivity.
  apply Qmult_0_l.
Qed.



(** ** Motion switched off *)

(** C2, as the code has it.  While motion detection is disabled, a
    captured frame produces no [motionDetected], no [roiMotionDetected] and
    no mask-centroid [tripwireCrossed] event.  (The per-track
    [trackCrossedTripwire] of the AI path is not covered: it is not behind
    the motion switch.) *)
Theorem motion_disabled_silences_mask_events (f : Frame) (w : CaptureWorker) :
  m_motionEnabled (w_motion w) = false ->
  forall e, In e (snd (captureFrame f w)) -> isMaskEvent e = false.
Proof.
  intros Hoff e Hin.
  apply captureFrame_events in Hin
    as [[Hon _]|[[w1 Hai]|[->|[[q ->]|[m ->]]]]]; try reflexivity.
  - congruence.
  - apply processAIDetection_events in Hai.
    destruct e; simpl in Hai; try contradiction; reflexivity.
Qed.

Lemma motion_disabled_silences_mask_events_witness :
  m_motionEnabled (w_motion aiOnlyWorker) = false
  /\ forall e, In e (snd (captureFrame crossingFrame aiOnlyWorker)) ->
               isMaskEvent e = false.
Proof.
  split; [reflexivity|].
  apply (motion_disabled_silences_mask_events crossingFrame aiOnlyWorker).
  reflexivity.
Defined.

(** C2 as stated fails: with motion detection disabled, AI detection
    enabled and a tripwire set, the frame that shows the tracked person on
    the other side of the wire emits a tripwire event. *)
Lemma motion_disabled_tripwire_still_fires :
  m_motionEnabled (w_motion aiOnlyWorker) = false
  /\ In (trackCrossedTripwire 1 "person" "right to left" 100400)
        (snd (captureFrame crossingFrame aiOnlyWorker))
  /\ existsb isMotionRoiOrTripwire (snd (captureFrame crossingFrame aiOnlyWorker))
     = true.
Proof.
  split; [reflexivity|]. split; [|vm_compute; reflexivity].
  vm_compute. left. reflexivity.
Qed.

(** ** Direction of a per-track crossing *)

Lemma Qmult_neg_opposite (a b : Q) :
  (a * b < 0)%Q -> (a < 0 /\ 0 < b)%Q \/ (0 < a /\ b < 0)%Q.
Proof.
  intros H.
  destruct (Qlt_le_dec a 0) as [Ha|Ha]; destruct (Qlt_le_dec 0 b) as [Hb|Hb].
  - left. split; assumption.
  - exfalso. apply (Qlt_not_le _ _ H).
    setoid_replace (a * b)%Q with ((- a) * (- b))%Q by ring.
    apply Qmult_le_0_compat; lra.
  - exfalso. apply (Qlt_not_le _ _ H). apply Qmult_le_0_compat; lra.
  - right. split.
    + apply Qle_lt_or_eq in Ha as [Ha|Ha]; [exact Ha|].
      exfalso. rewrite <- Ha in H. rewrite Qmult_0_l in H. apply (Qlt_irrefl 0 H).
    + apply Qle_lt_or_eq in Hb as [Hb|Hb]; [exact Hb|].
      exfalso. rewrite Hb in H. rewrite Qmult_0_r in H. apply (Qlt_irrefl 0 H).
Qed.

(** [getCrossingDirection] never answers "unknown" under the firing
    condition of [checkLineCrossing]. *)
Lemma getCrossingDirection_opposite (prevSide currSide : Q) :
  (prevSide * currSide < 0)%Q ->
  getCrossingDirection prevSide currSide = "left to right"%string
  \/ getCrossingDirection prevSide currSide = "right to left"%string.
Proof.
  intros H. unfold getCrossingDirection.
  apply Qmult_neg_opposite in H as [[Hp Hc]|[Hp Hc]].
  - apply Qltb_lt in Hp, Hc. rewrite Hp, Hc. left. reflexivity.
  - destruct (Qltb prevSide 0 && Qltb 0 currSide); [left; reflexivity|].
    apply Qltb_lt in Hp, Hc. rewrite Hp, Hc. right. reflexivity.
Qed.

Lemma checkLineCrossing_direction tw t tr e :
  In e (snd (checkLineCrossing tw t tr)) -> directionKnown e.
Proof.
  unfold checkLineCrossing.
  destruct (QPointF_eq _ _); [intros []|].
  destruct (_ <? _); [intros []|].
  destruct (_ && _) eqn:E; [|intros []].
  simpl. intros [<-|[]]. simpl.
  apply andb_true_iff in E as [_ E]. apply Qltb_lt in E.
  apply getCrossingDirection_opposite, E.
Qed.

Lemma updateTracker_direction r tw t dwcs tk e :
  In e (snd (updateTracker r tw t dwcs tk)) -> directionKnown e.
Proof.
  unfold updateTracker.
  destruct (assignTracks t dwcs tk) as [t1 assigned].
  destruct (forEachTrack (roiAndLoitering r t) _ _) as [m2 ev1] eqn:E1.
  assert (H1 : forall e, In e ev1 -> directionKnown e).
  { intros e0 H0. change ev1 with (snd (m2, ev1)) in H0. rewrite <- E1 in H0.
    revert H0. apply forEachTrack_events. intros tr e1 He1.
    apply checkLoitering_events in He1 as [d ->]. exact I. }
  destruct (m_hasTripwire tw).
  - destruct (forEachTrack (checkLineCrossing tw t) _ m2) as [m3 ev2] eqn:E2.
    simpl. intros Hin. apply in_app_or in Hin as [Hin|Hin]; [auto|].
    change ev2 with (snd (m3, ev2)) in Hin. rewrite <- E2 in Hin.
    revert Hin. apply forEachTrack_events. intros tr e1.
    apply checkLineCrossing_direction.
  - simpl. rewrite app_nil_r. auto.
Qed.

Lemma processAIDetection_direction f w e :
  In e (snd (processAIDetection f w)) -> directionKnown e.
Proof.
  unfold processAIDetection.
  destruct (negb _); [intros []|].
  destruct (infer_result f) as [dets|]; [|intros []].
  unfold updateTracks.
  destruct (updateTracker _ _ _ _ _) as [t' evs] eqn:E. simpl.
  intros Hin. apply in_app_or in Hin as [Hin|[<-|[]]]; [|exact I].
  change evs with (snd (t', evs)) in Hin. rewrite <- E in Hin.
  eapply updateTracker_direction, Hin.
Qed.

Lemma handle_direction m w e :
  In e (snd (handle m w)) -> directionKnown e.
Proof.
  destruct m; simpl; try (intros []).
  - unfold start. destruct (m_running _); [intros []|].
    destruct (negb openOk); [|intros []]. intros [<-|[]]. exact I.
  - intros Hin.
    apply captureFrame_events in Hin
      as [[_ Hin]|[[w1 Hai]|[->|[[q ->]|[s ->]]]]]; try exact I.
    + apply processMotionDetection_events in Hin
        as [[q [-> _]]|[[q [-> _]]|[d [-> _]]]]; exact I.
    + eapply processAIDetection_direction, Hai.
Qed.

Lemma run_direction msgs : forall w e,
  In e (snd (run msgs w)) -> directionKnown e.
Proof.
  induction msgs as [|m rest IH]; intros w e; simpl; [intros []|].
  destruct (handle m w) as [w1 ev] eqn:E1.
  destruct (run rest w1) as [w2 evs] eqn:E2. simpl.
  intros Hin. apply in_app_or in Hin as [Hin|Hin].
  - change ev with (snd (w1, ev)) in Hin. rewrite <- E1 in Hin.
    eapply handle_direction, Hin.
  - change evs with (snd (w2, evs)) in Hin. rewrite <- E2 in Hin.
    eapply IH, Hin.
Qed.

(** C10.  Every per-track tripwire event the worker emits, in any run from
    any state, carries the direction "left to right" or "right to left":
    the firing condition makes the two sides have strictly opposite signs,
    so the "unknown" branch of [getCrossingDirection] is never taken. *)
Theorem track_crossing_direction_known
  (msgs : list Msg) (w : CaptureWorker) (k : Z) (lbl dir : string) (t : Z) :
  In (trackCrossedTripwire k lbl dir t) (snd (run msgs w)) ->
  dir = "left to right"%string \/ dir = "right to left"%string.
Proof.
  intros Hin. apply run_direction in Hin. exact Hin.
Qed.

Lemma track_crossing_direction_known_witness :
  In (trackCrossedTripwire 1 "person" "right to left" 100400)
     (snd (run aiOnlyRun (CaptureWorker_new "0")))
  /\ ("right to left"%string = "left to right"%string
      \/ "right to left"%string = "right to left"%string).
Proof.
  assert (H : In (trackCrossedTripwire 1 "person" "right to left" 100400)
                 (snd (run aiOnlyRun (CaptureWorker_new "0")))).
  { vm_compute. repeat (first [left; reflexivity | right]). }
  split; [exact H|].
  exact (track_crossing_direction_known aiOnlyRun (CaptureWorker_new "0")
           1 "person" "right to left" 100400 H).
Defined.

(** ** Loitering *)

Lemma roiAndLoitering_fires r now tr e :
  In e (snd (roiAndLoitering r now tr)) ->
  pointInRoi r (centroid tr) = true
  /\ insideRoi tr = true
  /\ loiterAlertSent tr = false
  /\ LOITERING_THRESHOLD_MS <= now - enteredRoiMs tr
  /\ e = loiteringDetected (track_id tr) (label tr) (now - enteredRoiMs tr) now.
Proof.
  unfold roiAndLoitering, checkLoitering, updateRoiStatus. simpl.
  destruct (pointInRoi r (centroid tr)) eqn:Ein; simpl; [|intros []].
  destruct (loiterAlertSent tr) eqn:Es; [intros []|].
  destruct (insideRoi tr) eqn:Ei; simpl.
  - destruct (LOITERING_THRESHOLD_MS <=? now - enteredRoiMs tr) eqn:E; [|intros []].
    simpl. intros [<-|[]]. apply Z.leb_le in E. auto.
  - replace (now - now) with 0 by lia.
    change (LOITERING_THRESHOLD_MS <=? 0) with false. intros [].
Qed.

Lemma roiAndLoitering_state r now tr :
  let tr' := fst (roiAndLoitering r now tr) in
  insideRoi tr' = pointInRoi r (centroid tr)
  /\ track_id tr' = track_id tr /\ label tr' = label tr
  /\ centroid tr' = centroid tr /\ prevCentroid tr' = prevCentroid tr
  /\ lastSeenMs tr' = lastSeenMs tr
  /\ lastTripwireAlertMs tr' = lastTripwireAlertMs tr.
Proof.
  unfold roiAndLoitering, checkLoitering, updateRoiStatus. simpl.
  destruct (pointInRoi r (centroid tr)); simpl.
  - destruct (loiterAlertSent tr); simpl; [auto 10|].
    destruct (LOITERING_THRESHOLD_MS <=? _); simpl; auto 10.
  - auto 10.
Qed.

(** Once the alert is sent, staying inside keeps it sent and silent. *)
Lemma trackUpdates_sent_silent r obs : forall tr,
  Forall (fun o => pointInRoi r (dwc_centroid (fst o)) = true) obs ->
  loiterAlertSent tr = true ->
  snd (trackUpdates r obs tr) = [].
Proof.
  induction obs as [|[dwc now] rest IH]; intros tr Hall Hsent; [reflexivity|].
  inversion Hall as [|? ? Hin Hrest]; subst. simpl in Hin. simpl.
  unfold trackUpdate, roiAndLoitering, checkLoitering, updateRoiStatus. simpl.
  rewrite Hin, Hsent. simpl.
  match goal with |- context [trackUpdates r rest ?t] =>
    specialize (IH t Hrest eq_refl); destruct (trackUpdates r rest t) end.
  simpl in *. exact IH.
Qed.

Lemma trackUpdates_at_most_once r obs : forall tr,
  Forall (fun o => pointInRoi r (dwc_centroid (fst o)) = true) obs ->
  (List.length (snd (trackUpdates r obs tr)) <= 1)%nat.
Proof.
  induction obs as [|[dwc now] rest IH]; intros tr Hall; [simpl; lia|].
  inversion Hall as [|? ? Hin Hrest]; subst. simpl in Hin. simpl.
  destruct (trackUpdate r dwc now tr) as [tr1 ev] eqn:E1.
  destruct (trackUpdates r rest tr1) as [tr2 evs] eqn:E2. simpl.
  pose proof (IH tr1 Hrest) as IH1. rewrite E2 in IH1. simpl in IH1.
  assert (Hs : loiterAlertSent tr1 = true -> evs = []).
  { intros Hsent. pose proof (trackUpdates_sent_silent r rest tr1 Hrest Hsent) as H.
    rewrite E2 in H. exact H. }
  revert E1. unfold trackUpdate, roiAndLoitering, checkLoitering, updateRoiStatus.
  simpl. rewrite Hin. simpl.
  destruct (loiterAlertSent tr) eqn:Es.
  - intros E1. inversion E1; subst. exact IH1.
  - destruct (LOITERING_THRESHOLD_MS <=? _).
    + intros E1. inversion E1; subst. rewrite (Hs eq_refl). simpl. lia.
    + intros E1. inversion E1; subst. exact IH1.
Qed.

Lemma trackUpdates_rearm r tr d1 t1 d2 t2 d3 t3 :
  insideRoi tr = true ->
  pointInRoi r (dwc_centroid d1) = false ->
  pointInRoi r (dwc_centroid d2) = true ->
  pointInRoi r (dwc_centroid d3) = true ->
  LOITERING_THRESHOLD_MS <= t3 - t2 ->
  snd (trackUpdates r [(d1, t1); (d2, t2); (d3, t3)] tr)
  = [loiteringDetected (track_id tr) (label tr) (t3 - t2) t3].
Proof.
  intros Hi H1 H2 H3 Hd. simpl.
  unfold trackUpdate, roiAndLoitering, checkLoitering, updateRoiStatus. simpl.
  rewrite H1, Hi. simpl. rewrite H2. simpl.
  replace (t2 - t2) with 0 by lia.
  change (LOITERING_THRESHOLD_MS <=? 0) with false. simpl.
  rewrite H3. simpl.
  apply Z.leb_le in Hd. rewrite Hd. reflexivity.
Qed.

(** C4.  A loitering event is emitted only for a track that was already
    inside the ROI, is still inside, has not been alerted, and whose
    recorded entry time lies at least 8000 ms back; while a track stays
    inside the ROI over any number of updates at most one loitering event is
    emitted; and a track that leaves the ROI and comes back is rearmed: it
    fires again once it has stayed 8000 ms from its re-entry. *)
Theorem loitering_once_per_occupancy (r : RoiState) :
  (forall now tr e,
     In e (snd (roiAndLoitering r now tr)) ->
     pointInRoi r (centroid tr) = true
     /\ insideRoi tr = true
     /\ 8000 <= now - enteredRoiMs tr
     /\ e = loiteringDetected (track_id tr) (label tr) (now - enteredRoiMs tr) now)
  /\ (forall obs tr,
     Forall (fun o => pointInRoi r (dwc_centroid (fst o)) = true) obs ->
     (List.length (snd (trackUpdates r obs tr)) <= 1)%nat)
  /\ (forall tr d1 t1 d2 t2 d3 t3,
     insideRoi tr = true ->
     pointInRoi r (dwc_centroid d1) = false ->
     pointInRoi r (dwc_centroid d2) = true ->
     pointInRoi r (dwc_centroid d3) = true ->
     8000 <= t3 - t2 ->
     snd (trackUpdates r [(d1, t1); (d2, t2); (d3, t3)] tr)
     = [loiteringDetected (track_id tr) (label tr) (t3 - t2) t3]).
Proof.
  split; [|split].
  - intros now tr e Hin.
    apply roiAndLoitering_fires in Hin as (H1 & H2 & _ & H4 & H5). auto.
  - apply trackUpdates_at_most_once.
  - apply trackUpdates_rearm.
Qed.

Lemma loitering_once_per_occupancy_witness :
  (pointInRoi squareRoi (centroid lingeringTrack) = true
   /\ insideRoi lingeringTrack = true
   /\ 8000 <= 9000 - enteredRoiMs lingeringTrack
   /\ loiteringDetected 1 "person" 8000 9000
      = loiteringDetected (track_id lingeringTrack) (label lingeringTrack)
          (9000 - enteredRoiMs lingeringTrack) 9000)
  /\ (List.length
        (snd (trackUpdates squareRoi stayingOn lingeringTrack)) <= 1)%nat
  /\ snd (trackUpdates squareRoi leavingAndReturning lingeringTrack)
     = [loiteringDetected 1 "person" 8000 20000].
Proof.
  destruct (loitering_once_per_occupancy squareRoi) as (H1 & H2 & H3).
  split; [|split].
  - apply (H1 9000 lingeringTrack (loiteringDetected 1 "person" 8000 9000)).
    vm_compute. left. reflexivity.
  - apply H2. repeat constructor.
  - apply (H3 lingeringTrack seenOutside 11000 seenInside 12000 seenInside 20000);
      first [reflexivity | vm_compute; discriminate].
Defined.

(** ** The track map *)

Lemma tracks_find_insert_same k v m :
  tracks_find k (tracks_insert k v m) = Some v.
Proof.
  induction m as [|[k' v'] r IH]; simpl.
  - rewrite Z.eqb_refl. reflexivity.
  - destruct (k <? k') eqn:E1; simpl.
    + rewrite Z.eqb_refl. reflexivity.
    + destruct (k =? k') eqn:E2; simpl.
      * rewrite Z.eqb_refl. reflexivity.
      * rewrite Z.eqb_sym, E2. exact IH.
Qed.

Lemma tracks_find_insert_other k k' v m :
  k <> k' -> tracks_find k' (tracks_insert k v m) = tracks_find k' m.
Proof.
  intros Hne. induction m as [|[k1 v1] r IH]; simpl.
  - destruct (k =? k') eqn:E; [apply Z.eqb_eq in E; contradiction|reflexivity].
  - destruct (k <? k1) eqn:E1; simpl.
    + destruct (k =? k') eqn:E; [apply Z.eqb_eq in E; contradiction|reflexivity].
    + destruct (k =? k1) eqn:E2; simpl.
      * apply Z.eqb_eq in E2. subst k1.
        destruct (k =? k') eqn:E; [apply Z.eqb_eq in E; contradiction|reflexivity].
      * destruct (k1 =? k'); [reflexivity|exact IH].
Qed.

Lemma tracks_find_In k tr m : tracks_find k m = Some tr -> In (k, tr) m.
Proof.
  induction m as [|[k' v'] r IH]; simpl; [discriminate|].
  destruct (k' =? k) eqn:E.
  - apply Z.eqb_eq in E. intros H. inversion H; subst. left. reflexivity.
  - intros H. right. apply IH, H.
Qed.

Lemma keysAscending_weaken lo lo' m :
  lo' <= lo -> keysAscending lo m = true -> keysAscending lo' m = true.
Proof.
  destruct m as [|[k tr] r]; simpl; [reflexivity|].
  intros Hle H. apply andb_true_iff in H as [H H3].
  apply andb_true_iff in H as [H1 H2]. apply Z.ltb_lt in H1.
  rewrite H2, H3. replace (lo' <? k) with true by (symmetry; apply Z.ltb_lt; lia).
  reflexivity.
Qed.

Lemma keysAscending_In lo m k tr :
  keysAscending lo m = true -> In (k, tr) m -> lo < k /\ track_id tr = k.
Proof.
  revert lo. induction m as [|[k' v'] r IH]; intros lo H Hin; [destruct Hin|].
  simpl in H. apply andb_true_iff in H as [H H3].
  apply andb_true_iff in H as [H1 H2]. apply Z.ltb_lt in H1. apply Z.eqb_eq in H2.
  destruct Hin as [Heq|Hin].
  - inversion Heq; subst. auto.
  - destruct (IH k' H3 Hin) as [Hlt Hid]. split; [lia|exact Hid].
Qed.

Lemma keysAscending_find lo m k tr :
  keysAscending lo m = true -> In (k, tr) m -> tracks_find k m = Some tr.
Proof.
  revert lo. induction m as [|[k' v'] r IH]; intros lo H Hin; [destruct Hin|].
  simpl in H. apply andb_true_iff in H as [H H3].
  apply andb_true_iff in H as [H1 H2].
  simpl. destruct Hin as [Heq|Hin].
  - inversion Heq; subst. rewrite Z.eqb_refl. reflexivity.
  - destruct (keysAscending_In _ _ _ _ H3 Hin) as [Hlt _].
    replace (k' =? k) with false by (symmetry; apply Z.eqb_neq; lia).
    eapply IH; eassumption.
Qed.

Lemma keysAscending_insert lo m k v :
  keysAscending lo m = true -> lo < k -> track_id v = k ->
  keysAscending lo (tracks_insert k v m) = true.
Proof.
  revert lo. induction m as [|[k' v'] r IH]; intros lo H Hlt Hid; simpl.
  - apply Z.ltb_lt in Hlt. apply Z.eqb_eq in Hid. rewrite Hlt, Hid. reflexivity.
  - simpl in H. apply andb_true_iff in H as [H H3].
    apply andb_true_iff in H as [H1 H2].
    destruct (k <? k') eqn:E1; simpl.
    + apply Z.ltb_lt in Hlt. apply Z.eqb_eq in Hid.
      rewrite Hlt, Hid, E1, H2, H3. reflexivity.
    + destruct (k =? k') eqn:E2; simpl.
      * apply Z.eqb_eq in E2. subst k'.
        apply Z.ltb_lt in Hlt. apply Z.eqb_eq in Hid.
        rewrite Hlt, Hid, H3. reflexivity.
      * rewrite H1, H2. simpl. apply IH; [exact H3| |exact Hid].
        apply Z.ltb_ge in E1. apply Z.eqb_neq in E2. lia.
Qed.

Lemma keysAscending_filter p : forall lo m,
  keysAscending lo m = true -> keysAscending lo (filter p m) = true.
Proof.
  intros lo m. revert lo. induction m as [|[k v] r IH]; intros lo H; [reflexivity|].
  simpl in H. apply andb_true_iff in H as [H H3].
  apply andb_true_iff in H as [H1 H2].
  simpl. destruct (p (k, v)); simpl.
  - rewrite H1, H2. simpl. apply IH, H3.
  - apply IH. apply keysAscending_weaken with (lo := k); [|exact H3].
    apply Z.ltb_lt in H1. lia.
Qed.

Lemma tracks_find_remove k j m :
  tracks_find k (tracks_remove j m) = if k =? j then None else tracks_find k m.
Proof.
  unfold tracks_remove. induction m as [|[k' v'] r IH]; simpl.
  - destruct (k =? j); reflexivity.
  - destruct (k' =? j) eqn:E1; simpl.
    + rewrite IH. destruct (k =? j) eqn:E2; [reflexivity|].
      apply Z.eqb_eq in E1. subst k'.
      rewrite Z.eqb_sym, E2. reflexivity.
    + destruct (k' =? k) eqn:E3.
      * apply Z.eqb_eq in E3. subst k'. rewrite E1. reflexivity.
      * exact IH.
Qed.

Lemma tracks_In_remove e j m :
  In e (tracks_remove j m) <-> In e m /\ fst e <> j.
Proof.
  unfold tracks_remove. rewrite filter_In, negb_true_iff, Z.eqb_neq. reflexivity.
Qed.

Lemma tracks_In_remove_all e ks : forall m,
  In e (fold_left (fun acc k => tracks_remove k acc) ks m)
  <-> In e m /\ ~ In (fst e) ks.
Proof.
  induction ks as [|j ks IH]; intros m; simpl.
  - tauto.
  - rewrite IH, tracks_In_remove. intuition congruence.
Qed.

Lemma tracks_find_remove_all k ks : forall m,
  tracks_find k (fold_left (fun acc j => tracks_remove j acc) ks m) = None
  \/ tracks_find k (fold_left (fun acc j => tracks_remove j acc) ks m)
     = tracks_find k m.
Proof.
  induction ks as [|j ks IH]; intros m; simpl; [right; reflexivity|].
  destruct (IH (tracks_remove j m)) as [H|H]; [left; exact H|].
  rewrite H, tracks_find_remove. destruct (k =? j); auto.
Qed.

Lemma keysAscending_remove_all ks : forall lo m,
  keysAscending lo m = true ->
  keysAscending lo (fold_left (fun acc j => tracks_remove j acc) ks m) = true.
Proof.
  induction ks as [|j ks IH]; intros lo m H; simpl; [exact H|].
  apply IH. apply keysAscending_filter, H.
Qed.

(** ** Eviction *)

Lemma cleanupStaleTracks_fresh now m k tr :
  tracks_find k (cleanupStaleTracks now m) = Some tr ->
  now - lastSeenMs tr <= TRACK_TIMEOUT_MS.
Proof.
  intros H. apply tracks_find_In in H.
  unfold cleanupStaleTracks in H. apply tracks_In_remove_all in H as [Hin Hnot].
  simpl in Hnot.
  destruct (TRACK_TIMEOUT_MS <? now - lastSeenMs tr) eqn:E.
  - exfalso. apply Hnot. unfold staleKeys.
    change k with (fst (k, tr)). apply in_map. apply filter_In. split; [exact Hin|].
    exact E.
  - apply Z.ltb_ge in E. exact E.
Qed.

(** ** Nearest-track search *)

Lemma closestStep_cases c best k tr :
  ((dist2 (centroid tr) c < snd best)%Q
   /\ closestStep c best (k, tr) = (k, dist2 (centroid tr) c))
  \/ ((snd best <= dist2 (centroid tr) c)%Q /\ closestStep c best (k, tr) = best).
Proof.
  unfold closestStep. simpl.
  destruct (Qltb (dist2 (centroid tr) c) (snd best)) eqn:E.
  - left. apply Qltb_lt in E. auto.
  - right. apply Qltb_ge in E. auto.
Qed.

(** The search answers its starting value or an entry that beats it. *)
Lemma closest_fold_spec c m : forall best,
  fold_left (closestStep c) m best = best
  \/ exists tr, In (fst (fold_left (closestStep c) m best), tr) m
       /\ snd (fold_left (closestStep c) m best) = dist2 (centroid tr) c
       /\ (dist2 (centroid tr) c < snd best)%Q.
Proof.
  induction m as [|[k tr] r IH]; intros best; simpl; [left; reflexivity|].
  destruct (closestStep_cases c best k tr) as [[Hlt ->]|[Hge ->]].
  - right.
    destruct (IH (k, dist2 (centroid tr) c)) as [H|[tr' (H1 & H2 & H3)]].
    + rewrite H. simpl. exists tr. auto.
    + exists tr'. split; [right; exact H1|]. split; [exact H2|].
      simpl in H3. eapply Qlt_trans; eassumption.
  - destruct (IH best) as [H|[tr' (H1 & H2 & H3)]]; [left; exact H|].
    right. exists tr'. auto.
Qed.

(** Without an entry that beats the starting value the search keeps it. *)
Lemma closest_fold_none c m : forall best,
  (forall k tr, In (k, tr) m -> ~ (dist2 (centroid tr) c < snd best)%Q) ->
  fold_left (closestStep c) m best = best.
Proof.
  induction m as [|[k tr] r IH]; intros best Hnone; simpl; [reflexivity|].
  destruct (closestStep_cases c best k tr) as [[Hlt ->]|[Hge ->]].
  - exfalso. apply (Hnone k tr); [left; reflexivity|exact Hlt].
  - apply IH. intros k' tr' Hin. apply (Hnone k' tr'). right. exact Hin.
Qed.

Lemma closest_fold_decreases c m : forall best,
  (snd (fold_left (closestStep c) m best) <= snd best)%Q.
Proof.
  induction m as [|[k tr] r IH]; intros best; simpl; [apply Qle_refl|].
  destruct (closestStep_cases c best k tr) as [[Hlt ->]|[Hge ->]].
  - eapply Qle_trans; [apply IH|]. simpl. apply Qlt_le_weak, Hlt.
  - apply IH.
Qed.

(** The search never answers an entry farther than another one. *)
Lemma closest_fold_least c m : forall best k tr,
  In (k, tr) m ->
  (snd (fold_left (closestStep c) m best) <= dist2 (centroid tr) c)%Q.
Proof.
  induction m as [|[k' tr'] r IH]; intros best k tr Hin; [destruct Hin|].
  simpl. destruct Hin as [Heq|Hin]; [|apply (IH _ k tr Hin)].
  inversion Heq; subst.
  destruct (closestStep_cases c best k tr) as [[Hlt ->]|[Hge ->]].
  - apply (closest_fold_decreases c r (k, dist2 (centroid tr) c)).
  - eapply Qle_trans; [apply closest_fold_decreases|exact Hge].
Qed.

Lemma findClosestTrack_matched m c :
  0 <= fst (findClosestTrack m c) ->
  exists tr, In (fst (findClosestTrack m c), tr) m
    /\ closerThan MAX_TRACK_DISTANCE (centroid tr) c.
Proof.
  unfold findClosestTrack. intros Hk.
  destruct (closest_fold_spec c m (-1, (MAX_TRACK_DISTANCE * MAX_TRACK_DISTANCE)%Q))
    as [H|[tr (H1 & _ & H3)]].
  - rewrite H in Hk. simpl in Hk. lia.
  - exists tr. split; [exact H1|exact H3].
Qed.

Lemma findClosestTrack_unmatched m c :
  (forall k tr, In (k, tr) m -> ~ closerThan MAX_TRACK_DISTANCE (centroid tr) c) ->
  fst (findClosestTrack m c) = -1.
Proof.
  intros H. unfold findClosestTrack. rewrite closest_fold_none; [reflexivity|].
  exact H.
Qed.

(** ** Well-formedness is kept *)

Lemma tracker_wf_iff t :
  tracker_wf t = true <->
  0 < m_nextTrackId t
  /\ keysAscending 0 (m_tracks t) = true
  /\ forall k tr, In (k, tr) (m_tracks t) -> k < m_nextTrackId t.
Proof.
  unfold tracker_wf. rewrite !andb_true_iff, forallb_forall, Z.ltb_lt. split.
  - intros [[H0 H1] H2]. split; [exact H0|]. split; [exact H1|]. intros k tr Hin.
    apply H2 in Hin. simpl in Hin. apply Z.ltb_lt, Hin.
  - intros [H0 [H1 H2]]. split; [split; assumption|]. intros [k tr] Hin. simpl.
    apply Z.ltb_lt. eapply H2, Hin.
Qed.

Lemma tracks_In_insert e k v m :
  In e (tracks_insert k v m) -> e = (k, v) \/ In e m.
Proof.
  induction m as [|[k' v'] r IH]; simpl.
  - intros [H|[]]; auto.
  - destruct (k <? k'); simpl.
    + intros [H|[H|H]]; auto.
    + destruct (k =? k'); simpl.
      * intros [H|H]; auto.
      * intros [H|H]; auto. apply IH in H as [H|H]; auto.
Qed.

Lemma tracker_wf_find t k tr :
  tracker_wf t = true -> tracks_find k (m_tracks t) = Some tr ->
  0 < k < m_nextTrackId t /\ track_id tr = k.
Proof.
  intros Hwf Hf. apply tracker_wf_iff in Hwf as [_ [Ha Hb]].
  apply tracks_find_In in Hf.
  destruct (keysAscending_In _ _ _ _ Ha Hf) as [H1 H2].
  specialize (Hb _ _ Hf). lia.
Qed.

Lemma tracker_wf_next_absent t :
  tracker_wf t = true -> forall k, m_nextTrackId t <= k ->
  tracks_find k (m_tracks t) = None.
Proof.
  intros Hwf k Hk. destruct (tracks_find k (m_tracks t)) as [tr|] eqn:E; [|reflexivity].
  apply (tracker_wf_find t k tr Hwf) in E. lia.
Qed.

Lemma tracker_wf_insert_existing t k tr v :
  tracker_wf t = true -> tracks_find k (m_tracks t) = Some tr -> track_id v = k ->
  tracker_wf (mkTracker (tracks_insert k v (m_tracks t)) (m_nextTrackId t)) = true.
Proof.
  intros Hwf Hf Hid. pose proof (tracker_wf_find _ _ _ Hwf Hf) as [Hk _].
  apply tracker_wf_iff in Hwf as [H0 [Ha Hb]]. apply tracker_wf_iff. simpl.
  split; [exact H0|]. split.
  - apply keysAscending_insert; [exact Ha|lia|exact Hid].
  - intros k' tr' Hin. apply tracks_In_insert in Hin as [Heq|Hin].
    + inversion Heq; subst. lia.
    + eapply Hb, Hin.
Qed.

Lemma tracker_wf_insert_new t v :
  tracker_wf t = true -> track_id v = m_nextTrackId t ->
  tracker_wf (mkTracker (tracks_insert (m_nextTrackId t) v (m_tracks t))
                        (m_nextTrackId t + 1)) = true.
Proof.
  intros Hwf Hid.
  apply tracker_wf_iff in Hwf as [H0 [Ha Hb]]. apply tracker_wf_iff. simpl.
  split; [lia|]. split.
  - apply keysAscending_insert; [exact Ha|lia|exact Hid].
  - intros k' tr' Hin. apply tracks_In_insert in Hin as [Heq|Hin].
    + inversion Heq; subst. lia.
    + specialize (Hb _ _ Hin). lia.
Qed.

(** ** Assignment of one detection *)

(** The two outcomes of [assignDetection] on a well-formed tracker: the
    nearest track, which lies closer than [MAX_TRACK_DISTANCE], is updated;
    or no track lies that close and a new one is filed under the next id. *)
Lemma assignDetection_cases now t dwc :
  tracker_wf t = true ->
  (exists tr,
     tracks_find (snd (assignDetection now t dwc)) (m_tracks t) = Some tr
     /\ closerThan MAX_TRACK_DISTANCE (centroid tr) (dwc_centroid dwc)
     /\ (forall k' tr', tracks_find k' (m_tracks t) = Some tr' ->
           (dist2 (centroid tr) (dwc_centroid dwc)
            <= dist2 (centroid tr') (dwc_centroid dwc))%Q)
     /\ fst (assignDetection now t dwc)
        = mkTracker (tracks_insert (snd (assignDetection now t dwc))
                       (matchTrack dwc now tr) (m_tracks t))
                    (m_nextTrackId t))
  \/ ((forall k' tr', tracks_find k' (m_tracks t) = Some tr' ->
         ~ closerThan MAX_TRACK_DISTANCE (centroid tr') (dwc_centroid dwc))
      /\ snd (assignDetection now t dwc) = m_nextTrackId t
      /\ fst (assignDetection now t dwc)
         = mkTracker (tracks_insert (m_nextTrackId t)
                        (newTrack (m_nextTrackId t) dwc now) (m_tracks t))
                     (m_nextTrackId t + 1)).
Proof.
  intros Hwf. pose proof Hwf as Hwf'. apply tracker_wf_iff in Hwf' as [H0 [Ha Hb]].
  unfold assignDetection.
  destruct (0 <=? fst (findClosestTrack (m_tracks t) (dwc_centroid dwc))) eqn:E.
  - left. apply Z.leb_le in E. simpl.
    pose proof (closest_fold_spec (dwc_centroid dwc) (m_tracks t)
                  (-1, (MAX_TRACK_DISTANCE * MAX_TRACK_DISTANCE)%Q))
      as [H|[tr (H1 & H2 & H3)]].
    { unfold findClosestTrack in E. rewrite H in E. simpl in E. lia. }
    fold (findClosestTrack (m_tracks t) (dwc_centroid dwc)) in H1, H2.
    pose proof (keysAscending_find _ _ _ _ Ha H1) as Hf.
    exists tr. split; [exact Hf|]. split; [exact H3|]. split.
    + intros k' tr' Hf'. apply tracks_find_In in Hf'. rewrite <- H2.
      unfold findClosestTrack. eapply closest_fold_least, Hf'.
    + unfold tracks_at. rewrite Hf. reflexivity.
  - right. apply Z.leb_gt in E. simpl. split; [|auto].
    intros k' tr' Hf' Hclose. apply tracks_find_In in Hf'.
    pose proof (closest_fold_least (dwc_centroid dwc) (m_tracks t)
                  (-1, (MAX_TRACK_DISTANCE * MAX_TRACK_DISTANCE)%Q) k' tr' Hf') as Hle.
    pose proof (closest_fold_spec (dwc_centroid dwc) (m_tracks t)
                  (-1, (MAX_TRACK_DISTANCE * MAX_TRACK_DISTANCE)%Q))
      as [H|[tr (H1 & H2 & H3)]].
    + rewrite H in Hle. simpl in Hle. unfold closerThan in Hclose.
      apply (Qlt_not_le _ _ Hclose Hle).
    + fold (findClosestTrack (m_tracks t) (dwc_centroid dwc)) in H1.
      destruct (keysAscending_In _ _ _ _ Ha H1) as [Hpos _]. lia.
Qed.

Lemma assignDetection_wf now t dwc :
  tracker_wf t = true -> tracker_wf (fst (assignDetection now t dwc)) = true.
Proof.
  intros Hwf.
  destruct (assignDetection_cases now t dwc Hwf)
    as [[tr (Hf & _ & _ & ->)]|(_ & _ & ->)].
  - eapply tracker_wf_insert_existing; [exact Hwf|exact Hf|].
    simpl. apply (tracker_wf_find _ _ _ Hwf Hf).
  - apply tracker_wf_insert_new; [exact Hwf|reflexivity].
Qed.

Lemma assignTracks_wf now dwcs : forall t,
  tracker_wf t = true -> tracker_wf (fst (assignTracks now dwcs t)) = true.
Proof.
  induction dwcs as [|dwc rest IH]; intros t Hwf; [exact Hwf|].
  simpl. pose proof (assignDetection_wf now t dwc Hwf) as H1.
  destruct (assignDetection now t dwc) as [t1 k]. simpl in H1.
  specialize (IH t1 H1). destruct (assignTracks now rest t1) as [t2 ks].
  exact IH.
Qed.

(** ** Distances on the squares *)

Lemma dist2_nonneg a b : (0 <= dist2 a b)%Q.
Proof.
  unfold dist2.
  assert (H : forall x : Q, (0 <= x * x)%Q).
  { intros x. destruct (Qlt_le_dec x 0) as [Hx|Hx].
    - setoid_replace (x * x)%Q with ((- x) * (- x))%Q by ring.
      apply Qmult_le_0_compat; lra.
    - apply Qmult_le_0_compat; assumption. }
  pose proof (H (px a - px b)%Q). pose proof (H (py a - py b)%Q). lra.
Qed.

Lemma sqrt_below_iff (x d : R) :
  (0 <= x)%R -> (0 <= d)%R -> (sqrt x < d <-> x < d * d)%R.
Proof.
  intros Hx Hd. split; intro H.
  - rewrite <- (sqrt_sqrt x Hx).
    apply Rmult_le_0_lt_compat; auto using sqrt_pos.
  - rewrite <- (sqrt_square d Hd). apply sqrt_lt_1_alt. split; assumption.
Qed.

(** Comparing squares decides the comparison of the distance itself. *)
Lemma closerThan_euclidean (d : Q) (a b : QPointF) :
  (0 <= d)%Q ->
  (closerThan d a b <-> (euclideanDistance a b < Q2R d)%R).
Proof.
  intros Hd. unfold closerThan, euclideanDistance.
  assert (H0 : Q2R 0 = 0%R) by (unfold Q2R; simpl; Lra.lra).
  rewrite sqrt_below_iff.
  - rewrite <- Q2R_mult. split; [apply Qlt_Rlt|apply Rlt_Qlt].
  - rewrite <- H0. apply Qle_Rle, dist2_nonneg.
  - rewrite <- H0. apply Qle_Rle, Hd.
Qed.

Lemma MAX_TRACK_DISTANCE_real : Q2R MAX_TRACK_DISTANCE = (1 / 10)%R.
Proof. unfold MAX_TRACK_DISTANCE, Q2R. simpl. Lra.lra. Qed.

Lemma closerThan_max a b :
  closerThan MAX_TRACK_DISTANCE a b <-> (euclideanDistance a b < 1 / 10)%R.
Proof.
  rewrite closerThan_euclidean by discriminate.
  rewrite MAX_TRACK_DISTANCE_real. reflexivity.
Qed.

Lemma updateTracks_fresh dets fw fh now w k tr :
  tracks_find k (m_tracks (w_tracker (fst (updateTracks dets fw fh now w)))) = Some tr ->
  now - lastSeenMs tr <= TRACK_TIMEOUT_MS.
Proof.
  unfold updateTracks, updateTracker.
  destruct (assignTracks _ _ _) as [t1 assigned].
  destruct (forEachTrack (roiAndLoitering _ _) _ _) as [m2 ev1].
  destruct (if m_hasTripwire _ then _ else _) as [m3 ev2].
  simpl. apply cleanupStaleTracks_fresh.
Qed.



(** ** The set of updated ids *)

Lemma existsb_eqb_In k s : existsb (Z.eqb k) s = true <-> In k s.
Proof.
  rewrite existsb_exists. split.
  - intros [x [Hin Heq]]. apply Z.eqb_eq in Heq. subst. exact Hin.
  - intros Hin. exists k. split; [exact Hin|apply Z.eqb_refl].
Qed.

Lemma qset_insert_NoDup k s : NoDup s -> NoDup (qset_insert k s).
Proof.
  intros Hs. unfold qset_insert. destruct (existsb (Z.eqb k) s) eqn:E; [exact Hs|].
  apply NoDup_app; [exact Hs|repeat constructor; intros []|].
  intros x Hx [<-|[]]. apply existsb_eqb_In in Hx. congruence.
Qed.

Lemma qset_insert_In k s x : In x (qset_insert k s) <-> x = k \/ In x s.
Proof.
  unfold qset_insert. destruct (existsb (Z.eqb k) s) eqn:E.
  - apply existsb_eqb_In in E. split; [auto|]. intros [->|H]; assumption.
  - rewrite in_app_iff. simpl. intuition.
Qed.

Lemma qset_fold_NoDup ks : forall s,
  NoDup s -> NoDup (fold_left (fun s k => qset_insert k s) ks s).
Proof.
  induction ks as [|k ks IH]; intros s Hs; simpl; [exact Hs|].
  apply IH, qset_insert_NoDup, Hs.
Qed.

Lemma qset_fold_In ks : forall s x,
  In x (fold_left (fun s k => qset_insert k s) ks s) <-> In x ks \/ In x s.
Proof.
  induction ks as [|k ks IH]; intros s x; simpl; [tauto|].
  rewrite IH, qset_insert_In. intuition.
Qed.

Lemma qset_of_NoDup ks : NoDup (qset_of ks).
Proof. apply qset_fold_NoDup. constructor. Qed.

Lemma qset_of_In ks x : In x (qset_of ks) <-> In x ks.
Proof. unfold qset_of. rewrite qset_fold_In. simpl. tauto. Qed.

(** ** The per-track loops *)

Lemma stamps_app sel a b : stamps sel (a ++ b) = stamps sel a ++ stamps sel b.
Proof.
  induction a as [|e a IH]; simpl; [reflexivity|].
  destruct (sel e); simpl; rewrite IH; reflexivity.
Qed.

Lemma stamps_none sel evs :
  (forall e, In e evs -> sel e = None) -> stamps sel evs = [].
Proof.
  induction evs as [|e evs IH]; intros H; simpl; [reflexivity|].
  rewrite (H e) by (left; reflexivity). apply IH. intros e' He'. apply H. right. exact He'.
Qed.

Section ForEachTrack.

Variable f : TrackState -> TrackState * list Event.
Hypothesis f_keeps_id : forall tr, track_id (fst (f tr)) = track_id tr.

Lemma filedUnderId_insert m j tr :
  filedUnderId m -> track_id tr = j -> filedUnderId (tracks_insert j tr m).
Proof.
  intros Hm Hid j' tr'. destruct (Z.eq_dec j j') as [<-|Hne].
  - rewrite tracks_find_insert_same. intros H. inversion H; subst tr'. exact Hid.
  - rewrite tracks_find_insert_other by exact Hne. apply Hm.
Qed.

Lemma forEachTrack_find k ids : forall m,
  NoDup ids ->
  tracks_find k (fst (forEachTrack f ids m))
  = match tracks_find k m with
    | Some tr => Some (if existsb (Z.eqb k) ids then fst (f tr) else tr)
    | None => None
    end.
Proof.
  induction ids as [|j rest IH]; intros m Hnd; simpl.
  - destruct (tracks_find k m); reflexivity.
  - inversion Hnd as [|? ? Hnotin Hnd']; subst.
    destruct (tracks_find j m) as [trj|] eqn:Ej.
    + destruct (f trj) as [trj' ev] eqn:Ef.
      specialize (IH (tracks_insert j trj' m) Hnd').
      destruct (forEachTrack f rest (tracks_insert j trj' m)) as [m' evs].
      simpl in *. rewrite IH.
      destruct (Z.eq_dec j k) as [->|Hne].
      * rewrite tracks_find_insert_same, Ej, Z.eqb_refl. simpl.
        replace (existsb (Z.eqb k) rest) with false.
        -- rewrite Ef. reflexivity.
        -- symmetry. apply not_true_is_false. intros H.
           apply existsb_eqb_In in H. contradiction.
      * rewrite tracks_find_insert_other by exact Hne.
        replace (k =? j) with false by (symmetry; apply Z.eqb_neq; congruence).
        reflexivity.
    + rewrite IH by exact Hnd'.
      destruct (Z.eq_dec j k) as [->|Hne].
      * rewrite Ej. reflexivity.
      * replace (k =? j) with false by (symmetry; apply Z.eqb_neq; congruence).
        reflexivity.
Qed.

Lemma forEachTrack_filed ids : forall m,
  filedUnderId m -> filedUnderId (fst (forEachTrack f ids m)).
Proof.
  induction ids as [|j rest IH]; intros m Hm; simpl; [exact Hm|].
  destruct (tracks_find j m) as [trj|] eqn:Ej; [|apply IH, Hm].
  pose proof (f_keeps_id trj) as Hid.
  destruct (f trj) as [trj' ev]. simpl in Hid.
  specialize (IH (tracks_insert j trj' m)).
  destruct (forEachTrack f rest (tracks_insert j trj' m)) as [m' evs].
  simpl in *. apply IH. apply filedUnderId_insert; [exact Hm|].
  rewrite Hid. apply Hm, Ej.
Qed.

Variable sel : Z -> Event -> option Z.
Hypothesis f_own_events :
  forall tr k, track_id tr <> k -> stamps (sel k) (snd (f tr)) = [].

Lemma forEachTrack_stamps k ids : forall m,
  NoDup ids -> filedUnderId m ->
  stamps (sel k) (snd (forEachTrack f ids m))
  = match tracks_find k m with
    | Some tr => if existsb (Z.eqb k) ids then stamps (sel k) (snd (f tr)) else []
    | None => []
    end.
Proof.
  induction ids as [|j rest IH]; intros m Hnd Hm; simpl.
  - destruct (tracks_find k m); reflexivity.
  - inversion Hnd as [|? ? Hnotin Hnd']; subst.
    destruct (tracks_find j m) as [trj|] eqn:Ej.
    + pose proof (f_keeps_id trj) as Hid.
      pose proof (f_own_events trj k) as Hown.
      destruct (f trj) as [trj' ev] eqn:Ef. simpl in Hid, Hown.
      assert (Hm' : filedUnderId (tracks_insert j trj' m)).
      { apply filedUnderId_insert; [exact Hm|]. rewrite Hid. apply Hm, Ej. }
      specialize (IH (tracks_insert j trj' m) Hnd' Hm').
      destruct (forEachTrack f rest (tracks_insert j trj' m)) as [m' evs].
      simpl in *. rewrite stamps_app, IH.
      destruct (Z.eq_dec j k) as [->|Hne].
      * rewrite tracks_find_insert_same, Ej, Z.eqb_refl. simpl.
        replace (existsb (Z.eqb k) rest) with false.
        -- rewrite Ef. simpl. apply app_nil_r.
        -- symmetry. apply not_true_is_false. intros H.
           apply existsb_eqb_In in H. contradiction.
      * rewrite tracks_find_insert_other by exact Hne.
        replace (k =? j) with false by (symmetry; apply Z.eqb_neq; congruence).
        rewrite Hown; [reflexivity|].
        rewrite (Hm _ _ Ej). exact Hne.
    + rewrite IH by assumption.
      destruct (Z.eq_dec j k) as [->|Hne].
      * rewrite Ej. reflexivity.
      * replace (k =? j) with false by (symmetry; apply Z.eqb_neq; congruence).
        reflexivity.
Qed.

End ForEachTrack.

(** ** One invocation of the tracker, seen from one track id *)

Lemma tracker_wf_filed t : tracker_wf t = true -> filedUnderId (m_tracks t).
Proof.
  intros Hwf j tr Hf. apply (tracker_wf_find t j tr Hwf Hf).
Qed.

Lemma forEachTrack_wf f ids n :
  (forall tr, track_id (fst (f tr)) = track_id tr) ->
  forall m, tracker_wf (mkTracker m n) = true ->
  tracker_wf (mkTracker (fst (forEachTrack f ids m)) n) = true.
Proof.
  intros Hid. induction ids as [|j rest IH]; intros m Hwf; simpl; [exact Hwf|].
  destruct (tracks_find j m) as [trj|] eqn:Ej; [|apply IH, Hwf].
  pose proof (Hid trj) as Hid'.
  destruct (f trj) as [trj' ev]. simpl in Hid'.
  specialize (IH (tracks_insert j trj' m)).
  destruct (forEachTrack f rest (tracks_insert j trj' m)) as [m' evs].
  simpl in *. apply IH.
  apply (tracker_wf_insert_existing (mkTracker m n) j trj trj' Hwf Ej).
  rewrite Hid'. apply (tracker_wf_find (mkTracker m n) j trj Hwf Ej).
Qed.

Lemma roiAndLoitering_keeps_id r now tr :
  track_id (fst (roiAndLoitering r now tr)) = track_id tr.
Proof. apply roiAndLoitering_state. Qed.

Lemma checkLineCrossing_keeps_id tw now tr :
  track_id (fst (checkLineCrossing tw now tr)) = track_id tr.
Proof.
  unfold checkLineCrossing.
  destruct (QPointF_eq _ _); [reflexivity|].
  destruct (_ <? _); [reflexivity|].
  destruct (_ && _); reflexivity.
Qed.

(** [checkLineCrossing] on one track: silent and unchanged, or one event
    at least [TRIPWIRE_ALERT_DEBOUNCE_MS] after the last one, which it
    records. *)
Lemma checkLineCrossing_cases tw now tr :
  checkLineCrossing tw now tr = (tr, [])
  \/ (TRIPWIRE_ALERT_DEBOUNCE_MS <= now - lastTripwireAlertMs tr
      /\ QPointF_eq (centroid tr) (prevCentroid tr) = false
      /\ exists d,
           checkLineCrossing tw now tr
           = (setLastTripwireAlertMs now tr,
              [trackCrossedTripwire (track_id tr) (label tr) d now])).
Proof.
  unfold checkLineCrossing.
  destruct (QPointF_eq _ _); [left; reflexivity|].
  destruct (_ <? _) eqn:E; [left; reflexivity|].
  destruct (_ && _); [|left; reflexivity].
  right. apply Z.ltb_ge in E. split; [exact E|]. split; [reflexivity|]. eauto.
Qed.

Lemma checkLineCrossing_own_events tw now tr k :
  track_id tr <> k ->
  stamps (trackCrossingStamp k) (snd (checkLineCrossing tw now tr)) = [].
Proof.
  intros Hne. destruct (checkLineCrossing_cases tw now tr) as [->|(_ & _ & d & ->)].
  - reflexivity.
  - simpl. replace (track_id tr =? k) with false; [reflexivity|].
    symmetry. apply Z.eqb_neq, Hne.
Qed.

Lemma roiAndLoitering_no_crossing r now tr k :
  stamps (trackCrossingStamp k) (snd (roiAndLoitering r now tr)) = [].
Proof.
  apply stamps_none. intros e He. unfold roiAndLoitering in He.
  apply checkLoitering_events in He as [d ->]. reflexivity.
Qed.

Lemma forEachTrack_no_crossing f ids m k :
  (forall tr, stamps (trackCrossingStamp k) (snd (f tr)) = []) ->
  stamps (trackCrossingStamp k) (snd (forEachTrack f ids m)) = [].
Proof.
  intros Hf. revert m. induction ids as [|j rest IH]; intros m; simpl; [reflexivity|].
  destruct (tracks_find j m) as [trj|]; [|apply IH].
  specialize (Hf trj). destruct (f trj) as [trj' ev].
  specialize (IH (tracks_insert j trj' m)).
  destruct (forEachTrack f rest (tracks_insert j trj' m)) as [m' evs].
  simpl in *. rewrite stamps_app, Hf, IH. reflexivity.
Qed.

Lemma assignDetection_lastCrossing now t dwc k :
  tracker_wf t = true ->
  lastCrossing (fst (assignDetection now t dwc)) k = lastCrossing t k.
Proof.
  intros Hwf. unfold lastCrossing.
  destruct (assignDetection_cases now t dwc Hwf)
    as [[tr (Hf & _ & _ & ->)]|(_ & _ & ->)]; simpl.
  - destruct (Z.eq_dec (snd (assignDetection now t dwc)) k) as [Heq|Hne].
    + rewrite Heq in *. rewrite tracks_find_insert_same, Hf. reflexivity.
    + rewrite tracks_find_insert_other by exact Hne. reflexivity.
  - destruct (Z.eq_dec (m_nextTrackId t) k) as [<-|Hne].
    + rewrite tracks_find_insert_same.
      rewrite (tracker_wf_next_absent t Hwf) by lia.
      rewrite Z.ltb_irrefl. reflexivity.
    + rewrite tracks_find_insert_other by exact Hne.
      destruct (tracks_find k (m_tracks t)); [reflexivity|].
      destruct (k <? m_nextTrackId t) eqn:E1; destruct (k <? m_nextTrackId t + 1) eqn:E2;
        try reflexivity.
      * apply Z.ltb_lt in E1. apply Z.ltb_ge in E2. lia.
      * apply Z.ltb_ge in E1. apply Z.ltb_lt in E2. lia.
Qed.

Lemma assignTracks_lastCrossing now dwcs k : forall t,
  tracker_wf t = true ->
  lastCrossing (fst (assignTracks now dwcs t)) k = lastCrossing t k.
Proof.
  induction dwcs as [|dwc rest IH]; intros t Hwf; [reflexivity|].
  simpl. pose proof (assignDetection_wf now t dwc Hwf) as H1.
  pose proof (assignDetection_lastCrossing now t dwc k Hwf) as H2.
  destruct (assignDetection now t dwc) as [t1 k1]. simpl in H1, H2.
  specialize (IH t1 H1). destruct (assignTracks now rest t1) as [t2 ks].
  simpl in *. congruence.
Qed.

Lemma cleanupStaleTracks_wf now m n :
  tracker_wf (mkTracker m n) = true ->
  tracker_wf (mkTracker (cleanupStaleTracks now m) n) = true.
Proof.
  intros Hwf. apply tracker_wf_iff in Hwf as [H0 [Ha Hb]]. simpl in *.
  apply tracker_wf_iff. simpl. split; [exact H0|]. split.
  - apply keysAscending_remove_all, Ha.
  - intros k tr Hin. unfold cleanupStaleTracks in Hin.
    apply tracks_In_remove_all in Hin as [Hin _]. eapply Hb, Hin.
Qed.

Lemma cleanupStaleTracks_lastCrossing now m n k :
  tracker_wf (mkTracker m n) = true ->
  lastCrossing (mkTracker (cleanupStaleTracks now m) n) k = None
  \/ lastCrossing (mkTracker (cleanupStaleTracks now m) n) k
     = lastCrossing (mkTracker m n) k.
Proof.
  intros Hwf. unfold lastCrossing, cleanupStaleTracks. simpl.
  destruct (tracks_find_remove_all k (staleKeys now m) m) as [H|H]; rewrite H.
  - destruct (tracks_find k m) as [tr|] eqn:E; [|right; reflexivity].
    left. destruct (tracker_wf_find _ _ _ Hwf E) as [Hk _]. simpl in Hk.
    replace (k <? n) with true by (symmetry; apply Z.ltb_lt; lia). reflexivity.
  - right. reflexivity.
Qed.

Lemma debounceStep_refl gap p : debounceStep gap p [] p.
Proof. intros rest H. exact H. Qed.

Lemma debounceStep_trans gap p ts q ts' q' :
  debounceStep gap p ts q -> debounceStep gap q ts' q' ->
  debounceStep gap p (ts ++ ts') q'.
Proof.
  intros H1 H2 rest H. rewrite <- app_assoc. apply H1, H2, H.
Qed.

Lemma spacedAfter_nil gap q : spacedAfter gap q [].
Proof. destruct q; simpl; auto. Qed.

Lemma debounceStep_forget gap p ts q :
  debounceStep gap p ts q -> debounceStep gap p ts None.
Proof.
  intros H rest Hrest. simpl in Hrest. subst rest. apply H, spacedAfter_nil.
Qed.

(** The crossing loop of one invocation, seen from track [k]. *)
Lemma crossingLoop_step tw now ids m n k :
  NoDup ids -> tracker_wf (mkTracker m n) = true ->
  debounceStep TRIPWIRE_ALERT_DEBOUNCE_MS
    (lastCrossing (mkTracker m n) k)
    (stamps (trackCrossingStamp k) (snd (forEachTrack (checkLineCrossing tw now) ids m)))
    (lastCrossing (mkTracker (fst (forEachTrack (checkLineCrossing tw now) ids m)) n) k)
  /\ (List.length
        (stamps (trackCrossingStamp k)
           (snd (forEachTrack (checkLineCrossing tw now) ids m))) <= 1)%nat.
Proof.
  intros Hnd Hwf.
  pose proof (tracker_wf_filed _ Hwf) as Hfiled. simpl in Hfiled.
  rewrite (forEachTrack_stamps (checkLineCrossing tw now)
             (checkLineCrossing_keeps_id tw now) trackCrossingStamp
             (checkLineCrossing_own_events tw now) k ids m Hnd Hfiled).
  unfold lastCrossing. simpl.
  rewrite (forEachTrack_find (checkLineCrossing tw now) k ids m Hnd).
  destruct (tracks_find k m) as [tr|] eqn:Ef.
  - destruct (existsb (Z.eqb k) ids).
    + destruct (checkLineCrossing_cases tw now tr) as [->|(Hgap & _ & d & ->)]; simpl.
      * split; [apply debounceStep_refl|lia].
      * rewrite (Hfiled _ _ Ef), Z.eqb_refl. simpl. split; [|lia].
        intros rest Hrest. simpl in *. split; assumption.
    + split; [apply debounceStep_refl|simpl; lia].
  - split; [apply debounceStep_refl|simpl; lia].
Qed.

Lemma roiLoop_lastCrossing r now ids m n k :
  NoDup ids ->
  lastCrossing (mkTracker (fst (forEachTrack (roiAndLoitering r now) ids m)) n) k
  = lastCrossing (mkTracker m n) k.
Proof.
  intros Hnd. unfold lastCrossing. simpl.
  rewrite (forEachTrack_find (roiAndLoitering r now) k ids m Hnd).
  destruct (tracks_find k m) as [tr|]; [|reflexivity].
  destruct (existsb (Z.eqb k) ids); [|reflexivity].
  f_equal. apply roiAndLoitering_state.
Qed.

(** One invocation of the tracker, seen from track [k]: well-formedness
    is kept, the spacing of the crossings of [k] is kept, and [k] crosses
    at most once. *)
Lemma updateTracker_crossing_step r tw now dwcs t k :
  tracker_wf t = true ->
  tracker_wf (fst (updateTracker r tw now dwcs t)) = true
  /\ debounceStep TRIPWIRE_ALERT_DEBOUNCE_MS
       (lastCrossing t k)
       (stamps (trackCrossingStamp k) (snd (updateTracker r tw now dwcs t)))
       (lastCrossing (fst (updateTracker r tw now dwcs t)) k)
  /\ (List.length
        (stamps (trackCrossingStamp k) (snd (updateTracker r tw now dwcs t))) <= 1)%nat.
Proof.
  intros Hwf. unfold updateTracker.
  pose proof (assignTracks_wf now dwcs t Hwf) as Hwf1.
  pose proof (assignTracks_lastCrossing now dwcs k t Hwf) as Hl1.
  destruct (assignTracks now dwcs t) as [[m1 n1] assigned]. simpl in Hwf1, Hl1.
  pose proof (qset_of_NoDup assigned) as Hnd.
  pose proof (forEachTrack_wf (roiAndLoitering r now) (qset_of assigned) n1
                (roiAndLoitering_keeps_id r now) m1 Hwf1) as Hwf2.
  pose proof (roiLoop_lastCrossing r now (qset_of assigned) m1 n1 k Hnd) as Hl2.
  pose proof (forEachTrack_no_crossing (roiAndLoitering r now) (qset_of assigned) m1 k
                (fun tr => roiAndLoitering_no_crossing r now tr k)) as Hs2.
  simpl.
  destruct (forEachTrack (roiAndLoitering r now) (qset_of assigned) m1) as [m2 ev1].
  simpl in Hwf2, Hl2, Hs2.
  assert (H4 :
    exists m3 ev2,
      (if m_hasTripwire tw
       then forEachTrack (checkLineCrossing tw now) (qset_of assigned) m2
       else (m2, [])) = (m3, ev2)
      /\ tracker_wf (mkTracker m3 n1) = true
      /\ debounceStep TRIPWIRE_ALERT_DEBOUNCE_MS (lastCrossing (mkTracker m2 n1) k)
           (stamps (trackCrossingStamp k) ev2) (lastCrossing (mkTracker m3 n1) k)
      /\ (List.length (stamps (trackCrossingStamp k) ev2) <= 1)%nat).
  { destruct (m_hasTripwire tw).
    - pose proof (crossingLoop_step tw now (qset_of assigned) m2 n1 k Hnd Hwf2)
        as [Hd Hlen].
      pose proof (forEachTrack_wf (checkLineCrossing tw now) (qset_of assigned) n1
                    (checkLineCrossing_keeps_id tw now) m2 Hwf2) as Hwf3.
      destruct (forEachTrack (checkLineCrossing tw now) (qset_of assigned) m2)
        as [m3 ev2].
      exists m3, ev2. auto.
    - exists m2, []. split; [reflexivity|]. split; [exact Hwf2|].
      split; [apply debounceStep_refl|simpl; lia]. }
  destruct H4 as (m3 & ev2 & -> & Hwf3 & Hd & Hlen). simpl.
  rewrite stamps_app, Hs2. simpl.
  split; [apply cleanupStaleTracks_wf, Hwf3|]. split; [|exact Hlen].
  rewrite <- Hl1, <- Hl2.
  destruct (cleanupStaleTracks_lastCrossing now m3 n1 k Hwf3) as [H|H]; rewrite H.
  - eapply debounceStep_forget, Hd.
  - exact Hd.
Qed.

(** ** One captured frame, part by part *)

Lemma processMotionDetection_untouched f w :
  w_tracker (fst (processMotionDetection f w)) = w_tracker w
  /\ w_ai (fst (processMotionDetection f w)) = w_ai w
  /\ w_capture (fst (processMotionDetection f w)) = w_capture w
  /\ w_fps (fst (processMotionDetection f w)) = w_fps w.
Proof.
  unfold processMotionDetection.
  destruct (if m_hasRoi (w_roi w) then _ else _) as [r' ev2].
  destruct (if m_hasTripwire (w_tripwire w) then _ else _) as [t' ev3].
  simpl. auto.
Qed.

(** The motion path leaves the tracker alone, the AI path leaves the motion
    detector alone, and the events of a frame are those of the motion path,
    then those of the tracker, then events without an alert. *)
Lemma captureFrame_parts f w :
  exists ev_m ev_t ev_o,
    snd (captureFrame f w) = ev_m ++ ev_t ++ ev_o
    /\ ((w_motion (fst (captureFrame f w)) = w_motion w
         /\ w_roi (fst (captureFrame f w)) = w_roi w
         /\ w_tripwire (fst (captureFrame f w)) = w_tripwire w
         /\ ev_m = [])
        \/ (m_motionEnabled (w_motion w) = true
            /\ w_motion (fst (captureFrame f w)) = w_motion (fst (processMotionDetection f w))
            /\ w_roi (fst (captureFrame f w)) = w_roi (fst (processMotionDetection f w))
            /\ w_tripwire (fst (captureFrame f w))
               = w_tripwire (fst (processMotionDetection f w))
            /\ ev_m = snd (processMotionDetection f w)))
    /\ ((w_tracker (fst (captureFrame f w)) = w_tracker w /\ ev_t = [])
        \/ (exists r tw dwcs,
              updateTracker r tw (clock_tracks f) dwcs (w_tracker w)
              = (w_tracker (fst (captureFrame f w)), ev_t)))
    /\ (forall e, In e ev_o -> isPlainEvent e).
Proof.
  unfold captureFrame.
  destruct (_ || _).
  { exists [], [], []. simpl. split; [reflexivity|]. split; [left; auto|].
    split; [left; auto|]. intros e []. }
  destruct (frame_empty f).
  { exists [], [], [errorOccurred "Failed to capture frame"]. simpl.
    split; [reflexivity|]. split; [left; auto|]. split; [left; auto|].
    intros e [<-|[]]. exact I. }
  assert (Hai : forall w1,
    exists ev_t ev_a,
      snd (if m_aiEnabled (w_ai w1) && detectorReady (w_ai w1)
           then
             if AI_PROCESS_INTERVAL <=? m_aiFrameCounter (w_ai w1) + 1
             then processAIDetection f (setAiFrameCounter 0 w1)
             else (setAiFrameCounter (m_aiFrameCounter (w_ai w1) + 1) w1, [])
           else (w1, [])) = ev_t ++ ev_a
      /\ (forall e, In e ev_a -> isPlainEvent e)
      /\ (let w2 := fst (if m_aiEnabled (w_ai w1) && detectorReady (w_ai w1)
           then
             if AI_PROCESS_INTERVAL <=? m_aiFrameCounter (w_ai w1) + 1
             then processAIDetection f (setAiFrameCounter 0 w1)
             else (setAiFrameCounter (m_aiFrameCounter (w_ai w1) + 1) w1, [])
           else (w1, [])) in
          w_motion w2 = w_motion w1 /\ w_roi w2 = w_roi w1
          /\ w_tripwire w2 = w_tripwire w1
          /\ ((w_tracker w2 = w_tracker w1 /\ ev_t = [])
              \/ exists r tw dwcs,
                   updateTracker r tw (clock_tracks f) dwcs (w_tracker w1)
                   = (w_tracker w2, ev_t)))).
  { intros w1.
    destruct (_ && _).
    2:{ exists [], []. simpl. split; [reflexivity|]. split; [intros e []|]. auto 10. }
    destruct (_ <=? _).
    2:{ exists [], []. simpl. split; [reflexivity|]. split; [intros e []|]. auto 10. }
    unfold processAIDetection.
    destruct (negb _).
    { exists [], []. simpl. split; [reflexivity|]. split; [intros e []|]. auto 10. }
    destruct (infer_result f) as [dets|].
    2:{ exists [], []. simpl. split; [reflexivity|]. split; [intros e []|]. auto 10. }
    unfold updateTracks.
    destruct (updateTracker _ _ _ _ _) as [t' evs] eqn:E. simpl in *.
    exists evs, [aiDetectionsReady dets]. split; [reflexivity|].
    split; [intros e [<-|[]]; exact I|].
    split; [reflexivity|]. split; [reflexivity|]. split; [reflexivity|].
    right. eauto. }
  destruct (m_motionEnabled (w_motion w)) eqn:Em.
  - pose proof (processMotionDetection_untouched f w) as (Ht & _).
    destruct (processMotionDetection f w) as [w1 ev1]. simpl in Ht.
    destruct (Hai w1) as (ev_t & ev_a & Hev & Hplain & Hm & Hr & Htw & Htr).
    destruct (if m_aiEnabled (w_ai w1) && detectorReady (w_ai w1) then _ else _)
      as [w2 ev2].
    pose proof (accountFps_events f (w_fps w2)) as Hfps.
    destruct (accountFps f (w_fps w2)) as [fps' ev3].
    simpl in *. subst ev2.
    exists ev1, ev_t, (ev_a ++ frameCaptured :: ev3).
    split; [rewrite <- !app_assoc; reflexivity|].
    split; [right; auto|]. split.
    + rewrite <- Ht. exact Htr.
    + intros e He. apply in_app_or in He as [He|[<-|He]]; [auto|exact I|].
      apply Hfps in He as [q ->]. exact I.
  - destruct (Hai w) as (ev_t & ev_a & Hev & Hplain & Hm & Hr & Htw & Htr).
    destruct (if m_aiEnabled (w_ai w) && detectorReady (w_ai w) then _ else _)
      as [w2 ev2].
    pose proof (accountFps_events f (w_fps w2)) as Hfps.
    destruct (accountFps f (w_fps w2)) as [fps' ev3].
    simpl in *. subst ev2.
    exists [], ev_t, (ev_a ++ frameCaptured :: ev3).
    split; [rewrite <- !app_assoc; reflexivity|].
    split; [left; auto|]. split; [exact Htr|].
    intros e He. apply in_app_or in He as [He|[<-|He]]; [auto|exact I|].
    apply Hfps in He as [q ->]. exact I.
Qed.

(** ** Debouncing over a run *)

Section RunDebounce.

Variable gap : Z.
Variable sel : Event -> option Z.
Variable clock : CaptureWorker -> option Z.
Variable inv : CaptureWorker -> Prop.
Variable allowed : Msg -> bool.

Hypothesis handle_step : forall m w,
  allowed m = true -> inv w ->
  inv (fst (handle m w))
  /\ debounceStep gap (clock w) (stamps sel (snd (handle m w)))
       (clock (fst (handle m w))).

Lemma run_debounce msgs : forall w,
  forallb allowed msgs = true -> inv w ->
  spacedAfter gap (clock w) (stamps sel (snd (run msgs w))).
Proof.
  induction msgs as [|m rest IH]; intros w Hall Hinv; simpl.
  - apply spacedAfter_nil.
  - simpl in Hall. apply andb_true_iff in Hall as [Hm Hrest].
    destruct (handle_step m w Hm Hinv) as [Hinv1 Hstep].
    destruct (handle m w) as [w1 ev]. simpl in Hinv1, Hstep.
    specialize (IH w1 Hrest Hinv1).
    destruct (run rest w1) as [w2 evs]. simpl in *.
    rewrite stamps_app. apply Hstep, IH.
Qed.

End RunDebounce.

Lemma spacedFrom_spaced gap p ts : spacedFrom gap p ts -> spaced gap ts.
Proof. destruct ts as [|t rest]; simpl; tauto. Qed.

Lemma spacedAfter_spaced gap q ts : spacedAfter gap q ts -> spaced gap ts.
Proof.
  destruct q as [p|]; simpl.
  - apply spacedFrom_spaced.
  - intros ->. exact I.
Qed.

Lemma debounceStep_fire gap p t :
  gap <= t - p -> debounceStep gap (Some p) [t] (Some t).
Proof. intros H rest Hrest. simpl in *. auto. Qed.

Lemma stamps_plain sel evs :
  (forall e, isPlainEvent e -> sel e = None) ->
  (forall e, In e evs -> isPlainEvent e) -> stamps sel evs = [].
Proof. intros Hsel Hev. apply stamps_none. auto. Qed.

Lemma stamps_track_events sel r tw now dwcs t :
  (forall e, isTrackEvent e -> sel e = None) ->
  stamps sel (snd (updateTracker r tw now dwcs t)) = [].
Proof.
  intros Hsel. apply stamps_none. intros e He. apply Hsel.
  eapply updateTracker_events, He.
Qed.

(** The three clocks of the motion path. *)
Lemma processRoiMotion_step s f r :
  debounceStep 3000 (Some (m_lastRoiAlertTime r))
    (stamps roiStamp (snd (processRoiMotion s f r)))
    (Some (m_lastRoiAlertTime (fst (processRoiMotion s f r)))).
Proof.
  unfold processRoiMotion.
  destruct (_ <? 3); [apply debounceStep_refl|].
  destruct (_ =? 0); [apply debounceStep_refl|].
  destruct (Qltb _ _); [|apply debounceStep_refl].
  destruct (3000 <? _) eqn:E; [|apply debounceStep_refl].
  simpl. apply Z.ltb_lt in E. apply debounceStep_fire. lia.
Qed.

Lemma processTripwire_step f t :
  debounceStep 2000 (Some (m_lastTripwireAlertTime t))
    (stamps tripwireStamp (snd (processTripwire f t)))
    (Some (m_lastTripwireAlertTime (fst (processTripwire f t)))).
Proof.
  unfold processTripwire.
  destruct (Qltb (mom_m00 f) 100); [apply debounceStep_refl|].
  simpl.
  match goal with |- context [if ?b then clock_tripwire f else _] =>
    destruct b eqn:E end; simpl; [|apply debounceStep_refl].
  apply andb_true_iff in E as [_ E]. apply Z.ltb_lt in E.
  apply debounceStep_fire. lia.
Qed.

Lemma processMotionDetection_steps f w :
  debounceStep 2000 (Some (m_lastMotionTime (w_motion w)))
    (stamps motionStamp (snd (processMotionDetection f w)))
    (Some (m_lastMotionTime (w_motion (fst (processMotionDetection f w)))))
  /\ debounceStep 3000 (Some (m_lastRoiAlertTime (w_roi w)))
       (stamps roiStamp (snd (processMotionDetection f w)))
       (Some (m_lastRoiAlertTime (w_roi (fst (processMotionDetection f w)))))
  /\ debounceStep 2000 (Some (m_lastTripwireAlertTime (w_tripwire w)))
       (stamps tripwireStamp (snd (processMotionDetection f w)))
       (Some (m_lastTripwireAlertTime (w_tripwire (fst (processMotionDetection f w))))).
Proof.
  unfold processMotionDetection.
  pose proof (processRoiMotion_step (m_motionSensitivity (w_motion w)) f (w_roi w)) as Hr.
  pose proof (processRoiMotion_events (m_motionSensitivity (w_motion w)) f (w_roi w))
    as Hre.
  pose proof (processTripwire_step f (w_tripwire w)) as Ht.
  pose proof (processTripwire_events f (w_tripwire w)) as Hte.
  assert (Hr' : exists r' ev2,
    (if m_hasRoi (w_roi w)
     then processRoiMotion (m_motionSensitivity (w_motion w)) f (w_roi w)
     else (w_roi w, [])) = (r', ev2)
    /\ debounceStep 3000 (Some (m_lastRoiAlertTime (w_roi w))) (stamps roiStamp ev2)
         (Some (m_lastRoiAlertTime r'))
    /\ stamps motionStamp ev2 = [] /\ stamps tripwireStamp ev2 = []).
  { destruct (m_hasRoi (w_roi w)).
    - destruct (processRoiMotion _ f (w_roi w)) as [r' ev2]. simpl in *.
      exists r', ev2. split; [reflexivity|]. split; [exact Hr|].
      split; apply stamps_none; intros e He; apply Hre in He as [q [-> _]]; reflexivity.
    - exists (w_roi w), []. split; [reflexivity|].
      split; [apply debounceStep_refl|]. split; reflexivity. }
  assert (Ht' : exists t' ev3,
    (if m_hasTripwire (w_tripwire w)
     then processTripwire f (w_tripwire w)
     else (w_tripwire w, [])) = (t', ev3)
    /\ debounceStep 2000 (Some (m_lastTripwireAlertTime (w_tripwire w)))
         (stamps tripwireStamp ev3) (Some (m_lastTripwireAlertTime t'))
    /\ stamps motionStamp ev3 = [] /\ stamps roiStamp ev3 = []).
  { destruct (m_hasTripwire (w_tripwire w)).
    - destruct (processTripwire f (w_tripwire w)) as [t' ev3]. simpl in *.
      exists t', ev3. split; [reflexivity|]. split; [exact Ht|].
      split; apply stamps_none; intros e He; apply Hte in He as [q [-> _]]; reflexivity.
    - exists (w_tripwire w), []. split; [reflexivity|].
      split; [apply debounceStep_refl|]. split; reflexivity. }
  destruct Hr' as (r' & ev2 & -> & Hr2 & Hrm & Hrt).
  destruct Ht' as (t' & ev3 & -> & Ht3 & Htm & Htr).
  simpl. rewrite !stamps_app, Hrm, Hrt, Htm, Htr, !app_nil_r.
  split; [|split].
  - destruct (Qltb _ _ && _) eqn:E; simpl; [|apply debounceStep_refl].
    apply andb_true_iff in E as [_ E]. apply Z.ltb_lt in E.
    apply debounceStep_fire. lia.
  - destruct (Qltb _ _ && _); simpl; exact Hr2.
  - destruct (Qltb _ _ && _); simpl; exact Ht3.
Qed.

Lemma captureFrame_mask_steps f w :
  debounceStep 2000 (Some (m_lastMotionTime (w_motion w)))
    (stamps motionStamp (snd (captureFrame f w)))
    (Some (m_lastMotionTime (w_motion (fst (captureFrame f w)))))
  /\ debounceStep 3000 (Some (m_lastRoiAlertTime (w_roi w)))
       (stamps roiStamp (snd (captureFrame f w)))
       (Some (m_lastRoiAlertTime (w_roi (fst (captureFrame f w)))))
  /\ debounceStep 2000 (Some (m_lastTripwireAlertTime (w_tripwire w)))
       (stamps tripwireStamp (snd (captureFrame f w)))
       (Some (m_lastTripwireAlertTime (w_tripwire (fst (captureFrame f w))))).
Proof.
  destruct (captureFrame_parts f w) as (ev_m & ev_t & ev_o & -> & Hm & Ht & Ho).
  assert (Hplain : forall sel,
            (forall e, isPlainEvent e -> sel e = None) -> stamps sel ev_o = []).
  { intros sel Hsel. apply stamps_plain; assumption. }
  assert (Htrack : forall sel,
            (forall e, isTrackEvent e -> sel e = None) -> stamps sel ev_t = []).
  { intros sel Hsel. destruct Ht as [[_ ->]|(r & tw & dwcs & E)]; [reflexivity|].
    change ev_t with (snd (w_tracker (fst (captureFrame f w)), ev_t)).
    rewrite <- E. apply stamps_track_events, Hsel. }
  rewrite !stamps_app.
  rewrite (Hplain motionStamp), (Hplain roiStamp), (Hplain tripwireStamp)
    by (intros [] H; try destruct H; reflexivity).
  rewrite (Htrack motionStamp), (Htrack roiStamp), (Htrack tripwireStamp)
    by (intros [] H; try destruct H; reflexivity).
  rewrite !app_nil_r.
  destruct Hm as [(-> & -> & -> & ->)|(_ & -> & -> & -> & ->)].
  - simpl. repeat split; apply debounceStep_refl.
  - apply processMotionDetection_steps.
Qed.

Lemma captureFrame_crossing_step f w k :
  tracker_wf (w_tracker w) = true ->
  tracker_wf (w_tracker (fst (captureFrame f w))) = true
  /\ debounceStep TRIPWIRE_ALERT_DEBOUNCE_MS
       (lastCrossing (w_tracker w) k)
       (stamps (trackCrossingStamp k) (snd (captureFrame f w)))
       (lastCrossing (w_tracker (fst (captureFrame f w))) k).
Proof.
  intros Hwf.
  destruct (captureFrame_parts f w) as (ev_m & ev_t & ev_o & -> & Hm & Ht & Ho).
  rewrite !stamps_app.
  rewrite (stamps_plain (trackCrossingStamp k) ev_o)
    by (try exact Ho; intros [] H; try destruct H; reflexivity).
  assert (Hmask : stamps (trackCrossingStamp k) ev_m = []).
  { destruct Hm as [(_ & _ & _ & ->)|(_ & _ & _ & _ & ->)]; [reflexivity|].
    apply stamps_none. intros e He.
    apply processMotionDetection_events in He
      as [[q [-> _]]|[[q [-> _]]|[d [-> _]]]]; reflexivity. }
  rewrite Hmask, app_nil_r. simpl.
  destruct Ht as [[-> ->]|(r & tw & dwcs & E)].
  - split; [exact Hwf|apply debounceStep_refl].
  - pose proof (updateTracker_crossing_step r tw (clock_tracks f) dwcs (w_tracker w) k Hwf)
      as (H1 & H2 & _).
    rewrite E in H1, H2. simpl in H1, H2. auto.
Qed.

Lemma start_untouched openOk now w :
  w_motion (fst (start openOk now w)) = w_motion w
  /\ w_roi (fst (start openOk now w)) = w_roi w
  /\ w_tripwire (fst (start openOk now w)) = w_tripwire w
  /\ w_tracker (fst (start openOk now w)) = w_tracker w
  /\ forall e, In e (snd (start openOk now w)) -> isPlainEvent e.
Proof.
  unfold start. destruct (m_running _); [simpl; intuition|].
  destruct (negb openOk); simpl; intuition. subst. exact I.
Qed.

Lemma stop_untouched w :
  w_motion (stop w) = w_motion w /\ w_roi (stop w) = w_roi w
  /\ w_tripwire (stop w) = w_tripwire w /\ w_tracker (stop w) = w_tracker w.
Proof. unfold stop. destruct (negb _); simpl; auto. Qed.

Lemma handle_motion_step m w :
  debounceStep 2000 (Some (m_lastMotionTime (w_motion w)))
    (stamps motionStamp (snd (handle m w)))
    (Some (m_lastMotionTime (w_motion (fst (handle m w))))).
Proof.
  destruct m; simpl; try apply debounceStep_refl.
  - destruct (start_untouched openOk now w) as (-> & _ & _ & _ & Hev).
    rewrite (stamps_plain motionStamp) by
      (try exact Hev; intros [] H; try destruct H; reflexivity).
    apply debounceStep_refl.
  - destruct (stop_untouched w) as (-> & _). apply debounceStep_refl.
  - apply captureFrame_mask_steps.
Qed.

Lemma handle_roi_step m w :
  negb (resetsRoiClock m) = true ->
  debounceStep 3000 (Some (m_lastRoiAlertTime (w_roi w)))
    (stamps roiStamp (snd (handle m w)))
    (Some (m_lastRoiAlertTime (w_roi (fst (handle m w))))).
Proof.
  destruct m; simpl; try discriminate; intros _; try apply debounceStep_refl.
  - destruct (start_untouched openOk now w) as (_ & -> & _ & _ & Hev).
    rewrite (stamps_plain roiStamp) by
      (try exact Hev; intros [] H; try destruct H; reflexivity).
    apply debounceStep_refl.
  - destruct (stop_untouched w) as (_ & -> & _). apply debounceStep_refl.
  - apply captureFrame_mask_steps.
Qed.

Lemma handle_tripwire_step m w :
  negb (resetsTripwireClock m) = true ->
  debounceStep 2000 (Some (m_lastTripwireAlertTime (w_tripwire w)))
    (stamps tripwireStamp (snd (handle m w)))
    (Some (m_lastTripwireAlertTime (w_tripwire (fst (handle m w))))).
Proof.
  destruct m; simpl; try discriminate; intros _; try apply debounceStep_refl.
  - destruct (start_untouched openOk now w) as (_ & _ & -> & _ & Hev).
    rewrite (stamps_plain tripwireStamp) by
      (try exact Hev; intros [] H; try destruct H; reflexivity).
    apply debounceStep_refl.
  - destruct (stop_untouched w) as (_ & _ & -> & _). apply debounceStep_refl.
  - apply captureFrame_mask_steps.
Qed.

Lemma handle_crossing_step k m w :
  tracker_wf (w_tracker w) = true ->
  tracker_wf (w_tracker (fst (handle m w))) = true
  /\ debounceStep TRIPWIRE_ALERT_DEBOUNCE_MS
       (lastCrossing (w_tracker w) k)
       (stamps (trackCrossingStamp k) (snd (handle m w)))
       (lastCrossing (w_tracker (fst (handle m w))) k).
Proof.
  intros Hwf.
  destruct m; simpl; try (split; [exact Hwf|apply debounceStep_refl]).
  - destruct (start_untouched openOk now w) as (_ & _ & _ & -> & Hev).
    rewrite (stamps_plain (trackCrossingStamp k)) by
      (try exact Hev; intros [] H; try destruct H; reflexivity).
    split; [exact Hwf|apply debounceStep_refl].
  - destruct (stop_untouched w) as (_ & _ & _ & ->).
    split; [exact Hwf|apply debounceStep_refl].
  - apply captureFrame_crossing_step, Hwf.
Qed.

(** C3, as the code has it.  In every run of the worker from any state:
    consecutive [motionDetected] events are at least 2000 ms apart;
    consecutive [roiMotionDetected] events are at least 3000 ms apart as
    long as the ROI is not set or cleared during the run; consecutive
    mask-centroid [tripwireCrossed] events are at least 2000 ms apart as
    long as the tripwire is not set or cleared during the run; and, from a
    well-formed tracker, consecutive [trackCrossedTripwire] events of one
    track id are at least 2000 ms apart. *)
Theorem debounce_gaps (msgs : list Msg) (w : CaptureWorker) :
  spaced 2000 (stamps motionStamp (snd (run msgs w)))
  /\ (keepsRoiClock msgs = true ->
      spaced 3000 (stamps roiStamp (snd (run msgs w))))
  /\ (keepsTripwireClock msgs = true ->
      spaced 2000 (stamps tripwireStamp (snd (run msgs w))))
  /\ (tracker_wf (w_tracker w) = true ->
      forall k, spaced 2000 (stamps (trackCrossingStamp k) (snd (run msgs w)))).
Proof.
  split; [|split; [|split]].
  - eapply spacedAfter_spaced.
    apply (run_debounce 2000 motionStamp
             (fun w => Some (m_lastMotionTime (w_motion w)))
             (fun _ => True) (fun _ => true)).
    + intros m w0 _ _. split; [exact I|apply handle_motion_step].
    + apply forallb_forall. reflexivity.
    + exact I.
  - intros Hkeep. eapply spacedAfter_spaced.
    apply (run_debounce 3000 roiStamp
             (fun w => Some (m_lastRoiAlertTime (w_roi w)))
             (fun _ => True) (fun m => negb (resetsRoiClock m))).
    + intros m w0 Hm _. split; [exact I|apply handle_roi_step, Hm].
    + exact Hkeep.
    + exact I.
  - intros Hkeep. eapply spacedAfter_spaced.
    apply (run_debounce 2000 tripwireStamp
             (fun w => Some (m_lastTripwireAlertTime (w_tripwire w)))
             (fun _ => True) (fun m => negb (resetsTripwireClock m))).
    + intros m w0 Hm _. split; [exact I|apply handle_tripwire_step, Hm].
    + exact Hkeep.
    + exact I.
  - intros Hwf k. eapply spacedAfter_spaced.
    apply (run_debounce TRIPWIRE_ALERT_DEBOUNCE_MS (trackCrossingStamp k)
             (fun w => lastCrossing (w_tracker w) k)
             (fun w => tracker_wf (w_tracker w) = true) (fun _ => true)).
    + intros m w0 _ Hw0. apply handle_crossing_step, Hw0.
    + apply forallb_forall. reflexivity.
    + exact Hwf.
Qed.

Lemma debounce_gaps_witness :
  (keepsRoiClock busyRun = true /\ keepsTripwireClock busyRun = true
   /\ tracker_wf (w_tracker busyWorker) = true)
  /\ spaced 2000 (stamps motionStamp (snd (run busyRun busyWorker)))
  /\ spaced 3000 (stamps roiStamp (snd (run busyRun busyWorker)))
  /\ spaced 2000 (stamps tripwireStamp (snd (run busyRun busyWorker)))
  /\ spaced 2000 (stamps (trackCrossingStamp 1) (snd (run busyRun busyWorker))).
Proof.
  destruct (debounce_gaps busyRun busyWorker) as (H1 & H2 & H3 & H4).
  split; [repeat split; reflexivity|].
  split; [exact H1|]. split; [apply H2; reflexivity|].
  split; [apply H3; reflexivity|]. apply H4. reflexivity.
Defined.

(** What the busy run emits: two events of each kind. *)
Example busyRun_stamps :
  stamps motionStamp (snd (run busyRun busyWorker)) = [200000; 202500]
  /\ stamps roiStamp (snd (run busyRun busyWorker)) = [200000; 203100]
  /\ stamps tripwireStamp (snd (run busyRun busyWorker)) = [200500; 203150]
  /\ stamps (trackCrossingStamp 1) (snd (run busyRun busyWorker)) = [200000; 203200].
Proof. repeat split; vm_compute; reflexivity. Qed.

(** C3 as stated fails: setting the ROI between two frames resets
    [m_lastRoiAlertTime], and two [roiMotionDetected] events follow each
    other 33 ms apart; setting the tripwire does the same to
    [tripwireCrossed]. *)
Lemma reconfiguration_breaks_gap :
  stamps roiStamp (snd (run roiRedrawn busyWorker)) = [200000; 200033]
  /\ ~ spaced 3000 (stamps roiStamp (snd (run roiRedrawn busyWorker)))
  /\ stamps tripwireStamp (snd (run wireRedrawn busyWorker)) = [200033; 200100]
  /\ ~ spaced 2000 (stamps tripwireStamp (snd (run wireRedrawn busyWorker))).
Proof.
  assert (H1 : stamps roiStamp (snd (run roiRedrawn busyWorker)) = [200000; 200033])
    by (vm_compute; reflexivity).
  assert (H2 : stamps tripwireStamp (snd (run wireRedrawn busyWorker))
               = [200033; 200100]) by (vm_compute; reflexivity).
  rewrite H1, H2. repeat split; simpl; lia.
Qed.

(** ** Reachable states *)

Lemma run_wf msgs : forall w,
  tracker_wf (w_tracker w) = true ->
  tracker_wf (w_tracker (fst (run msgs w))) = true.
Proof.
  induction msgs as [|m rest IH]; intros w Hwf; [exact Hwf|].
  simpl. destruct (handle_crossing_step 0 m w Hwf) as [H1 _].
  destruct (handle m w) as [w1 ev]. simpl in H1.
  specialize (IH w1 H1). destruct (run rest w1) as [w2 evs]. exact IH.
Qed.

(** Every state the worker reaches from its constructor has a well-formed
    tracker. *)
Lemma reachable_wf source msgs :
  tracker_wf (w_tracker (fst (run msgs (CaptureWorker_new source)))) = true.
Proof. apply run_wf. reflexivity. Qed.

Lemma qBound_range (v : Q) : (0 <= qBound 0 v 100 <= 100)%Q.
Proof.
  unfold qBound. split.
  - apply Q.le_max_l.
  - apply Q.max_lub; [discriminate|apply Q.le_min_l].
Qed.

Lemma captureFrame_sensitivity f w :
  m_motionSensitivity (w_motion (fst (captureFrame f w)))
  = m_motionSensitivity (w_motion w).
Proof.
  destruct (captureFrame_parts f w) as (ev_m & ev_t & ev_o & _ & Hm & _).
  destruct Hm as [(-> & _)|(_ & -> & _)]; [reflexivity|].
  unfold processMotionDetection.
  destruct (if m_hasRoi (w_roi w) then _ else _) as [r' ev2].
  destruct (if m_hasTripwire (w_tripwire w) then _ else _) as [t' ev3].
  reflexivity.
Qed.

(** Every state the worker reaches from its constructor has its
    sensitivity in [0,100]: the default is 50 and [CameraStream] clamps
    what it forwards. *)
Lemma reachable_sensitivity source msgs :
  (0 <= m_motionSensitivity (w_motion (fst (run msgs (CaptureWorker_new source))))
   <= 100)%Q.
Proof.
  assert (H : forall msgs w,
            (0 <= m_motionSensitivity (w_motion w) <= 100)%Q ->
            (0 <= m_motionSensitivity (w_motion (fst (run msgs w))) <= 100)%Q).
  { clear msgs. induction msgs as [|m rest IH]; intros w Hw; [exact Hw|].
    simpl.
    assert (H1 : (0 <= m_motionSensitivity (w_motion (fst (handle m w))) <= 100)%Q).
    { destruct m; simpl; try exact Hw.
      - destruct (start_untouched openOk now w) as (-> & _). exact Hw.
      - destruct (stop_untouched w) as (-> & _). exact Hw.
      - rewrite captureFrame_sensitivity. exact Hw.
      - apply qBound_range. }
    destruct (handle m w) as [w1 ev]. simpl in H1.
    specialize (IH w1 H1). destruct (run rest w1) as [w2 evs]. exact IH. }
  apply H. simpl. split; discriminate.
Qed.

(** ** How often a track is written and processed *)

Lemma assignTracks_length now dwcs : forall t,
  List.length (snd (assignTracks now dwcs t)) = List.length dwcs.
Proof.
  induction dwcs as [|dwc rest IH]; intros t; [reflexivity|].
  simpl. destruct (assignDetection now t dwc) as [t1 k].
  specialize (IH t1). destruct (assignTracks now rest t1) as [t2 ks].
  simpl in *. congruence.
Qed.

Lemma tracks_contains_insert k v j m :
  tracks_contains j (tracks_insert k v m) = (j =? k) || tracks_contains j m.
Proof.
  unfold tracks_contains. destruct (Z.eq_dec k j) as [->|Hne].
  - rewrite tracks_find_insert_same, Z.eqb_refl. reflexivity.
  - rewrite tracks_find_insert_other by exact Hne.
    replace (j =? k) with false by (symmetry; apply Z.eqb_neq; congruence).
    reflexivity.
Qed.

Lemma assignDetection_contains now t dwc j :
  tracks_contains j (m_tracks (fst (assignDetection now t dwc)))
  = (j =? snd (assignDetection now t dwc)) || tracks_contains j (m_tracks t).
Proof.
  unfold assignDetection. destruct (0 <=? _); simpl; apply tracks_contains_insert.
Qed.

Lemma assignTracks_contains now dwcs : forall t j,
  In j (snd (assignTracks now dwcs t)) \/ tracks_contains j (m_tracks t) = true ->
  tracks_contains j (m_tracks (fst (assignTracks now dwcs t))) = true.
Proof.
  induction dwcs as [|dwc rest IH]; intros t j; simpl.
  - intros [[]|H]; exact H.
  - pose proof (assignDetection_contains now t dwc j) as Hc.
    destruct (assignDetection now t dwc) as [t1 k]. simpl in Hc.
    specialize (IH t1 j). destruct (assignTracks now rest t1) as [t2 ks].
    simpl in *. intros [[->|Hin]|Hold]; apply IH.
    + right. rewrite Hc, Z.eqb_refl. reflexivity.
    + left. exact Hin.
    + right. rewrite Hc, Hold. apply orb_true_r.
Qed.

Lemma roiAndLoitering_own_events r now tr k :
  track_id tr <> k ->
  stamps (loiteringStamp k) (snd (roiAndLoitering r now tr)) = [].
Proof.
  intros Hne. apply stamps_none. intros e He. unfold roiAndLoitering in He.
  apply checkLoitering_events in He as [d ->]. simpl.
  replace (track_id tr =? k) with false; [reflexivity|].
  symmetry. apply Z.eqb_neq. exact Hne.
Qed.

Lemma checkLoitering_at_most_one now tr :
  (List.length (snd (checkLoitering now tr)) <= 1)%nat.
Proof.
  unfold checkLoitering.
  destruct (negb _); [simpl; lia|]. destruct (loiterAlertSent tr); [simpl; lia|].
  destruct (_ <=? _); simpl; lia.
Qed.

Lemma stamps_length sel evs :
  (List.length (stamps sel evs) <= List.length evs)%nat.
Proof.
  induction evs as [|e evs IH]; simpl; [lia|].
  destruct (sel e); simpl; lia.
Qed.

Lemma updateTracker_processed_once r tw now dwcs t k :
  tracker_wf t = true ->
  (List.length
     (stamps (loiteringStamp k) (snd (updateTracker r tw now dwcs t))) <= 1)%nat
  /\ (List.length
        (stamps (trackCrossingStamp k) (snd (updateTracker r tw now dwcs t))) <= 1)%nat.
Proof.
  intros Hwf. split; [|apply updateTracker_crossing_step, Hwf].
  unfold updateTracker.
  pose proof (assignTracks_wf now dwcs t Hwf) as Hwf1.
  destruct (assignTracks now dwcs t) as [[m1 n1] assigned]. simpl in Hwf1.
  pose proof (qset_of_NoDup assigned) as Hnd.
  pose proof (forEachTrack_stamps (roiAndLoitering r now)
                (roiAndLoitering_keeps_id r now) loiteringStamp
                (roiAndLoitering_own_events r now) k (qset_of assigned) m1 Hnd
                (tracker_wf_filed _ Hwf1)) as Hs.
  simpl.
  destruct (forEachTrack (roiAndLoitering r now) (qset_of assigned) m1) as [m2 ev1].
  simpl in Hs.
  assert (H2 : forall m3 ev2,
            (if m_hasTripwire tw
             then forEachTrack (checkLineCrossing tw now) (qset_of assigned) m2
             else (m2, [])) = (m3, ev2) ->
            stamps (loiteringStamp k) ev2 = []).
  { intros m3 ev2 E. apply stamps_none. intros e He.
    destruct (m_hasTripwire tw); [|inversion E; subst; destruct He].
    change ev2 with (snd (m3, ev2)) in He. rewrite <- E in He.
    assert (Hd : exists tr d, e = trackCrossedTripwire (track_id tr) (label tr) d now).
    { revert He.
      apply (forEachTrack_events
               (fun e => exists tr d,
                    e = trackCrossedTripwire (track_id tr) (label tr) d now)).
      intros tr e1 He1.
      apply checkLineCrossing_events in He1 as [d ->]. eauto. }
    destruct Hd as (tr & d & ->). reflexivity. }
  destruct (if m_hasTripwire tw then _ else _) as [m3 ev2].
  simpl. rewrite stamps_app, (H2 m3 ev2 eq_refl), app_nil_r, Hs.
  destruct (tracks_find k m1) as [tr|]; [|simpl; lia].
  destruct (existsb (Z.eqb k) (qset_of assigned)); [|simpl; lia].
  eapply Nat.le_trans; [apply stamps_length|].
  apply checkLoitering_at_most_one.
Qed.




(** ** The birth invocation of a track *)

Lemma fuzzyCoordEq_refl (a : Q) : fuzzyCoordEq a a = true.
Proof.
  unfold fuzzyCoordEq, qFuzzyIsNull, qFuzzyCompare.
  assert (H0 : (Qabs (a - a) == 0)%Q).
  { setoid_replace (a - a)%Q with 0%Q by ring. reflexivity. }
  destruct (qIsZero a || qIsZero a); apply Qle_bool_iff; rewrite H0.
  - discriminate.
  - rewrite Qmult_0_l. apply Q.min_glb; apply Qabs_nonneg.
Qed.

Lemma QPointF_eq_refl (p : QPointF) : QPointF_eq p p = true.
Proof. unfold QPointF_eq. rewrite !fuzzyCoordEq_refl. reflexivity. Qed.

(** The guard of [checkLineCrossing] does silence a track that still is as
    [updateTracks] creates it. *)
Lemma newTrack_does_not_cross tw now k dwc :
  checkLineCrossing tw now (newTrack k dwc now) = (newTrack k dwc now, []).
Proof.
  unfold checkLineCrossing. simpl. rewrite QPointF_eq_refl. reflexivity.
Qed.

(** C7 fails on the code.  No track exists; the detector reports two people
    0.083 apart, one on each side of the wire.  The first detection creates
    track 1, the second one is assigned to that same track, which then has
    a previous centroid different from its centroid, and the invocation
    that created the track emits a crossing for it. *)
Theorem newborn_track_crosses_in_birth_invocation :
  m_tracks (w_tracker freshWorker) = []
  /\ snd (assignTracks 100200
            (collectTracked cocoNames 0 twoPeople 640 480) (w_tracker freshWorker))
     = [1; 1]
  /\ snd (updateTracks twoPeople 640 480 100200 freshWorker)
     = [trackCrossedTripwire 1 "person" "right to left" 100200].
Proof. repeat split; vm_compute; reflexivity. Qed.

(** ** CSV export *)

Local Open Scope string_scope.
Local Arguments Ascii.eqb : simpl never.

Lemma append_nil_r (s : string) : s ++ "" = s.
Proof. induction s as [|c s IH]; simpl; [reflexivity|]. rewrite IH. reflexivity. Qed.

Lemma append_assoc (a b c : string) : (a ++ b) ++ c = a ++ (b ++ c).
Proof. induction a as [|x a IH]; simpl; [reflexivity|]. rewrite IH. reflexivity. Qed.

Lemma snoc_append (s : string) (c : ascii) (t : string) :
  snoc s c ++ t = s ++ String c t.
Proof. unfold snoc. rewrite append_assoc. reflexivity. Qed.

Lemma containsChar_replaceQuotes (c : ascii) (s : string) :
  containsChar c (replaceQuotes s) = containsChar c s.
Proof.
  induction s as [|d s IH]; simpl; [reflexivity|].
  destruct (Ascii.eqb d dquote) eqn:E; simpl; rewrite IH.
  - apply Ascii.eqb_eq in E. subst d.
    destruct (Ascii.eqb dquote c); reflexivity.
  - reflexivity.
Qed.

Lemma replaceQuotes_plain (s : string) :
  containsChar dquote s = false -> replaceQuotes s = s.
Proof.
  induction s as [|d s IH]; simpl; [reflexivity|].
  intros H. apply orb_false_iff in H as [H1 H2].
  rewrite H1, IH by exact H2. reflexivity.
Qed.

(** [escape] wraps exactly the fields that contain a comma, a double quote
    or a newline, with the double quotes inside doubled. *)
Lemma escape_cases (field : string) :
  (needsQuoting field = true
   /\ escape field = String dquote (replaceQuotes field ++ String dquote ""))
  \/ (needsQuoting field = false /\ escape field = field).
Proof.
  unfold escape, needsQuoting. rewrite !containsChar_replaceQuotes.
  destruct (containsChar comma field || containsChar dquote field
            || containsChar newline field) eqn:E.
  - left. auto.
  - right. split; [reflexivity|]. apply replaceQuotes_plain.
    apply orb_false_iff in E as [E _]. apply orb_false_iff in E as [_ E]. exact E.
Qed.

Lemma parse_unquoted sep row rows rest : forall f fld,
  needsQuoting f = false ->
  csvParseFrom Unquoted fld row rows (f ++ String sep rest)
  = csvParseFrom Unquoted (fld ++ f) row rows (String sep rest).
Proof.
  induction f as [|c f IH]; intros fld Hf.
  - rewrite append_nil_r. reflexivity.
  - unfold needsQuoting in Hf. simpl in Hf.
    apply orb_false_iff in Hf as [Hf H3]. apply orb_false_iff in Hf as [H1 H2].
    apply orb_false_iff in H1 as [H1 H1']. apply orb_false_iff in H2 as [H2 H2'].
    apply orb_false_iff in H3 as [H3 H3'].
    simpl. rewrite H1, H3. rewrite IH.
    + rewrite snoc_append. reflexivity.
    + unfold needsQuoting. rewrite H1', H2', H3'. reflexivity.
Qed.

Lemma parse_quoted sep row rows rest : forall f fld,
  csvParseFrom Quoted fld row rows (replaceQuotes f ++ String dquote (String sep rest))
  = csvParseFrom QuoteSeen (fld ++ f) row rows (String sep rest).
Proof.
  induction f as [|c f IH]; intros fld.
  - rewrite append_nil_r. reflexivity.
  - simpl. destruct (Ascii.eqb c dquote) eqn:E.
    + apply Ascii.eqb_eq in E. subst c. simpl.
      rewrite IH, snoc_append. reflexivity.
    + simpl. rewrite E, IH, snoc_append. reflexivity.
Qed.

Lemma sep_cases (sep : ascii) :
  sep = comma \/ sep = newline ->
  Ascii.eqb sep dquote = false
  /\ (Ascii.eqb sep comma = true \/ (Ascii.eqb sep comma = false
                                    /\ Ascii.eqb sep newline = true)).
Proof. intros [->| ->]; split; auto. Qed.

(** The reader takes an escaped field back to the field. *)
Lemma parse_escaped_field mode sep f row rows rest :
  mode = RowStart \/ mode = FieldStart ->
  sep = comma \/ sep = newline ->
  csvParseFrom mode "" row rows (escape f ++ String sep rest)
  = closeField sep f row rows rest.
Proof.
  intros Hmode Hsep. destruct (sep_cases sep Hsep) as [Hq Hc].
  assert (Hclose : forall m fld, m = Unquoted \/ m = QuoteSeen ->
            csvParseFrom m fld row rows (String sep rest)
            = closeField sep fld row rows rest).
  { intros m fld [-> | ->]; unfold closeField; simpl; rewrite ?Hq;
      destruct Hc as [-> | [-> ->]]; reflexivity. }
  destruct (escape_cases f) as [[Hn ->]|[Hn ->]].
  - assert (Hstart : csvParseFrom mode "" row rows
                       (String dquote (replaceQuotes f ++ String dquote "")
                        ++ String sep rest)
                     = csvParseFrom Quoted "" row rows
                         (replaceQuotes f ++ String dquote (String sep rest))).
    { simpl. rewrite append_assoc. simpl.
      destruct Hmode as [-> | ->]; reflexivity. }
    rewrite Hstart, parse_quoted. simpl append. apply Hclose. auto.
  - destruct f as [|c f].
    + simpl. unfold closeField. rewrite Hq.
      destruct Hmode as [-> | ->]; destruct Hc as [-> | [-> ->]]; reflexivity.
    + pose proof Hn as Hn'. unfold needsQuoting in Hn'. simpl in Hn'.
      apply orb_false_iff in Hn' as [Hn' H3]. apply orb_false_iff in Hn' as [H1 H2].
      apply orb_false_iff in H1 as [H1 H1']. apply orb_false_iff in H2 as [H2 H2'].
      apply orb_false_iff in H3 as [H3 H3'].
      assert (Hstart : csvParseFrom mode "" row rows (String c f ++ String sep rest)
                       = csvParseFrom Unquoted (String c "") row rows
                           (f ++ String sep rest)).
      { simpl. rewrite H1, H2, H3. destruct Hmode as [-> | ->]; reflexivity. }
      rewrite Hstart, parse_unquoted.
      * simpl append. apply Hclose. auto.
      * unfold needsQuoting. rewrite H1', H2', H3'. reflexivity.
Qed.

Lemma parse_field_comma mode f row rows rest :
  mode = RowStart \/ mode = FieldStart ->
  csvParseFrom mode "" row rows (escape f ++ String comma rest)
  = csvParseFrom FieldStart "" (row ++ [f])%list rows rest.
Proof. intros Hm. rewrite parse_escaped_field by auto. reflexivity. Qed.

Lemma parse_field_newline mode f row rows rest :
  mode = RowStart \/ mode = FieldStart ->
  csvParseFrom mode "" row rows (escape f ++ String newline rest)
  = csvParseFrom RowStart "" [] (rows ++ [(row ++ [f])%list])%list rest.
Proof. intros Hm. rewrite parse_escaped_field by auto. reflexivity. Qed.

Lemma append_cons (c : ascii) (a b : string) : String c a ++ b = String c (a ++ b).
Proof. reflexivity. Qed.

Lemma parse_row isoDate a rows rest :
  csvParseFrom RowStart "" [] rows (csvRow isoDate a ++ rest)
  = csvParseFrom RowStart "" [] (rows ++ [alertFields isoDate a])%list rest.
Proof.
  unfold csvRow.
  rewrite append_assoc, append_cons, parse_field_comma by auto.
  do 4 (rewrite append_assoc, append_cons, parse_field_comma by auto).
  rewrite append_assoc, append_cons, parse_field_newline by auto.
  reflexivity.
Qed.

Lemma parse_rows isoDate alerts : forall rows,
  csvParseFrom RowStart "" [] rows (csvRows isoDate alerts)
  = (rows ++ map (alertFields isoDate) alerts)%list.
Proof.
  induction alerts as [|a rest IH]; intros rows; simpl.
  - rewrite app_nil_r. reflexivity.
  - rewrite parse_row, IH, <- app_assoc. reflexivity.
Qed.

Lemma parse_header rest :
  csvParseFrom RowStart "" [] [] (csvHeader ++ String newline rest)
  = csvParseFrom RowStart "" [] [csvHeaderFields] rest.
Proof. reflexivity. Qed.

(** C8.  The text written by the CSV export starts with the header row
    [ID,Timestamp,Camera Name,Type,Message,Snapshot Path]; a field that
    contains a comma, a double quote or a newline is written between double
    quotes with its double quotes doubled, any other field as it is; and
    reading the text back gives the header fields followed by the six
    fields of every alert, unchanged. *)
Theorem csv_export_round_trip (isoDate : QDateTime -> string) (alerts : list Alert) :
  csvText isoDate alerts
  = csvHeader ++ String newline (csvRows isoDate alerts)
  /\ (forall field,
        (needsQuoting field = true ->
         escape field = String dquote (replaceQuotes field ++ String dquote ""))
        /\ (needsQuoting field = false -> escape field = field))
  /\ csvParse (csvText isoDate alerts)
     = csvHeaderFields :: map (alertFields isoDate) alerts
  /\ (forall dirExists mkpathOk openOk,
        fst (exportAlertsToCsv isoDate dirExists mkpathOk openOk alerts) = true ->
        snd (exportAlertsToCsv isoDate dirExists mkpathOk openOk alerts)
        = Some (csvText isoDate alerts)).
Proof.
  split; [reflexivity|]. split; [|split].
  - intros field. destruct (escape_cases field) as [[Hn ->]|[Hn ->]];
      split; intros H; congruence.
  - unfold csvParse, csvText. rewrite parse_header, parse_rows. reflexivity.
  - intros dirExists mkpathOk openOk. unfold exportAlertsToCsv.
    destruct (negb dirExists && negb mkpathOk); simpl; [discriminate|].
    destruct (negb openOk); simpl; [discriminate|reflexivity].
Qed.

Lemma csv_export_round_trip_witness :
  needsQuoting quotedMessage = true
  /\ escape quotedMessage
     = String dquote (replaceQuotes quotedMessage ++ String dquote "")
  /\ needsQuoting "Front Door" = false
  /\ escape "Front Door" = "Front Door"
  /\ csvParse (csvText sampleIsoDate [sampleAlert])
     = [csvHeaderFields; alertFields sampleIsoDate sampleAlert]
  /\ fst (exportAlertsToCsv sampleIsoDate false true true [sampleAlert]) = true
  /\ snd (exportAlertsToCsv sampleIsoDate false true true [sampleAlert])
     = Some (csvText sampleIsoDate [sampleAlert]).
Proof.
  destruct (csv_export_round_trip sampleIsoDate [sampleAlert]) as (_ & H2 & H3 & H4).
  split; [reflexivity|]. split; [apply (H2 quotedMessage); reflexivity|].
  split; [reflexivity|]. split; [apply (H2 "Front Door"); reflexivity|].
  split; [exact H3|]. split; [reflexivity|]. apply H4. reflexivity.
Defined.

(** The row of the escaping scenario, character by character. *)
Example csv_escaping_scenario :
  escape quotedMessage
  = String dquote
      ("He said, " ++ String dquote (String dquote
         ("hi" ++ String dquote (String dquote
            (String newline ("OK" ++ String dquote "")))))).
Proof. reflexivity. Qed.

Local Close Scope string_scope.

(** ** Configuration fallback *)

Local Open Scope string_scope.

Lemma loadConfiguration_unusable numberText file configs :
  missingOrMalformed file = true ->
  loadConfiguration numberText file configs = (false, configs).
Proof.
  destruct file as [|[| |root]]; simpl; intros H; try reflexivity. discriminate.
Qed.

(** C9.  When the configuration file cannot be opened or does not hold a
    JSON object, the constructor ends with exactly one configuration, the
    default camera [cam1] / [Default Camera] / [usb] / source [0], enabled,
    without ROI and without tripwire, and sets up its stream in slot 0 of
    the four slots; the constructor goes on to create the streams in every
    case. *)
Theorem config_fallback
  (numberText : Q -> string) (detector : option ObjectDetector) (file : ConfigFile) :
  missingOrMalformed file = true ->
  m_configs (CameraManager_new numberText detector file)
  = [mkConfig "cam1" "Default Camera" "usb" "0" true [] origin origin false false]
  /\ m_cameras (CameraManager_new numberText detector file)
     = [Some (mkSetup "cam1" "0" "usb" "Default Camera" None None detector);
        None; None; None].
Proof.
  intros H. unfold CameraManager_new.
  rewrite (loadConfiguration_unusable numberText file [] H). simpl.
  split; reflexivity.
Qed.

Lemma config_fallback_witness :
  (missingOrMalformed CannotOpen = true
   /\ m_configs (CameraManager_new plainNumber (Some loadedDetector) CannotOpen)
      = [defaultConfig]
   /\ m_cameras (CameraManager_new plainNumber (Some loadedDetector) CannotOpen)
      = [Some (setupOf (Some loadedDetector) defaultConfig); None; None; None])
  /\ (missingOrMalformed (FileContent DocNull) = true
      /\ m_configs (CameraManager_new plainNumber None (FileContent DocNull))
         = [defaultConfig])
  /\ (missingOrMalformed (FileContent (DocArray [JString "cam1"])) = true
      /\ m_configs (CameraManager_new plainNumber None
                      (FileContent (DocArray [JString "cam1"])))
         = [defaultConfig]).
Proof.
  split; [|split].
  - split; [reflexivity|].
    apply (config_fallback plainNumber (Some loadedDetector) CannotOpen).
    reflexivity.
  - split; [reflexivity|].
    apply (config_fallback plainNumber None (FileContent DocNull)). reflexivity.
  - split; [reflexivity|].
    apply (config_fallback plainNumber None (FileContent (DocArray [JString "cam1"]))).
    reflexivity.
Defined.

(** The constructor also falls back when the file is a JSON object whose
    [cameras] member is missing, not an array or empty. *)
Lemma empty_camera_list_falls_back numberText detector root :
  toArray (member "cameras" root) = [] ->
  m_configs (CameraManager_new numberText detector (FileContent (DocObject root)))
  = [defaultConfig].
Proof.
  intros H. unfold CameraManager_new, loadConfiguration. rewrite H. reflexivity.
Qed.

(** A loaded configuration is used as it is: at most four cameras, in file
    order, and no default camera is added. *)
Lemma loadCameras_length numberText values : forall configs,
  (List.length configs < 4)%nat ->
  (List.length (loadCameras numberText values configs) <= 4)%nat.
Proof.
  induction values as [|v rest IH]; intros configs Hlen; [simpl; lia|].
  cbn [loadCameras].
  destruct (4 <=? List.length (configs ++ [parseCamera numberText v])%list)%nat eqn:E.
  - rewrite length_app. simpl. lia.
  - apply Nat.leb_gt in E. apply IH. exact E.
Qed.

Local Close Scope string_scope.

(** * Further properties of the capture worker *)

(** ** One captured frame, step by step *)

(** What [captureFrame] computes on a frame it does process. *)
Lemma captureFrame_live f w :
  m_running (w_capture w) = true -> m_captureOpened (w_capture w) = true ->
  frame_empty f = false ->
  let p1 := if m_motionEnabled (w_motion w)
            then processMotionDetection f w else (w, []) in
  let p2 := if m_aiEnabled (w_ai (fst p1)) && detectorReady (w_ai (fst p1)) then
              if AI_PROCESS_INTERVAL <=? m_aiFrameCounter (w_ai (fst p1)) + 1
              then processAIDetection f (setAiFrameCounter 0 (fst p1))
              else (setAiFrameCounter (m_aiFrameCounter (w_ai (fst p1)) + 1) (fst p1), [])
            else (fst p1, []) in
  let p3 := accountFps f (w_fps (fst p2)) in
  captureFrame f w
  = (mkWorker (w_capture (fst p2)) (fst p3) (w_motion (fst p2)) (w_roi (fst p2))
              (w_tripwire (fst p2)) (w_ai (fst p2)) (w_tracker (fst p2)),
     snd p1 ++ snd p2 ++ [frameCaptured] ++ snd p3).
Proof.
  intros Hr Ho He p1 p2 p3. unfold captureFrame. rewrite Hr, Ho, He. simpl.
  subst p3 p2 p1.
  destruct (if m_motionEnabled (w_motion w) then _ else _) as [w1 ev1]. simpl.
  destruct (if m_aiEnabled (w_ai w1) && detectorReady (w_ai w1) then _ else _)
    as [w2 ev2]. simpl.
  destruct (accountFps f (w_fps w2)) as [fps' ev3]. reflexivity.
Qed.

(** A frame is not processed when the worker is not running, when the
    capture is not open, or when the frame is empty. *)
Lemma captureFrame_idle f w :
  m_running (w_capture w) = false \/ m_captureOpened (w_capture w) = false
  \/ frame_empty f = true ->
  fst (captureFrame f w) = w
  /\ (snd (captureFrame f w) = []
      \/ snd (captureFrame f w) = [errorOccurred "Failed to capture frame"]).
Proof.
  intros H. unfold captureFrame.
  destruct (negb (m_running (w_capture w)) || negb (m_captureOpened (w_capture w)))
    eqn:E; [simpl; auto|].
  apply orb_false_iff in E as [E1 E2].
  apply negb_false_iff in E1. apply negb_false_iff in E2.
  destruct H as [H|[H|H]]; try congruence.
  rewrite H. simpl. auto.
Qed.

Lemma captureFrame_live_or_idle f w :
  (m_running (w_capture w) = true /\ m_captureOpened (w_capture w) = true
   /\ frame_empty f = false)
  \/ (m_running (w_capture w) = false \/ m_captureOpened (w_capture w) = false
      \/ frame_empty f = true).
Proof.
  destruct (m_running (w_capture w)); [|auto].
  destruct (m_captureOpened (w_capture w)); [|auto].
  destruct (frame_empty f); auto.
Qed.

Lemma count_app {A : Type} (p : A -> bool) (a b : list A) :
  count p (a ++ b) = count p a + count p b.
Proof. unfold count. rewrite filter_app, length_app. lia. Qed.

Lemma count_nonneg {A : Type} (p : A -> bool) (l : list A) : 0 <= count p l.
Proof. unfold count. lia. Qed.

Lemma count_none {A : Type} (p : A -> bool) (l : list A) :
  (forall x, In x l -> p x = false) -> count p l = 0.
Proof.
  unfold count. induction l as [|x r IH]; intros H; [reflexivity|].
  simpl. rewrite (H x) by (left; reflexivity). apply IH.
  intros y Hy. apply H. right. exact Hy.
Qed.

Lemma updateTracks_ai dets fw fh now w :
  w_ai (fst (updateTracks dets fw fh now w)) = w_ai w
  /\ w_fps (fst (updateTracks dets fw fh now w)) = w_fps w
  /\ w_capture (fst (updateTracks dets fw fh now w)) = w_capture w.
Proof.
  unfold updateTracks. destruct (updateTracker _ _ _ _ _) as [t' evs]. simpl. auto.
Qed.

Lemma updateTracks_mask dets fw fh now w :
  w_motion (fst (updateTracks dets fw fh now w)) = w_motion w
  /\ w_roi (fst (updateTracks dets fw fh now w)) = w_roi w
  /\ w_tripwire (fst (updateTracks dets fw fh now w)) = w_tripwire w.
Proof.
  unfold updateTracks. destruct (updateTracker _ _ _ _ _) as [t' evs]. simpl. auto.
Qed.

Lemma processAIDetection_mask f w :
  w_motion (fst (processAIDetection f w)) = w_motion w
  /\ w_roi (fst (processAIDetection f w)) = w_roi w
  /\ w_tripwire (fst (processAIDetection f w)) = w_tripwire w.
Proof.
  unfold processAIDetection. destruct (negb _); [simpl; auto|].
  destruct (infer_result f) as [dets|]; [|simpl; auto].
  pose proof (updateTracks_mask dets (frame_cols f) (frame_rows f) (clock_tracks f) w)
    as H.
  destruct (updateTracks _ _ _ _ _) as [w' evs]. exact H.
Qed.

Lemma processAIDetection_ai f w :
  w_ai (fst (processAIDetection f w)) = w_ai w
  /\ w_fps (fst (processAIDetection f w)) = w_fps w
  /\ w_capture (fst (processAIDetection f w)) = w_capture w.
Proof.
  unfold processAIDetection. destruct (negb _); [simpl; auto|].
  destruct (infer_result f) as [dets|]; [|simpl; auto].
  pose proof (updateTracks_ai dets (frame_cols f) (frame_rows f) (clock_tracks f) w) as H.
  destruct (updateTracks _ _ _ _ _) as [w' evs]. exact H.
Qed.

Lemma processAIDetection_count f w :
  count isAiReady (snd (processAIDetection f w)) <= 1.
Proof.
  unfold processAIDetection. destruct (negb _); [simpl; unfold count; simpl; lia|].
  destruct (infer_result f) as [dets|]; [|unfold count; simpl; lia].
  pose proof (updateTracks_events dets (frame_cols f) (frame_rows f) (clock_tracks f) w)
    as H.
  destruct (updateTracks _ _ _ _ _) as [w' evs]. simpl in *.
  rewrite count_app, count_none.
  - unfold count. simpl. lia.
  - intros e He. apply H in He. destruct e; simpl in *; tauto.
Qed.

Lemma processMotionDetection_mask f w e :
  In e (snd (processMotionDetection f w)) -> isMaskEvent e = true.
Proof.
  intros He. apply processMotionDetection_events in He.
  destruct He as [(q & -> & _)|[(q & -> & _)|(d & -> & _)]]; reflexivity.
Qed.

Lemma motionPath_count (p : Event -> bool) f (w : CaptureWorker) :
  (forall e, isMaskEvent e = true -> p e = false) ->
  count p (snd (if m_motionEnabled (w_motion w)
                then processMotionDetection f w else (w, []))) = 0.
Proof.
  intros Hp. apply count_none. intros e He. apply Hp.
  destruct (m_motionEnabled (w_motion w)); [|destruct He].
  eapply processMotionDetection_mask, He.
Qed.

Lemma motionPath_untouched f (w : CaptureWorker) :
  let p1 := if m_motionEnabled (w_motion w)
            then processMotionDetection f w else (w, []) in
  w_ai (fst p1) = w_ai w /\ w_fps (fst p1) = w_fps w
  /\ w_capture (fst p1) = w_capture w /\ w_tracker (fst p1) = w_tracker w.
Proof.
  simpl. destruct (m_motionEnabled (w_motion w)); [|simpl; auto].
  destruct (processMotionDetection_untouched f w) as (H1 & H2 & H3 & H4). auto.
Qed.

(** ** The analysis interval *)

Lemma accountFps_no_ai f s : count isAiReady (snd (accountFps f s)) = 0.
Proof.
  apply count_none. intros e H. apply accountFps_events in H as [q ->]. reflexivity.
Qed.

Lemma headStart_step bound c : headStart bound (c + 1) <= headStart bound c + 1.
Proof. unfold headStart. lia. Qed.

Lemma captureFrame_ai_budget f w :
  AI_PROCESS_INTERVAL * count isAiReady (snd (captureFrame f w))
  + headStart AI_PROCESS_INTERVAL (m_aiFrameCounter (w_ai (fst (captureFrame f w))))
  <= headStart AI_PROCESS_INTERVAL (m_aiFrameCounter (w_ai w)) + 1.
Proof.
  destruct (captureFrame_live_or_idle f w) as [(Hr & Ho & He)|Hidle].
  - rewrite (captureFrame_live f w Hr Ho He). cbv zeta. cbn [fst snd w_ai].
    pose proof (motionPath_untouched f w) as (Hai & _). cbv zeta in Hai.
    pose proof (motionPath_count isAiReady f w) as Hc1.
    destruct (if m_motionEnabled (w_motion w) then _ else _) as [w1 ev1].
    cbn [fst snd] in *.
    rewrite !count_app, Hc1 by (intros [] H; try discriminate; reflexivity).
    rewrite accountFps_no_ai. change (count isAiReady [frameCaptured]) with 0.
    rewrite <- Hai.
    destruct (m_aiEnabled (w_ai w1) && detectorReady (w_ai w1)).
    + destruct (AI_PROCESS_INTERVAL <=? m_aiFrameCounter (w_ai w1) + 1) eqn:E.
      * apply Z.leb_le in E.
        pose proof (processAIDetection_count f (setAiFrameCounter 0 w1)) as Hc.
        destruct (processAIDetection_ai f (setAiFrameCounter 0 w1)) as (-> & _).
        cbn [setAiFrameCounter w_ai m_aiFrameCounter].
        unfold headStart, AI_PROCESS_INTERVAL in *. lia.
      * apply Z.leb_gt in E. cbn [fst snd setAiFrameCounter w_ai m_aiFrameCounter].
        change (count isAiReady []) with 0.
        unfold headStart, AI_PROCESS_INTERVAL in *. lia.
    + cbn [fst snd]. change (count isAiReady []) with 0.
      unfold headStart, AI_PROCESS_INTERVAL in *. lia.
  - destruct (captureFrame_idle f w Hidle) as (-> & [->| ->]);
      change (count isAiReady _) with 0; lia.
Qed.

Lemma handle_ai_budget m w :
  AI_PROCESS_INTERVAL * count isAiReady (snd (handle m w))
  + headStart AI_PROCESS_INTERVAL (m_aiFrameCounter (w_ai (fst (handle m w))))
  <= headStart AI_PROCESS_INTERVAL (m_aiFrameCounter (w_ai w)) + count isTick [m].
Proof.
  destruct m; simpl; try (change (count _ _) with 0; lia).
  - unfold start. destruct (m_running _); [change (count _ _) with 0; simpl; lia|].
    destruct (negb openOk); change (count _ _) with 0; simpl; lia.
  - unfold stop. destruct (negb _); change (count _ _) with 0; simpl; lia.
  - change (count isTick [TimerTick f]) with 1. apply captureFrame_ai_budget.
  - change (count _ _) with 0. unfold headStart, AI_PROCESS_INTERVAL. lia.
Qed.

Lemma run_ai_budget msgs : forall w,
  AI_PROCESS_INTERVAL * count isAiReady (snd (run msgs w))
  <= headStart AI_PROCESS_INTERVAL (m_aiFrameCounter (w_ai w)) + count isTick msgs.
Proof.
  induction msgs as [|m rest IH]; intros w.
  - simpl. change (count _ _) with 0. unfold headStart, AI_PROCESS_INTERVAL. lia.
  - cbn [run]. pose proof (handle_ai_budget m w) as H1.
    destruct (handle m w) as [w1 ev]. cbn [fst snd] in H1.
    specialize (IH w1). destruct (run rest w1) as [w2 evs]. cbn [fst snd] in *.
    rewrite count_app.
    change (m :: rest) with ([m] ++ rest). rewrite (count_app isTick).
    unfold AI_PROCESS_INTERVAL in *. lia.
Qed.

(** X1.  Object detection is rate limited: over any run of a worker from
    its constructor, whatever is switched on or off in between, the number
    of [aiDetectionsReady] events times five is at most the number of timer
    ticks, and from any state the first analysis comes no earlier than the
    frame counter allows. *)
Theorem ai_detection_every_fifth_frame (source : string) (msgs : list Msg)
  (w : CaptureWorker) :
  5 * count isAiReady (snd (run msgs (CaptureWorker_new source))) <= count isTick msgs
  /\ 5 * count isAiReady (snd (run msgs w)) <= 4 + count isTick msgs.
Proof.
  split.
  - apply (run_ai_budget msgs (CaptureWorker_new source)).
  - pose proof (run_ai_budget msgs w) as H.
    unfold headStart, AI_PROCESS_INTERVAL in H. lia.
Qed.

(** ** A worker that is not running *)

Lemma handle_not_running m w :
  m_running (w_capture w) = false -> neverOpens m = true ->
  m_running (w_capture (fst (handle m w))) = false
  /\ m_sourceText (w_capture (fst (handle m w))) = m_sourceText (w_capture w)
  /\ w_tracker (fst (handle m w)) = w_tracker w
  /\ snd (handle m w) = if isStart m then [openFailure w] else [].
Proof.
  intros Hr Hm. destruct m; simpl in *; auto.
  - unfold start. rewrite Hr, Hm. simpl. auto.
  - unfold stop. rewrite Hr. simpl. auto.
  - unfold captureFrame. rewrite Hr. simpl. auto.
Qed.

(** X2.  A worker that is not running does nothing with its timer ticks:
    after [stop], and as long as no [start] manages to open the capture,
    no frame is processed, the tracker is left as it is, and the only
    events are the errors of the failed [start] attempts, one each. *)
Theorem stopped_worker_is_silent (msgs : list Msg) (w : CaptureWorker) :
  forallb neverOpens msgs = true ->
  snd (run msgs (stop w))
  = repeat (openFailure w) (List.length (filter isStart msgs))
  /\ m_running (w_capture (fst (run msgs (stop w)))) = false
  /\ w_tracker (fst (run msgs (stop w))) = w_tracker w.
Proof.
  intros Hmsgs.
  assert (H : forall msgs w0,
            forallb neverOpens msgs = true ->
            m_running (w_capture w0) = false ->
            snd (run msgs w0)
            = repeat (openFailure w0) (List.length (filter isStart msgs))
            /\ m_running (w_capture (fst (run msgs w0))) = false
            /\ w_tracker (fst (run msgs w0)) = w_tracker w0).
  { clear. induction msgs as [|m rest IH]; intros w0 Hall Hr; [simpl; auto|].
    simpl in Hall. apply andb_true_iff in Hall as [Hm Hrest].
    cbn [run]. destruct (handle_not_running m w0 Hr Hm) as (H1 & H2 & H3 & H4).
    destruct (handle m w0) as [w1 ev]. cbn [fst snd] in *.
    destruct (IH w1 Hrest H1) as (I1 & I2 & I3).
    destruct (run rest w1) as [w2 evs]. cbn [fst snd] in *.
    split; [|split; [exact I2|congruence]].
    rewrite H4, I1. unfold openFailure. rewrite H2.
    cbn [filter]. destruct (isStart m); reflexivity. }
  assert (Hs : m_running (w_capture (stop w)) = false
               /\ openFailure (stop w) = openFailure w
               /\ w_tracker (stop w) = w_tracker w).
  { unfold stop, openFailure. destruct (m_running (w_capture w)) eqn:E; simpl; auto. }
  destruct Hs as (Hs1 & Hs2 & Hs3).
  destruct (H msgs (stop w) Hmsgs Hs1) as (A & B & C).
  rewrite A, Hs2, C, Hs3. auto.
Qed.

Lemma stopped_worker_is_silent_witness :
  snd (run [TimerTick crossingFrame; Start false 100500; TimerTick crossingFrame]
           (stop aiOnlyWorker))
  = [openFailure aiOnlyWorker].
Proof.
  apply (stopped_worker_is_silent
           [TimerTick crossingFrame; Start false 100500; TimerTick crossingFrame]
           aiOnlyWorker).
  reflexivity.
Defined.

(** ** Frame-rate reports *)

Lemma accountFps_positive f s q :
  In (fpsUpdated q) (snd (accountFps f s)) -> (0 < q)%Q.
Proof.
  unfold accountFps.
  destruct (10 <=? m_frameCount s + 1) eqn:E1; [|intros []].
  destruct (0 <? clock_fps f - m_lastFrameTime s) eqn:E2; [|intros []].
  simpl. intros [H|[]]. inversion H; subst q. clear H.
  apply Z.leb_le in E1. apply Z.ltb_lt in E2.
  apply Qlt_shift_div_l.
  - replace 0%Q with (inject_Z 0) by reflexivity. rewrite <- Zlt_Qlt. exact E2.
  - rewrite Qmult_0_l. apply Qmult_lt_0_compat; [|reflexivity].
    replace 0%Q with (inject_Z 0) by reflexivity. rewrite <- Zlt_Qlt. lia.
Qed.

Lemma accountFps_budget f s :
  10 * count isFpsUpdate (snd (accountFps f s))
  + headStart 10 (m_frameCount (fst (accountFps f s)))
  <= headStart 10 (m_frameCount s) + 1.
Proof.
  unfold accountFps.
  destruct (10 <=? m_frameCount s + 1) eqn:E1.
  - apply Z.leb_le in E1.
    destruct (0 <? clock_fps f - m_lastFrameTime s); cbn [fst snd m_frameCount].
    + change (count isFpsUpdate [_]) with 1. unfold headStart. lia.
    + change (count isFpsUpdate []) with 0. unfold headStart. lia.
  - apply Z.leb_gt in E1. cbn [fst snd m_frameCount].
    change (count isFpsUpdate []) with 0. unfold headStart. lia.
Qed.

Lemma aiPath_fps f (w1 : CaptureWorker) :
  let p2 := if m_aiEnabled (w_ai w1) && detectorReady (w_ai w1) then
              if AI_PROCESS_INTERVAL <=? m_aiFrameCounter (w_ai w1) + 1
              then processAIDetection f (setAiFrameCounter 0 w1)
              else (setAiFrameCounter (m_aiFrameCounter (w_ai w1) + 1) w1, [])
            else (w1, []) in
  w_fps (fst p2) = w_fps w1 /\ w_capture (fst p2) = w_capture w1
  /\ forall e, In e (snd p2) -> isAiEvent e.
Proof.
  cbv zeta. destruct (m_aiEnabled (w_ai w1) && detectorReady (w_ai w1));
    [|simpl; intuition].
  destruct (AI_PROCESS_INTERVAL <=? m_aiFrameCounter (w_ai w1) + 1);
    [|simpl; intuition].
  destruct (processAIDetection_ai f (setAiFrameCounter 0 w1)) as (_ & -> & ->).
  split; [reflexivity|]. split; [reflexivity|].
  intros e He. eapply processAIDetection_events, He.
Qed.

(** The frame-rate report of one frame comes from the accounting at the
    end of [captureFrame], which works on the counters the frame found. *)
Lemma captureFrame_fps f w :
  (count isFpsUpdate (snd (captureFrame f w)) = 0
   /\ w_fps (fst (captureFrame f w)) = w_fps w
   /\ forall q, ~ In (fpsUpdated q) (snd (captureFrame f w)))
  \/ (count isFpsUpdate (snd (captureFrame f w))
      = count isFpsUpdate (snd (accountFps f (w_fps w)))
      /\ w_fps (fst (captureFrame f w)) = fst (accountFps f (w_fps w))
      /\ forall q, In (fpsUpdated q) (snd (captureFrame f w)) ->
                   In (fpsUpdated q) (snd (accountFps f (w_fps w)))).
Proof.
  destruct (captureFrame_live_or_idle f w) as [(Hr & Ho & He)|Hidle].
  - right. rewrite (captureFrame_live f w Hr Ho He). cbv zeta. cbn [fst snd w_fps].
    pose proof (motionPath_untouched f w) as (_ & Hfps & _). cbv zeta in Hfps.
    pose proof (motionPath_count isFpsUpdate f w) as Hc1.
    assert (Hm : forall e,
              In e (snd (if m_motionEnabled (w_motion w)
                         then processMotionDetection f w else (w, []))) ->
              isMaskEvent e = true).
    { destruct (m_motionEnabled (w_motion w)); [|intros e []].
      intros e. apply processMotionDetection_mask. }
    destruct (if m_motionEnabled (w_motion w) then _ else _) as [w1 ev1].
    cbn [fst snd] in *.
    pose proof (aiPath_fps f w1) as (Hfps2 & _ & Hev2). cbv zeta in Hfps2, Hev2.
    destruct (if m_aiEnabled (w_ai w1) && detectorReady (w_ai w1) then _ else _)
      as [w2 ev2].
    cbn [fst snd] in *. rewrite Hfps2, Hfps.
    split; [|split; [reflexivity|]].
    + rewrite !count_app, Hc1 by (intros [] H; try discriminate; reflexivity).
      rewrite (count_none isFpsUpdate ev2).
      * change (count isFpsUpdate [frameCaptured]) with 0. lia.
      * intros e H. apply Hev2 in H. destruct e; simpl in H; try tauto; reflexivity.
    + intros q Hin. apply in_app_or in Hin as [Hin|Hin].
      { apply Hm in Hin. discriminate Hin. }
      apply in_app_or in Hin as [Hin|Hin].
      { apply Hev2 in Hin. destruct Hin. }
      apply in_app_or in Hin as [[Hin|[]]|Hin]; [discriminate Hin|exact Hin].
  - left. destruct (captureFrame_idle f w Hidle) as (-> & [->| ->]);
      (split; [reflexivity|]; split; [reflexivity|]); intros q H;
      try destruct H as [H|[]]; try discriminate H; destruct H.
Qed.

Lemma handle_fps m w :
  10 * count isFpsUpdate (snd (handle m w))
  + headStart 10 (m_frameCount (w_fps (fst (handle m w))))
  <= headStart 10 (m_frameCount (w_fps w)) + count isTick [m]
  /\ forall q, In (fpsUpdated q) (snd (handle m w)) -> (0 < q)%Q.
Proof.
  destruct m; cbn [handle fst snd];
    try (split; [change (count _ _) with 0; cbn; lia|intros q []]).
  - unfold start. destruct (m_running _).
    { split; [change (count _ _) with 0; cbn; lia|intros q []]. }
    destruct (negb openOk); cbn [fst snd w_fps m_frameCount].
    + split; [change (count _ _) with 0; lia|].
      intros q [H|[]]. discriminate H.
    + split; [change (count _ _) with 0; unfold headStart; lia|intros q []].
  - unfold stop. destruct (negb _); split;
      try (change (count _ _) with 0; cbn; lia); intros q [].
  - change (count isTick [TimerTick f]) with 1.
    destruct (captureFrame_fps f w) as [(-> & -> & Hno)|(-> & -> & Hin)].
    + split; [lia|]. intros q H. destruct (Hno q H).
    + split; [apply accountFps_budget|].
      intros q H. eapply accountFps_positive, Hin, H.
Qed.

(** X3.  Frame-rate reports: every [fpsUpdated] event of any run carries a
    positive rate, and over a run of a worker from its constructor there is
    at most one report per ten timer ticks. *)
Theorem fps_reports_positive_and_sparse (source : string) (msgs : list Msg)
  (w : CaptureWorker) :
  (forall q, In (fpsUpdated q) (snd (run msgs w)) -> (0 < q)%Q)
  /\ 10 * count isFpsUpdate (snd (run msgs (CaptureWorker_new source)))
     <= count isTick msgs.
Proof.
  split.
  - revert w. induction msgs as [|m rest IH]; intros w q; [intros []|].
    cbn [run]. pose proof (handle_fps m w) as [_ H1].
    destruct (handle m w) as [w1 ev]. specialize (IH w1).
    destruct (run rest w1) as [w2 evs]. cbn [fst snd] in *.
    intros Hin. apply in_app_or in Hin as [Hin|Hin]; eauto.
  - assert (H : forall msgs w0,
              10 * count isFpsUpdate (snd (run msgs w0))
              <= headStart 10 (m_frameCount (w_fps w0)) + count isTick msgs).
    { clear. induction msgs as [|m rest IH]; intros w0.
      - cbn. unfold headStart. lia.
      - cbn [run]. pose proof (handle_fps m w0) as [H1 _].
        destruct (handle m w0) as [w1 ev]. specialize (IH w1).
        destruct (run rest w1) as [w2 evs]. cbn [fst snd] in *.
        rewrite count_app.
        change (m :: rest) with ([m] ++ rest). rewrite (count_app isTick). lia. }
    apply (H msgs (CaptureWorker_new source)).
Qed.

Lemma fps_reports_positive_and_sparse_witness :
  count isFpsUpdate (snd (run tenFrames (CaptureWorker_new "0"))) = 1
  /\ (0 < (inject_Z 10 * 1000) / inject_Z 330)%Q.
Proof.
  split; [reflexivity|].
  destruct (fps_reports_positive_and_sparse "0" tenFrames (CaptureWorker_new "0"))
    as [H _].
  apply H. vm_compute. do 10 right. left. reflexivity.
Defined.

(** ** The ray casting of [pointInRoi] *)

Lemma Qltb_compat (a b b' : Q) : (b == b')%Q -> Qltb a b = Qltb a b'.
Proof.
  intros H. destruct (Qltb a b) eqn:E1; destruct (Qltb a b') eqn:E2; try reflexivity.
  - apply Qltb_lt in E1. apply Qltb_ge in E2. rewrite H in E1.
    exfalso. apply (Qlt_not_le _ _ E1 E2).
  - apply Qltb_ge in E1. apply Qltb_lt in E2. rewrite H in E1.
    exfalso. apply (Qlt_not_le _ _ E2 E1).
Qed.

Lemma vertical_edge (x a b : Q) : ((x - x) * a / b + x == x)%Q.
Proof. unfold Qdiv. ring. Qed.

(** X4.  On an axis-parallel rectangle the ray casting of [pointInRoi]
    answers exactly for the points of the rectangle, its low edges
    included and its high edges excluded. *)
Theorem pointInRoi_rectangle (x0 y0 x1 y1 : Q) (lastAlert : Z) (p : QPointF) :
  (x0 < x1)%Q -> (y0 < y1)%Q ->
  pointInRoi (rectangleRoi x0 y0 x1 y1 lastAlert) p = true
  <-> (x0 <= px p /\ px p < x1 /\ y0 <= py p /\ py p < y1)%Q.
Proof.
  intros Hx Hy. unfold pointInRoi, rectangleRoi.
  cbn [m_hasRoi m_roiNorm negb orb List.length last rayCast].
  change (Z.of_nat 4 <? 3) with false. cbv iota.
  unfold edgeCrossed. cbn [px py].
  rewrite (Qltb_compat (px p) _ x0 (vertical_edge x0 _ _)).
  rewrite (Qltb_compat (px p) _ x1 (vertical_edge x1 _ _)).
  rewrite !Bool.eqb_reflx. cbn [negb andb].
  destruct (Qltb (py p) y0) eqn:Ea; destruct (Qltb (py p) y1) eqn:Eb;
    destruct (Qltb (px p) x0) eqn:Ec; destruct (Qltb (px p) x1) eqn:Ed;
    cbn [Bool.eqb negb andb];
    repeat match goal with
           | H : Qltb _ _ = true |- _ => apply Qltb_lt in H
           | H : Qltb _ _ = false |- _ => apply Qltb_ge in H
           end;
    (split; [intros H; try discriminate H; repeat split; lra
            |intros (H1 & H2 & H3 & H4); try reflexivity; exfalso; lra]).
Qed.

Lemma pointInRoi_rectangle_witness :
  pointInRoi (rectangleRoi 0.3 0.3 0.7 0.7 0) (mkPoint 0.3 0.5) = true
  /\ pointInRoi (rectangleRoi 0.3 0.3 0.7 0.7 0) (mkPoint 0.7 0.5) = false.
Proof.
  split.
  - apply (pointInRoi_rectangle 0.3 0.3 0.7 0.7 0 (mkPoint 0.3 0.5));
      [reflexivity|reflexivity|].
    simpl. repeat split; discriminate.
  - reflexivity.
Defined.

(** ** The mask-centroid tripwire between frames *)

Lemma aiPath_mask f (w1 : CaptureWorker) :
  let p2 := if m_aiEnabled (w_ai w1) && detectorReady (w_ai w1) then
              if AI_PROCESS_INTERVAL <=? m_aiFrameCounter (w_ai w1) + 1
              then processAIDetection f (setAiFrameCounter 0 w1)
              else (setAiFrameCounter (m_aiFrameCounter (w_ai w1) + 1) w1, [])
            else (w1, []) in
  w_motion (fst p2) = w_motion w1 /\ w_roi (fst p2) = w_roi w1
  /\ w_tripwire (fst p2) = w_tripwire w1.
Proof.
  cbv zeta. destruct (m_aiEnabled (w_ai w1) && detectorReady (w_ai w1));
    [|simpl; auto].
  destruct (AI_PROCESS_INTERVAL <=? m_aiFrameCounter (w_ai w1) + 1); [|simpl; auto].
  destruct (processAIDetection_mask f (setAiFrameCounter 0 w1)) as (-> & -> & ->).
  simpl. auto.
Qed.

Lemma processTripwire_first_sighting f t :
  m_hasPrevSide t = false -> snd (processTripwire f t) = [].
Proof.
  intros H. unfold processTripwire. rewrite H.
  destruct (Qltb (mom_m00 f) 100); reflexivity.
Qed.

Lemma processMotionDetection_tripwire f w :
  w_tripwire (fst (processMotionDetection f w))
  = (if m_hasTripwire (w_tripwire w)
     then fst (processTripwire f (w_tripwire w)) else w_tripwire w)
  /\ forall d ts, In (tripwireCrossed d ts) (snd (processMotionDetection f w)) ->
       m_hasTripwire (w_tripwire w) = true
       /\ In (tripwireCrossed d ts) (snd (processTripwire f (w_tripwire w))).
Proof.
  unfold processMotionDetection.
  pose proof (processRoiMotion_events (m_motionSensitivity (w_motion w)) f (w_roi w))
    as Hroi.
  destruct (if m_hasRoi (w_roi w) then _ else _) as [r' ev2] eqn:E2.
  assert (Hev2 : forall d ts, ~ In (tripwireCrossed d ts) ev2).
  { intros d ts Hin. destruct (m_hasRoi (w_roi w)).
    - rewrite E2 in Hroi. apply Hroi in Hin as (q & Hq & _). discriminate Hq.
    - inversion E2; subst. destruct Hin. }
  destruct (m_hasTripwire (w_tripwire w)).
  - destruct (processTripwire f (w_tripwire w)) as [t' ev3]. cbn [fst snd].
    split; [reflexivity|]. intros d ts Hin. split; [reflexivity|].
    apply in_app_or in Hin as [Hin|Hin].
    { destruct (_ && _); [destruct Hin as [Hin|[]]; discriminate Hin|destruct Hin]. }
    apply in_app_or in Hin as [Hin|Hin]; [destruct (Hev2 d ts Hin)|exact Hin].
  - cbn [fst snd]. split; [reflexivity|]. intros d ts Hin. exfalso.
    apply in_app_or in Hin as [Hin|Hin].
    { destruct (_ && _); [destruct Hin as [Hin|[]]; discriminate Hin|destruct Hin]. }
    apply in_app_or in Hin as [Hin|Hin]; [destruct (Hev2 d ts Hin)|destruct Hin].
Qed.

Lemma captureFrame_first_sighting f w d ts :
  m_hasPrevSide (w_tripwire w) = false ->
  ~ In (tripwireCrossed d ts) (snd (captureFrame f w)).
Proof.
  intros Hprev Hin. apply captureFrame_events in Hin.
  destruct Hin as [[_ Hin]|[[w1 Hin]|[Hin|[[q Hin]|[s Hin]]]]]; try discriminate Hin.
  - apply processMotionDetection_tripwire in Hin as [_ Hin].
    rewrite processTripwire_first_sighting in Hin by exact Hprev. destruct Hin.
  - apply processAIDetection_events in Hin. destruct Hin.
Qed.

(** X5.  The mask-centroid tripwire needs two sightings in a row.  The
    frame that follows [setTripwire] never reports a crossing, and neither
    does the frame that follows a processed frame with too little motion
    to place a centroid (m00 below 100): no crossing is inferred across a
    gap. *)
Theorem mask_tripwire_needs_two_sightings (f1 f2 : Frame) (w : CaptureWorker)
  (a b : QPointF) (d ts : Z) :
  ~ In (tripwireCrossed d ts) (snd (captureFrame f2 (setTripwire a b w)))
  /\ (m_running (w_capture w) = true -> m_captureOpened (w_capture w) = true ->
      frame_empty f1 = false -> m_motionEnabled (w_motion w) = true ->
      m_hasTripwire (w_tripwire w) = true -> (mom_m00 f1 < 100)%Q ->
      ~ In (tripwireCrossed d ts) (snd (captureFrame f2 (fst (captureFrame f1 w))))).
Proof.
  split.
  - apply captureFrame_first_sighting. reflexivity.
  - intros Hr Ho He Hm Ht Hlow. apply captureFrame_first_sighting.
    rewrite (captureFrame_live f1 w Hr Ho He). cbv zeta. cbn [fst w_tripwire].
    rewrite Hm.
    destruct (aiPath_mask f1 (fst (processMotionDetection f1 w))) as (_ & _ & ->).
    destruct (processMotionDetection_tripwire f1 w) as [-> _]. rewrite Ht.
    unfold processTripwire. apply Qltb_lt in Hlow. rewrite Hlow. reflexivity.
Qed.

Lemma mask_tripwire_needs_two_sightings_witness :
  ~ In (tripwireCrossed (-1) 9000)
       (snd (captureFrame (blobFrame 9000 320 250)
               (fst (captureFrame (quietFrame 8000)
                       (fst (captureFrame (blobFrame 7000 320 230) tripwireWorker))))))
  /\ In (tripwireCrossed (-1) 9000)
        (snd (captureFrame (blobFrame 9000 320 250)
                (fst (captureFrame (blobFrame 7000 320 230) tripwireWorker)))).
Proof.
  split.
  - apply (mask_tripwire_needs_two_sightings (quietFrame 8000) (blobFrame 9000 320 250)
             (fst (captureFrame (blobFrame 7000 320 230) tripwireWorker))
             origin origin (-1) 9000); reflexivity.
  - vm_compute. auto.
Defined.



(** ** The tripwire drawn the other way round *)

Lemma Qltb_wd (a a' b b' : Q) : (a == a')%Q -> (b == b')%Q -> Qltb a b = Qltb a' b'.
Proof. intros Ha Hb. unfold Qltb. rewrite Ha, Hb. reflexivity. Qed.

Lemma side_reversed tw p :
  (computeSideOfLine (reversedWire tw) p == - computeSideOfLine tw p)%Q.
Proof. unfold computeSideOfLine, reversedWire. cbn. ring. Qed.

Lemma getCrossingDirection_reversed (p c p' c' : Q) :
  (p' == - p)%Q -> (c' == - c)%Q -> (p * c < 0)%Q ->
  getCrossingDirection p' c' = oppositeDirection (getCrossingDirection p c).
Proof.
  intros Hp Hc H. unfold getCrossingDirection.
  rewrite (Qltb_wd p' (- p) 0 0 Hp (Qeq_refl 0)), (Qltb_wd 0 0 c' (- c) (Qeq_refl 0) Hc),
          (Qltb_wd 0 0 p' (- p) (Qeq_refl 0) Hp), (Qltb_wd c' (- c) 0 0 Hc (Qeq_refl 0)).
  apply Qmult_neg_opposite in H as [[H1 H2]|[H1 H2]].
  - replace (Qltb p 0) with true by (symmetry; apply Qltb_lt; exact H1).
    replace (Qltb 0 c) with true by (symmetry; apply Qltb_lt; exact H2).
    replace (Qltb (- p) 0) with false by (symmetry; apply Qltb_ge; lra).
    replace (Qltb 0 (- p)) with true by (symmetry; apply Qltb_lt; lra).
    replace (Qltb (- c) 0) with true by (symmetry; apply Qltb_lt; lra).
    reflexivity.
  - replace (Qltb p 0) with false by (symmetry; apply Qltb_ge; lra).
    replace (Qltb 0 p) with true by (symmetry; apply Qltb_lt; exact H1).
    replace (Qltb c 0) with true by (symmetry; apply Qltb_lt; exact H2).
    replace (Qltb (- p) 0) with true by (symmetry; apply Qltb_lt; lra).
    replace (Qltb 0 (- c)) with true by (symmetry; apply Qltb_lt; lra).
    reflexivity.
Qed.

Lemma checkLineCrossing_reversed tw now tr :
  checkLineCrossing (reversedWire tw) now tr
  = (fst (checkLineCrossing tw now tr),
     map reverseCrossing (snd (checkLineCrossing tw now tr))).
Proof.
  unfold checkLineCrossing.
  destruct (QPointF_eq (centroid tr) (prevCentroid tr)); [reflexivity|].
  destruct (now - lastTripwireAlertMs tr <? TRIPWIRE_ALERT_DEBOUNCE_MS); [reflexivity|].
  pose proof (side_reversed tw (prevCentroid tr)) as Hp.
  pose proof (side_reversed tw (centroid tr)) as Hc.
  cbv zeta.
  rewrite (Qltb_wd LINE_EPSILON LINE_EPSILON
             (Qabs (computeSideOfLine (reversedWire tw) (prevCentroid tr)))
             (Qabs (computeSideOfLine tw (prevCentroid tr))))
    by (try reflexivity; rewrite Hp; apply Qabs_opp).
  rewrite (Qltb_wd LINE_EPSILON LINE_EPSILON
             (Qabs (computeSideOfLine (reversedWire tw) (centroid tr)))
             (Qabs (computeSideOfLine tw (centroid tr))))
    by (try reflexivity; rewrite Hc; apply Qabs_opp).
  rewrite (Qltb_wd (computeSideOfLine (reversedWire tw) (prevCentroid tr)
                    * computeSideOfLine (reversedWire tw) (centroid tr))
             (computeSideOfLine tw (prevCentroid tr) * computeSideOfLine tw (centroid tr))
             0 0) by (try reflexivity; rewrite Hp, Hc; ring).
  destruct (Qltb LINE_EPSILON (Qabs (computeSideOfLine tw (prevCentroid tr)))
            && Qltb LINE_EPSILON (Qabs (computeSideOfLine tw (centroid tr)))
            && Qltb (computeSideOfLine tw (prevCentroid tr)
                     * computeSideOfLine tw (centroid tr)) 0) eqn:E; [|reflexivity].
  apply andb_true_iff in E as [_ E]. apply Qltb_lt in E.
  cbn [fst snd map reverseCrossing].
  rewrite (getCrossingDirection_reversed _ _ _ _ Hp Hc E). reflexivity.
Qed.

Lemma forEachTrack_mapped (g : Event -> Event) f f' ids :
  (forall tr, f' tr = (fst (f tr), map g (snd (f tr)))) ->
  forall m, forEachTrack f' ids m
            = (fst (forEachTrack f ids m), map g (snd (forEachTrack f ids m))).
Proof.
  intros Hf. induction ids as [|k rest IH]; intros m; [reflexivity|].
  cbn [forEachTrack]. destruct (tracks_find k m) as [tr|]; [|apply IH].
  rewrite (Hf tr). destruct (f tr) as [tr' ev]. cbn [fst snd].
  rewrite (IH (tracks_insert k tr' m)).
  destruct (forEachTrack f rest (tracks_insert k tr' m)) as [m' evs].
  cbn [fst snd]. rewrite map_app. reflexivity.
Qed.


(** ** Classes the tracker does not follow *)

Lemma collectTracked_none names dets fw fh : forall i,
  (forall det, In det dets -> ~ In (labelOf names det) trackedClasses) ->
  collectTracked names i dets fw fh = [].
Proof.
  induction dets as [|det rest IH]; intros i H; [reflexivity|].
  cbn [collectTracked].
  destruct (existsb (String.eqb (labelOf names det)) trackedClasses) eqn:E.
  - exfalso. apply existsb_exists in E as (x & Hx & Heq).
    apply String.eqb_eq in Heq. subst x.
    apply (H det); [left; reflexivity|exact Hx].
  - apply IH. intros d Hd. apply H. right. exact Hd.
Qed.

(** X8.  Detections of classes other than person, car, bicycle, dog and
    cat never reach the tracker (a class id outside the list of class
    names is labelled unknown and is one of them): an invocation of
    [updateTracks] that sees only such detections creates no track,
    consumes no track id, emits nothing, and only evicts stale tracks. *)
Theorem untracked_classes_are_ignored (dets : list Detection) (fw fh now : Z)
  (w : CaptureWorker) :
  (forall det, In det dets ->
     ~ In (labelOf (detectorClassNames (m_detector (w_ai w))) det) trackedClasses) ->
  snd (updateTracks dets fw fh now w) = []
  /\ w_tracker (fst (updateTracks dets fw fh now w))
     = mkTracker (cleanupStaleTracks now (m_tracks (w_tracker w)))
                 (m_nextTrackId (w_tracker w)).
Proof.
  intros H. unfold updateTracks. rewrite collectTracked_none by exact H.
  unfold updateTracker. cbn [assignTracks qset_of fold_left forEachTrack].
  destruct (m_hasTripwire (w_tripwire w)); auto.
Qed.

Lemma untracked_classes_are_ignored_witness :
  labelOf cocoNames unknownObject = "unknown"%string
  /\ snd (updateTracks [unknownObject] 640 480 100400 aiOnlyWorker) = [].
Proof.
  split; [reflexivity|].
  apply (untracked_classes_are_ignored [unknownObject] 640 480 100400 aiOnlyWorker).
  intros det [<-|[]]. vm_compute.
  intros H. repeat (destruct H as [H|H]; [discriminate H|]). exact H.
Defined.

(** ** Track ids *)

Lemma debounceStep_gone gap ts q : debounceStep gap None ts q -> q = None.
Proof.
  intros H. destruct q as [p|]; [|reflexivity]. exfalso.
  specialize (H [p + gap]). simpl in H.
  assert (Hs : gap <= p + gap - p /\ True) by (split; [lia|exact I]).
  specialize (H Hs). destruct ts; discriminate H.
Qed.

Lemma lastCrossing_gone t k :
  lastCrossing t k = None
  <-> tracks_find k (m_tracks t) = None /\ k < m_nextTrackId t.
Proof.
  unfold lastCrossing. destruct (tracks_find k (m_tracks t)) as [tr|].
  - split; [discriminate|intros [H _]; discriminate H].
  - destruct (k <? m_nextTrackId t) eqn:E.
    + apply Z.ltb_lt in E. tauto.
    + apply Z.ltb_ge in E. split; [discriminate|intros [_ H]; lia].
Qed.

Lemma run_gone k msgs : forall w,
  tracker_wf (w_tracker w) = true ->
  lastCrossing (w_tracker w) k = None ->
  lastCrossing (w_tracker (fst (run msgs w))) k = None.
Proof.
  induction msgs as [|m rest IH]; intros w Hwf Hk; [exact Hk|].
  cbn [run]. destruct (handle_crossing_step k m w Hwf) as [H1 H2].
  rewrite Hk in H2. apply debounceStep_gone in H2.
  destruct (handle m w) as [w1 ev]. cbn [fst snd] in *.
  specialize (IH w1 H1 H2). destruct (run rest w1) as [w2 evs]. exact IH.
Qed.

(** X9.  Track ids are handed out once.  In a well-formed tracker an id
    below the id counter that is not in the map (a track that was evicted)
    stays out of the map over every run of the worker: no later track is
    ever filed under it. *)
Theorem track_ids_are_never_reused (msgs : list Msg) (w : CaptureWorker) (k : Z) :
  tracker_wf (w_tracker w) = true ->
  k < m_nextTrackId (w_tracker w) ->
  tracks_find k (m_tracks (w_tracker w)) = None ->
  tracks_find k (m_tracks (w_tracker (fst (run msgs w)))) = None
  /\ k < m_nextTrackId (w_tracker (fst (run msgs w))).
Proof.
  intros Hwf Hk Hnone.
  assert (Hgone : lastCrossing (w_tracker w) k = None).
  { apply lastCrossing_gone. auto. }
  pose proof (run_gone k msgs w Hwf Hgone) as H.
  apply lastCrossing_gone in H. exact H.
Qed.

Lemma track_ids_are_never_reused_witness :
  tracks_find 1 (m_tracks (w_tracker (fst (run personReturns evictedWorker)))) = None
  /\ tracks_contains 2 (m_tracks (w_tracker (fst (run personReturns evictedWorker))))
     = true.
Proof.
  split.
  - apply (track_ids_are_never_reused personReturns evictedWorker 1); reflexivity.
  - reflexivity.
Defined.

(** X10.  What holds of every state the worker reaches from its
    constructor, whatever messages and frames it was given: the motion
    sensitivity lies in [0,100], so the motion threshold lies in [0.5,10];
    the id counter is positive; and every track of the map is filed under
    its own id, which is positive and below the id counter. *)
Theorem reachable_state_invariants (source : string) (msgs : list Msg) :
  let w := fst (run msgs (CaptureWorker_new source)) in
  (0 <= m_motionSensitivity (w_motion w) <= 100)%Q
  /\ (0.5 <= motionThreshold (m_motionSensitivity (w_motion w)) <= 10)%Q
  /\ 0 < m_nextTrackId (w_tracker w)
  /\ forall k tr,
       tracks_find k (m_tracks (w_tracker w)) = Some tr ->
       0 < k < m_nextTrackId (w_tracker w) /\ track_id tr = k.
Proof.
  cbv zeta. pose proof (reachable_sensitivity source msgs) as [H0 H1].
  pose proof (reachable_wf source msgs) as Hwf.
  split; [split; assumption|]. split.
  - rewrite motionThreshold_formula.
    setoid_replace
      (10 - 9.5 * m_motionSensitivity
                    (w_motion (fst (run msgs (CaptureWorker_new source)))) / 100)%Q
      with (10 - (19 # 200)
                 * m_motionSensitivity
                     (w_motion (fst (run msgs (CaptureWorker_new source)))))%Q
      by field.
    split; lra.
  - split; [apply tracker_wf_iff in Hwf; tauto|].
    intros k tr. apply tracker_wf_find, Hwf.
Qed.

Lemma reachable_state_invariants_witness :
  track_id theTrack = 1
  /\ 1 < m_nextTrackId (w_tracker (fst (run aiOnlyRun (CaptureWorker_new "0")))).
Proof.
  destruct (reachable_state_invariants "0" aiOnlyRun) as (_ & _ & _ & H).
  destruct (H 1 (tracks_at 1 (m_tracks (w_tracker
                   (fst (run aiOnlyRun (CaptureWorker_new "0"))))))) as [[_ H1] H2].
  - reflexivity.
  - split; [reflexivity|exact H1].
Defined.

(** ** Which track a detection is matched with *)

(** The search answers its starting value, or the first entry among those
    at the least distance. *)
Lemma closest_fold_first c m : forall best,
  (fold_left (closestStep c) m best = best
   /\ forall k tr, In (k, tr) m -> (snd best <= dist2 (centroid tr) c)%Q)
  \/ exists m1 tr m2,
       m = m1 ++ (fst (fold_left (closestStep c) m best), tr) :: m2
       /\ (dist2 (centroid tr) c < snd best)%Q
       /\ (forall k' tr', In (k', tr') m1 ->
             (dist2 (centroid tr) c < dist2 (centroid tr') c)%Q)
       /\ (forall k' tr', In (k', tr') m2 ->
             (dist2 (centroid tr) c <= dist2 (centroid tr') c)%Q).
Proof.
  induction m as [|[k tr] r IH]; intros best; simpl.
  { left. split; [reflexivity|]. intros k tr []. }
  destruct (closestStep_cases c best k tr) as [[Hlt ->]|[Hge ->]].
  - right. destruct (IH (k, dist2 (centroid tr) c))
      as [[Heq Hall]|(m1 & tr1 & m2 & Hm & H1 & H2 & H3)].
    + rewrite Heq. exists [], tr, r. simpl. split; [reflexivity|].
      split; [exact Hlt|]. split; [intros k' tr' []|]. exact Hall.
    + simpl in H1. exists ((k, tr) :: m1), tr1, m2. simpl.
      split; [f_equal; exact Hm|]. split; [eapply Qlt_trans; eassumption|].
      split; [|exact H3].
      intros k' tr' [Heq|Hin]; [inversion Heq; subst; exact H1|eapply H2, Hin].
  - destruct (IH best) as [[Heq Hall]|(m1 & tr1 & m2 & Hm & H1 & H2 & H3)].
    + left. split; [exact Heq|].
      intros k' tr' [H|Hin]; [inversion H; subst; exact Hge|eapply Hall, Hin].
    + right. exists ((k, tr) :: m1), tr1, m2. simpl.
      split; [f_equal; exact Hm|]. split; [exact H1|]. split; [|exact H3].
      intros k' tr' [Heq|Hin]; [|eapply H2, Hin].
      inversion Heq; subst. eapply Qlt_le_trans; eassumption.
Qed.

Lemma keysAscending_split m1 : forall lo k tr m2,
  keysAscending lo (m1 ++ (k, tr) :: m2) = true ->
  forall k' tr', In (k', tr') m2 -> k < k'.
Proof.
  induction m1 as [|[k1 tr1] r IH]; intros lo k tr m2 H k' tr' Hin; simpl in H;
    apply andb_true_iff in H as [_ H].
  - destruct (keysAscending_In _ _ _ _ H Hin) as [Hlt _]. exact Hlt.
  - eapply IH; eassumption.
Qed.

Lemma euclideanDistance_le a b a' b' :
  (dist2 a b <= dist2 a' b')%Q -> (euclideanDistance a b <= euclideanDistance a' b')%R.
Proof.
  intros H. unfold euclideanDistance. apply sqrt_le_1_alt, Qle_Rle, H.
Qed.

Lemma euclideanDistance_lt a b a' b' :
  (dist2 a b < dist2 a' b')%Q -> (euclideanDistance a b < euclideanDistance a' b')%R.
Proof.
  intros H. unfold euclideanDistance. apply sqrt_lt_1_alt. split.
  - replace 0%R with (Q2R 0) by (unfold Q2R; simpl; Lra.lra).
    apply Qle_Rle, dist2_nonneg.
  - apply Qlt_Rlt, H.
Qed.



(** ** Eviction, exactly *)

Lemma tracks_find_remove_list k ks : forall m,
  tracks_find k (fold_left (fun acc j => tracks_remove j acc) ks m)
  = if existsb (Z.eqb k) ks then None else tracks_find k m.
Proof.
  induction ks as [|j ks IH]; intros m; [reflexivity|].
  cbn [fold_left existsb]. rewrite IH, tracks_find_remove.
  destruct (k =? j); cbn [orb]; [|reflexivity].
  destruct (existsb (Z.eqb k) ks); reflexivity.
Qed.

Lemma tracks_find_cleanup lo now m k :
  keysAscending lo m = true ->
  tracks_find k (cleanupStaleTracks now m)
  = match tracks_find k m with
    | Some tr => if TRACK_TIMEOUT_MS <? now - lastSeenMs tr then None else Some tr
    | None => None
    end.
Proof.
  intros Ha. unfold cleanupStaleTracks. rewrite tracks_find_remove_list.
  destruct (existsb (Z.eqb k) (staleKeys now m)) eqn:E.
  - apply existsb_eqb_In in E. unfold staleKeys in E.
    apply in_map_iff in E as ([k1 tr1] & Hk & Hin). simpl in Hk. subst k1.
    apply filter_In in Hin as [Hin Hstale]. simpl in Hstale.
    rewrite (keysAscending_find _ _ _ _ Ha Hin), Hstale. reflexivity.
  - destruct (tracks_find k m) as [tr|] eqn:Ef; [|reflexivity].
    destruct (TRACK_TIMEOUT_MS <? now - lastSeenMs tr) eqn:Es; [|reflexivity].
    exfalso. apply not_true_iff_false in E. apply E. apply existsb_eqb_In.
    unfold staleKeys. change k with (fst (k, tr)). apply in_map.
    apply filter_In. split; [apply tracks_find_In, Ef|exact Es].
Qed.

Lemma assignTracks_find_other now dwcs k : forall t,
  ~ In k (snd (assignTracks now dwcs t)) ->
  tracks_find k (m_tracks (fst (assignTracks now dwcs t))) = tracks_find k (m_tracks t).
Proof.
  induction dwcs as [|dwc rest IH]; intros t Hk; [reflexivity|].
  cbn [assignTracks] in *.
  assert (H1 : snd (assignDetection now t dwc) <> k ->
               tracks_find k (m_tracks (fst (assignDetection now t dwc)))
               = tracks_find k (m_tracks t)).
  { unfold assignDetection.
    destruct (0 <=? fst (findClosestTrack (m_tracks t) (dwc_centroid dwc)));
      cbn [fst snd m_tracks]; intros Hne; apply tracks_find_insert_other, Hne. }
  destruct (assignDetection now t dwc) as [t1 k1]. cbn [fst snd] in *.
  specialize (IH t1). destruct (assignTracks now rest t1) as [t2 ks].
  cbn [fst snd] in *. rewrite IH, H1; [reflexivity| |]; intros H; apply Hk.
  - left. exact H.
  - right. exact H.
Qed.

(** X12.  What an invocation of the tracker does to a track that no
    detection of the invocation was assigned to: the track leaves the map
    if it was last seen more than 2000 ms ago, and stays exactly as it was
    otherwise. *)
Theorem unmatched_track_is_kept_or_evicted (r : RoiState) (tw : TripwireState)
  (now : Z) (dwcs : list DetectionWithCentroid) (t : TrackerState) (k : Z) :
  tracker_wf t = true ->
  ~ In k (snd (assignTracks now dwcs t)) ->
  tracks_find k (m_tracks (fst (updateTracker r tw now dwcs t)))
  = match tracks_find k (m_tracks t) with
    | Some tr => if TRACK_TIMEOUT_MS <? now - lastSeenMs tr then None else Some tr
    | None => None
    end.
Proof.
  intros Hwf Hk. unfold updateTracker.
  pose proof (assignTracks_wf now dwcs t Hwf) as Hwf1.
  pose proof (assignTracks_find_other now dwcs k t Hk) as Hf1.
  destruct (assignTracks now dwcs t) as [[m1 n1] assigned]. cbn [fst snd m_tracks] in *.
  pose proof (qset_of_NoDup assigned) as Hnd.
  assert (Hout : existsb (Z.eqb k) (qset_of assigned) = false).
  { apply not_true_iff_false. intros H. apply existsb_eqb_In in H.
    apply (proj1 (qset_of_In assigned k)) in H. apply Hk, H. }
  pose proof (forEachTrack_wf (roiAndLoitering r now) (qset_of assigned) n1
                (roiAndLoitering_keeps_id r now) m1 Hwf1) as Hwf2.
  pose proof (forEachTrack_find (roiAndLoitering r now) k (qset_of assigned) m1 Hnd)
    as Hf2.
  destruct (forEachTrack (roiAndLoitering r now) (qset_of assigned) m1) as [m2 ev1].
  cbn [fst] in *. rewrite Hout in Hf2.
  assert (H3 : exists m3 ev2,
             (if m_hasTripwire tw
              then forEachTrack (checkLineCrossing tw now) (qset_of assigned) m2
              else (m2, [])) = (m3, ev2)
             /\ tracker_wf (mkTracker m3 n1) = true
             /\ tracks_find k m3 = tracks_find k m2).
  { destruct (m_hasTripwire tw).
    - pose proof (forEachTrack_wf (checkLineCrossing tw now) (qset_of assigned) n1
                    (checkLineCrossing_keeps_id tw now) m2 Hwf2) as Hwf3.
      pose proof (forEachTrack_find (checkLineCrossing tw now) k (qset_of assigned)
                    m2 Hnd) as Hf3.
      destruct (forEachTrack (checkLineCrossing tw now) (qset_of assigned) m2)
        as [m3 ev2].
      exists m3, ev2. cbn [fst] in *. rewrite Hout in Hf3.
      split; [reflexivity|]. split; [exact Hwf3|].
      rewrite Hf3. destruct (tracks_find k m2); reflexivity.
    - exists m2, []. auto. }
  destruct H3 as (m3 & ev2 & -> & Hwf3 & Hf3). cbn [fst m_tracks].
  apply tracker_wf_iff in Hwf3 as (_ & Ha3 & _). cbn [m_tracks] in Ha3.
  rewrite (tracks_find_cleanup 0 now m3 k Ha3), Hf3, Hf2, Hf1.
  destruct (tracks_find k (m_tracks t)); reflexivity.
Qed.

Lemma unmatched_track_is_kept_or_evicted_witness :
  tracks_find 1
    (m_tracks (fst (updateTracker (w_roi aiOnlyWorker) (w_tripwire aiOnlyWorker)
                      102000 [seenFarAway] oneTrack))) = Some theTrack
  /\ tracks_find 1
       (m_tracks (fst (updateTracker (w_roi aiOnlyWorker) (w_tripwire aiOnlyWorker)
                         102201 [seenFarAway] oneTrack))) = None.
Proof.
  split.
  - apply (unmatched_track_is_kept_or_evicted (w_roi aiOnlyWorker)
             (w_tripwire aiOnlyWorker) 102000 [seenFarAway] oneTrack 1 eq_refl).
    vm_compute. intros [H|[]]. discriminate H.
  - apply (unmatched_track_is_kept_or_evicted (w_roi aiOnlyWorker)
             (w_tripwire aiOnlyWorker) 102201 [seenFarAway] oneTrack 1 eq_refl).
    vm_compute. intros [H|[]]. discriminate H.
Defined.

(** ** Without a ROI *)

Lemma processRoiMotion_inert s f r :
  inertRoi r -> processRoiMotion s f r = (r, []).
Proof.
  unfold inertRoi, processRoiMotion. intros H.
  replace (Z.of_nat (List.length (m_roiNorm r)) <? 3) with true
    by (symmetry; apply Z.ltb_lt, H).
  reflexivity.
Qed.

Lemma processMotionDetection_inert f w :
  inertRoi (w_roi w) ->
  w_roi (fst (processMotionDetection f w)) = w_roi w
  /\ forall e, In e (snd (processMotionDetection f w)) -> isRoiEvent e = false.
Proof.
  intros H. unfold processMotionDetection.
  rewrite (processRoiMotion_inert _ f (w_roi w) H).
  pose proof (processTripwire_events f (w_tripwire w)) as Ht.
  replace (if m_hasRoi (w_roi w) then (w_roi w, []) else (w_roi w, []))
    with (w_roi w, @nil Event) by (destruct (m_hasRoi (w_roi w)); reflexivity).
  destruct (if m_hasTripwire (w_tripwire w) then _ else _) as [t' ev3] eqn:E3.
  cbn [fst snd w_roi]. split; [reflexivity|].
  intros e Hin. apply in_app_or in Hin as [Hin|Hin].
  { destruct (_ && _); [destruct Hin as [<-|[]]; reflexivity|destruct Hin]. }
  cbn [app] in Hin. destruct (m_hasTripwire (w_tripwire w)).
  - rewrite E3 in Ht. apply Ht in Hin as (d & -> & _). reflexivity.
  - inversion E3; subst. destruct Hin.
Qed.

Lemma pointInRoi_inert r p : inertRoi r -> pointInRoi r p = false.
Proof.
  unfold inertRoi, pointInRoi. intros H.
  replace (Z.of_nat (List.length (m_roiNorm r)) <? 3) with true
    by (symmetry; apply Z.ltb_lt, H).
  rewrite orb_true_r. reflexivity.
Qed.

Lemma roiAndLoitering_inert r now tr :
  inertRoi r -> snd (roiAndLoitering r now tr) = [].
Proof.
  intros H. unfold roiAndLoitering, updateRoiStatus, checkLoitering.
  rewrite (pointInRoi_inert r (centroid tr) H). reflexivity.
Qed.

Lemma updateTracker_inert r tw now dwcs t e :
  inertRoi r -> In e (snd (updateTracker r tw now dwcs t)) -> isRoiEvent e = false.
Proof.
  intros H. unfold updateTracker.
  destruct (assignTracks now dwcs t) as [t1 assigned].
  pose proof (forEachTrack_events (fun e => isRoiEvent e = false)
                (roiAndLoitering r now) (qset_of assigned)) as H1.
  destruct (forEachTrack (roiAndLoitering r now) _ _) as [m2 ev1] eqn:E1.
  assert (Hev1 : forall e, In e ev1 -> isRoiEvent e = false).
  { intros e0 H0. apply (H1 (fun tr e1 He1 => ltac:(
      rewrite (roiAndLoitering_inert r now tr H) in He1; destruct He1))
      (m_tracks t1) e0). rewrite E1. exact H0. }
  destruct (m_hasTripwire tw).
  - pose proof (forEachTrack_events (fun e => isRoiEvent e = false)
                  (checkLineCrossing tw now) (qset_of assigned)) as H2.
    destruct (forEachTrack (checkLineCrossing tw now) _ m2) as [m3 ev2] eqn:E2.
    cbn [snd]. intros Hin. apply in_app_or in Hin as [Hin|Hin]; [auto|].
    apply (H2 (fun tr e1 He1 => ltac:(
      apply checkLineCrossing_events in He1 as [d ->]; reflexivity)) m2 e).
    rewrite E2. exact Hin.
  - cbn [snd]. rewrite app_nil_r. auto.
Qed.

Lemma captureFrame_inert f w :
  inertRoi (w_roi w) ->
  w_roi (fst (captureFrame f w)) = w_roi w
  /\ forall e, In e (snd (captureFrame f w)) -> isRoiEvent e = false.
Proof.
  intros H.
  destruct (captureFrame_live_or_idle f w) as [(Hr & Ho & He)|Hidle].
  - rewrite (captureFrame_live f w Hr Ho He). cbv zeta. cbn [fst snd w_roi].
    assert (H1 : w_roi (fst (if m_motionEnabled (w_motion w)
                             then processMotionDetection f w else (w, []))) = w_roi w
                 /\ forall e, In e (snd (if m_motionEnabled (w_motion w)
                                         then processMotionDetection f w else (w, []))) ->
                              isRoiEvent e = false).
    { destruct (m_motionEnabled (w_motion w));
        [apply processMotionDetection_inert, H|split; [reflexivity|intros e []]]. }
    destruct (if m_motionEnabled (w_motion w) then _ else _) as [w1 ev1].
    cbn [fst snd] in *. destruct H1 as [Hroi1 Hev1].
    assert (H2 : w_roi (fst (if m_aiEnabled (w_ai w1) && detectorReady (w_ai w1)
                   then if AI_PROCESS_INTERVAL <=? m_aiFrameCounter (w_ai w1) + 1
                        then processAIDetection f (setAiFrameCounter 0 w1)
                        else (setAiFrameCounter (m_aiFrameCounter (w_ai w1) + 1) w1, [])
                   else (w1, []))) = w_roi w1
                 /\ forall e,
                      In e (snd (if m_aiEnabled (w_ai w1) && detectorReady (w_ai w1)
                        then if AI_PROCESS_INTERVAL <=? m_aiFrameCounter (w_ai w1) + 1
                             then processAIDetection f (setAiFrameCounter 0 w1)
                             else (setAiFrameCounter (m_aiFrameCounter (w_ai w1) + 1) w1,
                                   [])
                        else (w1, []))) -> isRoiEvent e = false).
    { destruct (aiPath_mask f w1) as (_ & Hr2 & _). cbv zeta in Hr2.
      split; [exact Hr2|].
      destruct (m_aiEnabled (w_ai w1) && detectorReady (w_ai w1)); [|intros e []].
      destruct (AI_PROCESS_INTERVAL <=? m_aiFrameCounter (w_ai w1) + 1); [|intros e []].
      unfold processAIDetection. destruct (negb _); [intros e []|].
      destruct (infer_result f) as [dets|]; [|intros e []].
      unfold updateTracks. cbn [w_roi setAiFrameCounter w_tripwire w_tracker w_ai].
      pose proof (updateTracker_inert (w_roi w1) (w_tripwire w1) (clock_tracks f)
                    (collectTracked (detectorClassNames (m_detector (w_ai w1))) 0 dets
                       (frame_cols f) (frame_rows f)) (w_tracker w1)) as Hu.
      cbn [m_detector].
      destruct (updateTracker _ _ _ _ _) as [t' evs]. cbn [snd] in *.
      intros e Hin. apply in_app_or in Hin as [Hin|[<-|[]]]; [|reflexivity].
      apply Hu; [rewrite Hroi1; exact H|exact Hin]. }
    destruct (if m_aiEnabled (w_ai w1) && detectorReady (w_ai w1) then _ else _)
      as [w2 ev2].
    cbn [fst snd] in *. destruct H2 as [Hroi2 Hev2].
    split; [congruence|]. intros e Hin.
    apply in_app_or in Hin as [Hin|Hin]; [auto|].
    apply in_app_or in Hin as [Hin|Hin]; [auto|].
    apply in_app_or in Hin as [[<-|[]]|Hin]; [reflexivity|].
    apply accountFps_events in Hin as [q ->]. reflexivity.
  - destruct (captureFrame_idle f w Hidle) as (-> & [->| ->]);
      (split; [reflexivity|]); intros e Hin; [destruct Hin|].
    destruct Hin as [<-|[]]. reflexivity.
Qed.

Lemma handle_inert m w :
  inertRoi (w_roi w) -> drawsRoi m = false ->
  inertRoi (w_roi (fst (handle m w)))
  /\ forall e, In e (snd (handle m w)) -> isRoiEvent e = false.
Proof.
  intros H Hm. destruct m; cbn [handle fst snd];
    try (split; [exact H|intros e []]).
  - destruct (start_untouched openOk now w) as (_ & -> & _ & _ & Hev).
    split; [exact H|]. intros e He. apply Hev in He. destruct e; simpl in He; tauto.
  - destruct (stop_untouched w) as (_ & -> & _). split; [exact H|intros e []].
  - destruct (captureFrame_inert f w H) as [-> Hev]. split; [exact H|exact Hev].
  - split; [|intros e []]. unfold inertRoi. cbn [setRoiPolygon w_roi m_roiNorm].
    cbn [drawsRoi] in Hm. apply Z.leb_gt in Hm. exact Hm.
  - split; [|intros e []]. unfold inertRoi. cbn. lia.
Qed.

(** X13.  Without a ROI there are no ROI alerts.  Over any run of a worker
    from its constructor in which no polygon of three or more points is
    set, no [roiMotionDetected] and no [loiteringDetected] event is
    emitted, whatever else is enabled and whatever the frames and
    detections are; a polygon of one or two points counts as none. *)
Theorem no_roi_no_roi_alerts (source : string) (msgs : list Msg) (e : Event) :
  forallb (fun m => negb (drawsRoi m)) msgs = true ->
  In e (snd (run msgs (CaptureWorker_new source))) -> isRoiEvent e = false.
Proof.
  assert (H : forall msgs w,
            inertRoi (w_roi w) ->
            forallb (fun m => negb (drawsRoi m)) msgs = true ->
            In e (snd (run msgs w)) -> isRoiEvent e = false).
  { clear. induction msgs as [|m rest IH]; intros w Hw Hall; [intros []|].
    cbn [forallb] in Hall. apply andb_true_iff in Hall as [Hm Hrest].
    apply negb_true_iff in Hm. cbn [run].
    destruct (handle_inert m w Hw Hm) as [H1 H2].
    destruct (handle m w) as [w1 ev]. specialize (IH w1).
    destruct (run rest w1) as [w2 evs]. cbn [fst snd] in *.
    intros Hin. apply in_app_or in Hin as [Hin|Hin]; auto. }
  apply H. unfold inertRoi. cbn. lia.
Qed.

Lemma no_roi_no_roi_alerts_witness :
  ~ In (loiteringDetected 1 "person" 9000 100400)
       (snd (run (SetRoiPolygon [wireStart; wireEnd] :: aiOnlyRun)
                 (CaptureWorker_new "0"))).
Proof.
  intros Hin.
  apply (no_roi_no_roi_alerts "0" (SetRoiPolygon [wireStart; wireEnd] :: aiOnlyRun)
           _ eq_refl) in Hin.
  discriminate Hin.
Defined.

(** * Object detector *)

Lemma candidateOf_spec origW origH threshold r c :
  candidateOf origW origH threshold r = Some c ->
  0 <= rx (cand_box c) /\ 0 <= ry (cand_box c)
  /\ 20 < rwidth (cand_box c) /\ 20 < rheight (cand_box c)
  /\ rx (cand_box c) + rwidth (cand_box c) <= origW
  /\ ry (cand_box c) + rheight (cand_box c) <= origH
  /\ (threshold <= cand_confidence c)%Q.
Proof.
  unfold candidateOf.
  destruct (Qltb (maxScore r) threshold) eqn:Et; [discriminate|].
  destruct (Qle_bool (row_w r) 0 || Qle_bool (row_h r) 0); [discriminate|].
  destruct ((20 <? _) && _ && _ && _) eqn:E; [|discriminate].
  intros H. inversion H; subst c; clear H. cbn [cand_box cand_confidence rx ry rwidth rheight].
  apply andb_true_iff in E as [E E4]. apply andb_true_iff in E as [E E3].
  apply andb_true_iff in E as [E1 E2].
  apply Z.ltb_lt in E1. apply Z.ltb_lt in E2. apply Qltb_ge in Et.
  repeat split; try lia. exact Et.
Qed.

Lemma candidates_In origW origH threshold rows c :
  In c (candidates origW origH threshold rows) ->
  exists r, In r rows /\ candidateOf origW origH threshold r = Some c.
Proof.
  induction rows as [|r rest IH]; [intros []|].
  cbn [candidates]. destruct (candidateOf origW origH threshold r) as [c0|] eqn:E.
  - intros [<-|Hin].
    + exists r. split; [left; reflexivity|exact E].
    + destruct (IH Hin) as (r' & Hr & Hc). exists r'. split; [right; exact Hr|exact Hc].
  - intros Hin. destruct (IH Hin) as (r' & Hr & Hc).
    exists r'. split; [right; exact Hr|exact Hc].
Qed.

Lemma finalDetections_In origW origH cands indices det :
  In det (finalDetections origW origH cands indices) ->
  exists c, In c cands /\ det = detectionOf origW origH c.
Proof.
  induction indices as [|idx rest IH]; [intros []|].
  cbn [finalDetections]. destruct (nth_error cands idx) as [c|] eqn:E; [|exact IH].
  intros [<-|Hin]; [|exact (IH Hin)].
  exists c. split; [eapply nth_error_In, E|reflexivity].
Qed.

Lemma shrinkOf_bounds n : 0 <= n -> 0 <= shrinkOf n /\ 100 * shrinkOf n <= 22 * n.
Proof.
  intros Hn. unfold shrinkOf. rewrite Z.quot_div_nonneg by lia.
  pose proof (Z.mul_div_le (n * 22) 100). pose proof (Z.div_pos (n * 22) 100). lia.
Qed.

(** A candidate box, which lies inside the frame and is more than 20
    pixels wide and high, is tightened without any clamping. *)
Lemma tightenBox_spec origW origH b :
  0 <= rx b -> 0 <= ry b -> 20 < rwidth b -> 20 < rheight b ->
  rx b + rwidth b <= origW -> ry b + rheight b <= origH ->
  tightenBox origW origH b
  = mkRect (rx b + shrinkOf (rwidth b)) (ry b + shrinkOf (rheight b))
           (rwidth b - shrinkOf (rwidth b) * 2) (rheight b - shrinkOf (rheight b) * 2).
Proof.
  intros Hx Hy Hw Hh Hxw Hyh.
  destruct (shrinkOf_bounds (rwidth b)) as [Hs1 Hs2]; [lia|].
  destruct (shrinkOf_bounds (rheight b)) as [Ht1 Ht2]; [lia|].
  unfold tightenBox. cbv zeta. f_equal; lia.
Qed.

Lemma centre_in_unit_interval (x w total : Z) :
  0 <= x -> 0 < w -> x + w <= total ->
  (0 < (inject_Z x + inject_Z w / 2) / inject_Z total
   /\ (inject_Z x + inject_Z w / 2) / inject_Z total < 1)%Q.
Proof.
  intros Hx Hw Hxw.
  assert (Ht : (0 < inject_Z total)%Q).
  { replace 0%Q with (inject_Z 0) by reflexivity. rewrite <- Zlt_Qlt. lia. }
  assert (Qx : (0 <= inject_Z x)%Q).
  { replace 0%Q with (inject_Z 0) by reflexivity. rewrite <- Zle_Qle. lia. }
  assert (Qw : (0 < inject_Z w)%Q).
  { replace 0%Q with (inject_Z 0) by reflexivity. rewrite <- Zlt_Qlt. lia. }
  assert (Qxw : (inject_Z x + inject_Z w <= inject_Z total)%Q).
  { rewrite <- inject_Z_plus, <- Zle_Qle. exact Hxw. }
  setoid_replace (inject_Z w / 2)%Q with ((1 # 2) * inject_Z w)%Q by field.
  split.
  - apply Qlt_shift_div_l; [exact Ht|]. lra.
  - apply Qlt_shift_div_r; [exact Ht|]. lra.
Qed.

(** X14.  Every detection [infer] returns has a box that lies inside the
    frame and is at least 12 pixels wide and high, a score of at least 0.4
    whatever confidence threshold is configured (and at least that
    threshold), and therefore a normalized centroid strictly inside the
    unit square: the tracker never sees a point outside the image. *)
Theorem detections_lie_inside_the_frame (d : ObjectDetector) (m_confThreshold : Q)
  (nms : list Candidate -> list nat) (frameEmpty : bool) (origW origH : Z)
  (output : option (list OutputRow)) (det : Detection) :
  In det (infer d m_confThreshold nms frameEmpty origW origH output) ->
  insideFrame origW origH (box det)
  /\ 12 <= rwidth (box det) /\ 12 <= rheight (box det)
  /\ (0.4 <= score det)%Q /\ (m_confThreshold <= score det)%Q
  /\ (0 < px (detectionCentroid det origW origH) < 1)%Q
  /\ (0 < py (detectionCentroid det origW origH) < 1)%Q.
Proof.
  unfold infer. destruct (negb (isLoaded d) || frameEmpty); [intros []|].
  destruct output as [rows|]; [|intros []]. cbv zeta.
  intros Hin.
  assert (Hin' : In det (finalDetections origW origH
                           (candidates origW origH (inferThreshold m_confThreshold) rows)
                           (nms (candidates origW origH
                                   (inferThreshold m_confThreshold) rows)))).
  { destruct (candidates origW origH (inferThreshold m_confThreshold) rows);
      [destruct Hin|exact Hin]. }
  clear Hin. apply finalDetections_In in Hin' as (c & Hc & ->).
  apply candidates_In in Hc as (r & _ & Hc).
  apply candidateOf_spec in Hc as (Hx & Hy & Hw & Hh & Hxw & Hyh & Hth).
  destruct (shrinkOf_bounds (rwidth (cand_box c))) as [Hs1 Hs2]; [lia|].
  destruct (shrinkOf_bounds (rheight (cand_box c))) as [Ht1 Ht2]; [lia|].
  unfold detectionOf, detectionCentroid, insideFrame. cbn [box score].
  rewrite (tightenBox_spec origW origH (cand_box c)) by assumption.
  cbn [rx ry rwidth rheight px py].
  split; [repeat split; lia|]. split; [lia|]. split; [lia|].
  split; [eapply Qle_trans; [apply Q.le_max_l|exact Hth]|].
  split; [eapply Qle_trans; [apply Q.le_max_r|exact Hth]|].
  split; apply centre_in_unit_interval; lia.
Qed.

Lemma detections_lie_inside_the_frame_witness :
  infer loadedDetector 0.25 keepAll false 640 480 (Some sampleRows)
  = [mkDetection 0 0.9 (mkRect 292 164 56 112); mkDetection 16 0.7 (mkRect 608 448 24 24)]
  /\ insideFrame 640 480 (mkRect 608 448 24 24).
Proof.
  split; [reflexivity|].
  apply (detections_lie_inside_the_frame loadedDetector 0.25 keepAll false 640 480
           (Some sampleRows) (mkDetection 16 0.7 (mkRect 608 448 24 24))).
  right. left. reflexivity.
Defined.

(** * The alert list *)

Local Open Scope string_scope.

(** ** Removing rows *)

Lemma withoutRows_app {A : Type} rows (a b : list A) : forall from,
  withoutRows from rows (a ++ b)
  = (withoutRows from rows a
     ++ withoutRows (from + Z.of_nat (List.length a)) rows b)%list.
Proof.
  induction a as [|x r IH]; intros from.
  - cbn [app withoutRows List.length]. rewrite Z.add_0_r. reflexivity.
  - cbn [app withoutRows List.length]. rewrite IH.
    replace (from + 1 + Z.of_nat (List.length r))%Z
      with (from + Z.of_nat (S (List.length r)))%Z by lia.
    destruct (existsb (Z.eqb from) rows); reflexivity.
Qed.

(** Only the listed positions that fall on the list matter. *)
Lemma withoutRows_ext {A : Type} rows rows' (l : list A) : forall from,
  (forall j, (from <= j < from + Z.of_nat (List.length l))%Z ->
             (In j rows <-> In j rows')) ->
  withoutRows from rows l = withoutRows from rows' l.
Proof.
  induction l as [|x r IH]; intros from H; [reflexivity|].
  cbn [withoutRows]. cbn [List.length] in H.
  assert (E : existsb (Z.eqb from) rows = existsb (Z.eqb from) rows').
  { destruct (existsb (Z.eqb from) rows) eqn:E1;
      destruct (existsb (Z.eqb from) rows') eqn:E2; try reflexivity.
    - apply existsb_eqb_In in E1. apply H in E1; [|lia].
      apply existsb_eqb_In in E1. congruence.
    - apply existsb_eqb_In in E2. apply H in E2; [|lia].
      apply existsb_eqb_In in E2. congruence. }
  rewrite E, (IH (from + 1)%Z); [reflexivity|].
  intros j Hj. apply H. lia.
Qed.

Lemma withoutRows_none {A : Type} rows (l : list A) from :
  (forall j, In j rows -> (j < from \/ from + Z.of_nat (List.length l) <= j)%Z) ->
  withoutRows from rows l = l.
Proof.
  revert from. induction l as [|x r IH]; intros from H; [reflexivity|].
  cbn [withoutRows]. cbn [List.length] in H.
  destruct (existsb (Z.eqb from) rows) eqn:E.
  - apply existsb_eqb_In in E. apply H in E. lia.
  - rewrite IH; [reflexivity|]. intros j Hj. apply H in Hj. lia.
Qed.

Lemma validIndex_iff {A : Type} idx (l : list A) :
  validIndex idx l = true <-> (0 <= idx < Z.of_nat (List.length l))%Z.
Proof. unfold validIndex. rewrite andb_true_iff, Z.leb_le, Z.ltb_lt. reflexivity. Qed.

(** A valid position splits the list around the row it names. *)
Lemma removeAt_split {A : Type} idx (l : list A) :
  validIndex idx l = true ->
  exists a x b, l = (a ++ x :: b)%list /\ Z.of_nat (List.length a) = idx
                /\ nth_error l (Z.to_nat idx) = Some x
                /\ removeAt (Z.to_nat idx) l = (a ++ b)%list.
Proof.
  intros H. apply validIndex_iff in H.
  destruct (nth_error l (Z.to_nat idx)) as [x|] eqn:E.
  - pose proof E as E'. apply nth_error_split in E as (a & b & Hl & Hlen).
    exists a, x, b. split; [exact Hl|]. split; [lia|]. split; [reflexivity|].
    unfold removeAt. rewrite Hl, <- Hlen.
    rewrite firstn_app, Nat.sub_diag, firstn_all. cbn [firstn]. rewrite app_nil_r.
    rewrite skipn_app, skipn_all2 by lia.
    replace (S (List.length a) - List.length a)%nat with 1%nat by lia. reflexivity.
  - apply nth_error_None in E. lia.
Qed.

Lemma removeAt_withoutRows {A : Type} idx rows (l : list A) :
  validIndex idx l = true ->
  (forall j, In j rows -> (j < idx)%Z) ->
  withoutRows 0 rows (removeAt (Z.to_nat idx) l) = withoutRows 0 (idx :: rows) l.
Proof.
  intros Hv Hrows. destruct (removeAt_split idx l Hv) as (a & x & b & -> & Hlen & _ & ->).
  rewrite !withoutRows_app. cbn [Z.add]. rewrite Hlen.
  cbn [withoutRows existsb]. rewrite Z.eqb_refl. cbn [orb].
  rewrite (withoutRows_none rows b idx) by (intros j Hj; left; apply Hrows, Hj).
  rewrite (withoutRows_none (idx :: rows) b (idx + 1)%Z).
  - f_equal. apply withoutRows_ext. intros j Hj. cbn [In]. split; [auto|].
    intros [Hi|Hi]; [lia|exact Hi].
  - intros j [<-|Hj]; [lia|]. apply Hrows in Hj. lia.
Qed.

(** The removal loop on positions in strictly descending order. *)
Lemma removeEach_descending rows : forall m,
  descending rows ->
  (forall j, In j rows -> validIndex j m = true) ->
  removeEach rows m = withoutRows 0 rows m.
Proof.
  induction rows as [|idx rest IH]; intros m Hs Hv.
  - cbn. symmetry. apply withoutRows_none. intros j [].
  - destruct Hs as [Hlt Hs].
    assert (Hidx : validIndex idx m = true) by (apply Hv; left; reflexivity).
    unfold removeEach. cbn [fold_left]. rewrite Hidx.
    fold (removeEach rest (removeAt (Z.to_nat idx) m)).
    rewrite IH; [apply removeAt_withoutRows; assumption|exact Hs|].
    intros j Hj. apply validIndex_iff.
    destruct (removeAt_split idx m Hidx) as (a & x & b & Hm & Hlen & _ & ->).
    pose proof (Hlt j Hj) as Hlt'.
    assert (Hvj : validIndex j m = true) by (apply Hv; right; exact Hj).
    apply validIndex_iff in Hvj. rewrite length_app. lia.
Qed.

Lemma insertDescending_In i l x : In x (insertDescending i l) <-> x = i \/ In x l.
Proof.
  induction l as [|j r IH]; cbn [insertDescending In].
  - intuition.
  - destruct (j <=? i)%Z; cbn [In]; [intuition|]. rewrite IH. intuition.
Qed.

Lemma sortDescending_In l x : In x (sortDescending l) <-> In x l.
Proof.
  induction l as [|i r IH]; [reflexivity|].
  cbn [sortDescending fold_right In]. fold (sortDescending r).
  rewrite insertDescending_In, IH. intuition.
Qed.

Lemma insertDescending_sorted i l :
  descending l -> ~ In i l -> descending (insertDescending i l).
Proof.
  induction l as [|j r IH]; intros Hs Hni; cbn [insertDescending].
  - split; [intros j []|exact I].
  - pose proof Hs as [Hlt Hs'].
    destruct (j <=? i)%Z eqn:E.
    + apply Z.leb_le in E.
      assert (Hji : (j < i)%Z).
      { destruct (Z.eq_dec j i) as [->|Hne]; [exfalso; apply Hni; left; reflexivity|lia]. }
      split; [|exact Hs]. intros y [<-|Hy]; [exact Hji|].
      specialize (Hlt y Hy). lia.
    + apply Z.leb_gt in E. split.
      * intros y Hy. apply insertDescending_In in Hy as [->|Hy]; [exact E|exact (Hlt y Hy)].
      * apply IH; [exact Hs'|]. intros H. apply Hni. right. exact H.
Qed.

Lemma sortDescending_sorted l : NoDup l -> descending (sortDescending l).
Proof.
  induction l as [|i r IH]; intros Hnd; [exact I|].
  inversion Hnd as [|? ? Hni Hnd']; subst.
  cbn [sortDescending fold_right]. fold (sortDescending r).
  apply insertDescending_sorted; [apply IH, Hnd'|].
  intros H. apply Hni. apply sortDescending_In, H.
Qed.

Lemma collectIndices_valid indices m j :
  In j (collectIndices indices m) -> validIndex j m = true.
Proof.
  induction indices as [|[idx|] rest IH]; cbn [collectIndices]; [intros []| |exact IH].
  destruct (validIndex idx m) eqn:E; [|exact IH].
  intros [<-|H]; [exact E|exact (IH H)].
Qed.

(** X15.  [removeAlert] and [removeAlerts] remove rows by position.
    [removeAlert] answers the list without the row at the given position
    (the list itself when the position is outside it).  [removeAlerts]
    ignores entries that are no integer or lie outside the list; when the
    remaining positions are pairwise different it answers the list without
    exactly the rows at these positions, the other rows in their order. *)
Theorem remove_alerts_by_position (index : Z) (indices : list (option Z))
  (m_alerts : list Alert) :
  removeAlert index m_alerts = withoutRows 0 [index] m_alerts
  /\ (NoDup (collectIndices indices m_alerts) ->
      removeAlerts indices m_alerts
      = withoutRows 0 (collectIndices indices m_alerts) m_alerts).
Proof.
  split.
  - unfold removeAlert.
    destruct ((index <? 0)%Z || (Z.of_nat (List.length m_alerts) <=? index)%Z) eqn:E.
    + symmetry. apply withoutRows_none. intros j [<-|[]].
      apply orb_true_iff in E as [E|E]; [apply Z.ltb_lt in E|apply Z.leb_le in E]; lia.
    + apply orb_false_iff in E as [E1 E2]. apply Z.ltb_ge in E1. apply Z.leb_gt in E2.
      assert (Hv : validIndex index m_alerts = true) by (apply validIndex_iff; lia).
      rewrite <- (removeAt_withoutRows index [] m_alerts Hv) by (intros j []).
      symmetry. apply withoutRows_none. intros j [].
  - intros Hnd. unfold removeAlerts.
    assert (H : removeEach (sortDescending (collectIndices indices m_alerts)) m_alerts
                = withoutRows 0 (collectIndices indices m_alerts) m_alerts).
    { rewrite removeEach_descending.
      - apply withoutRows_ext. intros j _. apply sortDescending_In.
      - apply sortDescending_sorted, Hnd.
      - intros j Hj. apply (proj1 (sortDescending_In _ j)) in Hj.
        eapply collectIndices_valid, Hj. }
    destruct indices as [|v rest]; [|exact H].
    symmetry. apply withoutRows_none. intros j [].
Qed.

Lemma remove_alerts_by_position_witness :
  map alert_type (removeAlerts [Some 2; None; Some 7; Some 0] threeAlerts)
  = ["snapshot"].
Proof.
  destruct (remove_alerts_by_position 0 [Some 2; None; Some 7; Some 0] threeAlerts)
    as [_ H].
  rewrite H.
  - reflexivity.
  - repeat constructor; cbn; intuition discriminate.
Defined.

(** A position listed twice takes its neighbour with it: the second
    removal finds the next row at that position. *)
Example removeAlerts_same_position_twice :
  map alert_type (removeAlerts [Some 0; Some 0] threeAlerts) = ["tripwire"].
Proof. reflexivity. Qed.

(** ** Saving a snapshot *)

Lemma nth_error_middle {A : Type} (a b : list A) (x y : A) (j : nat) :
  j <> List.length a ->
  nth_error (a ++ y :: b)%list j = nth_error (a ++ x :: b)%list j.
Proof.
  intros Hj. destruct (Nat.lt_ge_cases j (List.length a)) as [Hlt|Hge].
  - rewrite !nth_error_app1 by exact Hlt. reflexivity.
  - rewrite !nth_error_app2 by exact Hge.
    destruct (j - List.length a)%nat as [|n] eqn:E; [lia|reflexivity].
Qed.

(** X16.  [exportSnapshotAsPng] never adds or removes a row.  When it
    fails (position outside the list, no image in memory, directory or
    file cannot be written) the list is left as it was; when it succeeds
    the row had an image, only that row changed, and of that row only the
    path, which is now the file written, and the message. *)
Theorem export_snapshot_touches_one_row (index : Z) (filePath : string)
  (dirExists mkpathOk saveOk : bool) (m_alerts : list Alert) :
  List.length (snd (exportSnapshotAsPng index filePath dirExists mkpathOk saveOk m_alerts))
  = List.length m_alerts
  /\ (fst (exportSnapshotAsPng index filePath dirExists mkpathOk saveOk m_alerts) = false ->
      snd (exportSnapshotAsPng index filePath dirExists mkpathOk saveOk m_alerts)
      = m_alerts)
  /\ (fst (exportSnapshotAsPng index filePath dirExists mkpathOk saveOk m_alerts) = true ->
      exists a,
        validIndex index m_alerts = true
        /\ nth_error m_alerts (Z.to_nat index) = Some a
        /\ hasImage a = true
        /\ nth_error
             (snd (exportSnapshotAsPng index filePath dirExists mkpathOk saveOk m_alerts))
             (Z.to_nat index)
           = Some (mkAlert (alert_id a) (timestamp a) (cameraName a) (alert_type a)
                           "Snapshot saved" filePath true)
        /\ forall j, j <> Z.to_nat index ->
             nth_error
               (snd (exportSnapshotAsPng index filePath dirExists mkpathOk saveOk
                       m_alerts)) j
             = nth_error m_alerts j).
Proof.
  unfold exportSnapshotAsPng.
  destruct ((index <? 0)%Z || (Z.of_nat (List.length m_alerts) <=? index)%Z) eqn:E;
    [cbn [fst snd]; split; [reflexivity|split; [reflexivity|discriminate]]|].
  apply orb_false_iff in E as [E1 E2]. apply Z.ltb_ge in E1. apply Z.leb_gt in E2.
  assert (Hv : validIndex index m_alerts = true) by (apply validIndex_iff; lia).
  destruct (removeAt_split index m_alerts Hv) as (a & x & b & Hm & Hlen & Hnth & _).
  rewrite Hnth.
  destruct (negb (hasImage x)) eqn:Ei;
    [cbn [fst snd]; split; [reflexivity|split; [reflexivity|discriminate]]|].
  destruct (negb dirExists && negb mkpathOk);
    [cbn [fst snd]; split; [reflexivity|split; [reflexivity|discriminate]]|].
  destruct (negb saveOk);
    [cbn [fst snd]; split; [reflexivity|split; [reflexivity|discriminate]]|].
  cbn [fst snd]. apply negb_false_iff in Ei.
  assert (Hn : Z.to_nat index = List.length a) by lia.
  assert (Hfirst : firstn (Z.to_nat index) m_alerts = a).
  { rewrite Hm, Hn, firstn_app, Nat.sub_diag, firstn_all. cbn [firstn].
    apply app_nil_r. }
  assert (Hskip : skipn (S (Z.to_nat index)) m_alerts = b).
  { rewrite Hm, Hn, skipn_app, skipn_all2 by lia.
    replace (S (List.length a) - List.length a)%nat with 1%nat by lia. reflexivity. }
  rewrite Hfirst, Hskip. split; [|split; [discriminate|]].
  - rewrite Hm, !length_app. reflexivity.
  - intros _. exists x. split; [exact Hv|]. split; [reflexivity|].
    split; [exact Ei|]. split.
    + rewrite Hn, nth_error_app2, Nat.sub_diag by lia. unfold markSaved.
      rewrite Ei. reflexivity.
    + intros j Hj. rewrite Hm. apply nth_error_middle. lia.
Qed.

Lemma export_snapshot_touches_one_row_witness :
  map message (snd (exportSnapshotAsPng 1 "out/door.png" false true true threeAlerts))
  = ["Motion detected"; "Snapshot saved"; "Tripwire crossed (forward)"]
  /\ snd (exportSnapshotAsPng 0 "out/door.png" true true true threeAlerts) = threeAlerts.
Proof.
  split; [reflexivity|].
  apply (export_snapshot_touches_one_row 0 "out/door.png" true true true threeAlerts).
  reflexivity.
Defined.

(** ** What holds of every alert *)

Lemma valid_split {A : Type} idx (l : list A) :
  validIndex idx l = true ->
  exists a x b, l = (a ++ x :: b)%list
                /\ nth_error l (Z.to_nat idx) = Some x
                /\ firstn (Z.to_nat idx) l = a
                /\ skipn (S (Z.to_nat idx)) l = b.
Proof.
  intros Hv. destruct (removeAt_split idx l Hv) as (a & x & b & Hm & Hlen & Hnth & _).
  exists a, x, b. split; [exact Hm|]. split; [exact Hnth|].
  assert (Hn : Z.to_nat idx = List.length a) by lia.
  split.
  - rewrite Hm, Hn, firstn_app, Nat.sub_diag, firstn_all. cbn [firstn].
    apply app_nil_r.
  - rewrite Hm, Hn, skipn_app, skipn_all2 by lia.
    replace (S (List.length a) - List.length a)%nat with 1%nat by lia. reflexivity.
Qed.

Lemma removeAt_Forall {A : Type} (P : A -> Prop) idx (l : list A) :
  validIndex idx l = true -> Forall P l -> Forall P (removeAt (Z.to_nat idx) l).
Proof.
  intros Hv Hl. destruct (valid_split idx l Hv) as (a & x & b & Hm & _ & Ha & Hb).
  unfold removeAt. rewrite Ha, Hb. rewrite Hm in Hl.
  apply Forall_app in Hl as [H1 H2]. inversion H2; subst.
  apply Forall_app. split; assumption.
Qed.

Lemma removeEach_Forall (P : Alert -> Prop) rows : forall m,
  Forall P m -> Forall P (removeEach rows m).
Proof.
  induction rows as [|idx rest IH]; intros m Hm; [exact Hm|].
  unfold removeEach. cbn [fold_left].
  fold (removeEach rest (if validIndex idx m then removeAt (Z.to_nat idx) m else m)).
  apply IH. destruct (validIndex idx m) eqn:E; [apply removeAt_Forall; assumption|exact Hm].
Qed.

Lemma messageOr_not_empty msg fallback : fallback <> "" -> messageOr msg fallback <> "".
Proof.
  intros Hf. unfold messageOr. destruct (String.eqb msg "") eqn:E; [exact Hf|].
  apply String.eqb_neq, E.
Qed.

Lemma logCall_ok c m : Forall alertOk m -> Forall alertOk (logCall c m).
Proof.
  intros Hm.
  assert (Hadd : forall id now camera type msg path img,
            In type alertTypes -> msg <> "" ->
            (img = true -> type = "snapshot") ->
            (type = "snapshot" ->
             (msg = "Snapshot captured (unsaved)" /\ path = "") \/ msg = "Snapshot saved") ->
            Forall alertOk (addAlert (mkAlert id now camera type msg path img) m)).
  { intros. unfold addAlert. apply Forall_app. split; [exact Hm|].
    constructor; [|constructor]. unfold alertOk. cbn. auto. }
  destruct c; cbn [logCall].
  - apply Hadd; cbn; auto; discriminate.
  - apply Hadd; cbn; auto; try discriminate.
    apply messageOr_not_empty. discriminate.
  - apply Hadd; cbn; auto; try discriminate.
    apply messageOr_not_empty. discriminate.
  - apply Hadd; cbn; auto 6; try discriminate.
    apply messageOr_not_empty. discriminate.
  - apply Hadd; cbn; auto 6; try discriminate.
    apply messageOr_not_empty. discriminate.
  - unfold clear. destruct m; constructor.
  - unfold removeAlert.
    destruct ((index <? 0)%Z || (Z.of_nat (List.length m) <=? index)%Z) eqn:E;
      [exact Hm|].
    apply orb_false_iff in E as [E1 E2]. apply Z.ltb_ge in E1. apply Z.leb_gt in E2.
    apply removeAt_Forall; [apply validIndex_iff; lia|exact Hm].
  - unfold removeAlerts. destruct indices; [exact Hm|]. apply removeEach_Forall, Hm.
  - unfold exportSnapshotAsPng.
    destruct ((index <? 0)%Z || (Z.of_nat (List.length m) <=? index)%Z) eqn:E;
      [exact Hm|].
    apply orb_false_iff in E as [E1 E2]. apply Z.ltb_ge in E1. apply Z.leb_gt in E2.
    assert (Hv : validIndex index m = true) by (apply validIndex_iff; lia).
    destruct (valid_split index m Hv) as (a & x & b & Hl & Hnth & Ha & Hb).
    rewrite Hnth.
    destruct (negb (hasImage x)) eqn:Ei; [exact Hm|].
    destruct (negb dirExists && negb mkpathOk); [exact Hm|].
    destruct (negb saveOk); [exact Hm|].
    cbn [snd]. rewrite Ha, Hb. rewrite Hl in Hm.
    apply Forall_app in Hm as [H1 H2]. inversion H2 as [|? ? Hx Hb']; subst.
    apply Forall_app. split; [exact H1|]. constructor; [|exact Hb'].
    destruct Hx as (T1 & T2 & T3 & T4). unfold alertOk, markSaved. cbn.
    split; [exact T1|]. split; [discriminate|]. split; [exact T3|]. auto.
Qed.

(** X17.  Whatever sequence of calls built it, every alert of the list
    has one of the five types, a message that is not empty (an empty
    message is replaced by the default of its type), an image in memory only
    if it is a snapshot, and, if it is a snapshot, either the unsaved
    message and no path or the saved message. *)
Theorem alert_list_invariant (cs : list LogCall) : Forall alertOk (logCalls cs []).
Proof.
  assert (H : forall cs m, Forall alertOk m -> Forall alertOk (logCalls cs m)).
  { clear. induction cs as [|c rest IH]; intros m Hm; [exact Hm|].
    unfold logCalls. cbn [fold_left]. apply IH, logCall_ok, Hm. }
  apply H. constructor.
Qed.

(** ** Exporting a selection *)

Lemma selectAlerts_rows indices m :
  map Some (selectAlerts indices m)
  = map (fun idx => nth_error m (Z.to_nat idx)) (collectIndices indices m).
Proof.
  induction indices as [|[idx|] rest IH]; cbn [selectAlerts collectIndices];
    [reflexivity| |exact IH].
  destruct (validIndex idx m) eqn:Hv; [|exact IH].
  destruct (valid_split idx m Hv) as (a & x & b & _ & Hnth & _).
  rewrite Hnth. cbn [map]. rewrite Hnth, IH. reflexivity.
Qed.

(** X18.  [exportSelectedToCsv] writes the rows at the valid positions of
    the selection, in the order of the selection (a position listed twice
    is written twice); entries that are no integer or lie outside the list
    are skipped.  When nothing is left it fails without touching the file
    system; when it succeeds, reading the file back gives the header and
    the six fields of every selected alert. *)
Theorem export_selected_round_trip (isoDate : QDateTime -> string)
  (dirExists mkpathOk openOk : bool) (indices : list (option Z))
  (m_alerts : list Alert) :
  map Some (selectAlerts indices m_alerts)
  = map (fun idx => nth_error m_alerts (Z.to_nat idx)) (collectIndices indices m_alerts)
  /\ (collectIndices indices m_alerts = [] ->
      exportSelectedToCsv isoDate dirExists mkpathOk openOk indices m_alerts
      = (false, None))
  /\ (fst (exportSelectedToCsv isoDate dirExists mkpathOk openOk indices m_alerts) = true ->
      exists text,
        snd (exportSelectedToCsv isoDate dirExists mkpathOk openOk indices m_alerts)
        = Some text
        /\ csvParse text
           = csvHeaderFields :: map (alertFields isoDate) (selectAlerts indices m_alerts)).
Proof.
  split; [apply selectAlerts_rows|]. split.
  - intros Hnone. pose proof (selectAlerts_rows indices m_alerts) as H.
    rewrite Hnone in H. unfold exportSelectedToCsv.
    destruct (selectAlerts indices m_alerts); [reflexivity|discriminate H].
  - unfold exportSelectedToCsv.
    destruct (selectAlerts indices m_alerts) as [|a sel] eqn:E; [discriminate|].
    unfold exportAlertsToCsv.
    destruct (negb dirExists && negb mkpathOk); [discriminate|].
    destruct (negb openOk); [discriminate|].
    intros _. eexists. split; [reflexivity|].
    unfold csvParse, csvText. rewrite parse_header, parse_rows. reflexivity.
Qed.

Lemma export_selected_round_trip_witness :
  exportSelectedToCsv sampleIsoDate true true true [None; Some 3; Some (-1)] threeAlerts
  = (false, None)
  /\ exists text,
       snd (exportSelectedToCsv sampleIsoDate true true true [Some 2; Some 0; Some 2]
              threeAlerts) = Some text
       /\ map (fun row => nth 3 row "") (csvParse text)
          = ["Type"; "tripwire"; "motion"; "tripwire"].
Proof.
  split.
  - apply (export_selected_round_trip sampleIsoDate true true true
             [None; Some 3; Some (-1)] threeAlerts). reflexivity.
  - destruct (export_selected_round_trip sampleIsoDate true true true
                [Some 2; Some 0; Some 2] threeAlerts) as (_ & _ & H).
    destruct (H eq_refl) as (text & Ht & Hp).
    exists text. split; [exact Ht|]. rewrite Hp. reflexivity.
Defined.

Local Close Scope string_scope.

(** ** Exporting as JSON *)

Local Open Scope string_scope.

Lemma alertOfJson_alertJson isoDate a :
  alertOfJson (alertJson isoDate a) = (alertFields isoDate a, hasImage a).
Proof. reflexivity. Qed.

(** X19.  The JSON export can be read back.  When [exportAlertsToJson]
    succeeds, the document holds one object per alert in the order of the
    list, from which Qt's accessors read the six text fields and the image
    flag of the alert unchanged; its totalCount is the number of these
    objects and its exportTime the time of the export.  An export of a
    selection in which no position is valid fails and writes nothing. *)
Theorem json_export_round_trip (isoDate : QDateTime -> string) (now : QDateTime)
  (dirExists mkpathOk openOk : bool) (indices : list (option Z))
  (alerts : list Alert) :
  (fst (exportAlertsToJson isoDate now dirExists mkpathOk openOk alerts) = true ->
   exists root,
     snd (exportAlertsToJson isoDate now dirExists mkpathOk openOk alerts)
     = Some (DocObject root)
     /\ map alertOfJson (toArray (member "alerts" root))
        = map (fun a => (alertFields isoDate a, hasImage a)) alerts
     /\ toDouble (member "totalCount" root)
        = inject_Z (Z.of_nat (List.length (toArray (member "alerts" root))))
     /\ toString (member "exportTime" root) = isoDate now)
  /\ (collectIndices indices alerts = [] ->
      exportSelectedToJson isoDate now dirExists mkpathOk openOk indices alerts
      = (false, None)).
Proof.
  split.
  - unfold exportAlertsToJson.
    destruct (negb dirExists && negb mkpathOk); [discriminate|]. cbv zeta.
    destruct (negb openOk); [discriminate|]. intros _. cbn [fst snd].
    eexists. split; [reflexivity|].
    change (toArray (member "alerts" _)) with (map (alertJson isoDate) alerts).
    split; [|split].
    + rewrite map_map. apply map_ext. intros a. apply alertOfJson_alertJson.
    + rewrite length_map. reflexivity.
    + reflexivity.
  - intros Hnone. pose proof (selectAlerts_rows indices alerts) as H.
    rewrite Hnone in H. unfold exportSelectedToJson.
    destruct (selectAlerts indices alerts); [reflexivity|discriminate H].
Qed.

Lemma json_export_round_trip_witness :
  exists root,
    snd (exportAlertsToJson sampleIsoDate 5000 true true true threeAlerts)
    = Some (DocObject root)
    /\ map (fun v => snd (alertOfJson v)) (toArray (member "alerts" root))
       = [false; true; false].
Proof.
  destruct (json_export_round_trip sampleIsoDate 5000 true true true [] threeAlerts)
    as [H _].
  destruct (H eq_refl) as (root & Hroot & Halerts & _).
  exists root. split; [exact Hroot|].
  rewrite <- (map_map alertOfJson snd), Halerts. reflexivity.
Defined.

Local Close Scope string_scope.

(** * Camera manager *)

Local Open Scope string_scope.

(** ** Saving and loading *)

Lemma jsonPoint_pointObject p : jsonPoint (pointObject p) = p.
Proof. destruct p. reflexivity. Qed.

Lemma map_jsonPoint_pointObject pts : map jsonPoint (map pointObject pts) = pts.
Proof.
  induction pts as [|p r IH]; [reflexivity|].
  cbn [map]. rewrite jsonPoint_pointObject, IH. reflexivity.
Qed.

(** What the loader reads from the object the saver wrote. *)
Lemma parseCamera_cameraObject numberText toInt intText c :
  parseCamera numberText (cameraObject toInt intText c)
  = mkConfig (cfg_id c) (cfg_name c) (cfg_type c)
             (match toInt (cfg_source c) with
              | Some n => intText n
              | None => cfg_source c
              end)
             (cfg_enabled c) (cfg_roiPoints c) (cfg_tripwireStart c) (cfg_tripwireEnd c)
             (negb (Nat.eqb (List.length (cfg_roiPoints c)) 0))
             (tripwireCounts (cfg_tripwireStart c) (cfg_tripwireEnd c)).
Proof.
  unfold cameraObject, parseCamera.
  destruct (toInt (cfg_source c)) as [n|];
    cbv beta iota zeta
        delta [setMember member contains String.eqb Ascii.eqb Bool.eqb toObject toString
               toBool toArray variantToString andb orb];
    rewrite map_jsonPoint_pointObject, !jsonPoint_pointObject; reflexivity.
Qed.

Lemma loadCameras_from numberText values : forall configs,
  (List.length configs < 4)%nat ->
  loadCameras numberText values configs
  = (configs ++ map (parseCamera numberText)
                    (firstn (4 - List.length configs) values))%list.
Proof.
  induction values as [|v rest IH]; intros configs Hlen.
  - cbn [loadCameras]. rewrite firstn_nil. cbn [map]. rewrite app_nil_r. reflexivity.
  - cbn [loadCameras].
    destruct (4 - List.length configs)%nat as [|k] eqn:Ek; [lia|].
    cbn [firstn map].
    destruct (4 <=? List.length (configs ++ [parseCamera numberText v]))%nat eqn:E.
    + apply Nat.leb_le in E. rewrite length_app in E. cbn [List.length] in E.
      assert (k = 0)%nat by lia. subst k. cbn [firstn map]. reflexivity.
    + apply Nat.leb_gt in E. rewrite length_app in E. cbn [List.length] in E.
      rewrite IH by (rewrite length_app; cbn [List.length]; lia).
      rewrite length_app. cbn [List.length].
      replace (4 - (List.length configs + 1))%nat with k by lia.
      rewrite <- app_assoc. reflexivity.
Qed.

(** The loader on what the saver wrote for a list of configurations. *)
Lemma load_saved numberText toInt intText configs old :
  (List.length configs <= 4)%nat ->
  loadConfiguration numberText
    (FileContent
       (DocObject (setMember "cameras"
                     (JArray (map (cameraObject toInt intText) configs)) [])))
    old
  = (negb (Nat.eqb (List.length configs) 0),
     map (fun c => parseCamera numberText (cameraObject toInt intText c)) configs).
Proof.
  intros Hlen. unfold loadConfiguration.
  change (toArray (member "cameras"
            (setMember "cameras" (JArray (map (cameraObject toInt intText) configs)) [])))
    with (map (cameraObject toInt intText) configs).
  rewrite loadCameras_from by (cbn; lia). cbn [List.length app].
  rewrite firstn_all2 by (rewrite length_map; cbn; lia).
  rewrite map_map, length_map. reflexivity.
Qed.

Lemma storable_reads_back numberText toInt intText c :
  storable toInt intText c ->
  parseCamera numberText (cameraObject toInt intText c) = c.
Proof.
  intros (H1 & H2 & H3). rewrite parseCamera_cameraObject, <- H1, <- H2.
  destruct (toInt (cfg_source c)) as [n|]; [rewrite H3|]; destruct c; reflexivity.
Qed.

Lemma saved_storable_loads_back numberText toInt intText openOk configs old :
  configs <> [] -> (List.length configs <= 4)%nat ->
  Forall (storable toInt intText) configs ->
  fst (saveConfiguration toInt intText openOk configs) = true ->
  exists doc,
    snd (saveConfiguration toInt intText openOk configs) = Some doc
    /\ loadConfiguration numberText (FileContent doc) old = (true, configs).
Proof.
  intros Hne Hlen Hall. unfold saveConfiguration.
  destruct (negb openOk); [discriminate|]. intros _. cbn [fst snd].
  eexists. split; [reflexivity|].
  rewrite load_saved by exact Hlen. f_equal.
  - destruct configs; [contradiction|reflexivity].
  - clear Hne Hlen. induction Hall as [|c r Hc _ IH]; [reflexivity|].
    cbn [map]. rewrite storable_reads_back by exact Hc. rewrite IH. reflexivity.
Qed.

(** X20.  Saving and loading are inverse on storable configurations: when
    between one and four configurations are held, each with flags that
    agree with its points and a source that is no integer or printed the
    way Qt prints it, [loadConfiguration] on the document
    [saveConfiguration] wrote succeeds and answers the same
    configurations. *)
Theorem save_then_load_round_trip (numberText : Q -> string)
  (toInt : string -> option Z) (intText : Z -> string) (openOk : bool)
  (configs old : list CameraConfig) :
  configs <> [] -> (List.length configs <= 4)%nat ->
  Forall (storable toInt intText) configs ->
  fst (saveConfiguration toInt intText openOk configs) = true ->
  exists doc,
    snd (saveConfiguration toInt intText openOk configs) = Some doc
    /\ loadConfiguration numberText (FileContent doc) old = (true, configs).
Proof. apply saved_storable_loads_back. Qed.

Lemma save_then_load_round_trip_witness :
  exists doc,
    snd (saveConfiguration deviceToInt deviceText true [frontDoor; garage]) = Some doc
    /\ loadConfiguration plainNumber (FileContent doc) [] = (true, [frontDoor; garage]).
Proof.
  apply (save_then_load_round_trip plainNumber deviceToInt deviceText true
           [frontDoor; garage] []).
  - discriminate.
  - cbn. lia.
  - constructor; [repeat split|constructor; [repeat split|constructor]].
  - reflexivity.
Defined.

(** ** Edits *)

Lemma configAt_Some index configs c :
  Manager.configAt index configs = Some c ->
  validIndex (index - 1) configs = true
  /\ nth_error configs (Z.to_nat (index - 1)) = Some c.
Proof.
  unfold Manager.configAt. fold (validIndex (index - 1) configs).
  destruct (validIndex (index - 1) configs); [auto|discriminate].
Qed.

Lemma setConfigAt_spec index configs c c' :
  Manager.configAt index configs = Some c ->
  exists a b, configs = (a ++ c :: b)%list
              /\ Z.of_nat (List.length a) = (index - 1)%Z
              /\ Manager.setConfigAt index c' configs = (a ++ c' :: b)%list.
Proof.
  intros H. apply configAt_Some in H as [Hv Hnth].
  destruct (valid_split (index - 1) configs Hv) as (a & x & b & Hm & Hnth' & Ha & Hb).
  rewrite Hnth in Hnth'. inversion Hnth'; subst x.
  exists a, b. split; [exact Hm|]. split.
  - apply validIndex_iff in Hv. rewrite <- Ha, length_firstn. lia.
  - unfold Manager.setConfigAt. rewrite Ha, Hb. reflexivity.
Qed.

Lemma configAt_set index configs c c' j :
  Manager.configAt index configs = Some c ->
  Manager.configAt j (Manager.setConfigAt index c' configs)
  = if (j =? index)%Z then Some c' else Manager.configAt j configs.
Proof.
  intros H. destruct (setConfigAt_spec index configs c c' H) as (a & b & -> & Hlen & ->).
  unfold Manager.configAt. rewrite !length_app. cbn [List.length].
  destruct ((0 <=? j - 1)%Z && (j - 1 <? Z.of_nat (List.length a + S (List.length b)))%Z)
    eqn:Ev.
  - apply andb_true_iff in Ev as [E1 E2]. apply Z.leb_le in E1.
    destruct (j =? index)%Z eqn:Ej.
    + apply Z.eqb_eq in Ej. subst j.
      replace (Z.to_nat (index - 1)) with (List.length a) by lia.
      rewrite nth_error_app2, Nat.sub_diag by lia. reflexivity.
    + apply Z.eqb_neq in Ej. apply nth_error_middle. lia.
  - destruct (j =? index)%Z eqn:Ej; [|reflexivity].
    apply Z.eqb_eq in Ej. subst j. exfalso.
    apply andb_false_iff in Ev as [Ev|Ev];
      [apply Z.leb_gt in Ev|apply Z.ltb_ge in Ev]; lia.
Qed.

Lemma setConfigAt_keeps (P : CameraConfig -> Prop) index configs c c' :
  Manager.configAt index configs = Some c ->
  List.length (Manager.setConfigAt index c' configs) = List.length configs
  /\ (Forall P configs -> P c' -> Forall P (Manager.setConfigAt index c' configs)).
Proof.
  intros H. destruct (setConfigAt_spec index configs c c' H) as (a & b & -> & Hlen & ->).
  split; [rewrite !length_app; reflexivity|].
  intros Hall Hc. apply Forall_app in Hall as [H1 H2]. inversion H2; subst.
  apply Forall_app. split; [exact H1|]. constructor; assumption.
Qed.

(** What every edit does: outside the configured cameras nothing at all;
    otherwise the configuration at the index is replaced, the others are
    kept, the stream of the slot is told when there is one, and the
    configurations are saved. *)
Lemma editConfig_spec toInt intText openOk index change call mgr :
  (Manager.configAt index (m_configs mgr) = None ->
   Manager.editConfig toInt intText openOk index change call mgr
   = Manager.mkOutcome mgr None None)
  /\ (forall c, Manager.configAt index (m_configs mgr) = Some c ->
      let out := Manager.editConfig toInt intText openOk index change call mgr in
      (forall j, Manager.configAt j (m_configs (Manager.out_manager out))
                 = if (j =? index)%Z then Some (change c)
                   else Manager.configAt j (m_configs mgr))
      /\ m_cameras (Manager.out_manager out) = m_cameras mgr
      /\ Manager.out_streamCall out
         = (if Manager.cameraAvailable index mgr then Some (call (change c)) else None)
      /\ Manager.out_saved out
         = snd (saveConfiguration toInt intText openOk
                  (m_configs (Manager.out_manager out)))
      /\ List.length (m_configs (Manager.out_manager out)) = List.length (m_configs mgr)
      /\ (forall P : CameraConfig -> Prop,
            Forall P (m_configs mgr) -> P (change c) ->
            Forall P (m_configs (Manager.out_manager out)))).
Proof.
  unfold Manager.editConfig. split.
  - intros ->. reflexivity.
  - intros c Hc. rewrite Hc. cbv zeta.
    cbn [Manager.out_manager Manager.out_streamCall Manager.out_saved m_configs m_cameras].
    split; [intros j; apply (configAt_set index (m_configs mgr) c), Hc|].
    split; [reflexivity|].
    split; [reflexivity|]. split; [reflexivity|].
    destruct (setConfigAt_keeps (fun _ => True) index (m_configs mgr) c (change c) Hc)
      as [Hlen _].
    split; [exact Hlen|]. intros P Hall HP.
    apply (setConfigAt_keeps P index (m_configs mgr) c (change c) Hc); assumption.
Qed.

Lemma edit_is_saved numberText toInt intText index change call mgr c old :
  Manager.configAt index (m_configs mgr) = Some c ->
  (List.length (m_configs mgr) <= 4)%nat ->
  Forall (storable toInt intText) (m_configs mgr) ->
  storable toInt intText (change c) ->
  exists doc,
    Manager.out_saved (Manager.editConfig toInt intText true index change call mgr)
    = Some doc
    /\ loadConfiguration numberText (FileContent doc) old
       = (true, m_configs (Manager.out_manager
                             (Manager.editConfig toInt intText true index change call
                                mgr))).
Proof.
  intros Hc Hlen Hall Hst.
  destruct (editConfig_spec toInt intText true index change call mgr) as [_ H].
  destruct (H c Hc) as (_ & _ & _ & Hsaved & Hlen' & Hkeep). cbv zeta in *.
  rewrite Hsaved. apply saved_storable_loads_back.
  - intros Hnil. rewrite Hnil in Hlen'. cbn in Hlen'.
    apply configAt_Some in Hc as [Hv _]. apply validIndex_iff in Hv. lia.
  - lia.
  - apply Hkeep; assumption.
  - reflexivity.
Qed.

(** X21.  Editing the ROI of a camera.  For an index outside the
    configured cameras [setRoi] changes nothing, tells no stream and saves
    nothing.  Otherwise the camera answers the new points and has a ROI
    exactly when there is at least one point, every other camera is as
    before, the stream of the slot, when there is one, is handed the
    points, and with storable configurations the document saved loads back
    to what the manager holds: the ROI survives a restart.  [clearRoi]
    leaves no points and no ROI. *)
Theorem roi_edit_is_kept_and_saved (numberText : Q -> string)
  (toInt : string -> option Z) (intText : Z -> string) (openOk : bool) (index : Z)
  (points : list QPointF) (mgr : CameraManager) :
  (Manager.configAt index (m_configs mgr) = None ->
   Manager.setRoi toInt intText openOk index points mgr = Manager.mkOutcome mgr None None)
  /\ (forall c, Manager.configAt index (m_configs mgr) = Some c ->
      let out := Manager.setRoi toInt intText openOk index points mgr in
      let cleared := Manager.clearRoi toInt intText openOk index mgr in
      Manager.roiPoints index (Manager.out_manager out) = points
      /\ Manager.hasRoi index (Manager.out_manager out)
         = negb (Nat.eqb (List.length points) 0)
      /\ (forall j, j <> index ->
            Manager.configAt j (m_configs (Manager.out_manager out))
            = Manager.configAt j (m_configs mgr))
      /\ Manager.out_streamCall out
         = (if Manager.cameraAvailable index mgr then Some (SetRoiPolygon points)
            else None)
      /\ Manager.roiPoints index (Manager.out_manager cleared) = []
      /\ Manager.hasRoi index (Manager.out_manager cleared) = false
      /\ (openOk = true -> (List.length (m_configs mgr) <= 4)%nat ->
          Forall (storable toInt intText) (m_configs mgr) ->
          exists doc,
            Manager.out_saved out = Some doc
            /\ loadConfiguration numberText (FileContent doc) []
               = (true, m_configs (Manager.out_manager out)))).
Proof.
  split; [apply editConfig_spec|].
  intros c Hc out cleared.
  destruct (editConfig_spec toInt intText openOk index
              (fun c => mkConfig (cfg_id c) (cfg_name c) (cfg_type c) (cfg_source c)
                          (cfg_enabled c) points (cfg_tripwireStart c)
                          (cfg_tripwireEnd c)
                          (negb (Nat.eqb (List.length points) 0)) (cfg_hasTripwire c))
              (fun c => SetRoiPolygon (cfg_roiPoints c)) mgr) as [_ H].
  destruct (H c Hc) as (Hget & _ & Hcall & _). cbv zeta in Hget, Hcall.
  fold (Manager.setRoi toInt intText openOk index points mgr) in Hget, Hcall.
  fold out in Hget, Hcall.
  destruct (editConfig_spec toInt intText openOk index
              (fun c => mkConfig (cfg_id c) (cfg_name c) (cfg_type c) (cfg_source c)
                          (cfg_enabled c) [] (cfg_tripwireStart c) (cfg_tripwireEnd c)
                          false (cfg_hasTripwire c))
              (fun _ => ClearRoi) mgr) as [_ H'].
  destruct (H' c Hc) as (Hget' & _). cbv zeta in Hget'.
  fold (Manager.clearRoi toInt intText openOk index mgr) in Hget'. fold cleared in Hget'.
  unfold Manager.roiPoints, Manager.hasRoi.
  rewrite (Hget index), (Hget' index), Z.eqb_refl. cbn [cfg_roiPoints cfg_hasRoi].
  split; [reflexivity|]. split; [reflexivity|]. split.
  { intros j Hj. rewrite (Hget j).
    replace (j =? index)%Z with false by (symmetry; apply Z.eqb_neq, Hj). reflexivity. }
  split; [exact Hcall|]. split; [reflexivity|]. split; [reflexivity|].
  intros -> Hlen Hall. subst out. unfold Manager.setRoi.
  apply (edit_is_saved numberText toInt intText index _ _ mgr c []); try assumption.
  assert (Hst : storable toInt intText c).
  { apply configAt_Some in Hc as [_ Hnth]. rewrite Forall_forall in Hall.
    apply Hall. eapply nth_error_In, Hnth. }
  destruct Hst as (_ & S2 & S3). unfold storable. cbn. auto.
Qed.

Lemma roi_edit_is_kept_and_saved_witness :
  Manager.roiPoints 2
    (Manager.out_manager
       (Manager.setRoi deviceToInt deviceText true 2 (m_roiNorm squareRoi) twoCameras))
  = m_roiNorm squareRoi
  /\ Manager.out_streamCall
       (Manager.setRoi deviceToInt deviceText true 2 (m_roiNorm squareRoi) twoCameras)
     = None
  /\ Manager.setRoi deviceToInt deviceText true 3 (m_roiNorm squareRoi) twoCameras
     = Manager.mkOutcome twoCameras None None.
Proof.
  destruct (roi_edit_is_kept_and_saved plainNumber deviceToInt deviceText true 2
              (m_roiNorm squareRoi) twoCameras) as [_ H].
  destruct (H garage eq_refl) as (H1 & _ & _ & H4 & _).
  split; [exact H1|]. split; [exact H4|].
  apply (roi_edit_is_kept_and_saved plainNumber deviceToInt deviceText true 3
           (m_roiNorm squareRoi) twoCameras). reflexivity.
Defined.

Lemma configAt_map (f : CameraConfig -> CameraConfig) j configs :
  Manager.configAt j (map f configs) = option_map f (Manager.configAt j configs).
Proof.
  unfold Manager.configAt. rewrite length_map.
  destruct ((0 <=? j - 1)%Z && (j - 1 <? Z.of_nat (List.length configs))%Z);
    [|reflexivity].
  rewrite nth_error_map. reflexivity.
Qed.

(** X22.  Editing the tripwire of a camera.  For an index outside the
    configured cameras [setTripwire] changes nothing, tells no stream and
    saves nothing.  Otherwise the camera answers the new end points, the
    stream of the slot, when there is one, is handed them, and
    [clearTripwire] leaves no tripwire.  After a restart the tripwire is
    there again exactly when the loader counts its end points: a tripwire
    whose four coordinates are all zero (within 1e-12) is held until then
    and gone afterwards. *)
Theorem tripwire_edit_is_kept_and_saved (numberText : Q -> string)
  (toInt : string -> option Z) (intText : Z -> string) (openOk : bool) (index : Z)
  (startX startY endX endY : Q) (mgr : CameraManager) :
  (Manager.configAt index (m_configs mgr) = None ->
   Manager.setTripwire toInt intText openOk index startX startY endX endY mgr
   = Manager.mkOutcome mgr None None)
  /\ (forall c, Manager.configAt index (m_configs mgr) = Some c ->
      let out :=
        Manager.setTripwire toInt intText openOk index startX startY endX endY mgr in
      let cleared := Manager.clearTripwire toInt intText openOk index mgr in
      Manager.tripwire index (Manager.out_manager out)
      = Some (mkPoint startX startY, mkPoint endX endY)
      /\ Manager.out_streamCall out
         = (if Manager.cameraAvailable index mgr
            then Some (SetTripwire (mkPoint startX startY) (mkPoint endX endY))
            else None)
      /\ Manager.tripwire index (Manager.out_manager cleared) = None
      /\ (openOk = true -> (List.length (m_configs mgr) <= 4)%nat ->
          exists doc configs,
            Manager.out_saved out = Some doc
            /\ loadConfiguration numberText (FileContent doc) [] = (true, configs)
            /\ Manager.tripwire index (mkManager configs (m_cameras mgr))
               = (if tripwireCounts (mkPoint startX startY) (mkPoint endX endY)
                  then Some (mkPoint startX startY, mkPoint endX endY)
                  else None))).
Proof.
  split; [apply editConfig_spec|].
  intros c Hc out cleared.
  destruct (editConfig_spec toInt intText openOk index
              (fun c => mkConfig (cfg_id c) (cfg_name c) (cfg_type c) (cfg_source c)
                          (cfg_enabled c) (cfg_roiPoints c) (mkPoint startX startY)
                          (mkPoint endX endY) (cfg_hasRoi c) true)
              (fun c => SetTripwire (cfg_tripwireStart c) (cfg_tripwireEnd c)) mgr)
    as [_ H].
  destruct (H c Hc) as (Hget & _ & Hcall & Hsaved & Hlen' & _).
  cbv zeta in Hget, Hcall, Hsaved, Hlen'.
  fold (Manager.setTripwire toInt intText openOk index startX startY endX endY mgr)
    in Hget, Hcall, Hsaved, Hlen'.
  fold out in Hget, Hcall, Hsaved, Hlen'.
  destruct (editConfig_spec toInt intText openOk index
              (fun c => mkConfig (cfg_id c) (cfg_name c) (cfg_type c) (cfg_source c)
                          (cfg_enabled c) (cfg_roiPoints c) origin origin (cfg_hasRoi c)
                          false)
              (fun _ => ClearTripwire) mgr) as [_ H'].
  destruct (H' c Hc) as (Hget' & _). cbv zeta in Hget'.
  fold (Manager.clearTripwire toInt intText openOk index mgr) in Hget'.
  fold cleared in Hget'.
  unfold Manager.tripwire at 1 2.
  rewrite (Hget index), (Hget' index), Z.eqb_refl.
  cbn [cfg_hasTripwire cfg_tripwireStart cfg_tripwireEnd].
  split; [reflexivity|]. split; [exact Hcall|]. split; [reflexivity|].
  intros Hopen Hlen. rewrite Hsaved. subst openOk. unfold saveConfiguration.
  cbn [negb snd]. eexists. eexists. split; [reflexivity|].
  rewrite load_saved by lia. split.
  - f_equal. destruct (m_configs (Manager.out_manager out)); [|reflexivity].
    cbn in Hlen'. apply configAt_Some in Hc as [Hv _]. apply validIndex_iff in Hv. lia.
  - unfold Manager.tripwire. cbn [m_configs].
    rewrite configAt_map, (Hget index), Z.eqb_refl. cbn [option_map].
    rewrite parseCamera_cameraObject.
    cbn [cfg_hasTripwire cfg_tripwireStart cfg_tripwireEnd]. reflexivity.
Qed.

Lemma tripwire_edit_is_kept_and_saved_witness :
  Manager.tripwire 1
    (Manager.out_manager
       (Manager.setTripwire deviceToInt deviceText true 1 0 0 0 0 twoCameras))
  = Some (origin, origin)
  /\ exists doc configs,
       Manager.out_saved
         (Manager.setTripwire deviceToInt deviceText true 1 0 0 0 0 twoCameras)
       = Some doc
       /\ loadConfiguration plainNumber (FileContent doc) [] = (true, configs)
       /\ Manager.tripwire 1 (mkManager configs (m_cameras twoCameras)) = None.
Proof.
  destruct (tripwire_edit_is_kept_and_saved plainNumber deviceToInt deviceText true 1
              0 0 0 0 twoCameras) as [_ H].
  destruct (H frontDoor eq_refl) as (H1 & _ & _ & H4).
  split; [exact H1|]. apply H4; [reflexivity|cbn; lia].
Defined.

(** ** Slots *)

Lemma configAt_nth index configs c :
  Manager.configAt index configs = Some c
  <-> (1 <= index)%Z /\ nth_error configs (Z.to_nat (index - 1)) = Some c.
Proof.
  unfold Manager.configAt.
  destruct ((0 <=? index - 1)%Z && (index - 1 <? Z.of_nat (List.length configs))%Z)
    eqn:E.
  - apply andb_true_iff in E as [E1 E2]. apply Z.leb_le in E1. split; [|tauto].
    intros H. split; [lia|exact H].
  - split; [discriminate|]. intros [H1 H2]. exfalso.
    assert (Hlt : (Z.to_nat (index - 1) < List.length configs)%nat).
    { apply nth_error_Some. congruence. }
    apply andb_false_iff in E as [E|E];
      [apply Z.leb_gt in E|apply Z.ltb_ge in E]; lia.
Qed.

Lemma nth_error_slots k : (k < 4)%nat -> nth_error [0; 1; 2; 3]%nat k = Some k.
Proof. intros H. destruct k as [|[|[|[|k]]]]; try reflexivity. lia. Qed.

Lemma cameraAvailable_iff detector configs index :
  (List.length configs <= 4)%nat ->
  Manager.cameraAvailable index (mkManager configs (createCameraStreams detector configs))
  = true
  <-> exists c, Manager.configAt index configs = Some c /\ cfg_enabled c = true.
Proof.
  intros Hlen. unfold Manager.cameraAvailable. cbn [m_cameras].
  unfold createCameraStreams. rewrite length_map, nth_error_map. cbn [List.length].
  split.
  - intros H. apply andb_true_iff in H as [Hr H].
    apply andb_true_iff in Hr as [E1 E2]. apply Z.leb_le in E1. apply Z.ltb_lt in E2.
    rewrite nth_error_slots in H by lia. cbn [option_map] in H.
    destruct (nth_error configs (Z.to_nat (index - 1))) as [c|] eqn:En; [|discriminate H].
    destruct (cfg_enabled c) eqn:Ee; [|discriminate H].
    exists c. split; [|exact Ee]. apply configAt_nth. split; [lia|exact En].
  - intros (c & Hc & He). apply configAt_nth in Hc as [H1 Hn].
    assert (Hlt : (Z.to_nat (index - 1) < List.length configs)%nat).
    { apply nth_error_Some. congruence. }
    apply andb_true_iff. split.
    { apply andb_true_iff. split; [apply Z.leb_le|apply Z.ltb_lt]; lia. }
    rewrite nth_error_slots by lia. cbn [option_map]. rewrite Hn, He. reflexivity.
Qed.

Lemma CameraManager_new_configs numberText detector file :
  m_cameras (CameraManager_new numberText detector file)
  = createCameraStreams detector (m_configs (CameraManager_new numberText detector file))
  /\ (1 <= List.length (m_configs (CameraManager_new numberText detector file)) <= 4)%nat
  /\ (forall root,
        file = FileContent (DocObject root) ->
        toArray (member "cameras" root) <> [] ->
        m_configs (CameraManager_new numberText detector file)
        = map (parseCamera numberText) (firstn 4 (toArray (member "cameras" root)))).
Proof.
  unfold CameraManager_new.
  destruct file as [|[| |root]]; cbn [loadConfiguration];
    try (split; [reflexivity|split; [cbn; lia|intros root H; discriminate H]]).
  rewrite loadCameras_from by (cbn; lia). cbn [List.length app Nat.sub].
  destruct (toArray (member "cameras" root)) as [|v rest] eqn:E.
  - cbn. split; [reflexivity|]. split; [lia|].
    intros root' H. inversion H; subst root'. rewrite E. contradiction.
  - assert (Hlen : (1 <= List.length (map (parseCamera numberText) (firstn 4 (v :: rest)))
                    <= 4)%nat).
    { rewrite length_map, length_firstn. cbn [List.length]. lia. }
    destruct (map (parseCamera numberText) (firstn 4 (v :: rest))) as [|c cs] eqn:Em;
      [cbn in Hlen; lia|].
    cbn [List.length Nat.eqb negb m_configs m_cameras].
    split; [reflexivity|]. split; [exact Hlen|].
    intros root' H _. inversion H; subst root'. rewrite E, Em. reflexivity.
Qed.

(** X23.  The manager after its constructor, whatever the configuration
    file holds: between one and four configurations, exactly four slots,
    and a camera is available exactly when a configuration exists for its
    index and is enabled (a disabled camera keeps its slot, empty).  When
    the file lists cameras, the configurations are those of its first four
    entries, in order; later entries are ignored. *)
Theorem manager_holds_first_four_cameras (numberText : Q -> string)
  (detector : option ObjectDetector) (file : ConfigFile) :
  let mgr := CameraManager_new numberText detector file in
  (1 <= List.length (m_configs mgr) <= 4)%nat
  /\ List.length (m_cameras mgr) = 4%nat
  /\ (forall index,
        Manager.cameraAvailable index mgr = true
        <-> exists c, Manager.configAt index (m_configs mgr) = Some c
                      /\ cfg_enabled c = true)
  /\ (forall root,
        file = FileContent (DocObject root) ->
        toArray (member "cameras" root) <> [] ->
        m_configs mgr
        = map (parseCamera numberText) (firstn 4 (toArray (member "cameras" root)))).
Proof.
  cbv zeta.
  destruct (CameraManager_new_configs numberText detector file) as (Hcams & Hlen & Hfour).
  split; [exact Hlen|]. split; [rewrite Hcams; reflexivity|]. split; [|exact Hfour].
  intros index.
  rewrite <- (cameraAvailable_iff detector
                (m_configs (CameraManager_new numberText detector file)) index)
    by lia.
  rewrite <- Hcams. destruct (CameraManager_new numberText detector file). reflexivity.
Qed.

Lemma manager_holds_first_four_cameras_witness :
  m_configs (CameraManager_new plainNumber None (FileContent (DocObject fiveCameras)))
  = [frontDoor; garage; frontDoor; garage]
  /\ Manager.cameraAvailable 1
       (CameraManager_new plainNumber None (FileContent (DocObject fiveCameras))) = true.
Proof.
  destruct (manager_holds_first_four_cameras plainNumber None
              (FileContent (DocObject fiveCameras))) as (_ & _ & Hav & Hfour).
  split.
  - rewrite (Hfour fiveCameras eq_refl); [reflexivity|discriminate].
  - apply Hav. exists frontDoor. split; reflexivity.
Defined.

Local Close Scope string_scope.

(** * HTTP server *)

Local Open Scope string_scope.

(** ** Strings *)

Lemma length_append (a b : string) :
  String.length (a ++ b) = (String.length a + String.length b)%nat.
Proof. induction a as [|c r IH]; [reflexivity|]. cbn. rewrite IH. reflexivity. Qed.

Lemma substring_all (s : string) : String.substring 0 (String.length s) s = s.
Proof. induction s as [|c r IH]; [reflexivity|]. cbn. rewrite IH. reflexivity. Qed.

Lemma substring_head (a b : string) :
  String.substring 0 (String.length a) (a ++ b) = a.
Proof.
  induction a as [|c r IH]; cbn.
  - destruct b; reflexivity.
  - rewrite IH. reflexivity.
Qed.

Lemma substring_skip (p s : string) (n : nat) :
  String.substring (String.length p) n (p ++ s) = String.substring 0 n s.
Proof. induction p as [|c r IH]; [reflexivity|]. cbn. exact IH. Qed.

Lemma endsWith_append (suffix a : string) : Http.endsWith suffix (a ++ suffix) = true.
Proof.
  induction a as [|c r IH].
  - cbn [append]. destruct suffix; cbn [Http.endsWith]; rewrite String.eqb_refl;
      reflexivity.
  - cbn [append Http.endsWith]. rewrite IH. apply orb_true_r.
Qed.

Lemma prefix_append (p x : string) : String.prefix p (p ++ x) = true.
Proof.
  induction p as [|c r IH]; [destruct x; reflexivity|].
  cbn [append String.prefix]. destruct (Ascii.ascii_dec c c) as [_|Hne];
    [exact IH|congruence].
Qed.

(** Between a head and a tail, [mid] finds the middle. *)
Lemma mid_middle (p x s : string) :
  Http.mid (Z.of_nat (String.length p))
           (Z.of_nat (String.length (p ++ x ++ s))
            - Z.of_nat (String.length p) - Z.of_nat (String.length s))
           (p ++ x ++ s)
  = x.
Proof.
  unfold Http.mid. rewrite !length_append.
  replace (Z.of_nat (String.length p + (String.length x + String.length s))
           <? Z.of_nat (String.length p))%Z with false
    by (symmetry; apply Z.ltb_ge; lia).
  replace (Z.of_nat (String.length p + (String.length x + String.length s))
           - Z.of_nat (String.length p) - Z.of_nat (String.length s))%Z
    with (Z.of_nat (String.length x)) by lia.
  replace (Z.of_nat (String.length x) <? 0)%Z with false
    by (symmetry; apply Z.ltb_ge; lia).
  replace (Z.of_nat (String.length p + (String.length x + String.length s))
           - Z.of_nat (String.length p) <? Z.of_nat (String.length x))%Z with false
    by (symmetry; apply Z.ltb_ge; lia).
  cbn [orb]. rewrite !Nat2Z.id, substring_skip. apply substring_head.
Qed.

(** [mid(position)] after a head of that length is the rest. *)
Lemma mid_rest (p x : string) :
  Http.mid (Z.of_nat (String.length p)) (-1) (p ++ x) = x.
Proof.
  unfold Http.mid. rewrite length_append.
  replace (Z.of_nat (String.length p + String.length x) <? Z.of_nat (String.length p))%Z
    with false by (symmetry; apply Z.ltb_ge; lia).
  cbn [Z.ltb Z.compare orb].
  replace (Z.of_nat (String.length p + String.length x) - Z.of_nat (String.length p))%Z
    with (Z.of_nat (String.length x)) by lia.
  rewrite !Nat2Z.id, substring_skip. apply substring_all.
Qed.

(** ** Routes *)

Lemma route_alert_snapshot w sv alertId :
  Http.handleRequest w sv "GET" ("/alerts/" ++ alertId ++ "/snapshot")
  = Http.handleGetAlertSnapshot w sv alertId.
Proof.
  unfold Http.handleRequest.
  change (negb (String.eqb "GET" "GET")) with false. cbv iota.
  change (String.eqb ("/alerts/" ++ alertId ++ "/snapshot") "/ping") with false.
  change (String.eqb ("/alerts/" ++ alertId ++ "/snapshot") "/alerts") with false.
  rewrite prefix_append.
  replace (Http.endsWith "/snapshot" ("/alerts/" ++ alertId ++ "/snapshot")) with true
    by (symmetry; rewrite <- append_assoc; apply endsWith_append).
  cbn [andb]. f_equal.
  apply (mid_middle "/alerts/" alertId "/snapshot").
Qed.

Lemma route_camera_snapshot w sv cameraId :
  Http.handleRequest w sv "GET" ("/cameras/" ++ cameraId ++ "/snapshot")
  = Http.handleGetCameraSnapshot w sv cameraId.
Proof.
  unfold Http.handleRequest.
  change (negb (String.eqb "GET" "GET")) with false. cbv iota.
  change (String.eqb ("/cameras/" ++ cameraId ++ "/snapshot") "/ping") with false.
  change (String.eqb ("/cameras/" ++ cameraId ++ "/snapshot") "/alerts") with false.
  change (String.prefix "/alerts/" ("/cameras/" ++ cameraId ++ "/snapshot")) with false.
  change (String.eqb ("/cameras/" ++ cameraId ++ "/snapshot") "/cameras") with false.
  rewrite prefix_append. cbn [andb].
  replace (Http.endsWith "/snapshot" ("/cameras/" ++ cameraId ++ "/snapshot")) with true
    by (symmetry; rewrite <- append_assoc; apply endsWith_append).
  f_equal.
  apply (mid_middle "/cameras/" cameraId "/snapshot").
Qed.

(** X24.  How a request is routed.  Any method other than GET is answered
    405, whatever the path.  For every id, a GET of the path made of
    /alerts/, the id and /snapshot reaches the alert snapshot handler with
    exactly that id, and likewise under /cameras/ for the camera snapshot
    handler: the id is cut out of the path without loss, whatever
    characters it holds. *)
Theorem request_routing (w : Http.World) (sv : Http.Services)
  (method path id : string) :
  (method <> "GET" ->
   Http.handleRequest w sv method path = Http.sendError 405 "Method Not Allowed")
  /\ Http.handleRequest w sv "GET" ("/alerts/" ++ id ++ "/snapshot")
     = Http.handleGetAlertSnapshot w sv id
  /\ Http.handleRequest w sv "GET" ("/cameras/" ++ id ++ "/snapshot")
     = Http.handleGetCameraSnapshot w sv id.
Proof.
  split; [|split; [apply route_alert_snapshot|apply route_camera_snapshot]].
  intros Hm. unfold Http.handleRequest.
  apply String.eqb_neq in Hm. rewrite Hm. reflexivity.
Qed.

Lemma request_routing_witness :
  Http.statusCode (Http.handleRequest quietWorld liveServices "POST" "/ping") = 405
  /\ Http.handleRequest quietWorld liveServices "GET" "/alerts/a/b c/snapshot"
     = Http.handleGetAlertSnapshot quietWorld liveServices "a/b c".
Proof.
  destruct (request_routing quietWorld liveServices "POST" "/ping" "a/b c")
    as (H1 & H2 & _).
  split; [rewrite H1; [reflexivity|discriminate]|exact H2].
Defined.

(** The two markers may share their slash: the path /alerts/snapshot is
    taken for the snapshot of an alert whose id is snapshot. *)
Example route_shared_slash w sv :
  Http.handleRequest w sv "GET" "/alerts/snapshot"
  = Http.handleGetAlertSnapshot w sv "snapshot".
Proof. reflexivity. Qed.

(** ** Alerts over HTTP *)

Lemma firstn_succ {A : Type} (l : list A) : forall k a,
  nth_error l k = Some a -> firstn (S k) l = (firstn k l ++ [a])%list.
Proof.
  induction l as [|x r IH]; intros k a H; [destruct k; discriminate H|].
  destruct k as [|k].
  - cbn in H. inversion H; subst. reflexivity.
  - cbn [nth_error] in H.
    change (firstn (S (S k)) (x :: r)) with (x :: firstn (S k) r).
    change (firstn (S k) (x :: r)) with (x :: firstn k r).
    rewrite (IH k a H). reflexivity.
Qed.

Lemma alertsBelow_firstn w alerts : forall i,
  (i <= List.length alerts)%nat ->
  Http.alertsBelow w i alerts = map (Http.alertObject w) (rev (firstn i alerts)).
Proof.
  induction i as [|k IH]; intros Hi; [reflexivity|].
  cbn [Http.alertsBelow].
  destruct (nth_error alerts k) as [a|] eqn:E.
  - rewrite (firstn_succ alerts k a E), rev_app_distr. cbn [rev app map].
    rewrite IH by lia. reflexivity.
  - apply nth_error_None in E. lia.
Qed.

(** X25.  The alert list over HTTP is the model's list, newest first: one
    object per alert, in reverse order of insertion, each with the id,
    type and message of its alert, with hasSnapshot telling whether an
    image is held in memory, and with a snapshotPath member exactly when
    the path is not empty. *)
Theorem alerts_are_listed_newest_first (w : Http.World) (alerts : list Alert)
  (manager : option CameraManager) :
  Http.handleGetAlerts w (Http.mkServices (Some alerts) manager)
  = Http.sendJsonResponse 200 (JArray (map (Http.alertObject w) (rev alerts)))
  /\ forall a,
       toString (member "id" (toObject (Http.alertObject w a))) = alert_id a
       /\ toString (member "type" (toObject (Http.alertObject w a))) = alert_type a
       /\ toString (member "message" (toObject (Http.alertObject w a))) = message a
       /\ toBool (member "hasSnapshot" (toObject (Http.alertObject w a))) = hasImage a
       /\ contains "snapshotPath" (toObject (Http.alertObject w a))
          = negb (String.eqb (snapshotPath a) "")
       /\ toString (member "snapshotPath" (toObject (Http.alertObject w a)))
          = snapshotPath a.
Proof.
  split.
  - unfold Http.handleGetAlerts. cbn [Http.m_alertLogModel].
    rewrite alertsBelow_firstn by lia. rewrite firstn_all. reflexivity.
  - intros a. unfold Http.alertObject.
    destruct (String.eqb (snapshotPath a) "") eqn:E.
    + apply String.eqb_eq in E. rewrite E. repeat split.
    + repeat split.
Qed.

Lemma findSnapshotPath_first alertId alerts path :
  Http.findSnapshotPath alertId alerts = Some path ->
  exists before a after,
    alerts = (before ++ a :: after)%list
    /\ alert_id a = alertId /\ snapshotPath a = path
    /\ forall b, In b before -> alert_id b <> alertId.
Proof.
  induction alerts as [|a rest IH]; [discriminate|].
  cbn [Http.findSnapshotPath]. destruct (String.eqb (alert_id a) alertId) eqn:E.
  - intros H. inversion H; subst path. apply String.eqb_eq in E.
    exists [], a, rest. split; [reflexivity|]. split; [exact E|].
    split; [reflexivity|]. intros b [].
  - intros H. destruct (IH H) as (before & a' & after & -> & H1 & H2 & H3).
    exists (a :: before), a', after. split; [reflexivity|]. split; [exact H1|].
    split; [exact H2|]. intros b [<-|Hb]; [apply String.eqb_neq, E|exact (H3 b Hb)].
Qed.

(** X26.  A snapshot of an alert is served from its file only.  The
    answer is 200 exactly when the first alert with the id has a path that
    is not empty and names a file that can be read, and then the body is
    that file; in every other case the answer is 404.  In particular a
    snapshot that is still held in memory only (no path yet) is answered
    404, although the alert list reports it with hasSnapshot. *)
Theorem alert_snapshot_is_served_from_file (w : Http.World) (alerts : list Alert)
  (manager : option CameraManager) (alertId : string) :
  let r := Http.handleGetAlertSnapshot w (Http.mkServices (Some alerts) manager)
             alertId in
  (Http.statusCode r = 200 \/ Http.statusCode r = 404)
  /\ (Http.statusCode r = 200 ->
      exists before a after data,
        alerts = (before ++ a :: after)%list
        /\ (forall b, In b before -> alert_id b <> alertId)
        /\ alert_id a = alertId /\ snapshotPath a <> ""
        /\ Http.fileAt w (snapshotPath a) = Http.Readable data
        /\ Http.body r = Http.ImageBody data)
  /\ (forall before a after,
        alerts = (before ++ a :: after)%list ->
        (forall b, In b before -> alert_id b <> alertId) ->
        alert_id a = alertId -> snapshotPath a = "" ->
        r = Http.sendNotFound "Snapshot not available").
Proof.
  cbv zeta. unfold Http.handleGetAlertSnapshot. cbn [Http.m_alertLogModel].
  split; [|split].
  - destruct (Http.findSnapshotPath alertId alerts) as [path|]; [|right; reflexivity].
    destruct (String.eqb path ""); [right; reflexivity|].
    destruct (Http.fileAt w path); [right|right|left]; reflexivity.
  - destruct (Http.findSnapshotPath alertId alerts) as [path|] eqn:Ef;
      [|intros H; discriminate H].
    destruct (String.eqb path "") eqn:Ep; [intros H; discriminate H|].
    destruct (Http.fileAt w path) as [| |data] eqn:Efile;
      try (intros H; discriminate H).
    intros _. apply findSnapshotPath_first in Ef
      as (before & a & after & Ha & Hid & Hpath & Hbefore).
    exists before, a, after, data. split; [exact Ha|]. split; [exact Hbefore|].
    split; [exact Hid|]. rewrite Hpath. split; [apply String.eqb_neq, Ep|].
    split; [exact Efile|reflexivity].
  - intros before a after -> Hbefore Hid Hpath.
    assert (Hf : Http.findSnapshotPath alertId (before ++ a :: after) = Some "").
    { clear -Hbefore Hid Hpath. induction before as [|b rest IH].
      - cbn [app Http.findSnapshotPath]. rewrite Hid, String.eqb_refl, Hpath.
        reflexivity.
      - cbn [app Http.findSnapshotPath].
        replace (String.eqb (alert_id b) alertId) with false
          by (symmetry; apply String.eqb_neq, Hbefore; left; reflexivity).
        apply IH. intros c Hc. apply Hbefore. right. exact Hc. }
    rewrite Hf. reflexivity.
Qed.

Lemma alert_snapshot_is_served_from_file_witness :
  hasImage (nth 1 threeAlerts sampleAlert) = true
  /\ Http.handleGetAlertSnapshot quietWorld liveServices "20250101120001000"
     = Http.sendNotFound "Snapshot not available".
Proof.
  split; [reflexivity|].
  destruct (alert_snapshot_is_served_from_file quietWorld threeAlerts (Some twoCameras)
              "20250101120001000") as (_ & _ & H).
  apply (H [nth 0 threeAlerts sampleAlert] (nth 1 threeAlerts sampleAlert)
           [nth 2 threeAlerts sampleAlert]).
  - reflexivity.
  - intros b [<-|[]]. discriminate.
  - reflexivity.
  - reflexivity.
Defined.

Lemma findSnapshotPath_middle alertId before x after :
  (forall b, In b before -> alert_id b <> alertId) -> alert_id x = alertId ->
  Http.findSnapshotPath alertId (before ++ x :: after) = Some (snapshotPath x).
Proof.
  intros Hbefore Hid. induction before as [|b rest IH].
  - cbn [app Http.findSnapshotPath]. rewrite Hid, String.eqb_refl. reflexivity.
  - cbn [app Http.findSnapshotPath].
    replace (String.eqb (alert_id b) alertId) with false
      by (symmetry; apply String.eqb_neq, Hbefore; left; reflexivity).
    apply IH. intros c Hc. apply Hbefore. right. exact Hc.
Qed.

(** X27.  A snapshot can be fetched once it was exported.  After
    [exportSnapshotAsPng] succeeded on a row whose id no earlier row
    shares, a GET of /alerts/ID/snapshot with the id of the row answers
    200 with the content of the file written (provided the file can be
    read and its path is not empty).  The content type follows the
    extension of the path: a path ending in .jpg or .jpeg is announced as
    image/jpeg although the file was written as PNG. *)
Theorem exported_snapshot_is_served (w : Http.World) (index : Z) (filePath : string)
  (dirExists mkpathOk saveOk : bool) (alerts : list Alert)
  (manager : option CameraManager) (a : Alert) (data : string) :
  fst (exportSnapshotAsPng index filePath dirExists mkpathOk saveOk alerts) = true ->
  nth_error alerts (Z.to_nat index) = Some a ->
  (forall b, In b (firstn (Z.to_nat index) alerts) -> alert_id b <> alert_id a) ->
  filePath <> "" ->
  Http.fileAt w filePath = Http.Readable data ->
  Http.handleRequest w
    (Http.mkServices
       (Some (snd (exportSnapshotAsPng index filePath dirExists mkpathOk saveOk alerts)))
       manager)
    "GET" ("/alerts/" ++ alert_id a ++ "/snapshot")
  = Http.sendImageResponse data
      (if Http.endsWith ".jpg" filePath || Http.endsWith ".jpeg" filePath
       then "image/jpeg" else "image/png").
Proof.
  intros Hok Hnth Hfirst Hpath Hfile. rewrite route_alert_snapshot.
  unfold exportSnapshotAsPng in *.
  destruct ((index <? 0)%Z || (Z.of_nat (List.length alerts) <=? index)%Z) eqn:E;
    [discriminate Hok|].
  rewrite Hnth in *.
  destruct (negb (hasImage a)); [discriminate Hok|].
  destruct (negb dirExists && negb mkpathOk); [discriminate Hok|].
  destruct (negb saveOk); [discriminate Hok|].
  cbn [snd]. unfold Http.handleGetAlertSnapshot. cbn [Http.m_alertLogModel].
  rewrite (findSnapshotPath_middle (alert_id a) (firstn (Z.to_nat index) alerts)
             (markSaved filePath a) (skipn (S (Z.to_nat index)) alerts) Hfirst eq_refl).
  cbn [markSaved snapshotPath].
  replace (String.eqb filePath "") with false
    by (symmetry; apply String.eqb_neq, Hpath).
  rewrite Hfile. reflexivity.
Qed.

Lemma exported_snapshot_is_served_witness :
  Http.statusCode
    (Http.handleRequest savedWorld
       (Http.mkServices
          (Some (snd (exportSnapshotAsPng 1 "out/door.png" false true true threeAlerts)))
          None)
       "GET" "/alerts/20250101120001000/snapshot") = 200
  /\ Http.statusCode
       (Http.handleRequest savedWorld (Http.mkServices (Some threeAlerts) None)
          "GET" "/alerts/20250101120001000/snapshot") = 404.
Proof.
  split; [|reflexivity].
  change "/alerts/20250101120001000/snapshot"
    with ("/alerts/" ++ alert_id (nth 1 threeAlerts sampleAlert) ++ "/snapshot").
  rewrite (exported_snapshot_is_served savedWorld 1 "out/door.png" false true true
             threeAlerts None (nth 1 threeAlerts sampleAlert) "PNG").
  - reflexivity.
  - reflexivity.
  - reflexivity.
  - intros b [<-|[]]. discriminate.
  - discriminate.
  - reflexivity.
Defined.

(** ** Cameras over HTTP *)

Lemma cameraAvailable_stream index mgr :
  Manager.cameraAvailable index mgr = true -> Http.streamExists index mgr = true.
Proof.
  unfold Manager.cameraAvailable, Http.streamExists. intros H.
  apply andb_true_iff in H as [_ H]. exact H.
Qed.

Lemma cameraSnapshot_of_listed w alerts mgr i :
  (forall n, (0 <= n <= 3)%Z -> Http.toInt w (Http.intText w n) = Some n) ->
  (1 <= i <= 4)%Z -> Manager.cameraAvailable i mgr = true ->
  Http.handleGetCameraSnapshot w (Http.mkServices alerts (Some mgr))
    ("cam" ++ Http.intText w (i - 1))
  = match Http.frameAt w i with
    | Http.NoFrame => Http.sendError 503 "No frame available"
    | Http.EncodeFails => Http.sendError 500 "Failed to encode image"
    | Http.Jpeg imageData => Http.sendImageResponse imageData "image/jpeg"
    end.
Proof.
  intros Hint Hi Hav. unfold Http.handleGetCameraSnapshot. cbn [Http.m_cameraManager].
  rewrite prefix_append. cbn [negb].
  change (Http.mid 3 (-1) ("cam" ++ Http.intText w (i - 1)))
    with (Http.mid (Z.of_nat (String.length "cam")) (-1)
            ("cam" ++ Http.intText w (i - 1))).
  rewrite mid_rest.
  rewrite Hint by lia.
  replace ((i - 1 <? 0)%Z || (3 <? i - 1)%Z) with false.
  - cbv zeta. replace (i - 1 + 1)%Z with i by lia.
    rewrite Hav, (cameraAvailable_stream i mgr Hav). reflexivity.
  - symmetry. apply orb_false_iff. split; apply Z.ltb_ge; lia.
Qed.

(** X28.  Every camera the /cameras route lists can be asked for a
    snapshot under the id it is listed with.  Provided Qt reads back the
    integers 0 to 3 it prints, each entry of the list belongs to an
    available camera with index i between 1 and 4, carries the id cam
    followed by i - 1, and a GET of /cameras/ID/snapshot with that id is
    never answered 404: it answers the current frame of that camera as
    JPEG, or 503 while there is no frame, or 500 when encoding fails. *)
Theorem listed_cameras_answer_snapshots (w : Http.World) (alerts : option (list Alert))
  (mgr : CameraManager) (entry : QJsonValue) :
  (forall n, (0 <= n <= 3)%Z -> Http.toInt w (Http.intText w n) = Some n) ->
  In entry (Http.cameraEntries w mgr) ->
  exists i,
    (1 <= i <= 4)%Z
    /\ Manager.cameraAvailable i mgr = true
    /\ Http.entryId entry = "cam" ++ Http.intText w (i - 1)
    /\ Http.handleRequest w (Http.mkServices alerts (Some mgr)) "GET"
         ("/cameras/" ++ Http.entryId entry ++ "/snapshot")
       = match Http.frameAt w i with
         | Http.NoFrame => Http.sendError 503 "No frame available"
         | Http.EncodeFails => Http.sendError 500 "Failed to encode image"
         | Http.Jpeg imageData => Http.sendImageResponse imageData "image/jpeg"
         end.
Proof.
  intros Hint Hin. unfold Http.cameraEntries in Hin.
  apply in_flat_map in Hin as (i & Hi & Hin).
  destruct (Manager.cameraAvailable i mgr) eqn:Hav; [|destruct Hin].
  destruct Hin as [<-|[]].
  assert (Hrange : (1 <= i <= 4)%Z).
  { cbn in Hi. lia. }
  exists i. split; [exact Hrange|]. split; [exact Hav|].
  assert (Hid : Http.entryId (Http.cameraEntry w mgr i)
                = "cam" ++ Http.intText w (i - 1)) by reflexivity.
  split; [exact Hid|]. rewrite Hid, route_camera_snapshot.
  apply cameraSnapshot_of_listed; assumption.
Qed.

Lemma listed_cameras_answer_snapshots_witness :
  map Http.entryId (Http.cameraEntries quietWorld twoCameras) = ["cam0"]
  /\ Http.statusCode
       (Http.handleRequest quietWorld liveServices "GET" "/cameras/cam0/snapshot") = 503.
Proof.
  split; [reflexivity|].
  destruct (listed_cameras_answer_snapshots quietWorld (Some threeAlerts) twoCameras
              (Http.cameraEntry quietWorld twoCameras 1)) as (i & Hi & _ & Hid & Hr).
  - intros n Hn. assert (H : (n = 0 \/ n = 1 \/ n = 2 \/ n = 3)%Z) by lia.
    destruct H as [->|[->|[->| ->]]]; reflexivity.
  - left. reflexivity.
  - change (Http.entryId (Http.cameraEntry quietWorld twoCameras 1)) with "cam0" in Hr.
    change (Http.mkServices (Some threeAlerts) (Some twoCameras)) with liveServices in Hr.
    change (Http.statusCode
              (Http.handleRequest quietWorld liveServices "GET"
                 ("/cameras/" ++ "cam0" ++ "/snapshot")) = 503).
    rewrite Hr. reflexivity.
Defined.

Local Close Scope string_scope.
